(** * The balance controller of [applications/app_balance.c]

    A shallow embedding of the balance application of the VESC firmware: the
    fault detector, the setpoint shaper, nose angling, torque tilt, turn tilt,
    the PID block with its output saturation, the acceleration ring and the
    reset and configuration routines, followed by the properties of the
    controller that the specification states about them.

    Conventions.
    - A C [float] is an exact rational ([Q]): rounding, infinities and NaN are
      not modelled.  Equality of floats is [Qeq] ([==]).  The one exception
      is the lock timer, a [float] that holds a tick count: there the
      conversion to [float] is written out.
    - [systime_t] is an unsigned 32-bit counter: differences wrap modulo 2^32.
    - The file-scope [static] variables are four typed stores (floats,
      system times, integers, booleans) indexed by the variable's name, plus
      the enumerations, the acceleration ring (an array, indexed by integers)
      and the current biquad.
    - What the tick reads from its collaborators (IMU, motor, ADC) is a
      [Hardware] record.
    - The macros [ST2MS] and [SIGN] come from headers outside this file; the
      development is parametric in them. *)

From Stdlib Require Import ZArith QArith Qabs Qminmax Qround Qpower List Bool
  Lia Lqa.
Import ListNotations.
Local Open Scope Q_scope.

(* ================================================================= *)
(** ** Floats and machine integers *)

Definition Qltb (a b : Q) : bool := if Qlt_le_dec a b then true else false.
Definition Qgtb (a b : Q) : bool := Qltb b a.
Definition Qleb (a b : Q) : bool := negb (Qltb b a).
Definition Qgeb (a b : Q) : bool := negb (Qltb a b).
Definition Qeqb (a b : Q) : bool := if Qeq_dec a b then true else false.
Definition Qneb (a b : Q) : bool := negb (Qeqb a b).

Infix "<?" := Qltb (at level 70, no associativity) : Q_scope.
Infix ">?" := Qgtb (at level 70, no associativity) : Q_scope.
Infix "<=?" := Qleb (at level 70, no associativity) : Q_scope.
Infix ">=?" := Qgeb (at level 70, no associativity) : Q_scope.
Infix "=?" := Qeqb (at level 70, no associativity) : Q_scope.
Infix "!=?" := Qneb (at level 70, no associativity) : Q_scope.

Definition fabsf : Q -> Q := Qabs.
Definition fminf : Q -> Q -> Q := Qmin.
Definition fmaxf : Q -> Q -> Q := Qmax.

(** [(int) x]: conversion of a float to an integer truncates toward zero. *)
Definition Qtrunc (x : Q) : Z := Z.quot (Qnum x) (Zpos (Qden x)).

(** The value of a C comparison used as a number ([1] or [0]). *)
Definition truth (b : bool) : Q := if b then 1 else 0.

(** [a - b] on [systime_t]. *)
Definition st_sub (a b : Z) : Z := ((a - b) mod 2 ^ 32)%Z.

(* ================================================================= *)
(** ** Enumerations *)

Inductive BalanceState : Set :=
| STARTUP
| RUNNING
| RUNNING_TILTBACK_DUTY
| RUNNING_TILTBACK_HIGH_VOLTAGE
| RUNNING_TILTBACK_LOW_VOLTAGE
| FAULT_ANGLE_PITCH
| FAULT_ANGLE_ROLL
| FAULT_SWITCH_HALF
| FAULT_SWITCH_FULL
| FAULT_DUTY
| FAULT_STARTUP
| FAULT_REVERSE.

Inductive SetpointAdjustmentType : Set :=
| CENTERING
| REVERSESTOP
| TILTBACK_NONE
| TILTBACK_DUTY
| TILTBACK_HV
| TILTBACK_LV.

Inductive SwitchState : Set := OFF | HALF | ON.

(** The numeric value of the enumerators, as the C declarations give them. *)
Definition BalanceState_value (st : BalanceState) : Z :=
  match st with
  | STARTUP => 0 | RUNNING => 1 | RUNNING_TILTBACK_DUTY => 2
  | RUNNING_TILTBACK_HIGH_VOLTAGE => 3 | RUNNING_TILTBACK_LOW_VOLTAGE => 4
  | FAULT_ANGLE_PITCH => 6 | FAULT_ANGLE_ROLL => 7 | FAULT_SWITCH_HALF => 8
  | FAULT_SWITCH_FULL => 9 | FAULT_DUTY => 10 | FAULT_STARTUP => 11
  | FAULT_REVERSE => 12
  end%Z.

Definition SetpointAdjustmentType_value (m : SetpointAdjustmentType) : Z :=
  match m with
  | CENTERING => 0 | REVERSESTOP => 1 | TILTBACK_NONE => 2
  | TILTBACK_DUTY => 3 | TILTBACK_HV => 4 | TILTBACK_LV => 5
  end%Z.

Definition is_mode (a b : SetpointAdjustmentType) : bool :=
  (SetpointAdjustmentType_value a =? SetpointAdjustmentType_value b)%Z.

Definition is_switch (a b : SwitchState) : bool :=
  match a, b with
  | OFF, OFF | HALF, HALF | ON, ON => true
  | _, _ => false
  end.

(** The states in which the loop runs the control branch, and the fault
    states. *)
Definition is_running (st : BalanceState) : bool :=
  match st with
  | RUNNING | RUNNING_TILTBACK_DUTY | RUNNING_TILTBACK_HIGH_VOLTAGE
  | RUNNING_TILTBACK_LOW_VOLTAGE => true
  | _ => false
  end.

Definition is_fault (st : BalanceState) : bool :=
  match st with
  | FAULT_ANGLE_PITCH | FAULT_ANGLE_ROLL | FAULT_SWITCH_HALF
  | FAULT_SWITCH_FULL | FAULT_DUTY | FAULT_STARTUP | FAULT_REVERSE => true
  | _ => false
  end.

(* ================================================================= *)
(** ** The file-scope variables *)

(** The [float] variables.  The first block is written by
    [app_balance_configure] only, the second by the control loop. *)
Inductive fvar : Set :=
| startup_step_size | tiltback_duty_step_size | tiltback_hv_step_size
| tiltback_lv_step_size | tiltback_return_step_size
| torquetilt_on_step_size | torquetilt_off_step_size | turntilt_step_size
| tiltback_variable | tiltback_variable_max_erpm | noseangling_step_size
| tt_pid_intensity | tt_strength_uphill | tt_strength_downhill
| integral_tt_impact_uphill | integral_tt_impact_downhill
| mc_current_max | mc_current_min | mc_max_temp_fet
| reverse_stop_step_size | reverse_tolerance
| center_jerk_strength | shedfactor | ttt_brake_ratio
| tuntilt_boost_per_erpm | yaw_aggregate_target | cutback_minspeed
| center_boost_angle | center_boost_kp_adder
| max_brake_amps | max_derivative
| accel_boost_threshold | accel_boost_threshold2 | accel_boost_intensity
| roll_aggregate_threshold
| kp_acc | ki_acc | kd_acc | d_pt1_lowpass_k
| reverse_total_erpm | center_jerk_adder
| acceleration | acceleration_raw | last_erpm
| accel_gap | accel_gap_aggregate | torquetilt_target | sss
| last_yaw_angle | yaw_angle | abs_yaw_change | last_yaw_change
| yaw_change | yaw_aggregate
| pitch_angle | last_pitch_angle | roll_angle | abs_roll_angle
| roll_aggregate
| duty_cycle | abs_duty_cycle | erpm | abs_erpm | motor_current
| adc1 | adc2
| proportional | integral | derivative | last_proportional | pid_value
| setpoint | setpoint_target | setpoint_target_interpolated
| noseangling_interpolated
| torquetilt_filtered_current | torquetilt_interpolated
| turntilt_target | turntilt_interpolated
| kp | ki | kd | d_pt1_lowpass_state
| accelavg
| requested_current.

(** The [systime_t] variables. *)
Inductive tvar : Set :=
| current_time
| fault_angle_pitch_timer | fault_angle_roll_timer | fault_switch_timer
| fault_switch_half_timer | fault_duty_timer | tb_highvoltage_timer
| reverse_timer | softstart_timer.

(** The [int] and [unsigned int] variables. *)
Inductive ivar : Set :=
| accelidx | erpm_sign
| center_stiffness_delay_ms | center_jerk_duration_ms | center_jerk_counter
| start_counter_clicks | start_counter_clicks_max | click_current.

(** The [bool] variables. *)
Inductive bvar : Set :=
| allow_high_speed_full_switch_faults | current_limiting
| use_reverse_stop | use_soft_start
| cutback | cutback_enable.

Definition fvar_eq_dec (a b : fvar) : {a = b} + {a <> b}.
Proof. decide equality. Defined.

Definition tvar_eq_dec (a b : tvar) : {a = b} + {a <> b}.
Proof. decide equality. Defined.

Definition ivar_eq_dec (a b : ivar) : {a = b} + {a <> b}.
Proof. decide equality. Defined.

Definition bvar_eq_dec (a b : bvar) : {a = b} + {a <> b}.
Proof. decide equality. Defined.

(** Assignment to one variable of a store. *)
Definition upd {K V : Type} (eq_dec : forall a b : K, {a = b} + {a <> b})
    (k : K) (v : V) (f : K -> V) : K -> V :=
  fun k' => if eq_dec k k' then v else f k'.

(** [Biquad]: coefficients and the two delay registers. *)
Record Biquad : Type := mkBiquad {
  a0 : Q; a1 : Q; a2 : Q; b1 : Q; b2 : Q; z1 : Q; z2 : Q
}.

(** The fields of [balance_config] that the controller reads.  The delays are
    integers (milliseconds); [multi_esc] holds the persisted lock flag. *)
Module BC.
Record balance_config : Type := mk {
    hertz : Q;
    startup_speed : Q;
    tiltback_duty_speed : Q; tiltback_hv_speed : Q; tiltback_lv_speed : Q;
    tiltback_return_speed : Q;
    torquetilt_on_speed : Q; torquetilt_off_speed : Q;
    turntilt_speed : Q; noseangling_speed : Q;
    brake_current : Q;
    roll_steer_erpm_kp : Q; roll_steer_kp : Q; yaw_current_clamp : Q;
    yaw_kp : Q; yaw_ki : Q; yaw_kd : Q;
    kp : Q; ki : Q; kd : Q;
    booster_angle : Q; booster_ramp : Q; booster_current : Q;
    kd_biquad_lowpass : Q; kd_biquad_highpass : Q;
    kd_pt1_lowpass_frequency : Q; kd_pt1_highpass_frequency : Q;
    torquetilt_strength : Q; torquetilt_start_current : Q;
    torquetilt_angle_limit : Q;
    turntilt_erpm_boost : Q; turntilt_erpm_boost_end : Q;
    turntilt_start_angle : Q; turntilt_strength : Q;
    turntilt_angle_limit : Q; turntilt_start_erpm : Q;
    tiltback_variable : Q; tiltback_variable_max : Q;
    tiltback_constant : Q; tiltback_constant_erpm : Q;
    tiltback_duty : Q; tiltback_duty_angle : Q;
    tiltback_hv : Q; tiltback_hv_angle : Q;
    tiltback_lv : Q; tiltback_lv_angle : Q;
    fault_pitch : Q; fault_roll : Q; fault_duty : Q;
    fault_adc1 : Q; fault_adc2 : Q; fault_adc_half_erpm : Q;
    fault_delay_pitch : Z; fault_delay_roll : Z; fault_delay_duty : Z;
    fault_delay_switch_half : Z; fault_delay_switch_full : Z
  }.
End BC.
Definition balance_config : Type := BC.balance_config.

(** The motor configuration fields read by [app_balance_configure]. *)
Record mc_configuration : Type := mkMC {
  l_current_max : Q;
  l_current_min : Q;
  l_temp_fet_start : Q;
  m_invert_direction : bool
}.

(** What one iteration of the loop reads from its collaborators.  Angles are
    in degrees (the loop converts them on reading), the ADC readings in
    volts. *)
Record Hardware : Type := mkHardware {
  chVTGetSystemTimeX : Z;
  mc_interface_get_tot_current_directional_filtered : Q;
  imu_get_pitch : Q;
  imu_get_roll : Q;
  imu_get_yaw : Q;
  mc_interface_get_duty_cycle_now : Q;
  mc_interface_get_rpm : Q;
  mcpwm_foc_get_smooth_erpm : Q;
  ADC_EXT : Q;
  ADC_EXT2 : Q;
  GET_INPUT_VOLTAGE : Q;
  mc_interface_temp_fet_filtered : Q
}.

(** The controller's variables. *)
Record State : Type := mkState {
  fl : fvar -> Q;
  tm : tvar -> Z;
  nt : ivar -> Z;
  bl : bvar -> bool;
  state : BalanceState;
  setpointAdjustmentType : SetpointAdjustmentType;
  switch_state : SwitchState;
  accelhist : Z -> Q;
  torquetilt_current_biquad : Biquad;
  balance_conf : balance_config
}.

Definition set_fl (x : fvar) (v : Q) (s : State) : State :=
  mkState (upd fvar_eq_dec x v (fl s)) (tm s) (nt s) (bl s) (state s)
    (setpointAdjustmentType s) (switch_state s) (accelhist s)
    (torquetilt_current_biquad s) (balance_conf s).

Definition set_tm (x : tvar) (v : Z) (s : State) : State :=
  mkState (fl s) (upd tvar_eq_dec x v (tm s)) (nt s) (bl s) (state s)
    (setpointAdjustmentType s) (switch_state s) (accelhist s)
    (torquetilt_current_biquad s) (balance_conf s).

Definition set_nt (x : ivar) (v : Z) (s : State) : State :=
  mkState (fl s) (tm s) (upd ivar_eq_dec x v (nt s)) (bl s) (state s)
    (setpointAdjustmentType s) (switch_state s) (accelhist s)
    (torquetilt_current_biquad s) (balance_conf s).

Definition set_bl (x : bvar) (v : bool) (s : State) : State :=
  mkState (fl s) (tm s) (nt s) (upd bvar_eq_dec x v (bl s)) (state s)
    (setpointAdjustmentType s) (switch_state s) (accelhist s)
    (torquetilt_current_biquad s) (balance_conf s).

Definition set_state (v : BalanceState) (s : State) : State :=
  mkState (fl s) (tm s) (nt s) (bl s) v
    (setpointAdjustmentType s) (switch_state s) (accelhist s)
    (torquetilt_current_biquad s) (balance_conf s).

Definition set_setpointAdjustmentType (v : SetpointAdjustmentType)
    (s : State) : State :=
  mkState (fl s) (tm s) (nt s) (bl s) (state s)
    v (switch_state s) (accelhist s)
    (torquetilt_current_biquad s) (balance_conf s).

Definition set_switch_state (v : SwitchState) (s : State) : State :=
  mkState (fl s) (tm s) (nt s) (bl s) (state s)
    (setpointAdjustmentType s) v (accelhist s)
    (torquetilt_current_biquad s) (balance_conf s).

Definition set_accelhist (v : Z -> Q) (s : State) : State :=
  mkState (fl s) (tm s) (nt s) (bl s) (state s)
    (setpointAdjustmentType s) (switch_state s) v
    (torquetilt_current_biquad s) (balance_conf s).

Definition set_torquetilt_current_biquad (v : Biquad) (s : State) : State :=
  mkState (fl s) (tm s) (nt s) (bl s) (state s)
    (setpointAdjustmentType s) (switch_state s) (accelhist s)
    v (balance_conf s).

Definition set_balance_conf (v : balance_config) (s : State) : State :=
  mkState (fl s) (tm s) (nt s) (bl s) (state s)
    (setpointAdjustmentType s) (switch_state s) (accelhist s)
    (torquetilt_current_biquad s) v.

(** [accelhist[i] = v]. *)
Definition array_set (i : Z) (v : Q) (a : Z -> Q) : Z -> Q :=
  upd Z.eq_dec i v a.

(* ================================================================= *)
(** ** Configuration and reset *)

Definition ACCEL_ARRAY_SIZE : Z := 40.
Definition START_GRACE_PERIOD_MS : Z := 100.
Definition START_CENTER_DELAY_MS : Z := 1000.
Definition BOOST_THRESHOLD : Q := 8.
Definition BOOST_THRESHOLD2 : Q := 14.
Definition BOOST_INTENSITY : Q := 0.5.

(** The constant [M_PI] of [math.h]. *)
Definition M_PI : Q := 3.14159265358979323846.

(** [app_balance_configure], in the order of the source and under the
    headings of its comments.  It sets the derived values whose right-hand
    sides are rational expressions of the two configuration structures.  Left
    as they are in the argument state: the loop period and overshoot filter,
    the biquad coefficients (they involve a tangent), the boost override
    read from the radio configuration, the inactivity timeout and the lock
    flag. *)

(** Set calculated values from config: the step sizes. *)
Definition configure_step_sizes (s : State) : State :=
  let conf := balance_conf s in
  let hz := BC.hertz conf in
  let s := set_fl startup_step_size (BC.startup_speed conf / hz) s in
  let s := set_fl tiltback_duty_step_size (BC.tiltback_duty_speed conf / hz) s in
  let s := set_fl tiltback_hv_step_size (BC.tiltback_hv_speed conf / hz) s in
  let s := set_fl tiltback_lv_step_size (BC.tiltback_lv_speed conf / hz) s in
  let s := set_fl tiltback_return_step_size
             (BC.tiltback_return_speed conf / hz) s in
  let s := set_fl torquetilt_on_step_size (BC.torquetilt_on_speed conf / hz) s in
  let s := set_fl torquetilt_off_step_size
             (BC.torquetilt_off_speed conf / hz) s in
  let s := set_fl turntilt_step_size (BC.turntilt_speed conf / hz) s in
  set_fl noseangling_step_size (BC.noseangling_speed conf / hz) s.

(** Feature: stealthy start vs normal start, and reverse stop, both encoded
    in the fractional part of [startup_speed]. *)
Definition configure_start (s : State) : State :=
  let conf := balance_conf s in
  let s := set_nt start_counter_clicks_max 2 s in
  let bc := Qtrunc (BC.brake_current conf) in
  let s := set_nt click_current
             (Qtrunc ((BC.brake_current conf - inject_Z bc) * 100)) s in
  let s := set_nt click_current
             (Qtrunc (fminf (inject_Z (nt s click_current)) 30)) s in
  let s := set_bl use_reverse_stop false s in
  let s := set_fl reverse_tolerance 50000 s in
  let s := set_fl reverse_stop_step_size (100 / BC.hertz conf) s in
  let startup_speed := BC.startup_speed conf in
  let ss := Qtrunc startup_speed in
  let ss_rest := startup_speed - inject_Z ss in
  if (ss_rest >? 0.09) && (ss_rest <? 0.11) then
    set_bl use_reverse_stop true s
  else if (ss_rest >? 0.19) && (ss_rest <? 0.21) then
    set_nt start_counter_clicks_max 0 s
  else if (ss_rest >? 0.29) && (ss_rest <? 0.31) then
    let s := set_nt start_counter_clicks_max 0 s in
    set_bl use_reverse_stop true s
  else s.

(** Feature: soft start. *)
Definition configure_soft_start (s : State) : State :=
  let conf := balance_conf s in
  let s := set_bl use_soft_start (BC.startup_speed conf <? 10) s in
  let s := set_nt center_jerk_duration_ms
             (Qtrunc (BC.roll_steer_erpm_kp conf)) s in
  let s := set_fl center_jerk_strength (BC.yaw_current_clamp conf) s in
  let s := if fl s center_jerk_strength >? 50
           then set_fl center_jerk_strength 0 s else s in
  let s := if fl s center_jerk_strength <? -50
           then set_fl center_jerk_strength 0 s else s in
  if (nt s center_jerk_duration_ms >? 100)%Z
  then set_nt center_jerk_duration_ms 0 s else s.

(** If the full switch delay ends in 1, high speed full switch faults are
    not allowed. *)
Definition configure_switch_faults (s : State) : State :=
  let conf := balance_conf s in
  let fullswitch_delay := Z.quot (BC.fault_delay_switch_full conf) 10 in
  let delay_rest :=
    (BC.fault_delay_switch_full conf - fullswitch_delay * 10)%Z in
  set_bl allow_high_speed_full_switch_faults (negb (delay_rest =? 1)%Z) s.

(** Feature: ATR (the shed factor and its guardrails). *)
Definition configure_atr (s : State) : State :=
  let s := set_fl shedfactor 0.996 s in
  let s := if fl s shedfactor >? 1 then set_fl shedfactor 0.99 s else s in
  if fl s shedfactor <? 0.5 then set_fl shedfactor 0.98 s else s.

(** Feature: turn tilt. *)
Definition configure_turntilt (s : State) : State :=
  let conf := balance_conf s in
  let s := set_fl yaw_aggregate_target (BC.yaw_ki conf) s in
  let s := set_fl tuntilt_boost_per_erpm
             (BC.turntilt_erpm_boost conf / 100
              / BC.turntilt_erpm_boost_end conf) s in
  let s := set_bl cutback_enable true s in
  let s := set_fl cutback_minspeed 2000 s in
  set_fl roll_aggregate_threshold 5000 s.

(** Guardrails for the PID gains. *)
Definition configure_gain_caps (s : State) : State :=
  let conf := balance_conf s in
  let s := set_fl kp_acc (fminf (BC.kp conf) 10) s in
  let s := set_fl ki_acc (fminf (BC.ki conf) 0.01) s in
  set_fl kd_acc (fminf (BC.kd conf) 1500) s.

(** How much torque tilt stiffens the gains; the torque tilt strength; the
    impact of torque tilt on the integral. *)
Definition configure_torque_response (s : State) : State :=
  let conf := balance_conf s in
  let s := set_fl tt_pid_intensity (BC.booster_current conf) s in
  let s := set_fl tt_pid_intensity (fminf (fl s tt_pid_intensity) 1.5) s in
  let s := set_fl tt_pid_intensity (fmaxf (fl s tt_pid_intensity) 0) s in
  let s := set_fl tt_strength_uphill (BC.torquetilt_strength conf * 10) s in
  let s := if fl s tt_strength_uphill >? 2.5
           then set_fl tt_strength_uphill 1.5 s else s in
  let s := if fl s tt_strength_uphill <? 0
           then set_fl tt_strength_uphill 0 s else s in
  let s := set_fl tt_strength_downhill
             (fl s tt_strength_uphill * (1 + BC.yaw_kp conf / 100)) s in
  let s := set_fl integral_tt_impact_downhill
             (1 - BC.kd_biquad_lowpass conf / 100) s in
  let s := set_fl integral_tt_impact_uphill
             (1 - BC.kd_biquad_highpass conf / 100) s in
  let s := set_fl integral_tt_impact_downhill
             (fminf (fl s integral_tt_impact_downhill) 1) s in
  let s := set_fl integral_tt_impact_downhill
             (fmaxf (fl s integral_tt_impact_downhill) 0) s in
  let s := set_fl integral_tt_impact_uphill
             (fminf (fl s integral_tt_impact_uphill) 1) s in
  set_fl integral_tt_impact_uphill
    (fmaxf (fl s integral_tt_impact_uphill) 0) s.

(** Feature: PID toning, boost, and the brake and derivative limits. *)
Definition configure_pid_toning (mc : mc_configuration) (s : State) : State :=
  let conf := balance_conf s in
  let s := set_fl center_boost_angle (BC.booster_angle conf) s in
  let s := set_fl center_boost_kp_adder
             (BC.booster_ramp conf / 3.5 * fl s kp_acc - fl s kp_acc) s in
  let s := if fl s center_boost_kp_adder <? 0
           then set_fl center_boost_kp_adder 1 s else s in
  let s := if fl s center_boost_angle >? 3
           then set_fl center_boost_angle 1 s else s in
  let s := set_fl center_boost_kp_adder
             (fminf (fl s center_boost_kp_adder) 7) s in
  let s := set_fl accel_boost_threshold BOOST_THRESHOLD s in
  let s := set_fl accel_boost_threshold2 BOOST_THRESHOLD2 s in
  let s := set_fl accel_boost_intensity BOOST_INTENSITY s in
  let s := set_fl max_brake_amps (BC.roll_steer_kp conf) s in
  let s := if fl s max_brake_amps <? 10
           then set_fl max_brake_amps (l_current_max mc / 2) s else s in
  let mb := Qtrunc (fl s max_brake_amps) in
  let s := set_fl max_derivative
             (100 * (fl s max_brake_amps - inject_Z mb)) s in
  if fl s max_derivative <? 10
  then set_fl max_derivative (l_current_max mc / 2) s else s.

(** Init filters: the cutoff of the PT1 low-pass of the D term, limited to
    1..30 with a default of 10. *)
Definition dt_filter_freq (kd_pt1_lowpass_frequency : Q) : Q :=
  let dt_filter_freq := 10 in
  let dt_filter_freq :=
    if kd_pt1_lowpass_frequency >=? 1 then kd_pt1_lowpass_frequency
    else dt_filter_freq in
  if dt_filter_freq >? 30 then 10 else dt_filter_freq.

(** Init filters: the constant of the PT1 low-pass of the D term.  The
    quotients are those of [Q]; with a positive loop rate no divisor is
    zero. *)
Definition configure_d_pt1 (s : State) : State :=
  let conf := balance_conf s in
  let dT := 1 / BC.hertz conf in
  let RC :=
    1 / (2 * M_PI * dt_filter_freq (BC.kd_pt1_lowpass_frequency conf)) in
  set_fl d_pt1_lowpass_k (dT / (RC + dT)) s.

(** Lingering nose tilt after braking, variable nose angle, and the limits
    taken from the motor configuration. *)
Definition configure_limits (mc : mc_configuration) (s : State) : State :=
  let conf := balance_conf s in
  let s := set_fl ttt_brake_ratio (BC.kd_pt1_highpass_frequency conf) s in
  let s := set_fl ttt_brake_ratio (fminf (fl s ttt_brake_ratio) 20) s in
  let s := set_fl ttt_brake_ratio (fmaxf (fl s ttt_brake_ratio) 1) s in
  let s := set_fl ttt_brake_ratio ((21 - fl s ttt_brake_ratio) / 4) s in
  let s := set_fl tiltback_variable (BC.tiltback_variable conf / 1000) s in
  let s :=
    if fl s tiltback_variable >? 0 then
      set_fl tiltback_variable_max_erpm
        (fabsf (BC.tiltback_variable_max conf / fl s tiltback_variable)) s
    else set_fl tiltback_variable_max_erpm 100000 s in
  let s := set_nt erpm_sign (if m_invert_direction mc then -1 else 1)%Z s in
  let s := set_fl mc_current_max (l_current_max mc) s in
  let s := set_fl mc_current_min (l_current_min mc) s in
  set_fl mc_max_temp_fet (l_temp_fet_start mc - 2) s.

Definition app_balance_configure (conf : balance_config)
    (mc : mc_configuration) (s : State) : State :=
  let s := set_balance_conf conf s in
  let s := configure_step_sizes s in
  let s := configure_start s in
  let s := configure_soft_start s in
  let s := configure_switch_faults s in
  let s := configure_atr s in
  let s := configure_turntilt s in
  let s := configure_gain_caps s in
  let s := configure_torque_response s in
  let s := configure_d_pt1 s in
  let s := configure_pid_toning mc s in
  configure_limits mc s.

(** [biquad_reset]. *)
Definition biquad_reset (b : Biquad) : Biquad :=
  mkBiquad (a0 b) (a1 b) (a2 b) (b1 b) (b2 b) 0 0.

(** [biquad_process]: the new filter state and the output. *)
Definition biquad_process (b : Biquad) (inp : Q) : Biquad * Q :=
  let out := inp * a0 b + z1 b in
  let z1' := inp * a1 b + z2 b - b1 b * out in
  let z2' := inp * a2 b - b2 b * out in
  (mkBiquad (a0 b) (a1 b) (a2 b) (b1 b) (b2 b) z1' z2', out).

(** [reset_vars].  The loop timing variables, the brake timeout and the
    unused acceleration biquad are not part of the model. *)
Definition reset_vars (s : State) : State :=
  let s := set_fl integral 0 s in
  let s := set_fl last_proportional 0 s in
  let s := set_fl d_pt1_lowpass_state 0 s in
  let s := set_fl setpoint (fl s pitch_angle) s in
  let s := set_fl setpoint_target 0 s in
  let s := set_fl noseangling_interpolated 0 s in
  let s := set_fl torquetilt_interpolated 0 s in
  let s := set_fl torquetilt_filtered_current 0 s in
  let s := set_torquetilt_current_biquad
             (biquad_reset (torquetilt_current_biquad s)) s in
  let s := set_fl turntilt_target 0 s in
  let s := set_fl turntilt_interpolated 0 s in
  let s := set_fl last_yaw_change 0 s in
  let s := set_fl last_yaw_angle 0 s in
  let s := set_fl yaw_aggregate 0 s in
  let s := set_fl roll_aggregate 0 s in
  let s := set_bl cutback false s in
  let s := set_setpointAdjustmentType CENTERING s in
  let s := set_state RUNNING s in
  let s := set_tm current_time 0%Z s in
  let s := set_bl current_limiting false s in
  (* ATR *)
  let s := set_fl accel_gap 0 s in
  let s := set_fl pid_value 0 s in
  let s := set_fl accel_gap_aggregate 0 s in
  let s := set_fl sss (-1) s in
  let s := set_accelhist
             (fold_left (fun a i => array_set (Z.of_nat i) 0 a) (seq 0 40)
                (accelhist s)) s in
  let s := set_nt accelidx 0%Z s in
  let s := set_fl accelavg 0 s in
  (* start with a minimal backwards push *)
  let s := set_fl setpoint_target_interpolated (fl s pitch_angle / 2) s in
  let s :=
    if bl s use_soft_start then
      set_fl kd 0 (set_fl ki 0 (set_fl kp 1 s))
    else
      set_fl kd 0 (set_fl ki (fl s ki_acc) (set_fl kp (fl s kp_acc * 0.8) s)) in
  let s := set_nt start_counter_clicks (nt s start_counter_clicks_max) s in
  let s := set_nt center_stiffness_delay_ms START_CENTER_DELAY_MS s in
  let s := set_nt center_jerk_counter 0%Z s in
  let s := set_fl center_jerk_adder 0 s in
  s.

(* ================================================================= *)
(** ** Statements that can leave the function

    [check_faults] returns from the middle of its body.  A command either
    falls through to the next statement or returns a boolean; both carry the
    variables as they are at that point. *)

Inductive flow (A : Type) : Type :=
| Next (a : A)
| Return (b : bool).
Arguments Next {A} a.
Arguments Return {A} b.

Definition cmd (A : Type) : Type := State -> flow A * State.

Definition skip : cmd unit := fun s => (Next tt, s).
Definition return_ {A : Type} (b : bool) : cmd A := fun s => (Return b, s).
Definition get : cmd State := fun s => (Next s, s).
Definition assign (f : State -> State) : cmd unit := fun s => (Next tt, f s).
Definition bind {A B : Type} (c : cmd A) (k : A -> cmd B) : cmd B :=
  fun s =>
    match c s with
    | (Next a, s') => k a s'
    | (Return b, s') => (Return b, s')
    end.

Declare Scope cmd_scope.
Delimit Scope cmd_scope with cmd.
Notation "x <- c ;; k" := (bind c (fun x => k))
  (at level 61, c at next level, right associativity) : cmd_scope.
Notation "c ;; k" := (bind c (fun _ => k))
  (at level 61, right associativity) : cmd_scope.
Local Open Scope cmd_scope.

(** Calling a function with a [bool] result: falling off the end does not
    happen in [check_faults]; it would read as [false]. *)
Definition call (c : cmd unit) (s : State) : bool * State :=
  match c s with
  | (Return b, s') => (b, s')
  | (Next _, s') => (false, s')
  end.

(* ================================================================= *)
(** ** The control loop *)

Section Loop.

(** [ST2MS]: system ticks to milliseconds; [SIGN]: the sign of a float as a
    number. *)
Variable ST2MS : Z -> Z.
Variable SIGN : Q -> Q.

(** *** Head of the loop: the sensor frame *)

(** The values read at the top of an iteration. *)
Definition read_sensors (h : Hardware) (s : State) : State :=
  let s := set_tm current_time (chVTGetSystemTimeX h) s in
  let s := set_fl motor_current
             (mc_interface_get_tot_current_directional_filtered h) s in
  let s := set_fl last_pitch_angle (fl s pitch_angle) s in
  let s := set_fl pitch_angle (imu_get_pitch h) s in
  let s := set_fl roll_angle (imu_get_roll h) s in
  let s := set_fl abs_roll_angle (fabsf (fl s roll_angle)) s in
  let s := set_fl duty_cycle (mc_interface_get_duty_cycle_now h) s in
  let s := set_fl abs_duty_cycle (fabsf (fl s duty_cycle)) s in
  let s := set_fl erpm (mc_interface_get_rpm h) s in
  let s := set_fl abs_erpm (fabsf (fl s erpm)) s in
  s.

(** Turn tilt: the smoothed yaw change and its aggregate. *)
Definition update_yaw (h : Hardware) (s : State) : State :=
  let s := set_fl yaw_angle (imu_get_yaw h) s in
  let new_change := fl s yaw_angle - fl s last_yaw_angle in
  let unchanged := (new_change =? 0) || (fabsf new_change >? 100) in
  let new_change := if unchanged then fl s last_yaw_change else new_change in
  let s := set_fl last_yaw_change new_change s in
  let s := set_fl last_yaw_angle (fl s yaw_angle) s in
  let new_change := fminf new_change 0.10 in
  let new_change := fmaxf new_change (-0.10) in
  let s := set_fl yaw_change (fl s yaw_change * 0.8 + 0.2 * new_change) s in
  let s := if SIGN (fl s yaw_change) !=? SIGN (fl s yaw_aggregate)
           then set_fl yaw_aggregate 0 s else s in
  let s := set_fl abs_yaw_change (fabsf (fl s yaw_change)) s in
  let s := if (fl s abs_yaw_change >? 0.04) && negb unchanged
           then set_fl yaw_aggregate (fl s yaw_aggregate + fl s yaw_change) s
           else s in
  s.

(** Cutbacks: the roll aggregate. *)
Definition update_roll_aggregate (s : State) : State :=
  if fl s abs_roll_angle >? 8 then
    set_fl roll_aggregate (fl s roll_aggregate + fl s roll_angle) s
  else
    set_fl roll_aggregate 0 s.

(** The acceleration and its moving average over the ring. *)
Definition update_acceleration (h : Hardware) (s : State) : State :=
  let smooth_erpm := inject_Z (nt s erpm_sign) * mcpwm_foc_get_smooth_erpm h in
  let s := set_fl acceleration_raw (smooth_erpm - fl s last_erpm) s in
  let s := set_fl last_erpm smooth_erpm s in
  let s := set_fl accelavg
             (fl s accelavg
              + (fl s acceleration_raw - accelhist s (nt s accelidx))
                / inject_Z ACCEL_ARRAY_SIZE) s in
  let s := set_accelhist
             (array_set (nt s accelidx) (fl s acceleration_raw) (accelhist s))
             s in
  let s := set_nt accelidx (nt s accelidx + 1)%Z s in
  let s := if (nt s accelidx =? ACCEL_ARRAY_SIZE)%Z
           then set_nt accelidx 0%Z s else s in
  let s := set_fl acceleration (fl s accelavg) s in
  s.

(** [check_adcs]: the switch state from the two pads.  The buzzer calls are
    not part of the model. *)
Definition check_adcs (h : Hardware) (s : State) : SwitchState * State :=
  let s := set_fl adc1 (ADC_EXT h) s in
  let s := set_fl adc2 (ADC_EXT2 h) s in
  let conf := balance_conf s in
  let sw_state :=
    if (BC.fault_adc1 conf =? 0) && (BC.fault_adc2 conf =? 0) then ON
    else if BC.fault_adc2 conf =? 0 then
      if fl s adc1 >? BC.fault_adc1 conf then ON else OFF
    else if BC.fault_adc1 conf =? 0 then
      if fl s adc2 >? BC.fault_adc2 conf then ON else OFF
    else
      if (fl s adc1 >? BC.fault_adc1 conf) && (fl s adc2 >? BC.fault_adc2 conf)
      then ON
      else if (fl s adc1 >? BC.fault_adc1 conf)
              || (fl s adc2 >? BC.fault_adc2 conf)
      then HALF
      else OFF in
  (sw_state, s).

(** Everything the loop does before it dispatches on [state]. *)
Definition read_inputs (h : Hardware) (s : State) : State :=
  let s := read_sensors h s in
  let s := update_yaw h s in
  let s := update_roll_aggregate s in
  let s := update_acceleration h s in
  let (sw, s) := check_adcs h s in
  set_switch_state sw s.

(** *** The fault detector

    [check_faults] is a sequence of six checks, each of which either sets
    [state] to a fault and returns [true], or falls through to the next one
    (possibly after re-arming its timer); after the last one the function
    returns [false]. *)

(** Switch fully open. *)
Definition check_switch_full (ignoreTimers : bool) : cmd unit :=
  s <- get ;;
  let conf := balance_conf s in
  if is_switch (switch_state s) OFF then
    if (ST2MS (st_sub (tm s current_time) (tm s fault_switch_timer))
          >? BC.fault_delay_switch_full conf)%Z
       || ignoreTimers
    then assign (set_state FAULT_SWITCH_FULL) ;; return_ true
    (* low speed (below 4 x half-fault threshold speed) *)
    else if (fl s abs_erpm <? BC.fault_adc_half_erpm conf * 4)
            && (ST2MS (st_sub (tm s current_time) (tm s fault_switch_timer))
                  >? BC.fault_delay_switch_half conf)%Z
    then assign (set_state FAULT_SWITCH_FULL) ;; return_ true
    (* quick stop *)
    else if (fl s abs_erpm <? BC.fault_adc_half_erpm conf)
            && (fabsf (fl s pitch_angle) >? 15)
    then assign (set_state FAULT_SWITCH_FULL) ;; return_ true
    (* above 3k erpm: never produce switch faults *)
    else if (fl s abs_erpm >? 3000)
            && negb (bl s allow_high_speed_full_switch_faults)
    then assign (set_tm fault_switch_timer (tm s current_time))
    else skip
  else assign (set_tm fault_switch_timer (tm s current_time)).

(** Feature: reverse stop. *)
Definition check_reverse_stop : cmd unit :=
  s <- get ;;
  if is_mode (setpointAdjustmentType s) REVERSESTOP then
    (* taking the foot off entirely while reversing: ignore delays *)
    (if is_switch (switch_state s) OFF
     then assign (set_state FAULT_SWITCH_FULL) ;; return_ true
     else skip) ;;
    (if fabsf (fl s pitch_angle) >? 15
     then assign (set_state FAULT_REVERSE) ;; return_ true
     else skip) ;;
    (* above 10 degrees for half a second *)
    (if (fabsf (fl s pitch_angle) >? 10)
        && (ST2MS (st_sub (tm s current_time) (tm s reverse_timer)) >? 500)%Z
     then assign (set_state FAULT_REVERSE) ;; return_ true
     else skip) ;;
    (* above 5 degrees for a full second *)
    (if (fabsf (fl s pitch_angle) >? 5)
        && (ST2MS (st_sub (tm s current_time) (tm s reverse_timer)) >? 1000)%Z
     then assign (set_state FAULT_REVERSE) ;; return_ true
     else skip) ;;
    (if fl s reverse_total_erpm >? fl s reverse_tolerance * 3
     then assign (set_state FAULT_REVERSE) ;; return_ true
     else skip) ;;
    (if fabsf (fl s pitch_angle) <? 5
     then assign (set_tm reverse_timer (tm s current_time))
     else skip)
  else skip.

(** Switch partially open and stopped. *)
Definition check_switch_half (ignoreTimers : bool) : cmd unit :=
  s <- get ;;
  let conf := balance_conf s in
  if (is_switch (switch_state s) HALF || is_switch (switch_state s) OFF)
     && (fl s abs_erpm <? BC.fault_adc_half_erpm conf)
  then
    if (ST2MS (st_sub (tm s current_time) (tm s fault_switch_half_timer))
          >? BC.fault_delay_switch_half conf)%Z
       || ignoreTimers
    then assign (set_state FAULT_SWITCH_HALF) ;; return_ true
    else skip
  else assign (set_tm fault_switch_half_timer (tm s current_time)).

(** Pitch angle. *)
Definition check_pitch (ignoreTimers : bool) : cmd unit :=
  s <- get ;;
  let conf := balance_conf s in
  if fabsf (fl s pitch_angle) >? BC.fault_pitch conf then
    if (ST2MS (st_sub (tm s current_time) (tm s fault_angle_pitch_timer))
          >? BC.fault_delay_pitch conf)%Z
       || ignoreTimers
    then assign (set_state FAULT_ANGLE_PITCH) ;; return_ true
    else skip
  else assign (set_tm fault_angle_pitch_timer (tm s current_time)).

(** Roll angle. *)
Definition check_roll (ignoreTimers : bool) : cmd unit :=
  s <- get ;;
  let conf := balance_conf s in
  if fabsf (fl s roll_angle) >? BC.fault_roll conf then
    if (ST2MS (st_sub (tm s current_time) (tm s fault_angle_roll_timer))
          >? BC.fault_delay_roll conf)%Z
       || ignoreTimers
    then assign (set_state FAULT_ANGLE_ROLL) ;; return_ true
    else skip
  else assign (set_tm fault_angle_roll_timer (tm s current_time)).

(** Duty. *)
Definition check_duty (ignoreTimers : bool) : cmd unit :=
  s <- get ;;
  let conf := balance_conf s in
  if fl s abs_duty_cycle >? BC.fault_duty conf then
    if (ST2MS (st_sub (tm s current_time) (tm s fault_duty_timer))
          >? BC.fault_delay_duty conf)%Z
       || ignoreTimers
    then assign (set_state FAULT_DUTY) ;; return_ true
    else skip
  else assign (set_tm fault_duty_timer (tm s current_time)).

Definition check_faults (ignoreTimers : bool) : cmd unit :=
  check_switch_full ignoreTimers ;;
  check_reverse_stop ;;
  check_switch_half ignoreTimers ;;
  check_pitch ignoreTimers ;;
  check_roll ignoreTimers ;;
  check_duty ignoreTimers ;;
  return_ false.

(** *** The setpoint shaper *)

Definition get_setpoint_adjustment_step_size (s : State) : Q :=
  match setpointAdjustmentType s with
  | CENTERING => fl s startup_step_size
  | TILTBACK_DUTY => fl s tiltback_duty_step_size
  | TILTBACK_HV => fl s tiltback_hv_step_size
  | TILTBACK_LV => fl s tiltback_lv_step_size
  | TILTBACK_NONE => fl s tiltback_return_step_size
  | REVERSESTOP => fl s reverse_stop_step_size
  end.

(** [calculate_setpoint_target].  The input voltage and the FET temperature
    are read from the hardware; the beeps are not part of the model. *)
Definition calculate_setpoint_target (h : Hardware) (s : State) : State :=
  let conf := balance_conf s in
  let s := if GET_INPUT_VOLTAGE h <? BC.tiltback_hv conf
           then set_tm tb_highvoltage_timer (tm s current_time) s else s in
  if is_mode (setpointAdjustmentType s) CENTERING then
    if fl s setpoint_target_interpolated !=? fl s setpoint_target then
      (* ignore tiltback during the centering sequence *)
      let s := set_state RUNNING s in
      set_tm softstart_timer (tm s current_time) s
    else if (ST2MS (st_sub (tm s current_time) (tm s softstart_timer))
               >? START_GRACE_PERIOD_MS)%Z then
      set_setpointAdjustmentType TILTBACK_NONE s
    else if negb (bl s use_soft_start) then
      set_setpointAdjustmentType TILTBACK_NONE s
    else s
  else if is_mode (setpointAdjustmentType s) REVERSESTOP then
    let s := set_fl reverse_total_erpm
               (fl s reverse_total_erpm + fl s erpm) s in
    if fabsf (fl s reverse_total_erpm) >? fl s reverse_tolerance then
      set_fl setpoint_target
        (10 * (fabsf (fl s reverse_total_erpm) - fl s reverse_tolerance)
         / 50000) s
    else if fabsf (fl s reverse_total_erpm) <=? fl s reverse_tolerance / 2 then
      if fl s erpm >=? 0 then
        let s := set_setpointAdjustmentType TILTBACK_NONE s in
        let s := set_fl reverse_total_erpm 0 s in
        let s := set_fl setpoint_target 0 s in
        set_fl integral 0 s
      else s
    else s
  else if fl s abs_duty_cycle >? BC.tiltback_duty conf then
    let s := if fl s erpm >? 0
             then set_fl setpoint_target (BC.tiltback_duty_angle conf) s
             else set_fl setpoint_target (- BC.tiltback_duty_angle conf) s in
    let s := set_setpointAdjustmentType TILTBACK_DUTY s in
    set_state RUNNING_TILTBACK_DUTY s
  else if GET_INPUT_VOLTAGE h >? BC.tiltback_hv conf then
    if (ST2MS (st_sub (tm s current_time) (tm s fault_switch_timer)) >? 500)%Z
       || (GET_INPUT_VOLTAGE h >? BC.tiltback_hv conf + 1)
    then
      let s := if fl s erpm >? 0
               then set_fl setpoint_target (BC.tiltback_hv_angle conf) s
               else set_fl setpoint_target (- BC.tiltback_hv_angle conf) s in
      let s := set_setpointAdjustmentType TILTBACK_HV s in
      set_state RUNNING_TILTBACK_HIGH_VOLTAGE s
    else
      let s := set_setpointAdjustmentType TILTBACK_NONE s in
      set_state RUNNING s
  else if GET_INPUT_VOLTAGE h <? BC.tiltback_lv conf then
    let s := if fl s erpm >? 0
             then set_fl setpoint_target (BC.tiltback_lv_angle conf) s
             else set_fl setpoint_target (- BC.tiltback_lv_angle conf) s in
    let s := set_setpointAdjustmentType TILTBACK_LV s in
    set_state RUNNING_TILTBACK_LOW_VOLTAGE s
  else if mc_interface_temp_fet_filtered h >? fl s mc_max_temp_fet then
    if mc_interface_temp_fet_filtered h >? fl s mc_max_temp_fet + 1 then
      let s := if fl s erpm >? 0
               then set_fl setpoint_target (BC.tiltback_lv_angle conf) s
               else set_fl setpoint_target (- BC.tiltback_lv_angle conf) s in
      let s := set_setpointAdjustmentType TILTBACK_HV s in
      set_state RUNNING_TILTBACK_LOW_VOLTAGE s
    else
      let s := set_setpointAdjustmentType TILTBACK_NONE s in
      set_state RUNNING s
  else
    (* normal running *)
    let s :=
      if bl s use_reverse_stop && (fl s erpm <? 0) then
        let s := set_setpointAdjustmentType REVERSESTOP s in
        let s := set_tm reverse_timer (tm s current_time) s in
        set_fl reverse_total_erpm 0 s
      else set_setpointAdjustmentType TILTBACK_NONE s in
    let s := set_fl setpoint_target 0 s in
    set_state RUNNING s.

Definition calculate_setpoint_interpolated (s : State) : State :=
  if fl s setpoint_target_interpolated !=? fl s setpoint_target then
    (* less than one step size away: go all the way *)
    if fabsf (fl s setpoint_target - fl s setpoint_target_interpolated)
       <? get_setpoint_adjustment_step_size s
    then set_fl setpoint_target_interpolated (fl s setpoint_target) s
    else if fl s setpoint_target - fl s setpoint_target_interpolated >? 0
    then set_fl setpoint_target_interpolated
           (fl s setpoint_target_interpolated
            + get_setpoint_adjustment_step_size s) s
    else set_fl setpoint_target_interpolated
           (fl s setpoint_target_interpolated
            - get_setpoint_adjustment_step_size s) s
  else s.

(** *** Nose angling *)

Definition apply_noseangling (s : State) : State :=
  let conf := balance_conf s in
  let noseangling_target :=
    if (fl s erpm >? 0) && (fl s torquetilt_interpolated <? -1) then 0
    else if (fl s erpm <? 0) && (fl s torquetilt_interpolated >? 1) then 0
    else if fabsf (fl s erpm) >? fl s tiltback_variable_max_erpm then
      fabsf (BC.tiltback_variable_max conf) * SIGN (fl s erpm)
    else fl s tiltback_variable * fl s erpm in
  let noseangling_target :=
    if fl s erpm >? BC.tiltback_constant_erpm conf then
      noseangling_target + BC.tiltback_constant conf
    else if fl s erpm <? - BC.tiltback_constant_erpm conf then
      noseangling_target + - BC.tiltback_constant conf
    else noseangling_target in
  let s :=
    if fabsf (noseangling_target - fl s noseangling_interpolated)
       <? fl s noseangling_step_size
    then set_fl noseangling_interpolated noseangling_target s
    else if noseangling_target - fl s noseangling_interpolated >? 0
    then set_fl noseangling_interpolated
           (fl s noseangling_interpolated + fl s noseangling_step_size) s
    else set_fl noseangling_interpolated
           (fl s noseangling_interpolated - fl s noseangling_step_size) s in
  set_fl setpoint (fl s setpoint + fl s noseangling_interpolated) s.

(** *** Torque tilt (adaptive torque response) *)

(** The measured acceleration that is compared with the expected one: the
    two statements of the source, in their order. *)
Definition torquetilt_measured_acc (s : State) : Q :=
  let measured_acc := fmaxf (fl s acceleration) (-5) in
  let measured_acc := fminf (fl s acceleration) 5 in
  measured_acc.

(** The step size and the debug code [sss] for this iteration. *)
Definition torquetilt_step_size (s : State) (braking static_climb
    cutback_response : bool) : Q * Q :=
  let on_step := fl s torquetilt_on_step_size in
  let off_step := fl s torquetilt_off_step_size in
  let climb (r : Q * Q) (code : Q) : Q * Q :=
    if static_climb then (fst r * 1.5, code) else r in
  if (fl s abs_erpm <? 500) && (fabsf (fl s accel_gap) <? 2) then
    (off_step, 0)
  else if cutback_response then
    if negb braking then (on_step / 2, 28) else (on_step, 18)
  else if fl s erpm >? 0 then
    if fl s torquetilt_interpolated <? 0 then
      (* downhill *)
      if fl s torquetilt_interpolated <? fl s torquetilt_target then
        if (fl s accel_gap >? 1) && (fl s accel_gap_aggregate >? 20) then
          (on_step, 17)
        else if (fl s pitch_angle <? fl s setpoint) && (fl s pid_value >? 0)
                && (fl s accel_gap >? 0.5) then
          (on_step, 11)
        else (off_step, 21)
      else
        if fabsf (fl s accel_gap) <? 0.5 then (off_step, 23)
        else if braking then (on_step / 2, 1)
        else (on_step, 2)
    else
      (* uphill or other heavy resistance *)
      if (fl s torquetilt_target >? -3)
         && (fl s torquetilt_interpolated >? fl s torquetilt_target) then
        if (fl s abs_erpm <? 1000) && (fl s pitch_angle <? 0.5) then
          (off_step, 29)
        else if (fl s abs_erpm <? 2000)
                && (fl s torquetilt_interpolated - fl s torquetilt_target >? 2)
        then (on_step / 3, 4)
        else if (fl s abs_erpm >? 2000) && (fl s torquetilt_target <? 0) then
          (on_step / 2, 19)
        else (off_step, 22)
      else
        climb
          (if fabsf (fl s accel_gap) <? 0.5 then (off_step, 27)
           else if fl s abs_erpm <? 1000 then (on_step / 2, 5)
           else (on_step, 6))
          31
  else
    if fl s torquetilt_interpolated >? 0 then
      (* downhill *)
      if (fl s torquetilt_interpolated >? fl s torquetilt_target)
         && (fl s torquetilt_target >? -3) then
        if (fl s pitch_angle >? fl s setpoint) && (fl s pid_value <? 0)
           && (fl s accel_gap <? 0) then
          (on_step, 12)
        else (off_step, 24)
      else
        if braking then (on_step / 2, 13) else (on_step, 14)
    else
      (* uphill or other heavy resistance *)
      if (fl s torquetilt_target <? 3)
         && (fl s torquetilt_interpolated <? fl s torquetilt_target) then
        if (fl s abs_erpm <? 1000) && (fl s pitch_angle >? -0.5) then
          (off_step, 8)
        else (off_step, 25)
      else
        climb
          (if fl s accel_gap =? 0 then (off_step, 26)
           else if fl s abs_erpm <? 1000 then (on_step / 2, 9)
           else (on_step, 10))
          32.

Definition apply_torquetilt (s : State) : State :=
  let conf := balance_conf s in
  (* skip the torque tilt logic if the strength is 0 *)
  if BC.torquetilt_strength conf =? 0 then s else
  let s := set_fl sss 0 s in
  let (bq, out) :=
    biquad_process (torquetilt_current_biquad s) (fl s motor_current) in
  let s := set_torquetilt_current_biquad bq s in
  let s := set_fl torquetilt_filtered_current out s in
  let torque_sign := Qtrunc (SIGN (fl s torquetilt_filtered_current)) in
  let abs_torque := fabsf (fl s torquetilt_filtered_current) in
  let torque_offset := BC.torquetilt_start_current conf in
  let torquetilt_strength := fl s tt_strength_uphill in
  let accel_factor := BC.yaw_kd conf in
  let accel_factor2 := BC.yaw_kd conf * 1.3 in
  let braking :=
    (fl s abs_erpm >? 250) && (inject_Z torque_sign !=? SIGN (fl s erpm)) in
  (* compare measured acceleration to expected acceleration *)
  let measured_acc := torquetilt_measured_acc s in
  let expected_acc :=
    if abs_torque <? 25 then
      (fl s torquetilt_filtered_current - SIGN (fl s erpm) * torque_offset)
      / accel_factor
    else
      (inject_Z torque_sign * 25 - SIGN (fl s erpm) * torque_offset)
      / accel_factor
      + inject_Z torque_sign * (abs_torque - 25) / accel_factor2 in
  let acc_diff := expected_acc - measured_acc in
  let gap := fl s accel_gap in
  let '(new_gap, static_climb) :=
    if fl s abs_erpm >? 2000 then (0.9 * gap + 0.1 * acc_diff, false)
    else if fl s abs_erpm >? 1000 then (0.95 * gap + 0.05 * acc_diff, false)
    else if fl s abs_erpm >? 250 then (0.98 * gap + 0.02 * acc_diff, false)
    else
      (* low speed: ignore the acceleration unless we try to accelerate *)
      if fabsf expected_acc <? 1 then (0, false)
      else if fabsf expected_acc <? 1.5 then
        if fabsf (truth (gap >? 1)) !=? 0
        then (0.9 * gap + 0.1 * acc_diff, true)
        else (0.99 * gap + 0.01 * acc_diff, false)
      else
        if fabsf (truth (gap >? 1)) !=? 0
        then (0.9 * gap + 0.1 * acc_diff, true)
        else (0.95 * gap + 0.05 * acc_diff, false) in
  let s := set_fl accel_gap new_gap s in
  let s :=
    if SIGN (fl s accel_gap_aggregate) =? SIGN (fl s accel_gap)
    then set_fl accel_gap_aggregate
           (fl s accel_gap_aggregate + fl s accel_gap) s
    else set_fl accel_gap_aggregate 0 s in
  (* the target is based on the gap between expected and actual acceleration *)
  let new_ttt := torquetilt_strength * fl s accel_gap in
  let '(new_ttt, cutback_response) :=
    if bl s cutback && (fl s abs_erpm >? fl s cutback_minspeed) then
      (* cutbacks trump any other action *)
      (if SIGN new_ttt =? SIGN (fl s erpm) then new_ttt / 4
       else new_ttt * 1.5, true)
    else
      (* braking lifts the setpoint too *)
      (if braking && (fl s abs_erpm >? 1000) then
         if SIGN (fl s proportional) !=? SIGN (fl s erpm) then
           let downhill_damper :=
             if ((fl s erpm >? 1000) && (fl s accel_gap <? -1))
                || ((fl s erpm <? -1000) && (fl s accel_gap >? 1))
             then 1 + fabsf (fl s accel_gap) / 2
             else 1 in
           new_ttt
           + (fl s pitch_angle - fl s setpoint) / fl s ttt_brake_ratio
             / downhill_damper
         else new_ttt
       else new_ttt, false) in
  let s := set_fl torquetilt_target
             (fl s torquetilt_target * 0.95 + 0.05 * new_ttt) s in
  let s := set_fl torquetilt_target
             (fminf (fl s torquetilt_target)
                (BC.torquetilt_angle_limit conf)) s in
  let s := set_fl torquetilt_target
             (fmaxf (fl s torquetilt_target)
                (- BC.torquetilt_angle_limit conf)) s in
  let '(step_size, code) :=
    torquetilt_step_size s braking static_climb cutback_response in
  let s := set_fl sss code s in
  let s :=
    if fabsf (fl s torquetilt_target - fl s torquetilt_interpolated)
       <? step_size
    then set_fl torquetilt_interpolated (fl s torquetilt_target) s
    else if fl s torquetilt_target - fl s torquetilt_interpolated >? 0
    then set_fl torquetilt_interpolated
           (fl s torquetilt_interpolated + step_size) s
    else set_fl torquetilt_interpolated
           (fl s torquetilt_interpolated - step_size) s in
  set_fl setpoint (fl s setpoint + fl s torquetilt_interpolated) s.

(** *** Turn tilt *)

(** The quotient [yaw_change * 100 / roll_angle] of the cutback detector:
    [None] when the divisor is zero. *)
Definition checked_div (x y : Q) : option Q :=
  if y =? 0 then None else Some (x / y).

(** The cutback detector of [apply_turntilt]: the new value of [cutback].
    The conjunction is evaluated left to right and stops at the first false
    operand, so the quotient is computed only when the three operands before
    it hold. *)
Definition detect_cutback (s : State) : option bool :=
  let abs_yaw_scaled := fl s abs_yaw_change * 100 in
  let banked_turn := SIGN (fl s yaw_change) =? SIGN (fl s roll_angle) in
  if banked_turn
     && (fabsf (fl s roll_aggregate) >? fl s roll_aggregate_threshold)
     && (abs_yaw_scaled >? 5)
  then
    match checked_div (fl s yaw_change * 100) (fl s roll_angle) with
    | Some q => Some (q <? 1)
    | None => None
    end
  else Some false.

(** The turn tilt target once the cutback detector has run. *)
Definition turntilt_shape_target (s : State) : State :=
  let conf := balance_conf s in
  (* desired angle *)
  let s := set_fl turntilt_target
             (fl s abs_yaw_change * BC.turntilt_strength conf) s in
  (* speed scaling *)
  let boost :=
    if fl s abs_erpm <? BC.turntilt_erpm_boost_end conf
    then 1 + fl s abs_erpm * fl s tuntilt_boost_per_erpm
    else 1 + BC.turntilt_erpm_boost conf / 100 in
  let s := set_fl turntilt_target (fl s turntilt_target * boost) s in
  (* increase turn tilt with the aggregate yaw change (at most: double it) *)
  let aggregate_damper := if fl s abs_erpm <? 2000 then 0.5 else 1 in
  let boost :=
    1 + aggregate_damper * fabsf (fl s yaw_aggregate)
        / fl s yaw_aggregate_target in
  let boost := fminf boost 2 in
  let s := set_fl turntilt_target (fl s turntilt_target * boost) s in
  (* limit to the maximum angle *)
  let s := set_fl turntilt_target
             (fminf (fl s turntilt_target) (BC.turntilt_angle_limit conf)) s in
  (* disable below the erpm threshold, otherwise add directionality *)
  let s :=
    if fl s abs_erpm <? BC.turntilt_start_erpm conf
    then set_fl turntilt_target 0 s
    else set_fl turntilt_target (fl s turntilt_target * SIGN (fl s erpm)) s in
  (* reduce the target during moments of high torque response *)
  let '(atr_min, atr_max) :=
    if SIGN (fl s torquetilt_target) !=? SIGN (fl s turntilt_target)
    then (1, 4) else (2, 5) in
  let s :=
    if fabsf (fl s torquetilt_target) >? atr_min then
      if bl s cutback then
        set_fl turntilt_target (- fl s turntilt_target) s
      else
        let atr_scaling :=
          (atr_max - fabsf (fl s torquetilt_target)) / (atr_max - atr_min) in
        let '(atr_scaling, s) :=
          if atr_scaling <? 0 then (0, set_fl yaw_aggregate 0 s)
          else (atr_scaling, s) in
        set_fl turntilt_target (fl s turntilt_target * atr_scaling) s
    else
      if bl s cutback then set_fl turntilt_target 0 s else s in
  if fabsf (fl s pitch_angle - fl s noseangling_interpolated) >? 4 then
    (* no setpoint changes during heavy acceleration or braking *)
    let s := set_fl turntilt_target 0 s in
    set_fl yaw_aggregate 0 s
  else s.

(** [apply_turntilt]: [None] stands for a division by a zero roll angle in
    the cutback detector.  The other quotient, by [yaw_aggregate_target], is
    the plain division of [Q]. *)
Definition apply_turntilt (s : State) : option State :=
  let conf := balance_conf s in
  let abs_yaw_scaled := fl s abs_yaw_change * 100 in
  let target_set : option State :=
    if (abs_yaw_scaled <? BC.turntilt_start_angle conf)
       || negb (BalanceState_value (state s) =? BalanceState_value RUNNING)%Z
    then Some (set_fl turntilt_target 0 s)
    else
      let detected : option State :=
        if bl s cutback_enable then
          match detect_cutback s with
          | Some c => Some (set_bl cutback c s)
          | None => None
          end
        else Some s in
      match detected with
      | Some s => Some (turntilt_shape_target s)
      | None => None
      end in
  match target_set with
  | None => None
  | Some s =>
      (* move towards the target, limited by the maximum speed *)
      let s :=
        if fabsf (fl s turntilt_target - fl s turntilt_interpolated)
           <? fl s turntilt_step_size
        then set_fl turntilt_interpolated (fl s turntilt_target) s
        else if fl s turntilt_target - fl s turntilt_interpolated >? 0
        then set_fl turntilt_interpolated
               (fl s turntilt_interpolated + fl s turntilt_step_size) s
        else set_fl turntilt_interpolated
               (fl s turntilt_interpolated - fl s turntilt_step_size) s in
      Some (set_fl setpoint (fl s setpoint + fl s turntilt_interpolated) s)
  end.

(** *** The PID block *)

(** The proportional, integral and derivative terms. *)
Definition pid_terms (s : State) : State :=
  let s := set_fl proportional (fl s setpoint - fl s pitch_angle) s in
  (* integral component, only partially affected by torque tilt *)
  let s := set_fl integral (fl s integral + fl s proportional) s in
  let tt_impact :=
    if fl s torquetilt_interpolated <? 0 then
      fl s integral_tt_impact_downhill
    else
      let tt_impact := fl s integral_tt_impact_uphill in
      let max_impact_erpm := 2500 in
      let starting_impact := 0.3 in
      if fl s abs_erpm <? max_impact_erpm then
        let erpm_scaling :=
          fmaxf starting_impact (fl s abs_erpm / max_impact_erpm) in
        1 - (1 - tt_impact) * erpm_scaling
      else tt_impact in
  let s := set_fl integral
             (fl s integral - fl s torquetilt_interpolated * tt_impact) s in
  (* derivative with the PT1 filter *)
  let s := set_fl derivative (fl s last_pitch_angle - fl s pitch_angle) s in
  let s := set_fl d_pt1_lowpass_state
             (fl s d_pt1_lowpass_state
              + fl s d_pt1_lowpass_k
                * (fl s derivative - fl s d_pt1_lowpass_state)) s in
  set_fl derivative (fl s d_pt1_lowpass_state) s.

(** Gain scheduling: the smoothed approach of [kp], [ki], [kd] to their
    targets. *)
Definition pid_gains (s : State) : State :=
  let abs_prop := fabsf (fl s proportional) in
  let max_di_mult := 1.7 in
  let '(p_multiplier, di_multiplier) :=
    if fabsf (fl s torquetilt_interpolated) >? 2 then
      (* torque stiffness *)
      let p_multiplier :=
        fabsf (fl s torquetilt_interpolated) / 6 * fl s tt_pid_intensity in
      let di_multiplier := fminf (1 + p_multiplier / 2) max_di_mult in
      let p_multiplier := fminf (1 + p_multiplier) 2 in
      (p_multiplier, di_multiplier)
    else (1, 1) in
  let kp_target := fl s kp_acc * p_multiplier in
  let ki_target := fl s ki_acc * di_multiplier in
  let kd_target := fl s kd_acc in
  let kd_target :=
    if abs_prop >? fl s center_boost_angle + 0.5
    then kd_target * di_multiplier / max_di_mult
    else kd_target in
  if (SetpointAdjustmentType_value (setpointAdjustmentType s)
        >=? SetpointAdjustmentType_value TILTBACK_NONE)%Z then
    let s :=
      if kp_target >? fl s kp then
        (* stiffen quickly *)
        let s := set_fl kp (fl s kp * 0.98 + kp_target * 0.02) s in
        set_fl ki (fl s ki * 0.98 + ki_target * 0.02) s
      else
        (* loosen slowly *)
        let s := set_fl kp (fl s kp * 0.998 + kp_target * 0.002) s in
        set_fl ki (fl s ki * 0.998 + ki_target * 0.002) s in
    set_fl kd (fl s kd * 0.98 + kd_target * 0.02) s
  else if is_mode (setpointAdjustmentType s) CENTERING then
    let s := set_fl kp (fl s kp * 0.995 + kp_target * 0.005) s in
    let s := set_fl ki (fl s ki * 0.995 + ki_target * 0.005) s in
    set_fl kd (fl s kd * 0.995 + kd_target * 0.005) s
  else if is_mode (setpointAdjustmentType s) REVERSESTOP then
    let kp_target := 2 in
    let kd_target := 400 in
    let s := set_fl integral 0 s in
    let s := set_fl kp (fl s kp * 0.99 + kp_target * 0.01) s in
    let s := set_fl kd (fl s kd * 0.99 + kd_target * 0.01) s in
    set_fl ki 0 s
  else s.

(** The requested current before saturation. *)
Definition pid_output (s : State) : State :=
  let abs_prop := fabsf (fl s proportional) in
  let braking := SIGN (fl s proportional) !=? SIGN (fl s erpm) in
  let s :=
    if bl s use_soft_start && is_mode (setpointAdjustmentType s) CENTERING
    then
      (* soft start *)
      let pid_prop := fl s kp * fl s proportional in
      let pid_derivative := fl s kd * fl s derivative in
      let s := set_fl pid_value
                 (0.05 * (pid_prop + pid_derivative) + 0.95 * fl s pid_value)
                 s in
      (* once centering is done, start the integral component from 0 *)
      let s := set_fl integral 0 s in
      set_fl ki 0 s
    else
      let pid_prop := fl s kp * fl s proportional in
      let center_boost := fminf abs_prop (fl s center_boost_angle) in
      let '(pid_prop, s) :=
        if negb (nt s center_stiffness_delay_ms =? 0)%Z then
          let pid_prop :=
            pid_prop
            + center_boost * fl s center_boost_kp_adder
              * SIGN (fl s proportional)
              * inject_Z (START_CENTER_DELAY_MS
                          - nt s center_stiffness_delay_ms)
              / inject_Z START_CENTER_DELAY_MS in
          let s := set_nt center_stiffness_delay_ms
                     (nt s center_stiffness_delay_ms - 1)%Z s in
          if (nt s center_jerk_counter <? nt s center_jerk_duration_ms)%Z then
            let s :=
              if (nt s center_jerk_counter
                    >? Z.quot (nt s center_jerk_duration_ms) 2)%Z
              then set_fl center_jerk_adder
                     (fl s center_jerk_adder * 0.95
                      + fl s center_jerk_strength * 0.05) s
              else set_fl center_jerk_adder
                     (fl s center_jerk_adder * 0.95
                      - fl s center_jerk_strength * 0.05) s in
            let pid_prop := pid_prop + fl s center_jerk_adder in
            let s := set_nt center_jerk_counter
                       (nt s center_jerk_counter + 1)%Z s in
            (pid_prop, s)
          else (pid_prop, s)
        else
          let pid_prop :=
            pid_prop
            + center_boost * fl s center_boost_kp_adder
              * SIGN (fl s proportional) in
          (* acceleration boost *)
          let accel_boost :=
            if (abs_prop >? fl s accel_boost_threshold) && negb braking then
              let boost_prop := abs_prop - fl s accel_boost_threshold in
              let accel_boost :=
                boost_prop * fl s kp * fl s accel_boost_intensity in
              if abs_prop >? fl s accel_boost_threshold2 then
                let boost_prop := abs_prop - fl s accel_boost_threshold2 in
                accel_boost
                + boost_prop * fl s kp * fl s accel_boost_intensity
              else accel_boost
            else 0 in
          (pid_prop + accel_boost * SIGN (fl s proportional), s) in
      let pid_derivative := fl s kd * fl s derivative in
      let pid_derivative :=
        if fabsf pid_derivative >? fl s max_derivative
        then fl s max_derivative * SIGN pid_derivative
        else pid_derivative in
      (* treat P and D together *)
      let new_pd_value := pid_prop + pid_derivative in
      let new_pd_value :=
        if SIGN (fl s erpm) !=? SIGN new_pd_value then
          (* limit P and D braking amps while slow on flat ground *)
          let pid_max := fmaxf (fl s max_brake_amps) (fabsf pid_prop) in
          let tt := fabsf (fl s torquetilt_interpolated) in
          let pid_max :=
            if tt >? 2 then pid_max * (0.75 + tt / 8) else pid_max in
          let pid_max :=
            if fl s abs_erpm >? 2000
            then pid_max * (0.8 + fl s abs_erpm / 10000) else pid_max in
          if fabsf new_pd_value >? pid_max
          then SIGN new_pd_value * pid_max
          else new_pd_value
        else new_pd_value in
      let pid_integral := fl s ki * fl s integral in
      (* smoothen out the requested current *)
      set_fl pid_value
        (0.2 * (new_pd_value + pid_integral) + 0.8 * fl s pid_value) s in
  set_fl last_proportional (fl s proportional) s.

(** Output to motor: the saturation step.  The buzzer calls are not part of
    the model. *)
Definition saturate_output (s : State) : State :=
  if fl s pid_value >? fl s mc_current_max then
    let s := set_fl pid_value (fl s mc_current_max - 3) s in
    set_bl current_limiting true s
  else if fl s pid_value <? fl s mc_current_min then
    let s := set_fl pid_value (fl s mc_current_min + 3) s in
    set_bl current_limiting true s
  else if bl s current_limiting then
    set_bl current_limiting false s
  else s.

(** The start click and the call of [set_current]; [requested_current] holds
    the argument of the call. *)
Definition command_current (s : State) : State :=
  if negb (nt s start_counter_clicks =? 0)%Z then
    let s := set_nt start_counter_clicks (nt s start_counter_clicks - 1)%Z s in
    if (nt s start_counter_clicks =? 0)%Z || (nt s start_counter_clicks =? 2)%Z
    then set_fl requested_current
           (fl s pid_value - inject_Z (nt s click_current)) s
    else set_fl requested_current
           (fl s pid_value + inject_Z (nt s click_current)) s
  else set_fl requested_current (fl s pid_value) s.

(** *** The running branch of the loop *)

(** The setpoint for this iteration: target, interpolation, and the copy into
    [setpoint]. *)
Definition shape_setpoint (h : Hardware) (s : State) : State :=
  let s := calculate_setpoint_target h s in
  let s := calculate_setpoint_interpolated s in
  set_fl setpoint (fl s setpoint_target_interpolated) s.

(** The three setpoint adjustments, skipped while centering and in reverse
    stop. *)
Definition apply_tilts (s : State) : option State :=
  if (SetpointAdjustmentType_value (setpointAdjustmentType s)
        >=? SetpointAdjustmentType_value TILTBACK_NONE)%Z
  then apply_turntilt (apply_torquetilt (apply_noseangling s))
  else Some s.

(** The PID maths and the output to the motor. *)
Definition pid_block (s : State) : State :=
  let s := pid_terms s in
  let s := pid_gains s in
  let s := pid_output s in
  let s := saturate_output s in
  command_current s.

(** One pass through the branch for the four running states.  A fault leaves
    the branch at once; the logging variables, the inactivity timer and the
    lock state are not part of the model. *)
Definition running_branch (h : Hardware) (s : State) : option State :=
  let (faulted, s) := call (check_faults false) s in
  if faulted then Some s else
  let s := shape_setpoint h s in
  match apply_tilts s with
  | None => None
  | Some s => Some (pid_block s)
  end.

(** One iteration of the loop while the controller is in a running state. *)
Definition running_tick (h : Hardware) (s : State) : option State :=
  running_branch h (read_inputs h s).

(** The iterations for a sequence of readings, as long as the controller stays
    in a running state. *)
Fixpoint run (hs : list Hardware) (s : State) : option State :=
  match hs with
  | [] => Some s
  | h :: hs' =>
      if is_running (state s) then
        match running_tick h s with
        | Some s' => run hs' s'
        | None => None
        end
      else Some s
  end.

End Loop.

(* ================================================================= *)
(** ** A sample platform, configuration and rider

    Concrete values on which the model is evaluated: the two macros as the
    firmware's headers define them (system ticks at 10 kHz, rounded up to
    milliseconds in unsigned 32-bit arithmetic; the sign as [-1] or [1]), a
    configuration at 1 kHz with gains 6 / 0.005 / 800, and the variables as
    they are at power-on. *)

Definition ST2MS_10kHz (n : Z) : Z :=
  (((n * 1000 + 9999) mod 2 ^ 32) / 10000)%Z.

Definition SIGN_macro (x : Q) : Q := if x <? 0 then -1 else 1.

Definition conf_with (gain_p startup : Q) : balance_config :=
  {| BC.hertz := 1000;
     BC.startup_speed := startup;
     BC.tiltback_duty_speed := 3; BC.tiltback_hv_speed := 3;
     BC.tiltback_lv_speed := 3; BC.tiltback_return_speed := 1;
     BC.torquetilt_on_speed := 5; BC.torquetilt_off_speed := 3;
     BC.turntilt_speed := 5; BC.noseangling_speed := 5;
     BC.brake_current := 6;
     BC.roll_steer_erpm_kp := 0; BC.roll_steer_kp := 0;
     BC.yaw_current_clamp := 0;
     BC.yaw_kp := 0; BC.yaw_ki := 180; BC.yaw_kd := 10;
     BC.kp := gain_p; BC.ki := 0.005; BC.kd := 800;
     BC.booster_angle := 1; BC.booster_ramp := 7; BC.booster_current := 1;
     BC.kd_biquad_lowpass := 0; BC.kd_biquad_highpass := 0;
     BC.kd_pt1_lowpass_frequency := 10; BC.kd_pt1_highpass_frequency := 10;
     BC.torquetilt_strength := 0.15; BC.torquetilt_start_current := 5;
     BC.torquetilt_angle_limit := 8;
     BC.turntilt_erpm_boost := 200; BC.turntilt_erpm_boost_end := 5000;
     BC.turntilt_start_angle := 2; BC.turntilt_strength := 6;
     BC.turntilt_angle_limit := 3; BC.turntilt_start_erpm := 1000;
     BC.tiltback_variable := 0; BC.tiltback_variable_max := 0;
     BC.tiltback_constant := 0; BC.tiltback_constant_erpm := 500;
     BC.tiltback_duty := 0.8; BC.tiltback_duty_angle := 10;
     BC.tiltback_hv := 60; BC.tiltback_hv_angle := 10;
     BC.tiltback_lv := 40; BC.tiltback_lv_angle := 10;
     BC.fault_pitch := 20; BC.fault_roll := 45; BC.fault_duty := 0.9;
     BC.fault_adc1 := 2; BC.fault_adc2 := 2; BC.fault_adc_half_erpm := 1000;
     BC.fault_delay_pitch := 250; BC.fault_delay_roll := 250;
     BC.fault_delay_duty := 250;
     BC.fault_delay_switch_half := 100; BC.fault_delay_switch_full := 251 |}.

(** The sample configuration: a proportional gain of 6, and a startup speed
    of 30.1 (quick start with reverse stop). *)
Definition sample_conf : balance_config := conf_with 6 30.1.

(** A soft configuration: a proportional gain of 0.5, and a startup speed of
    5, which selects the soft start. *)
Definition soft_conf : balance_config := conf_with 0.5 5.

Definition sample_mc : mc_configuration :=
  {| l_current_max := 60; l_current_min := -60; l_temp_fet_start := 85;
     m_invert_direction := false |}.

(** The variables at power-on: every static is zero, the biquad is the
    low-pass for a cutoff of a quarter of the loop rate. *)
Definition power_on : State :=
  {| fl := fun _ => 0; tm := fun _ => 0%Z; nt := fun _ => 0%Z;
     bl := fun _ => false;
     state := STARTUP; setpointAdjustmentType := CENTERING;
     switch_state := OFF; accelhist := fun _ => 0;
     torquetilt_current_biquad := mkBiquad (1 # 4) (1 # 2) (1 # 4) 0 0 0 0;
     balance_conf := sample_conf |}.

Definition configured : State :=
  app_balance_configure sample_conf sample_mc power_on.

Definition soft_configured : State :=
  app_balance_configure soft_conf sample_mc power_on.

(** The rider stands level on both pads, at rest, at 50 V and 30 degrees C;
    [k] is the index of the iteration (one millisecond each). *)
Definition at_rest (k : Z) : Hardware :=
  {| chVTGetSystemTimeX := (10 * k)%Z;
     mc_interface_get_tot_current_directional_filtered := 0;
     imu_get_pitch := 0; imu_get_roll := 0; imu_get_yaw := 0;
     mc_interface_get_duty_cycle_now := 0;
     mc_interface_get_rpm := 0;
     mcpwm_foc_get_smooth_erpm := 0;
     ADC_EXT := 3; ADC_EXT2 := 3;
     GET_INPUT_VOLTAGE := 50;
     mc_interface_temp_fet_filtered := 30 |}.

(* ================================================================= *)
(** ** Footprints

    Which variables a piece of the loop may write.  [preserved W s s'] says
    that [s'] agrees with [s] on every variable outside the footprint [W];
    the configuration structure is never written by the loop. *)

Inductive comp : Set := c_state | c_mode | c_switch | c_ring | c_biquad.

Definition comp_eq_dec (a b : comp) : {a = b} + {a <> b}.
Proof. decide equality. Defined.

(** Membership of a variable in a list of written variables. *)
Definition wr {K : Type} (eq_dec : forall a b : K, {a = b} + {a <> b})
    (l : list K) (x : K) : bool :=
  existsb (fun y => if eq_dec y x then true else false) l.

Record footprint : Type := mkFootprint {
  Wf : list fvar; Wt : list tvar; Wn : list ivar; Wb : list bvar;
  Wc : list comp
}.

Definition fp_union (W1 W2 : footprint) : footprint :=
  mkFootprint (Wf W1 ++ Wf W2) (Wt W1 ++ Wt W2) (Wn W1 ++ Wn W2)
    (Wb W1 ++ Wb W2) (Wc W1 ++ Wc W2).

Definition sub_footprint (W W' : footprint) : bool :=
  forallb (wr fvar_eq_dec (Wf W')) (Wf W)
  && forallb (wr tvar_eq_dec (Wt W')) (Wt W)
  && forallb (wr ivar_eq_dec (Wn W')) (Wn W)
  && forallb (wr bvar_eq_dec (Wb W')) (Wb W)
  && forallb (wr comp_eq_dec (Wc W')) (Wc W).

Record preserved (W : footprint) (s s' : State) : Prop := mkPreserved {
  pres_fl : forall x, wr fvar_eq_dec (Wf W) x = false -> fl s' x = fl s x;
  pres_tm : forall x, wr tvar_eq_dec (Wt W) x = false -> tm s' x = tm s x;
  pres_nt : forall x, wr ivar_eq_dec (Wn W) x = false -> nt s' x = nt s x;
  pres_bl : forall x, wr bvar_eq_dec (Wb W) x = false -> bl s' x = bl s x;
  pres_state : wr comp_eq_dec (Wc W) c_state = false -> state s' = state s;
  pres_mode : wr comp_eq_dec (Wc W) c_mode = false ->
              setpointAdjustmentType s' = setpointAdjustmentType s;
  pres_switch : wr comp_eq_dec (Wc W) c_switch = false ->
                switch_state s' = switch_state s;
  pres_ring : wr comp_eq_dec (Wc W) c_ring = false ->
              accelhist s' = accelhist s;
  pres_biquad : wr comp_eq_dec (Wc W) c_biquad = false ->
                torquetilt_current_biquad s' = torquetilt_current_biquad s;
  pres_conf : balance_conf s' = balance_conf s
}.

Definition preserved_opt (W : footprint) (s : State) (o : option State)
    : Prop :=
  match o with Some s' => preserved W s s' | None => True end.

(** A command keeps everything outside [W], wherever it leaves. *)
Definition cmd_preserves {A : Type} (W : footprint) (c : cmd A) : Prop :=
  forall s0 s, preserved W s0 s -> preserved W s0 (snd (c s)).

(** The six timers of the fault detector. *)
Definition fault_timers : list tvar :=
  [fault_switch_timer; reverse_timer; fault_switch_half_timer;
   fault_angle_pitch_timer; fault_angle_roll_timer; fault_duty_timer].

Definition W_fault_timers : footprint :=
  mkFootprint [] fault_timers [] [] [].

Definition W_check_faults : footprint :=
  mkFootprint [] fault_timers [] [] [c_state].

Definition W_read_sensors : footprint :=
  mkFootprint
    [motor_current; last_pitch_angle; pitch_angle; roll_angle; abs_roll_angle;
     duty_cycle; abs_duty_cycle; erpm; abs_erpm]
    [current_time] [] [] [].

Definition W_update_yaw : footprint :=
  mkFootprint
    [yaw_angle; last_yaw_change; last_yaw_angle; yaw_change; yaw_aggregate;
     abs_yaw_change] [] [] [] [].

Definition W_update_roll_aggregate : footprint :=
  mkFootprint [roll_aggregate] [] [] [] [].

Definition W_update_acceleration : footprint :=
  mkFootprint [acceleration_raw; last_erpm; accelavg; acceleration]
    [] [accelidx] [] [c_ring].

Definition W_check_adcs : footprint :=
  mkFootprint [adc1; adc2] [] [] [] [c_switch].

Definition W_read_inputs : footprint :=
  fp_union W_read_sensors
    (fp_union W_update_yaw
       (fp_union W_update_roll_aggregate
          (fp_union W_update_acceleration W_check_adcs))).

Definition W_shape_setpoint : footprint :=
  mkFootprint
    [reverse_total_erpm; setpoint_target; integral;
     setpoint_target_interpolated; setpoint]
    [tb_highvoltage_timer; softstart_timer; reverse_timer] [] []
    [c_state; c_mode].

Definition W_apply_noseangling : footprint :=
  mkFootprint [noseangling_interpolated; setpoint] [] [] [] [].

Definition W_apply_torquetilt : footprint :=
  mkFootprint
    [sss; torquetilt_filtered_current; accel_gap; accel_gap_aggregate;
     torquetilt_target; torquetilt_interpolated; setpoint]
    [] [] [] [c_biquad].

Definition W_apply_turntilt : footprint :=
  mkFootprint [turntilt_target; yaw_aggregate; turntilt_interpolated; setpoint]
    [] [] [cutback] [].

Definition W_apply_tilts : footprint :=
  fp_union W_apply_noseangling
    (fp_union W_apply_torquetilt W_apply_turntilt).

Definition W_pid_terms : footprint :=
  mkFootprint [proportional; integral; derivative; d_pt1_lowpass_state]
    [] [] [] [].

Definition W_pid_gains : footprint :=
  mkFootprint [kp; ki; kd; integral] [] [] [] [].

Definition W_pid_output : footprint :=
  mkFootprint
    [pid_value; integral; ki; center_jerk_adder; last_proportional]
    [] [center_stiffness_delay_ms; center_jerk_counter] [] [].

Definition W_saturate_output : footprint :=
  mkFootprint [pid_value] [] [] [current_limiting] [].

Definition W_command_current : footprint :=
  mkFootprint [requested_current] [] [start_counter_clicks] [] [].

Definition W_pid_block : footprint :=
  fp_union W_pid_terms
    (fp_union W_pid_gains
       (fp_union W_pid_output
          (fp_union W_saturate_output W_command_current))).

(** What runs after the fault check in the running branch. *)
Definition W_control : footprint :=
  fp_union W_shape_setpoint (fp_union W_apply_tilts W_pid_block).

Definition W_running_branch : footprint :=
  fp_union W_check_faults W_control.

Definition W_running_tick : footprint :=
  fp_union W_read_inputs W_running_branch.

(** What a call of a fault check does to [state] when it starts from another
    value of [state]: a raised fault is the same, otherwise the value is
    kept. *)
Definition with_state (st0 : BalanceState) (r : flow unit * State)
    : flow unit * State :=
  match r with
  | (Return true, s') => (Return true, s')
  | (Return false, s') => (Return false, set_state st0 s')
  | (Next u, s') => (Next u, set_state st0 s')
  end.

(** A fault check: it returns [true] only after assigning a fault to [state];
    otherwise it writes nothing but the fault timers; and it never reads
    [state]. *)
Record fault_check (c : cmd unit) : Prop := mkFaultCheck {
  fc_next : forall s u s', c s = (Next u, s') -> preserved W_fault_timers s s';
  fc_false : forall s s',
    c s = (Return false, s') -> preserved W_fault_timers s s';
  fc_true : forall s s',
    c s = (Return true, s') ->
    is_fault (state s') = true /\ preserved W_check_faults s s';
  fc_indep : forall s st0, c (set_state st0 s) = with_state st0 (c s)
}.

(** The variables that only [app_balance_configure] writes. *)
Definition config_fvars : list fvar :=
  [startup_step_size; tiltback_duty_step_size; tiltback_hv_step_size;
   tiltback_lv_step_size; tiltback_return_step_size;
   torquetilt_on_step_size; torquetilt_off_step_size; turntilt_step_size;
   tiltback_variable; tiltback_variable_max_erpm; noseangling_step_size;
   tt_pid_intensity; tt_strength_uphill; tt_strength_downhill;
   integral_tt_impact_uphill; integral_tt_impact_downhill;
   mc_current_max; mc_current_min; mc_max_temp_fet;
   reverse_stop_step_size; reverse_tolerance;
   center_jerk_strength; shedfactor; ttt_brake_ratio;
   tuntilt_boost_per_erpm; yaw_aggregate_target; cutback_minspeed;
   center_boost_angle; center_boost_kp_adder;
   max_brake_amps; max_derivative;
   accel_boost_threshold; accel_boost_threshold2; accel_boost_intensity;
   roll_aggregate_threshold;
   kp_acc; ki_acc; kd_acc; d_pt1_lowpass_k].

Definition config_ivars : list ivar :=
  [erpm_sign; center_jerk_duration_ms; start_counter_clicks_max;
   click_current].

Definition config_bvars : list bvar :=
  [allow_high_speed_full_switch_faults; use_reverse_stop; use_soft_start;
   cutback_enable].

Definition W_configure : footprint :=
  mkFootprint config_fvars [] config_ivars config_bvars [].

(** [reset_vars] writes the loop's variables, never the configured ones. *)
Definition W_reset_vars : footprint :=
  mkFootprint
    [integral; last_proportional; d_pt1_lowpass_state; setpoint;
     setpoint_target; noseangling_interpolated; torquetilt_interpolated;
     torquetilt_filtered_current; turntilt_target; turntilt_interpolated;
     last_yaw_change; last_yaw_angle; yaw_aggregate; roll_aggregate;
     accel_gap; pid_value; accel_gap_aggregate; sss; accelavg;
     setpoint_target_interpolated; kp; ki; kd; center_jerk_adder]
    [current_time]
    [accelidx; start_counter_clicks; center_stiffness_delay_ms;
     center_jerk_counter]
    [cutback; current_limiting]
    [c_state; c_mode; c_ring; c_biquad].

(** [same_config c s]: the state [s] carries the configuration of [c], that
    is, the configuration structure and every variable that only
    [app_balance_configure] writes. *)
Definition same_config (c s : State) : Prop :=
  balance_conf s = balance_conf c /\
  (forall x, wr fvar_eq_dec config_fvars x = true -> fl s x = fl c x) /\
  (forall x, wr ivar_eq_dec config_ivars x = true -> nt s x = nt c x) /\
  (forall x, wr bvar_eq_dec config_bvars x = true -> bl s x = bl c x).

(* ================================================================= *)
(** ** Vocabulary of the properties *)

(** The two faults raised for the foot switch. *)
Definition is_switch_fault (st : BalanceState) : bool :=
  match st with
  | FAULT_SWITCH_FULL | FAULT_SWITCH_HALF => true
  | _ => false
  end.

(** The step sizes of the six modes are not negative. *)
Definition step_sizes_nonneg (s : State) : Prop :=
  0 <= fl s startup_step_size /\ 0 <= fl s tiltback_duty_step_size /\
  0 <= fl s tiltback_hv_step_size /\ 0 <= fl s tiltback_lv_step_size /\
  0 <= fl s tiltback_return_step_size /\ 0 <= fl s reverse_stop_step_size.

(** The applied gains against the configured caps [kp_acc], [ki_acc],
    [kd_acc] (the minimum of the configured gain and its guardrail). *)
Definition gains_within_caps (s : State) : Prop :=
  fl s kp <= fl s kp_acc /\ fl s ki <= fl s ki_acc /\ fl s kd <= fl s kd_acc.

(** The bounds that the gain scheduling keeps: twice the cap on [kp] (or 2,
    the reverse stop and soft start values), 1.7 times the cap on [ki], and
    the cap on [kd] (or 400, the reverse stop value). *)
Definition gains_bounded (s : State) : Prop :=
  fl s kp <= Qmax 2 (2 * fl s kp_acc) /\
  fl s ki <= 1.7 * fl s ki_acc /\
  fl s kd <= Qmax 400 (fl s kd_acc).

(** The clip of the specification: at both ends. *)
Definition clip5 (a : Q) : Q := fmaxf (-5) (fminf a 5).

(** Sum of a list of samples, and its last [n] entries. *)
Definition Qsum (l : list Q) : Q := fold_right Qplus 0 l.

Definition lastn (n : nat) (l : list Q) : list Q :=
  skipn (length l - n) l.

(** The values of [acceleration_raw] for a sequence of readings: the first
    differences of the signed smooth erpm, starting from [last]. *)
Fixpoint raw_samples (sign last : Q) (hs : list Hardware) : list Q :=
  match hs with
  | [] => []
  | h :: hs' =>
      let smooth_erpm := sign * mcpwm_foc_get_smooth_erpm h in
      (smooth_erpm - last) :: raw_samples sign smooth_erpm hs'
  end.

(** The acceleration statements of successive iterations. *)
Definition accel_run (hs : list Hardware) (s : State) : State :=
  fold_left (fun s h => update_acceleration h s) hs s.

(** The roll aggregate is zero unless the roll angle exceeds 8 degrees. *)
Definition roll_aggregate_reset (s : State) : Prop :=
  fabsf (fl s roll_angle) <= 8 -> fl s roll_aggregate == 0.

Section Vocabulary.

Variable ST2MS : Z -> Z.
Variable SIGN : Q -> Q.

(** Successive readings are close enough for the full switch timer not to run
    out while both pads are released at speed: each is at most the full
    switch delay after the one before, and at most the half switch delay
    when the board moves at less than four times the half-switch speed.  The
    first reading is measured from [prev]. *)
Fixpoint off_spaced (conf : balance_config) (prev : Z) (hs : list Hardware)
    : Prop :=
  match hs with
  | [] => True
  | h :: hs' =>
      let elapsed := ST2MS (st_sub (chVTGetSystemTimeX h) prev) in
      (elapsed <= BC.fault_delay_switch_full conf)%Z /\
      (BC.fault_adc_half_erpm conf * 4 <= fabsf (mc_interface_get_rpm h) \/
       (elapsed <= BC.fault_delay_switch_half conf)%Z) /\
      off_spaced conf (chVTGetSystemTimeX h) hs'
  end.

(** A reading with both pads released while moving faster than 3000 erpm and
    not slower than the half-switch speed, not backwards when reverse stop
    is enabled. *)
Definition off_at_speed (s : State) (h : Hardware) : Prop :=
  fst (check_adcs h s) = OFF /\
  3000 < fabsf (mc_interface_get_rpm h) /\
  BC.fault_adc_half_erpm (balance_conf s) <= fabsf (mc_interface_get_rpm h) /\
  (bl s use_reverse_stop = false \/ 0 <= mc_interface_get_rpm h).

(** A reading with a pad pressed, the duty cycle below the tiltback and fault
    thresholds, pitch and roll below their fault thresholds, not moving
    backwards, and the input voltage above the high voltage threshold by at
    most one volt. *)
Definition mild_overvoltage (s : State) (h : Hardware) : Prop :=
  let conf := balance_conf s in
  fst (check_adcs h s) = ON /\
  fabsf (mc_interface_get_duty_cycle_now h) <= BC.tiltback_duty conf /\
  fabsf (mc_interface_get_duty_cycle_now h) <= BC.fault_duty conf /\
  fabsf (imu_get_pitch h) <= BC.fault_pitch conf /\
  fabsf (imu_get_roll h) <= BC.fault_roll conf /\
  0 <= mc_interface_get_rpm h /\
  BC.tiltback_hv conf < GET_INPUT_VOLTAGE h <= BC.tiltback_hv conf + 1.

(** The states of the running episodes of a controller configured as [c]:
    an episode starts with [reset_vars] and continues with the iterations of
    the running branch. *)
Inductive reachable (c : State) : State -> Prop :=
| reach_reset : forall s, same_config c s -> reachable c (reset_vars s)
| reach_tick : forall s h s',
    reachable c s -> is_running (state s) = true ->
    running_tick ST2MS SIGN h s = Some s' -> reachable c s'.

End Vocabulary.

(** *** Concrete states and readings *)

(** Riding at the current limit: the requested current is 59 A, the limits
    are 60 A and -60 A. *)
Definition s_near_limit : State :=
  set_fl pid_value 59 (reset_vars configured).

(** Reverse stop after riding backwards for a while: the accumulated erpm is
    -200000, four times the tolerance; both pads pressed, board level. *)
Definition s_reversing : State :=
  set_fl reverse_total_erpm (-200000)
    (set_switch_state ON
       (set_setpointAdjustmentType REVERSESTOP (reset_vars configured))).

(** Still riding backwards, at 2000 erpm. *)
Definition riding_backwards (k : Z) : Hardware :=
  {| chVTGetSystemTimeX := (10 * k)%Z;
     mc_interface_get_tot_current_directional_filtered := 0;
     imu_get_pitch := 0; imu_get_roll := 0; imu_get_yaw := 0;
     mc_interface_get_duty_cycle_now := 0;
     mc_interface_get_rpm := -2000;
     mcpwm_foc_get_smooth_erpm := -2000;
     ADC_EXT := 3; ADC_EXT2 := 3;
     GET_INPUT_VOLTAGE := 50;
     mc_interface_temp_fet_filtered := 30 |}.

(** Backwards at 5000 erpm with both pads released. *)
Definition backwards_pads_released (k : Z) : Hardware :=
  {| chVTGetSystemTimeX := (10 * k)%Z;
     mc_interface_get_tot_current_directional_filtered := 0;
     imu_get_pitch := 0; imu_get_roll := 0; imu_get_yaw := 0;
     mc_interface_get_duty_cycle_now := 0;
     mc_interface_get_rpm := -5000;
     mcpwm_foc_get_smooth_erpm := -5000;
     ADC_EXT := 0; ADC_EXT2 := 0;
     GET_INPUT_VOLTAGE := 50;
     mc_interface_temp_fet_filtered := 30 |}.

(** Forwards at 5000 erpm with both pads released. *)
Definition forwards_pads_released (k : Z) : Hardware :=
  {| chVTGetSystemTimeX := (10 * k)%Z;
     mc_interface_get_tot_current_directional_filtered := 0;
     imu_get_pitch := 0; imu_get_roll := 0; imu_get_yaw := 0;
     mc_interface_get_duty_cycle_now := 0;
     mc_interface_get_rpm := 5000;
     mcpwm_foc_get_smooth_erpm := 5000;
     ADC_EXT := 0; ADC_EXT2 := 0;
     GET_INPUT_VOLTAGE := 50;
     mc_interface_temp_fet_filtered := 30 |}.

(** Forwards at 3500 erpm with both pads released: above 3000 erpm, below
    four times the half-switch speed of 1000 erpm. *)
Definition coasting_pads_released (k : Z) : Hardware :=
  {| chVTGetSystemTimeX := (10 * k)%Z;
     mc_interface_get_tot_current_directional_filtered := 0;
     imu_get_pitch := 0; imu_get_roll := 0; imu_get_yaw := 0;
     mc_interface_get_duty_cycle_now := 0;
     mc_interface_get_rpm := 3500;
     mcpwm_foc_get_smooth_erpm := 3500;
     ADC_EXT := 0; ADC_EXT2 := 0;
     GET_INPUT_VOLTAGE := 50;
     mc_interface_temp_fet_filtered := 30 |}.

(** At rest on both pads with 60.5 V at the input, half a volt above the
    high voltage tiltback threshold. *)
Definition overvoltage (k : Z) : Hardware :=
  {| chVTGetSystemTimeX := (10 * k)%Z;
     mc_interface_get_tot_current_directional_filtered := 0;
     imu_get_pitch := 0; imu_get_roll := 0; imu_get_yaw := 0;
     mc_interface_get_duty_cycle_now := 0;
     mc_interface_get_rpm := 0;
     mcpwm_foc_get_smooth_erpm := 0;
     ADC_EXT := 3; ADC_EXT2 := 3;
     GET_INPUT_VOLTAGE := 60.5;
     mc_interface_temp_fet_filtered := 30 |}.

(** The readings of iterations [a+1 .. a+n]. *)
Definition readings (f : Z -> Hardware) (a : Z) (n : nat) : list Hardware :=
  map (fun k => f (a + Z.of_nat k)%Z) (seq 1 n).

(** Cruising in normal riding mode on both pads. *)
Definition s_cruising : State :=
  set_switch_state ON
    (set_setpointAdjustmentType TILTBACK_NONE (reset_vars configured)).

(** Forwards at 3000 erpm with the duty cycle at 85 percent, above the duty
    tiltback threshold of 80 percent. *)
Definition high_duty (k : Z) : Hardware :=
  {| chVTGetSystemTimeX := (10 * k)%Z;
     mc_interface_get_tot_current_directional_filtered := 0;
     imu_get_pitch := 0; imu_get_roll := 0; imu_get_yaw := 0;
     mc_interface_get_duty_cycle_now := 0.85;
     mc_interface_get_rpm := 3000;
     mcpwm_foc_get_smooth_erpm := 3000;
     ADC_EXT := 3; ADC_EXT2 := 3;
     GET_INPUT_VOLTAGE := 50;
     mc_interface_temp_fet_filtered := 30 |}.

(** Normal riding with the proportional gain at its cap of 6 and three
    degrees of torque tilt. *)
Definition s_stiffened : State :=
  set_fl torquetilt_interpolated 3
    (set_fl kd 800 (set_fl ki 0.005 (set_fl kp 6 s_cruising))).

(** Hard braking: the averaged acceleration is -10 erpm per iteration. *)
Definition s_braking : State :=
  set_fl acceleration (-10) s_cruising.

(** Reverse stop with the pads pressed, as the iteration before the rider
    steps off. *)
Definition s_reverse_stop : State :=
  set_switch_state ON
    (set_setpointAdjustmentType REVERSESTOP (reset_vars configured)).

(** *** Further footprints and vocabulary *)

(** What the checks after the first one may write: not the full switch
    timer. *)
Definition W_after_switch_full : footprint :=
  mkFootprint []
    [reverse_timer; fault_switch_half_timer; fault_angle_pitch_timer;
     fault_angle_roll_timer; fault_duty_timer] [] [] [c_state].

(** The variable that holds the step size of a mode. *)
Definition step_size_var (m : SetpointAdjustmentType) : fvar :=
  match m with
  | CENTERING => startup_step_size
  | TILTBACK_DUTY => tiltback_duty_step_size
  | TILTBACK_HV => tiltback_hv_step_size
  | TILTBACK_LV => tiltback_lv_step_size
  | TILTBACK_NONE => tiltback_return_step_size
  | REVERSESTOP => reverse_stop_step_size
  end.

Definition W_calculate_setpoint_target : footprint :=
  mkFootprint [reverse_total_erpm; setpoint_target; integral]
    [tb_highvoltage_timer; softstart_timer; reverse_timer] [] []
    [c_state; c_mode].

Definition W_calculate_setpoint_interpolated : footprint :=
  mkFootprint [setpoint_target_interpolated] [] [] [] [].

Definition W_after_shaping : footprint :=
  fp_union W_apply_tilts W_pid_block.

(** Whether an iteration gives a result. *)
Definition completes (o : option State) : bool :=
  match o with Some _ => true | None => false end.

(** The gains and their caps. *)
Definition gain_vars : list fvar := [kp; ki; kd; kp_acc; ki_acc; kd_acc].

Definition keeps_gains (W : footprint) : bool :=
  forallb (fun x => negb (wr fvar_eq_dec (Wf W) x)) gain_vars.

(** The invariant of the gain scheduling: caps that are not negative, and
    gains within [gains_bounded]. *)
Definition gains_invariant (s : State) : Prop :=
  0 <= fl s kp_acc /\ 0 <= fl s ki_acc /\ 0 <= fl s kd_acc /\
  gains_bounded s.

(** The ring and the average after the acceleration statements, for the
    samples [recent] (most recent first) taken since the reset. *)
Definition ring_holds (recent : list Q) (s : State) : Prop :=
  (0 <= nt s accelidx < 40)%Z /\
  (forall j : nat, (j < 40)%nat ->
     accelhist s ((nt s accelidx - 1 - Z.of_nat j) mod 40)
     == nth j recent 0) /\
  fl s accelavg == Qsum (firstn 40 recent) / 40.

(** The state after a fault check in which every timer but the reverse
    timer is re-armed. *)
Definition rearmed (s : State) : State :=
  set_tm fault_duty_timer (tm s current_time)
    (set_tm fault_angle_roll_timer (tm s current_time)
       (set_tm fault_angle_pitch_timer (tm s current_time)
          (set_tm fault_switch_half_timer (tm s current_time)
             (set_tm fault_switch_timer (tm s current_time) s)))).

(** Normal riding, and the end of the centering sequence of a start without
    soft start. *)
Definition riding_normally (s : State) : Prop :=
  state s = RUNNING /\ setpointAdjustmentType s = TILTBACK_NONE.

Definition centered (s : State) : Prop :=
  state s = RUNNING /\ setpointAdjustmentType s = CENTERING /\
  fl s setpoint_target_interpolated == fl s setpoint_target /\
  bl s use_soft_start = false.

(** *** Vocabulary of the further properties *)

(** The faults that [check_faults] raises. *)
Definition is_check_fault (st : BalanceState) : bool :=
  match st with
  | FAULT_SWITCH_FULL | FAULT_REVERSE | FAULT_SWITCH_HALF
  | FAULT_ANGLE_PITCH | FAULT_ANGLE_ROLL | FAULT_DUTY => true
  | _ => false
  end.

(** A command that leaves [state] alone or sets it to a value in [ok]. *)
Definition raises_within (ok : BalanceState -> bool) (c : cmd unit) : Prop :=
  forall s r s', c s = (r, s') -> state s' = state s \/ ok (state s') = true.

(** The value of [state] that goes with each mode while riding. *)
Definition mode_state_consistent (s : State) : Prop :=
  match setpointAdjustmentType s with
  | CENTERING | REVERSESTOP | TILTBACK_NONE => state s = RUNNING
  | TILTBACK_DUTY => state s = RUNNING_TILTBACK_DUTY
  | TILTBACK_LV => state s = RUNNING_TILTBACK_LOW_VOLTAGE
  | TILTBACK_HV =>
      state s = RUNNING_TILTBACK_HIGH_VOLTAGE
      \/ state s = RUNNING_TILTBACK_LOW_VOLTAGE
  end.

(** On both pads at rest with 62 V at the input, two volts above the high
    voltage threshold. *)
Definition high_overvoltage (k : Z) : Hardware :=
  {| chVTGetSystemTimeX := (10 * k)%Z;
     mc_interface_get_tot_current_directional_filtered := 0;
     imu_get_pitch := 0; imu_get_roll := 0; imu_get_yaw := 0;
     mc_interface_get_duty_cycle_now := 0;
     mc_interface_get_rpm := 0;
     mcpwm_foc_get_smooth_erpm := 0;
     ADC_EXT := 3; ADC_EXT2 := 3;
     GET_INPUT_VOLTAGE := 62;
     mc_interface_temp_fet_filtered := 30 |}.

(** Normal riding with the duty cycle at 85 percent. *)
Definition s_high_duty : State := set_fl abs_duty_cycle 0.85 s_cruising.

(** Normal riding with the setpoint target ten degrees ahead. *)
Definition s_target_ahead : State := set_fl setpoint_target 10 s_cruising.

(** What the target part of [apply_turntilt] may write. *)
Definition W_turntilt_target : footprint :=
  mkFootprint [turntilt_target; yaw_aggregate] [] [] [cutback] [].

(** Both pads pressed with the nose 30 degrees down. *)
Definition tipped_over (k : Z) : Hardware :=
  {| chVTGetSystemTimeX := (10 * k)%Z;
     mc_interface_get_tot_current_directional_filtered := 0;
     imu_get_pitch := 30; imu_get_roll := 0; imu_get_yaw := 0;
     mc_interface_get_duty_cycle_now := 0;
     mc_interface_get_rpm := 0;
     mcpwm_foc_get_smooth_erpm := 0;
     ADC_EXT := 3; ADC_EXT2 := 3;
     GET_INPUT_VOLTAGE := 50;
     mc_interface_temp_fet_filtered := 30 |}.

(* ================================================================= *)
(** ** The loop outside the running states

    The start-up, fault and lock code of [balance_thread], with [brake],
    [set_current] and [check_lock].  It reads a few more configuration
    fields and keeps a few more variables than the controller; they are
    collected in [Thread], next to the controller's variables. *)

(** The fields of [balance_config] read by the start-up, fault and lock code
    only; [brake_timeout] is a number of seconds, [deadzone] selects the
    tune played when the board is ready. *)
Module SC.
Record start_config : Type := mk {
    startup_pitch_tolerance : Q;
    startup_roll_tolerance : Q;
    brake_timeout : Z;
    multi_esc : bool;
    deadzone : Q
  }.
End SC.

(** What an iteration reads outside the running states: the sensors, whether
    the IMU has finished its start-up, whether the motor resistance and
    flux linkage are both at their default values, and the switching
    frequency [foc_f_zv] of the motor configuration. *)
Record Platform : Type := mkPlatform {
  sensors : Hardware;
  imu_startup_done : bool;
  motor_defaults : bool;
  foc_f_zv : Q
}.

(** The calls to the motor interface. *)
Inductive mc_call : Type :=
| timeout_reset
| mc_interface_set_brake_current (current : Q)
| mc_interface_set_current_off_delay (delay : Q)
| mc_interface_set_current (current : Q)
| mcpwm_foc_change_sw (sw : Z).

Record Thread : Type := mkThread {
  vars : State;
  start_conf : SC.start_config;
  motor_timeout : Q;
  brake_timeout : Z;
  lock_state : Z;
  is_locked : bool;
  lock_timer : Q
}.

Definition set_vars (v : State) (t : Thread) : Thread :=
  mkThread v (start_conf t) (motor_timeout t) (brake_timeout t)
    (lock_state t) (is_locked t) (lock_timer t).

Definition set_brake_timeout (v : Z) (t : Thread) : Thread :=
  mkThread (vars t) (start_conf t) (motor_timeout t) v
    (lock_state t) (is_locked t) (lock_timer t).

Definition set_lock_state (v : Z) (t : Thread) : Thread :=
  mkThread (vars t) (start_conf t) (motor_timeout t) (brake_timeout t)
    v (is_locked t) (lock_timer t).

Definition set_is_locked (v : bool) (t : Thread) : Thread :=
  mkThread (vars t) (start_conf t) (motor_timeout t) (brake_timeout t)
    (lock_state t) v (lock_timer t).

Definition set_lock_timer (v : Q) (t : Thread) : Thread :=
  mkThread (vars t) (start_conf t) (motor_timeout t) (brake_timeout t)
    (lock_state t) (is_locked t) v.

(** Addition of [systime_t] values: unsigned, 32 bits. *)
Definition st_add (a b : Z) : Z := ((a + b) mod 2 ^ 32)%Z.

(** The end of [app_balance_configure]: the lock. *)
Definition configure_lock (t : Thread) : Thread :=
  let t := set_lock_state (-1) t in
  set_is_locked (SC.multi_esc (start_conf t)) t.

(** [floor (log2 a)] for a positive rational [a]. *)
Definition Qlog2 (a : Q) : Z :=
  let e := (Z.log2 (Qnum a) - Z.log2 (Zpos (Qden a)))%Z in
  if Qpower 2 e <=? a then e else (e - 1)%Z.

(** The value of a rational as a [float]: rounded to the nearest number
    with a significand of 24 bits, ties to the even significand.  The lock
    code keeps tick counts in a [float]; they exceed 24 bits after half an
    hour at 10 kHz, so there the conversion is written out.  The exponent
    range of the format plays no part for tick counts and is not
    modelled. *)
Definition binary32 (x : Q) : Q :=
  if x =? 0 then 0 else
  let e := Qlog2 (Qabs x) in
  let ulp := Qpower 2 (e - 23) in
  let q := Qabs x / ulp in
  let m := Qfloor q in
  let r := q - inject_Z m in
  let m := if (r >? 0.5) || ((r =? 0.5) && Z.odd m) then (m + 1)%Z else m in
  let y := inject_Z m * ulp in
  if x <? 0 then - y else y.

(** The loop of [play_tune] from index [i] on: a current of [curr] for
    50 ms, then none for 10 ms, with alternating sign; without the frequency
    changes only one wiggle back and forth.  The pauses are not part of the
    model. *)
Fixpoint play_tune_loop (doChangeFreqs : bool) (i : nat) (curr : Q)
    (freqs : list Z) : list mc_call :=
  match freqs with
  | [] => []
  | f :: freqs' =>
      (if doChangeFreqs then [mcpwm_foc_change_sw f] else [])
      ++ [mc_interface_set_current curr; mc_interface_set_current 0]
      ++ (if negb doChangeFreqs && negb (i =? 0)%nat then []
          else play_tune_loop doChangeFreqs (S i) (- curr) freqs')
  end.

(** [play_tune]: the calls made. *)
Definition play_tune (p : Platform) (doChangeFreqs : bool)
    : list mc_call :=
  let original_sw := foc_f_zv p in
  let curr := 1 in
  let freqs := [2093; 2637; 3135; 4186]%Z in
  play_tune_loop doChangeFreqs 0 curr freqs
  (* go back to the original switching frequency *)
  ++ (if doChangeFreqs then [mcpwm_foc_change_sw (Qtrunc original_sw)]
      else []).

(** [reset_vars] with the assignment to [brake_timeout]. *)
Definition thread_reset_vars (t : Thread) : Thread :=
  let t := set_vars (reset_vars (vars t)) t in
  set_brake_timeout 0 t.

Section Thread.

(** [ST2MS] and [SIGN] as before; [S2ST]: seconds to system ticks;
    [ST2MS_float]: [ST2MS] on a [float] argument, as [check_lock] uses it
    ([lock_timer] is a [float], so the tick count [current_time] is
    converted to a [float] and the difference is a [float]). *)
Variable ST2MS : Z -> Z.
Variable SIGN : Q -> Q.
Variable S2ST : Z -> Z.
Variable ST2MS_float : Q -> Q.

(** [brake]: the new value of [brake_timeout] and the calls made. *)
Definition brake (t : Thread) : Thread * list mc_call :=
  let s := vars t in
  (* brake timeout logic *)
  let t :=
    if (SC.brake_timeout (start_conf t) >? 0)%Z
       && ((fl s abs_erpm >? 1) || (brake_timeout t =? 0)%Z)
    then set_brake_timeout
           (st_add (tm s current_time)
              (S2ST (SC.brake_timeout (start_conf t)))) t
    else t in
  if negb (brake_timeout t =? 0)%Z
     && (tm s current_time >? brake_timeout t)%Z
  then (t, [])
  else
    (t, [timeout_reset;
         mc_interface_set_brake_current (BC.brake_current (balance_conf s))]).

(** [set_current]: the calls made. *)
Definition set_current (t : Thread) (current : Q) : list mc_call :=
  [timeout_reset;
   mc_interface_set_current_off_delay (motor_timeout t);
   mc_interface_set_current current].

(** [check_lock]: the lock gesture.  Storing the flag and the beeps at the
    end of the gesture are not part of the model. *)
Definition check_lock (t : Thread) : Thread :=
  let s := vars t in
  let conf := balance_conf s in
  (* a minimum of 50 ms between two steps *)
  if ST2MS_float
       (binary32 (binary32 (inject_Z (tm s current_time)) - lock_timer t))
     <? 50
  then t
  else
  let old_lock_state := lock_state t in
  let adc1_on := fl s adc1 >? BC.fault_adc1 conf in
  let adc2_on := fl s adc2 >? BC.fault_adc2 conf in
  let sw_on := is_switch (switch_state s) ON in
  let sw_off := is_switch (switch_state s) OFF in
  let t :=
    if (lock_state t =? -1)%Z then
      if sw_on then set_lock_state 0 t else t
    else if (lock_state t =? 0)%Z then
      if sw_off then set_lock_state 1 t else t
    else if (lock_state t =? 1)%Z then
      if adc2_on then set_lock_state (-1) t
      else if adc1_on then set_lock_state 2 t else t
    else if (lock_state t =? 2)%Z then
      if adc2_on || sw_on then set_lock_state (-1) t
      else if sw_off then set_lock_state 3 t else t
    else if (lock_state t =? 3)%Z then
      if adc1_on then set_lock_state (-1) t
      else if adc2_on then set_lock_state 4 t else t
    else if (lock_state t =? 4)%Z then
      if adc1_on || sw_on then set_lock_state (-1) t
      else if sw_off then set_lock_state 5 t else t
    else if (lock_state t =? 5)%Z then
      if adc2_on then set_lock_state (-1) t
      else if adc1_on then set_lock_state 6 t else t
    else if (lock_state t =? 6)%Z then
      if adc2_on || sw_on then set_lock_state (-1) t
      else if sw_off then set_lock_state 7 t else t
    else if (lock_state t =? 7)%Z then
      if adc1_on then set_lock_state (-1) t
      else if adc2_on then set_lock_state 8 t else t
    else if (lock_state t =? 8)%Z then
      let t := set_lock_state (-1) t in
      (* change from locked to unlocked or back *)
      set_is_locked (negb (is_locked t)) t
    else t in
  if negb (old_lock_state =? lock_state t)%Z
  then set_lock_timer (binary32 (inject_Z (tm s current_time))) t
  else t.

(** The case [STARTUP] of the loop.  The beeps are not part of the
    model. *)
Definition startup_case (p : Platform) (t : Thread)
    : Thread * list mc_call :=
  (* disable output *)
  let (t, calls) := brake t in
  if imu_startup_done p then
    if motor_defaults p then
      (* default motor values: beep and leave the case *)
      (t, calls)
    else
      let t := thread_reset_vars t in
      (* a fault, so that the start conditions have to be met *)
      let t := set_vars (set_state FAULT_STARTUP (vars t)) t in
      if SC.deadzone (start_conf t) >? 0 then
        (t, calls
            ++ play_tune p (SC.deadzone (start_conf t) =? 1))
      else (t, calls)
  else (t, calls).

(** The case of the four running states: [None] as for [running_branch]. *)
Definition running_case (p : Platform) (t : Thread)
    : option (Thread * list mc_call) :=
  let t := set_lock_state (-1) t in
  let faulted := fst (call (check_faults ST2MS false) (vars t)) in
  match running_branch ST2MS SIGN (sensors p) (vars t) with
  | None => None
  | Some s =>
      let t := set_vars s t in
      Some (t, if faulted then []
               else set_current t (fl s requested_current))
  end.

(** The case of the faults other than [FAULT_DUTY].  The inactivity beeps
    are not part of the model. *)
Definition fault_case (t : Thread) : Thread * list mc_call :=
  let t := check_lock t in
  let s := vars t in
  (* valid start position and switch state *)
  if negb (is_locked t)
     && (fabsf (fl s pitch_angle)
         <? SC.startup_pitch_tolerance (start_conf t))
     && (fabsf (fl s roll_angle)
         <? SC.startup_roll_tolerance (start_conf t))
     && is_switch (switch_state s) ON
  then (thread_reset_vars t, [])
  else
    (* disable output *)
    brake t.

(** The case [FAULT_DUTY]: another fault is needed to clear it. *)
Definition fault_duty_case (t : Thread) : Thread * list mc_call :=
  let t := set_vars (snd (call (check_faults ST2MS true) (vars t))) t in
  (* disable output *)
  brake t.

(** One iteration of the loop of [balance_thread].  The loop timing, the
    logging variable, the lights and the buzzer are not part of the
    model. *)
Definition balance_thread_iteration (p : Platform) (t : Thread)
    : option (Thread * list mc_call) :=
  let t := set_vars (read_inputs SIGN (sensors p) (vars t)) t in
  match state (vars t) with
  | STARTUP => Some (startup_case p t)
  | RUNNING | RUNNING_TILTBACK_DUTY | RUNNING_TILTBACK_HIGH_VOLTAGE
  | RUNNING_TILTBACK_LOW_VOLTAGE => running_case p t
  | FAULT_ANGLE_PITCH | FAULT_ANGLE_ROLL | FAULT_SWITCH_HALF
  | FAULT_SWITCH_FULL | FAULT_STARTUP | FAULT_REVERSE => Some (fault_case t)
  | FAULT_DUTY => Some (fault_duty_case t)
  end.

End Thread.

(** The two sequences of calls that an iteration makes when it does not
    drive the motor: none, or the configured brake current. *)
Definition no_drive (s : State) (calls : list mc_call) : Prop :=
  calls = [] \/
  calls = [timeout_reset;
           mc_interface_set_brake_current (BC.brake_current (balance_conf s))].

(** The calls of the case [STARTUP] after [brake]: the tune, in the
    iteration in which the board becomes ready, when [deadzone] is
    positive. *)
Definition startup_tune (p : Platform) (t : Thread) : list mc_call :=
  if imu_startup_done p && negb (motor_defaults p)
     && (SC.deadzone (start_conf t) >? 0)
  then play_tune p (SC.deadzone (start_conf t) =? 1)
  else [].


(** What one call of [check_lock] does to the lock variables. *)
Definition lock_step (t t' : Thread) : Prop :=
  ((-1 <= lock_state t <= 8)%Z -> (-1 <= lock_state t' <= 8)%Z) /\
  (lock_state t' = lock_state t \/ lock_state t' = (lock_state t + 1)%Z
   \/ lock_state t' = (-1)%Z) /\
  (is_locked t' = is_locked t \/
   lock_state t = 8%Z /\ lock_state t' = (-1)%Z /\
   is_locked t' = negb (is_locked t)) /\
  (lock_state t' = lock_state t /\ lock_timer t' = lock_timer t \/
   lock_state t' <> lock_state t /\
   lock_timer t' = binary32 (inject_Z (tm (vars t) current_time))).









(** ** The biquad filter *)

Inductive BiquadType : Set := BQ_LOWPASS | BQ_HIGHPASS.

Section BiquadConfig.

(** The tangent of [math.h] and the constant [M_PI]. *)
Variable tanf : Q -> Q.
Variable M_PI : Q.

(** [biquad_config]: the coefficients for a cutoff [Fc] (as a fraction of
    the loop rate); the delay registers are kept.  [None] stands for a
    division by zero in [norm]. *)
Definition biquad_config (b : Biquad) (type : BiquadType) (Fc : Q)
    : option Biquad :=
  let K := tanf (M_PI * Fc) in
  let Q := 0.5 in
  match checked_div 1 (1 + K / Q + K * K) with
  | None => None
  | Some norm =>
      let b :=
        match type with
        | BQ_LOWPASS =>
            let c0 := K * K * norm in
            mkBiquad c0 (2 * c0) c0 (b1 b) (b2 b) (z1 b) (z2 b)
        | BQ_HIGHPASS =>
            let c0 := 1 * norm in
            mkBiquad c0 (-2 * c0) c0 (b1 b) (b2 b) (z1 b) (z2 b)
        end in
      Some (mkBiquad (a0 b) (a1 b) (a2 b)
              (2 * (K * K - 1) * norm) ((1 - K / Q + K * K) * norm)
              (z1 b) (z2 b))
  end.

End BiquadConfig.

(** A filter with the delay registers set. *)
Definition with_registers (r1 r2 : Q) (b : Biquad) : Biquad :=
  mkBiquad (a0 b) (a1 b) (a2 b) (b1 b) (b2 b) r1 r2.

(** A rational stand-in for the tangent: the first two terms of its
    series. *)
Definition tanf_series (x : Q) : Q := x + x * x * x / 3.

(** *** A sample thread and the readings of a lock gesture *)

(** The two macros of the firmware's headers at 10 kHz: seconds to system
    ticks, and system ticks to milliseconds on a [float]. *)
Definition S2ST_10kHz (n : Z) : Z := ((n * 10000) mod 2 ^ 32)%Z.

Definition ST2MS_float_10kHz (x : Q) : Q := (x * 1000 + 9999) / 10000.

(** Start-up tolerances of 20 and 8 degrees, a brake timeout of 5 s, not
    locked, the tune with its frequency changes. *)
Definition sample_start_conf : SC.start_config :=
  {| SC.startup_pitch_tolerance := 20; SC.startup_roll_tolerance := 8;
     SC.brake_timeout := 5; SC.multi_esc := false; SC.deadzone := 1 |}.

(** The thread around the controller's variables, as configured. *)
Definition thread_of (s : State) : Thread :=
  configure_lock (mkThread s sample_start_conf 0.02 0 0 false 0).

(** Waiting for the rider after start-up; and stopped by a duty fault. *)
Definition t_waiting : Thread :=
  thread_of (set_state FAULT_STARTUP (reset_vars configured)).

Definition t_duty_fault : Thread :=
  thread_of (set_state FAULT_DUTY (reset_vars configured)).


(** The IMU is ready and the motor is configured, with a switching
    frequency of 25 kHz. *)
Definition ready_platform (h : Hardware) : Platform :=
  mkPlatform h true false 25000.



(** ** Samples for the output and the lock *)

(** What runs before the saturation step in a running iteration. *)
Definition W_before_saturation : footprint :=
  fp_union W_read_inputs
    (fp_union W_check_faults
       (fp_union W_shape_setpoint
          (fp_union W_apply_tilts
             (fp_union W_pid_terms (fp_union W_pid_gains W_pid_output))))).

(** Cruising with the start click still to come. *)
Definition s_engaging : State := set_nt start_counter_clicks 2%Z s_cruising.


(** On both pads at rest with the FETs at 90 degrees C. *)
Definition overheated (k : Z) : Hardware :=
  {| chVTGetSystemTimeX := (10 * k)%Z;
     mc_interface_get_tot_current_directional_filtered := 0;
     imu_get_pitch := 0; imu_get_roll := 0; imu_get_yaw := 0;
     mc_interface_get_duty_cycle_now := 0;
     mc_interface_get_rpm := 0;
     mcpwm_foc_get_smooth_erpm := 0;
     ADC_EXT := 3; ADC_EXT2 := 3;
     GET_INPUT_VOLTAGE := 50;
     mc_interface_temp_fet_filtered := 90 |}.

(** Waiting for the rider with the board locked. *)
Definition t_locked : Thread := set_is_locked true t_waiting.
(* ================================================================= *)
(** * Properties *)

(** ** Comparisons of floats *)

Lemma Qltb_spec (a b : Q) : BoolSpec (a < b) (b <= a) (a <? b).
Proof. unfold Qltb. destruct (Qlt_le_dec a b); constructor; assumption. Qed.

Lemma Qgtb_spec (a b : Q) : BoolSpec (b < a) (a <= b) (a >? b).
Proof. unfold Qgtb. apply Qltb_spec. Qed.

Lemma Qleb_spec (a b : Q) : BoolSpec (a <= b) (b < a) (a <=? b).
Proof.
  unfold Qleb. destruct (Qltb_spec b a); constructor; assumption.
Qed.

Lemma Qgeb_spec (a b : Q) : BoolSpec (b <= a) (a < b) (a >=? b).
Proof.
  unfold Qgeb. destruct (Qltb_spec a b); constructor; assumption.
Qed.

Lemma Qeqb_spec (a b : Q) : BoolSpec (a == b) (~ a == b) (a =? b).
Proof. unfold Qeqb. destruct (Qeq_dec a b); constructor; assumption. Qed.

Lemma Qneb_spec (a b : Q) : BoolSpec (~ a == b) (a == b) (a !=? b).
Proof.
  unfold Qneb. destruct (Qeqb_spec a b); constructor; assumption.
Qed.

Lemma Qgtb_false (a b : Q) : a <= b -> (a >? b) = false.
Proof. intros H. destruct (Qgtb_spec a b) as [H' | _]; [lra | reflexivity]. Qed.

Lemma Qgtb_true (a b : Q) : b < a -> (a >? b) = true.
Proof. intros H. destruct (Qgtb_spec a b) as [_ | H']; [reflexivity | lra]. Qed.

Lemma Qltb_false (a b : Q) : b <= a -> (a <? b) = false.
Proof. intros H. destruct (Qltb_spec a b) as [H' | _]; [lra | reflexivity]. Qed.

Lemma Qltb_true (a b : Q) : a < b -> (a <? b) = true.
Proof. intros H. destruct (Qltb_spec a b) as [_ | H']; [reflexivity | lra]. Qed.

Lemma st_sub_diag (t : Z) : st_sub t t = 0%Z.
Proof. unfold st_sub. rewrite Z.sub_diag. reflexivity. Qed.

(** ** The footprint logic *)

Lemma upd_same {K V : Type} (eq_dec : forall a b : K, {a = b} + {a <> b})
    (k : K) (v : V) (f : K -> V) :
  upd eq_dec k v f k = v.
Proof. unfold upd. destruct (eq_dec k k); [reflexivity | contradiction]. Qed.

Lemma upd_other {K V : Type} (eq_dec : forall a b : K, {a = b} + {a <> b})
    (k : K) (v : V) (f : K -> V) (k' : K) :
  k <> k' -> upd eq_dec k v f k' = f k'.
Proof.
  intros H. unfold upd. destruct (eq_dec k k'); [contradiction | reflexivity].
Qed.

Lemma wr_sound {K : Type} (eq_dec : forall a b : K, {a = b} + {a <> b})
    (l : list K) (x y : K) :
  wr eq_dec l x = true -> wr eq_dec l y = false -> x <> y.
Proof. intros Hx Hy ->. congruence. Qed.

Lemma wr_in {K : Type} (eq_dec : forall a b : K, {a = b} + {a <> b})
    (l : list K) (x : K) :
  wr eq_dec l x = true <-> In x l.
Proof.
  unfold wr. rewrite existsb_exists. split.
  - intros [y [Hy E]]. destruct (eq_dec y x); [subst; assumption | discriminate].
  - intros H. exists x. split; [assumption | ].
    destruct (eq_dec x x); [reflexivity | contradiction].
Qed.

Lemma wr_app {K : Type} (eq_dec : forall a b : K, {a = b} + {a <> b})
    (l1 l2 : list K) (x : K) :
  wr eq_dec (l1 ++ l2) x = false ->
  wr eq_dec l1 x = false /\ wr eq_dec l2 x = false.
Proof. unfold wr. rewrite existsb_app. apply orb_false_elim. Qed.

Lemma wr_sub {K : Type} (eq_dec : forall a b : K, {a = b} + {a <> b})
    (l l' : list K) (x : K) :
  forallb (wr eq_dec l') l = true -> wr eq_dec l' x = false ->
  wr eq_dec l x = false.
Proof.
  intros Hsub Hx. destruct (wr eq_dec l x) eqn:E; [ | reflexivity].
  apply wr_in in E. rewrite forallb_forall in Hsub.
  specialize (Hsub x E). congruence.
Qed.

Lemma preserved_refl (W : footprint) (s : State) : preserved W s s.
Proof. constructor; reflexivity. Qed.

Lemma preserved_trans (W : footprint) (s s' s'' : State) :
  preserved W s s' -> preserved W s' s'' -> preserved W s s''.
Proof.
  intros [f1 t1 n1 b1 c1 c2 c3 c4 c5 c6] [f2 t2 n2 b2 d1 d2 d3 d4 d5 d6].
  constructor.
  - intros x H. rewrite f2, f1 by assumption. reflexivity.
  - intros x H. rewrite t2, t1 by assumption. reflexivity.
  - intros x H. rewrite n2, n1 by assumption. reflexivity.
  - intros x H. rewrite b2, b1 by assumption. reflexivity.
  - intros H. rewrite d1, c1 by assumption. reflexivity.
  - intros H. rewrite d2, c2 by assumption. reflexivity.
  - intros H. rewrite d3, c3 by assumption. reflexivity.
  - intros H. rewrite d4, c4 by assumption. reflexivity.
  - intros H. rewrite d5, c5 by assumption. reflexivity.
  - congruence.
Qed.

Lemma preserved_weaken (W W' : footprint) (s s' : State) :
  sub_footprint W W' = true -> preserved W s s' -> preserved W' s s'.
Proof.
  unfold sub_footprint. intros Hsub [f t n b c1 c2 c3 c4 c5 c6].
  apply andb_prop in Hsub as [Hsub Hc].
  apply andb_prop in Hsub as [Hsub Hb].
  apply andb_prop in Hsub as [Hsub Hn].
  apply andb_prop in Hsub as [Hf Ht].
  constructor.
  - intros x H. apply f. eapply wr_sub; eassumption.
  - intros x H. apply t. eapply wr_sub; eassumption.
  - intros x H. apply n. eapply wr_sub; eassumption.
  - intros x H. apply b. eapply wr_sub; eassumption.
  - intros H. apply c1. eapply wr_sub; eassumption.
  - intros H. apply c2. eapply wr_sub; eassumption.
  - intros H. apply c3. eapply wr_sub; eassumption.
  - intros H. apply c4. eapply wr_sub; eassumption.
  - intros H. apply c5. eapply wr_sub; eassumption.
  - assumption.
Qed.

(** Composition of two pieces with their own footprints. *)
Lemma preserved_seq (W1 W2 W : footprint) (s s' s'' : State) :
  sub_footprint W1 W = true -> sub_footprint W2 W = true ->
  preserved W1 s s' -> preserved W2 s' s'' -> preserved W s s''.
Proof.
  intros H1 H2 P1 P2. apply (preserved_trans W s s').
  - exact (preserved_weaken W1 W s s' H1 P1).
  - exact (preserved_weaken W2 W s' s'' H2 P2).
Qed.

Lemma wr_incl_l {K : Type} (eq_dec : forall a b : K, {a = b} + {a <> b})
    (l1 l2 : list K) :
  forallb (wr eq_dec (l1 ++ l2)) l1 = true.
Proof.
  apply forallb_forall. intros x Hx. apply wr_in. apply in_or_app.
  left. exact Hx.
Qed.

Lemma wr_incl_r {K : Type} (eq_dec : forall a b : K, {a = b} + {a <> b})
    (l1 l2 : list K) :
  forallb (wr eq_dec (l1 ++ l2)) l2 = true.
Proof.
  apply forallb_forall. intros x Hx. apply wr_in. apply in_or_app.
  right. exact Hx.
Qed.

Lemma sub_footprint_union_l (W1 W2 : footprint) :
  sub_footprint W1 (fp_union W1 W2) = true.
Proof.
  unfold sub_footprint, fp_union. cbn [Wf Wt Wn Wb Wc].
  rewrite !wr_incl_l. reflexivity.
Qed.

Lemma sub_footprint_union_r (W1 W2 : footprint) :
  sub_footprint W2 (fp_union W1 W2) = true.
Proof.
  unfold sub_footprint, fp_union. cbn [Wf Wt Wn Wb Wc].
  rewrite !wr_incl_r. reflexivity.
Qed.

Lemma preserved_union (W1 W2 : footprint) (s s' s'' : State) :
  preserved W1 s s' -> preserved W2 s' s'' ->
  preserved (fp_union W1 W2) s s''.
Proof.
  intros H1 H2. eapply preserved_seq; [ | | exact H1 | exact H2].
  - apply sub_footprint_union_l.
  - apply sub_footprint_union_r.
Qed.

Lemma preserved_set_fl (W : footprint) (s0 s : State) (x : fvar) (v : Q) :
  wr fvar_eq_dec (Wf W) x = true -> preserved W s0 s ->
  preserved W s0 (set_fl x v s).
Proof.
  intros Hx H. apply (preserved_trans W s0 s); [exact H | ].
  constructor; try reflexivity. intros y Hy. cbn [fl set_fl].
  apply upd_other. eapply wr_sound; eassumption.
Qed.

Lemma preserved_set_tm (W : footprint) (s0 s : State) (x : tvar) (v : Z) :
  wr tvar_eq_dec (Wt W) x = true -> preserved W s0 s ->
  preserved W s0 (set_tm x v s).
Proof.
  intros Hx H. apply (preserved_trans W s0 s); [exact H | ].
  constructor; try reflexivity. intros y Hy. cbn [tm set_tm].
  apply upd_other. eapply wr_sound; eassumption.
Qed.

Lemma preserved_set_nt (W : footprint) (s0 s : State) (x : ivar) (v : Z) :
  wr ivar_eq_dec (Wn W) x = true -> preserved W s0 s ->
  preserved W s0 (set_nt x v s).
Proof.
  intros Hx H. apply (preserved_trans W s0 s); [exact H | ].
  constructor; try reflexivity. intros y Hy. cbn [nt set_nt].
  apply upd_other. eapply wr_sound; eassumption.
Qed.

Lemma preserved_set_bl (W : footprint) (s0 s : State) (x : bvar) (v : bool) :
  wr bvar_eq_dec (Wb W) x = true -> preserved W s0 s ->
  preserved W s0 (set_bl x v s).
Proof.
  intros Hx H. apply (preserved_trans W s0 s); [exact H | ].
  constructor; try reflexivity. intros y Hy. cbn [bl set_bl].
  apply upd_other. eapply wr_sound; eassumption.
Qed.

Lemma preserved_set_state (W : footprint) (s0 s : State) (v : BalanceState) :
  wr comp_eq_dec (Wc W) c_state = true -> preserved W s0 s ->
  preserved W s0 (set_state v s).
Proof.
  intros Hx H. apply (preserved_trans W s0 s); [exact H | ].
  constructor; try reflexivity. congruence.
Qed.

Lemma preserved_set_mode (W : footprint) (s0 s : State)
    (v : SetpointAdjustmentType) :
  wr comp_eq_dec (Wc W) c_mode = true -> preserved W s0 s ->
  preserved W s0 (set_setpointAdjustmentType v s).
Proof.
  intros Hx H. apply (preserved_trans W s0 s); [exact H | ].
  constructor; try reflexivity. congruence.
Qed.

Lemma preserved_set_switch (W : footprint) (s0 s : State) (v : SwitchState) :
  wr comp_eq_dec (Wc W) c_switch = true -> preserved W s0 s ->
  preserved W s0 (set_switch_state v s).
Proof.
  intros Hx H. apply (preserved_trans W s0 s); [exact H | ].
  constructor; try reflexivity. congruence.
Qed.

Lemma preserved_set_ring (W : footprint) (s0 s : State) (v : Z -> Q) :
  wr comp_eq_dec (Wc W) c_ring = true -> preserved W s0 s ->
  preserved W s0 (set_accelhist v s).
Proof.
  intros Hx H. apply (preserved_trans W s0 s); [exact H | ].
  constructor; try reflexivity. congruence.
Qed.

Lemma preserved_set_biquad (W : footprint) (s0 s : State) (v : Biquad) :
  wr comp_eq_dec (Wc W) c_biquad = true -> preserved W s0 s ->
  preserved W s0 (set_torquetilt_current_biquad v s).
Proof.
  intros Hx H. apply (preserved_trans W s0 s); [exact H | ].
  constructor; try reflexivity. congruence.
Qed.

Lemma preserved_let_state (W : footprint) (s0 : State) (E : State)
    (B : State -> State) :
  preserved W s0 E -> (forall s, preserved W s0 s -> preserved W s0 (B s)) ->
  preserved W s0 (let s := E in B s).
Proof. intros H1 H2. exact (H2 E H1). Qed.

Lemma preserved_let_value (W : footprint) (s0 : State) (A : Type) (E : A)
    (B : A -> State) :
  (forall v, preserved W s0 (B v)) -> preserved W s0 (let v := E in B v).
Proof. intros H. exact (H E). Qed.

Lemma preserved_pair (W : footprint) (s0 : State) (A : Type) (p : A)
    (q : State) (B : A -> State -> State) :
  preserved W s0 q -> (forall s, preserved W s0 s -> preserved W s0 (B p s)) ->
  preserved W s0 (let '(a, b) := (p, q) in B a b).
Proof. intros H1 H2. exact (H2 q H1). Qed.

Lemma preserved_opt_let_state (W : footprint) (s0 : State) (E : State)
    (B : State -> option State) :
  preserved W s0 E ->
  (forall s, preserved W s0 s -> preserved_opt W s0 (B s)) ->
  preserved_opt W s0 (let s := E in B s).
Proof. intros H1 H2. exact (H2 E H1). Qed.

Lemma preserved_opt_let_value (W : footprint) (s0 : State) (A : Type) (E : A)
    (B : A -> option State) :
  (forall v, preserved_opt W s0 (B v)) -> preserved_opt W s0 (let v := E in B v).
Proof. intros H. exact (H E). Qed.

Lemma preserved_opt_let_opt (W : footprint) (s0 : State) (E : option State)
    (B : option State -> option State) :
  preserved_opt W s0 E ->
  (forall o, preserved_opt W s0 o -> preserved_opt W s0 (B o)) ->
  preserved_opt W s0 (let o := E in B o).
Proof. intros H1 H2. exact (H2 E H1). Qed.

(** The footprint of straight-line code: one statement at a time, with the
    intermediate states known only through what they preserve. *)
Ltac fp :=
  cbv beta;
  lazymatch goal with
  | |- preserved _ ?s ?s => apply preserved_refl
  | H : preserved ?W ?s0 ?s |- preserved ?W ?s0 ?s => exact H
  | |- preserved ?W ?s0 (set_fl ?x ?v ?s) =>
      apply (preserved_set_fl W s0 s x v); [reflexivity | fp]
  | |- preserved ?W ?s0 (set_tm ?x ?v ?s) =>
      apply (preserved_set_tm W s0 s x v); [reflexivity | fp]
  | |- preserved ?W ?s0 (set_nt ?x ?v ?s) =>
      apply (preserved_set_nt W s0 s x v); [reflexivity | fp]
  | |- preserved ?W ?s0 (set_bl ?x ?v ?s) =>
      apply (preserved_set_bl W s0 s x v); [reflexivity | fp]
  | |- preserved ?W ?s0 (set_state ?v ?s) =>
      apply (preserved_set_state W s0 s v); [reflexivity | fp]
  | |- preserved ?W ?s0 (set_setpointAdjustmentType ?v ?s) =>
      apply (preserved_set_mode W s0 s v); [reflexivity | fp]
  | |- preserved ?W ?s0 (set_switch_state ?v ?s) =>
      apply (preserved_set_switch W s0 s v); [reflexivity | fp]
  | |- preserved ?W ?s0 (set_accelhist ?v ?s) =>
      apply (preserved_set_ring W s0 s v); [reflexivity | fp]
  | |- preserved ?W ?s0 (set_torquetilt_current_biquad ?v ?s) =>
      apply (preserved_set_biquad W s0 s v); [reflexivity | fp]
  | |- preserved ?W ?s0 (if ?c then _ else _) => destruct c; fp
  | |- preserved ?W ?s0 (let x := ?E in @?B x) =>
      lazymatch type of E with
      | State =>
          apply (preserved_let_state W s0 E B);
          [fp | let s := fresh "s" in let H := fresh "H" in intros s H; fp]
      | _ =>
          apply (preserved_let_value W s0 _ E B);
          let v := fresh "v" in intros v; fp
      end
  | |- preserved ?W ?s0 (match ?E with (a, b) => @?B a b end) =>
      lazymatch type of E with
      | (_ * State)%type =>
          lazymatch E with
          | (if ?c then _ else _) => destruct c; fp
          | (?p, ?q) =>
              apply (preserved_pair W s0 _ p q B);
              [fp | let s := fresh "s" in let H := fresh "H" in intros s H; fp]
          | _ => cbv zeta; fp
          end
      | _ => destruct E as [? ?]; fp
      end
  | |- preserved_opt ?W ?s0 (Some ?e) =>
      change (preserved W s0 e); fp
  | |- preserved_opt ?W ?s0 None => exact I
  | |- preserved_opt ?W ?s0 (if ?c then _ else _) => destruct c; fp
  | |- preserved_opt ?W ?s0 (let x := ?E in @?B x) =>
      lazymatch type of E with
      | State =>
          apply (preserved_opt_let_state W s0 E B);
          [fp | let s := fresh "s" in let H := fresh "H" in intros s H; fp]
      | option State =>
          apply (preserved_opt_let_opt W s0 E B);
          [fp | let o := fresh "o" in let H := fresh "H" in intros o H; fp]
      | _ =>
          apply (preserved_opt_let_value W s0 _ E B);
          let v := fresh "v" in intros v; fp
      end
  | H : preserved_opt ?W ?s0 ?o
    |- preserved_opt ?W ?s0 (match ?o with Some _ => _ | None => _ end) =>
      destruct o; cbn [preserved_opt] in H; fp
  | |- preserved_opt ?W ?s0 (match ?E with Some _ => _ | None => _ end) =>
      destruct E; fp
  end.

Lemma cmd_preserves_skip (W : footprint) : cmd_preserves W skip.
Proof. intros s0 s H. exact H. Qed.

Lemma cmd_preserves_return (W : footprint) (A : Type) (b : bool) :
  cmd_preserves W (@return_ A b).
Proof. intros s0 s H. exact H. Qed.

Lemma cmd_preserves_assign (W : footprint) (f : State -> State) :
  (forall s0 s, preserved W s0 s -> preserved W s0 (f s)) ->
  cmd_preserves W (assign f).
Proof. intros Hf s0 s H. exact (Hf s0 s H). Qed.

Lemma cmd_preserves_bind (W : footprint) (A B : Type) (c : cmd A)
    (k : A -> cmd B) :
  cmd_preserves W c -> (forall a, cmd_preserves W (k a)) ->
  cmd_preserves W (bind c k).
Proof.
  intros Hc Hk s0 s H. unfold bind. specialize (Hc s0 s H).
  destruct (c s) as [[a | b] s']; cbn [snd] in *.
  - exact (Hk a s0 s' Hc).
  - exact Hc.
Qed.

Lemma cmd_preserves_get (W : footprint) (B : Type) (k : State -> cmd B) :
  (forall s, cmd_preserves W (k s)) -> cmd_preserves W (bind get k).
Proof. intros Hk s0 s H. unfold bind, get. exact (Hk s s0 s H). Qed.

Lemma call_preserves (W : footprint) (c : cmd unit) (s : State) :
  cmd_preserves W c -> preserved W s (snd (call c s)).
Proof.
  intros Hc. unfold call. specialize (Hc s s (preserved_refl W s)).
  destruct (c s) as [[a | b] s']; exact Hc.
Qed.

(** The footprint of a command, statement by statement. *)
Ltac cfp :=
  cbv beta zeta;
  lazymatch goal with
  | |- cmd_preserves _ skip => apply cmd_preserves_skip
  | |- cmd_preserves _ (return_ _) => apply cmd_preserves_return
  | |- cmd_preserves _ (assign _) =>
      apply cmd_preserves_assign; intros ? ? ?; fp
  | |- cmd_preserves _ (bind get _) =>
      apply cmd_preserves_get; intros ?; cfp
  | |- cmd_preserves _ (bind _ _) =>
      apply cmd_preserves_bind; [cfp | intros ?; cfp]
  | |- cmd_preserves _ (if ?c then _ else _) => destruct c; cfp
  end.

(** ** Footprints of the pieces of the loop *)

Section Footprints.

Variable ST2MS : Z -> Z.
Variable SIGN : Q -> Q.

Lemma read_sensors_footprint (h : Hardware) (s : State) :
  preserved W_read_sensors s (read_sensors h s).
Proof. cbv delta [read_sensors] beta. fp. Qed.

Lemma update_yaw_footprint (h : Hardware) (s : State) :
  preserved W_update_yaw s (update_yaw SIGN h s).
Proof. cbv delta [update_yaw] beta. fp. Qed.

Lemma update_roll_aggregate_footprint (s : State) :
  preserved W_update_roll_aggregate s (update_roll_aggregate s).
Proof. cbv delta [update_roll_aggregate] beta. fp. Qed.

Lemma update_acceleration_footprint (h : Hardware) (s : State) :
  preserved W_update_acceleration s (update_acceleration h s).
Proof. cbv delta [update_acceleration] beta. fp. Qed.

Lemma check_adcs_footprint (h : Hardware) (s : State) :
  preserved W_check_adcs s
    (set_switch_state (fst (check_adcs h s)) (snd (check_adcs h s))).
Proof. unfold check_adcs. cbv zeta. cbn [fst snd]. fp. Qed.

Lemma check_adcs_conf (h : Hardware) (s s' : State) :
  balance_conf s' = balance_conf s ->
  fst (check_adcs h s') = fst (check_adcs h s).
Proof. intros E. unfold check_adcs. cbn. rewrite E. reflexivity. Qed.

(** The steps of [read_inputs] after the sensors are read. *)
Definition after_sensors (h : Hardware) (s : State) : State :=
  let s := update_yaw SIGN h s in
  let s := update_roll_aggregate s in
  let s := update_acceleration h s in
  set_switch_state (fst (check_adcs h s)) (snd (check_adcs h s)).

Definition W_after_sensors : footprint :=
  fp_union W_update_yaw
    (fp_union W_update_roll_aggregate
       (fp_union W_update_acceleration W_check_adcs)).

Lemma read_inputs_split (h : Hardware) (s : State) :
  read_inputs SIGN h s = after_sensors h (read_sensors h s).
Proof.
  unfold read_inputs, after_sensors. cbv zeta.
  destruct (check_adcs h _) as [sw s']. reflexivity.
Qed.

Lemma after_sensors_footprint (h : Hardware) (s : State) :
  preserved W_after_sensors s (after_sensors h s).
Proof.
  unfold after_sensors. cbv zeta.
  eapply preserved_union; [apply update_yaw_footprint | ].
  eapply preserved_union; [apply update_roll_aggregate_footprint | ].
  eapply preserved_union;
    [apply update_acceleration_footprint | apply check_adcs_footprint].
Qed.

Lemma read_inputs_footprint (h : Hardware) (s : State) :
  preserved W_read_inputs s (read_inputs SIGN h s).
Proof.
  rewrite read_inputs_split.
  eapply preserved_union;
    [apply read_sensors_footprint | apply after_sensors_footprint].
Qed.

Lemma check_faults_preserves (ignoreTimers : bool) :
  cmd_preserves W_check_faults (check_faults ST2MS ignoreTimers).
Proof.
  cbv delta [check_faults check_switch_full check_reverse_stop
               check_switch_half check_pitch check_roll check_duty] beta.
  cfp.
Qed.

Lemma check_faults_footprint (ignoreTimers : bool) (s : State) :
  preserved W_check_faults s (snd (call (check_faults ST2MS ignoreTimers) s)).
Proof. apply call_preserves. apply check_faults_preserves. Qed.

Lemma shape_setpoint_footprint (h : Hardware) (s : State) :
  preserved W_shape_setpoint s (shape_setpoint ST2MS h s).
Proof.
  cbv delta [shape_setpoint calculate_setpoint_interpolated
               calculate_setpoint_target] beta.
  fp.
Qed.

Lemma apply_noseangling_footprint (s : State) :
  preserved W_apply_noseangling s (apply_noseangling SIGN s).
Proof. cbv delta [apply_noseangling] beta. fp. Qed.

Lemma apply_torquetilt_footprint (s : State) :
  preserved W_apply_torquetilt s (apply_torquetilt SIGN s).
Proof. cbv delta [apply_torquetilt] beta. fp. Qed.

Lemma apply_turntilt_footprint (s : State) :
  preserved_opt W_apply_turntilt s (apply_turntilt SIGN s).
Proof. cbv delta [apply_turntilt turntilt_shape_target] beta. fp. Qed.

Lemma apply_tilts_footprint (s : State) :
  preserved_opt W_apply_tilts s (apply_tilts SIGN s).
Proof.
  unfold apply_tilts.
  destruct (_ >=? _)%Z; [ | apply preserved_refl].
  pose proof (apply_noseangling_footprint s) as H1.
  pose proof (apply_torquetilt_footprint (apply_noseangling SIGN s)) as H2.
  pose proof (apply_turntilt_footprint
                (apply_torquetilt SIGN (apply_noseangling SIGN s))) as H3.
  destruct (apply_turntilt SIGN _) as [s' | ]; [ | exact I].
  cbn [preserved_opt] in *.
  apply (preserved_union _ _ _ _ _ H1).
  exact (preserved_union _ _ _ _ _ H2 H3).
Qed.

Lemma pid_terms_footprint (s : State) :
  preserved W_pid_terms s (pid_terms s).
Proof. cbv delta [pid_terms] beta. fp. Qed.

Lemma pid_gains_footprint (s : State) :
  preserved W_pid_gains s (pid_gains s).
Proof. cbv delta [pid_gains] beta. fp. Qed.

Lemma pid_output_footprint (s : State) :
  preserved W_pid_output s (pid_output SIGN s).
Proof. cbv delta [pid_output] beta. fp. Qed.

Lemma saturate_output_footprint (s : State) :
  preserved W_saturate_output s (saturate_output s).
Proof. cbv delta [saturate_output] beta. fp. Qed.

Lemma command_current_footprint (s : State) :
  preserved W_command_current s (command_current s).
Proof. cbv delta [command_current] beta. fp. Qed.

Lemma pid_block_footprint (s : State) :
  preserved W_pid_block s (pid_block SIGN s).
Proof.
  unfold pid_block. cbv zeta.
  eapply preserved_union; [apply pid_terms_footprint | ].
  eapply preserved_union; [apply pid_gains_footprint | ].
  eapply preserved_union; [apply pid_output_footprint | ].
  eapply preserved_union;
    [apply saturate_output_footprint | apply command_current_footprint].
Qed.

(** What runs after the fault check. *)
Lemma control_footprint (h : Hardware) (s : State) :
  preserved_opt W_control s
    (match apply_tilts SIGN (shape_setpoint ST2MS h s) with
     | None => None
     | Some s' => Some (pid_block SIGN s')
     end).
Proof.
  pose proof (shape_setpoint_footprint h s) as H1.
  pose proof (apply_tilts_footprint (shape_setpoint ST2MS h s)) as H2.
  destruct (apply_tilts SIGN _) as [s' | ]; [ | exact I].
  cbn [preserved_opt] in *.
  apply (preserved_union _ _ _ _ _ H1).
  exact (preserved_union _ _ _ _ _ H2 (pid_block_footprint s')).
Qed.

Lemma running_branch_footprint (h : Hardware) (s : State) :
  preserved_opt W_running_branch s (running_branch ST2MS SIGN h s).
Proof.
  unfold running_branch.
  pose proof (check_faults_footprint false s) as H1.
  destruct (call (check_faults ST2MS false) s) as [faulted s1].
  cbn [snd] in H1. destruct faulted.
  - cbn [preserved_opt].
    exact (preserved_weaken _ _ _ _ (sub_footprint_union_l _ _) H1).
  - cbv zeta. pose proof (control_footprint h s1) as H2.
    destruct (apply_tilts SIGN _) as [s' | ]; [ | exact I].
    cbn [preserved_opt] in *. exact (preserved_union _ _ _ _ _ H1 H2).
Qed.

Lemma running_tick_footprint (h : Hardware) (s : State) :
  preserved_opt W_running_tick s (running_tick ST2MS SIGN h s).
Proof.
  unfold running_tick.
  pose proof (read_inputs_footprint h s) as H1.
  pose proof (running_branch_footprint h (read_inputs SIGN h s)) as H2.
  destruct (running_branch ST2MS SIGN h _) as [s' | ]; [ | exact I].
  cbn [preserved_opt] in *. exact (preserved_union _ _ _ _ _ H1 H2).
Qed.

Lemma reset_vars_footprint (s : State) :
  preserved W_reset_vars s (reset_vars s).
Proof. cbv delta [reset_vars] beta. fp. Qed.

(** *** The configuration is carried along *)

Lemma same_config_refl (c : State) : same_config c c.
Proof. repeat split; reflexivity. Qed.

Lemma same_config_preserved (W : footprint) (c s s' : State) :
  forallb (fun x => negb (wr fvar_eq_dec (Wf W) x)) config_fvars = true ->
  forallb (fun x => negb (wr ivar_eq_dec (Wn W) x)) config_ivars = true ->
  forallb (fun x => negb (wr bvar_eq_dec (Wb W) x)) config_bvars = true ->
  preserved W s s' -> same_config c s -> same_config c s'.
Proof.
  intros Df Dn Db P [Hc [Hf [Hn Hb]]].
  rewrite forallb_forall in Df, Dn, Db.
  repeat split.
  - rewrite (pres_conf _ _ _ P). exact Hc.
  - intros x Hx. rewrite <- (Hf x Hx). apply (pres_fl _ _ _ P).
    apply negb_true_iff. apply Df. apply wr_in in Hx. exact Hx.
  - intros x Hx. rewrite <- (Hn x Hx). apply (pres_nt _ _ _ P).
    apply negb_true_iff. apply Dn. apply wr_in in Hx. exact Hx.
  - intros x Hx. rewrite <- (Hb x Hx). apply (pres_bl _ _ _ P).
    apply negb_true_iff. apply Db. apply wr_in in Hx. exact Hx.
Qed.

Lemma same_config_reset_vars (c s : State) :
  same_config c s -> same_config c (reset_vars s).
Proof.
  apply (same_config_preserved W_reset_vars);
    [reflexivity | reflexivity | reflexivity | apply reset_vars_footprint].
Qed.

Lemma same_config_running_tick (c s s' : State) (h : Hardware) :
  running_tick ST2MS SIGN h s = Some s' ->
  same_config c s -> same_config c s'.
Proof.
  intros E. pose proof (running_tick_footprint h s) as P.
  rewrite E in P. cbn [preserved_opt] in P.
  apply (same_config_preserved W_running_tick);
    [reflexivity | reflexivity | reflexivity | exact P].
Qed.

Lemma reachable_same_config (c s : State) :
  reachable ST2MS SIGN c s -> same_config c s.
Proof.
  induction 1 as [s Hs | s h s' _ IH _ E].
  - apply same_config_reset_vars. exact Hs.
  - exact (same_config_running_tick c s s' h E IH).
Qed.

End Footprints.

(** ** What [app_balance_configure] computes *)

Definition W_configure_step_sizes : footprint :=
  mkFootprint
    [startup_step_size; tiltback_duty_step_size; tiltback_hv_step_size;
     tiltback_lv_step_size; tiltback_return_step_size;
     torquetilt_on_step_size; torquetilt_off_step_size; turntilt_step_size;
     noseangling_step_size] [] [] [] [].

Definition W_configure_start : footprint :=
  mkFootprint [reverse_tolerance; reverse_stop_step_size] []
    [start_counter_clicks_max; click_current] [use_reverse_stop] [].

Definition W_configure_soft_start : footprint :=
  mkFootprint [center_jerk_strength] [] [center_jerk_duration_ms]
    [use_soft_start] [].

Definition W_configure_switch_faults : footprint :=
  mkFootprint [] [] [] [allow_high_speed_full_switch_faults] [].

Definition W_configure_atr : footprint :=
  mkFootprint [shedfactor] [] [] [] [].

Definition W_configure_turntilt : footprint :=
  mkFootprint
    [yaw_aggregate_target; tuntilt_boost_per_erpm; cutback_minspeed;
     roll_aggregate_threshold] [] [] [cutback_enable] [].

Definition W_configure_gain_caps : footprint :=
  mkFootprint [kp_acc; ki_acc; kd_acc] [] [] [] [].

Definition W_configure_torque_response : footprint :=
  mkFootprint
    [tt_pid_intensity; tt_strength_uphill; tt_strength_downhill;
     integral_tt_impact_downhill; integral_tt_impact_uphill] [] [] [] [].

Definition W_configure_d_pt1 : footprint :=
  mkFootprint [d_pt1_lowpass_k] [] [] [] [].

Definition W_configure_pid_toning : footprint :=
  mkFootprint
    [center_boost_angle; center_boost_kp_adder; accel_boost_threshold;
     accel_boost_threshold2; accel_boost_intensity; max_brake_amps;
     max_derivative] [] [] [] [].

Definition W_configure_limits : footprint :=
  mkFootprint
    [ttt_brake_ratio; tiltback_variable; tiltback_variable_max_erpm;
     mc_current_max; mc_current_min; mc_max_temp_fet] [] [erpm_sign] [] [].

Lemma configure_step_sizes_footprint (s : State) :
  preserved W_configure_step_sizes s (configure_step_sizes s).
Proof. cbv delta [configure_step_sizes] beta. fp. Qed.

Lemma configure_start_footprint (s : State) :
  preserved W_configure_start s (configure_start s).
Proof. cbv delta [configure_start] beta. fp. Qed.

Lemma configure_soft_start_footprint (s : State) :
  preserved W_configure_soft_start s (configure_soft_start s).
Proof. cbv delta [configure_soft_start] beta. fp. Qed.

Lemma configure_switch_faults_footprint (s : State) :
  preserved W_configure_switch_faults s (configure_switch_faults s).
Proof. cbv delta [configure_switch_faults] beta. fp. Qed.

Lemma configure_atr_footprint (s : State) :
  preserved W_configure_atr s (configure_atr s).
Proof. cbv delta [configure_atr] beta. fp. Qed.

Lemma configure_turntilt_footprint (s : State) :
  preserved W_configure_turntilt s (configure_turntilt s).
Proof. cbv delta [configure_turntilt] beta. fp. Qed.

Lemma configure_gain_caps_footprint (s : State) :
  preserved W_configure_gain_caps s (configure_gain_caps s).
Proof. cbv delta [configure_gain_caps] beta. fp. Qed.

Lemma configure_torque_response_footprint (s : State) :
  preserved W_configure_torque_response s (configure_torque_response s).
Proof. cbv delta [configure_torque_response] beta. fp. Qed.

Lemma configure_d_pt1_footprint (s : State) :
  preserved W_configure_d_pt1 s (configure_d_pt1 s).
Proof. cbv delta [configure_d_pt1] beta. fp. Qed.

Lemma configure_pid_toning_footprint (mc : mc_configuration) (s : State) :
  preserved W_configure_pid_toning s (configure_pid_toning mc s).
Proof. cbv delta [configure_pid_toning] beta. fp. Qed.

Lemma configure_limits_footprint (mc : mc_configuration) (s : State) :
  preserved W_configure_limits s (configure_limits mc s).
Proof. cbv delta [configure_limits] beta. fp. Qed.

(** Reading a variable after the parts that do not write it. *)
Ltac skip_parts :=
  repeat first
    [ rewrite (pres_fl _ _ _ (configure_limits_footprint _ _)) by reflexivity
    | rewrite (pres_fl _ _ _ (configure_pid_toning_footprint _ _))
        by reflexivity
    | rewrite (pres_fl _ _ _ (configure_d_pt1_footprint _)) by reflexivity
    | rewrite (pres_fl _ _ _ (configure_torque_response_footprint _))
        by reflexivity
    | rewrite (pres_fl _ _ _ (configure_gain_caps_footprint _)) by reflexivity
    | rewrite (pres_fl _ _ _ (configure_turntilt_footprint _)) by reflexivity
    | rewrite (pres_fl _ _ _ (configure_atr_footprint _)) by reflexivity
    | rewrite (pres_fl _ _ _ (configure_switch_faults_footprint _))
        by reflexivity
    | rewrite (pres_fl _ _ _ (configure_soft_start_footprint _))
        by reflexivity
    | rewrite (pres_fl _ _ _ (configure_start_footprint _)) by reflexivity
    | rewrite (pres_fl _ _ _ (configure_step_sizes_footprint _))
        by reflexivity
    | rewrite (pres_bl _ _ _ (configure_limits_footprint _ _)) by reflexivity
    | rewrite (pres_bl _ _ _ (configure_pid_toning_footprint _ _))
        by reflexivity
    | rewrite (pres_bl _ _ _ (configure_d_pt1_footprint _)) by reflexivity
    | rewrite (pres_bl _ _ _ (configure_torque_response_footprint _))
        by reflexivity
    | rewrite (pres_bl _ _ _ (configure_gain_caps_footprint _)) by reflexivity
    | rewrite (pres_bl _ _ _ (configure_turntilt_footprint _)) by reflexivity
    | rewrite (pres_bl _ _ _ (configure_atr_footprint _)) by reflexivity
    | rewrite (pres_conf _ _ _ (configure_limits_footprint _ _))
    | rewrite (pres_conf _ _ _ (configure_pid_toning_footprint _ _))
    | rewrite (pres_conf _ _ _ (configure_d_pt1_footprint _))
    | rewrite (pres_conf _ _ _ (configure_torque_response_footprint _))
    | rewrite (pres_conf _ _ _ (configure_gain_caps_footprint _))
    | rewrite (pres_conf _ _ _ (configure_turntilt_footprint _))
    | rewrite (pres_conf _ _ _ (configure_atr_footprint _))
    | rewrite (pres_conf _ _ _ (configure_switch_faults_footprint _))
    | rewrite (pres_conf _ _ _ (configure_soft_start_footprint _))
    | rewrite (pres_conf _ _ _ (configure_start_footprint _))
    | rewrite (pres_conf _ _ _ (configure_step_sizes_footprint _)) ].

Lemma app_balance_configure_conf (conf : balance_config)
    (mc : mc_configuration) (s : State) :
  balance_conf (app_balance_configure conf mc s) = conf.
Proof. unfold app_balance_configure. cbv zeta. skip_parts. reflexivity. Qed.

(** The caps on the gains: the configured gain, at most 10, 0.01 and 1500. *)
Lemma app_balance_configure_gain_caps (conf : balance_config)
    (mc : mc_configuration) (s : State) :
  let c := app_balance_configure conf mc s in
  fl c kp_acc = fminf (BC.kp conf) 10 /\
  fl c ki_acc = fminf (BC.ki conf) 0.01 /\
  fl c kd_acc = fminf (BC.kd conf) 1500.
Proof.
  unfold app_balance_configure. cbv zeta.
  repeat split; skip_parts; unfold configure_gain_caps; cbv zeta;
    cbn [fl set_fl]; rewrite ?upd_same; skip_parts;
    try reflexivity.
Qed.

(** ** The fault detector *)

Lemma bind_next {A B : Type} (c : cmd A) (k : A -> cmd B) (s s' : State)
    (a : A) :
  c s = (Next a, s') -> bind c k s = k a s'.
Proof. intros E. unfold bind. rewrite E. reflexivity. Qed.

Lemma bind_return {A B : Type} (c : cmd A) (k : A -> cmd B) (s s' : State)
    (b : bool) :
  c s = (Return b, s') -> bind c k s = (Return b, s').
Proof. intros E. unfold bind. rewrite E. reflexivity. Qed.

Lemma fault_timers_sub : sub_footprint W_fault_timers W_check_faults = true.
Proof. reflexivity. Qed.

Lemma fault_check_bind (c1 c2 : cmd unit) :
  fault_check c1 -> fault_check c2 -> fault_check (bind c1 (fun _ => c2)).
Proof.
  intros [n1 f1 t1 i1] [n2 f2 t2 i2]. constructor.
  - intros s u s' E. unfold bind in E.
    destruct (c1 s) as [[u1 | b1] s1] eqn:E1; [ | discriminate E].
    exact (preserved_trans _ _ _ _ (n1 _ _ _ E1) (n2 _ _ _ E)).
  - intros s s' E. unfold bind in E.
    destruct (c1 s) as [[u1 | b1] s1] eqn:E1.
    + exact (preserved_trans _ _ _ _ (n1 _ _ _ E1) (f2 _ _ E)).
    + injection E as -> ->. exact (f1 _ _ E1).
  - intros s s' E. unfold bind in E.
    destruct (c1 s) as [[u1 | b1] s1] eqn:E1.
    + destruct (t2 _ _ E) as [Hf Hp]. split; [exact Hf | ].
      eapply preserved_trans; [ | exact Hp].
      exact (preserved_weaken _ _ _ _ fault_timers_sub (n1 _ _ _ E1)).
    + injection E as -> ->. exact (t1 _ _ E1).
  - intros s st0. unfold bind. rewrite i1.
    destruct (c1 s) as [[u1 | [ | ]] s1]; cbn [with_state]; try reflexivity.
    apply i2.
Qed.

Lemma fault_check_return_false : fault_check (return_ false).
Proof.
  constructor; unfold return_.
  - intros s u s' E. discriminate E.
  - intros s s' E. injection E as <-. apply preserved_refl.
  - intros s s' E. discriminate E.
  - intros s st0. reflexivity.
Qed.

(** One check, path by path. *)
Ltac fault_check_paths :=
  cbv beta zeta;
  cbn [fl tm nt bl switch_state setpointAdjustmentType balance_conf
         set_state];
  repeat match goal with
         | |- context [if ?c then _ else _] => destruct c
         | H : context [if ?c then _ else _] |- _ => destruct c
         end;
  cbv beta zeta in *.

Ltac fault_check_block :=
  constructor; intros;
  cbv delta [check_switch_full check_reverse_stop check_switch_half
               check_pitch check_roll check_duty
               bind get assign skip return_ with_state] beta iota zeta in *;
  fault_check_paths;
  try discriminate;
  try (match goal with
       | E : (_, _) = (_, _) |- _ => inversion E; subst; clear E
       end;
       lazymatch goal with
       | |- _ /\ _ => split; [reflexivity | fp]
       | |- _ => fp
       end);
  try reflexivity.

Section Faults.

Variable ST2MS : Z -> Z.

Lemma check_switch_full_fault_check (ignoreTimers : bool) :
  fault_check (check_switch_full ST2MS ignoreTimers).
Proof. fault_check_block. Qed.

Lemma check_reverse_stop_fault_check :
  fault_check (check_reverse_stop ST2MS).
Proof. fault_check_block. Qed.

Lemma check_switch_half_fault_check (ignoreTimers : bool) :
  fault_check (check_switch_half ST2MS ignoreTimers).
Proof. fault_check_block. Qed.

Lemma check_pitch_fault_check (ignoreTimers : bool) :
  fault_check (check_pitch ST2MS ignoreTimers).
Proof. fault_check_block. Qed.

Lemma check_roll_fault_check (ignoreTimers : bool) :
  fault_check (check_roll ST2MS ignoreTimers).
Proof. fault_check_block. Qed.

Lemma check_duty_fault_check (ignoreTimers : bool) :
  fault_check (check_duty ST2MS ignoreTimers).
Proof. fault_check_block. Qed.

Lemma check_faults_fault_check (ignoreTimers : bool) :
  fault_check (check_faults ST2MS ignoreTimers).
Proof.
  unfold check_faults.
  apply fault_check_bind; [apply check_switch_full_fault_check | ].
  apply fault_check_bind; [apply check_reverse_stop_fault_check | ].
  apply fault_check_bind; [apply check_switch_half_fault_check | ].
  apply fault_check_bind; [apply check_pitch_fault_check | ].
  apply fault_check_bind; [apply check_roll_fault_check | ].
  apply fault_check_bind; [apply check_duty_fault_check | ].
  apply fault_check_return_false.
Qed.

(** C10. [check_faults] returns [true] if and only if it assigns a fault
    value to [state]: the value of [state] after the call is then a fault
    that does not depend on the value before the call.  When it returns
    [true], [state] holds a fault and nothing else but the fault timers has
    changed; when it returns [false], [state] is unchanged and nothing but
    the fault timers has changed. *)
Theorem check_faults_true_iff_fault_assigned
    (ignoreTimers : bool) (s : State) :
  let r := call (check_faults ST2MS ignoreTimers) s in
  (fst r = true <->
   exists f,
     is_fault f = true /\
     forall st0,
       state (snd (call (check_faults ST2MS ignoreTimers) (set_state st0 s)))
       = f) /\
  (fst r = true ->
   is_fault (state (snd r)) = true /\ preserved W_check_faults s (snd r)) /\
  (fst r = false ->
   state (snd r) = state s /\ preserved W_fault_timers s (snd r)).
Proof.
  destruct (check_faults_fault_check ignoreTimers) as [Hn Hf Ht Hi].
  cbv zeta. unfold call.
  destruct (check_faults ST2MS ignoreTimers s) as [[u | [ | ]] s'] eqn:E;
    cbn [fst snd].
  - (* falling off the end *)
    pose proof (Hn _ _ _ E) as P. split; [split | split].
    + discriminate.
    + intros [f [Hfault Hall]]. specialize (Hall RUNNING).
      rewrite Hi, E in Hall. cbn in Hall. subst f. discriminate Hfault.
    + discriminate.
    + intros _. split; [exact (pres_state _ _ _ P eq_refl) | exact P].
  - (* a fault is raised *)
    destruct (Ht _ _ E) as [Hfault P]. split; [split | split].
    + intros _. exists (state s'). split; [exact Hfault | ].
      intros st0. rewrite Hi, E. reflexivity.
    + reflexivity.
    + intros _. split; assumption.
    + discriminate.
  - (* no fault *)
    pose proof (Hf _ _ E) as P. split; [split | split].
    + discriminate.
    + intros [f [Hfault Hall]]. specialize (Hall RUNNING).
      rewrite Hi, E in Hall. cbn in Hall. subst f. discriminate Hfault.
    + discriminate.
    + intros _. split; [exact (pres_state _ _ _ P eq_refl) | exact P].
Qed.

(** *** The checks one by one *)

(** [step_check tac] runs the first check of a sequence that falls through;
    [tac] proves that it does. *)
Ltac step_check tac :=
  lazymatch goal with
  | |- context [bind ?c ?k ?s1] =>
      let E := fresh "E" in
      eassert (E : c s1 = (Next _, _)) by tac;
      rewrite (bind_next c k s1 _ _ E); cbv beta; clear E
  end.

Lemma Zgtb_false (a b : Z) : (a <= b)%Z -> (a >? b)%Z = false.
Proof. intros H. rewrite Z.gtb_ltb. apply Z.ltb_ge. exact H. Qed.

Lemma Zgtb_true (a b : Z) : (b < a)%Z -> (a >? b)%Z = true.
Proof. intros H. rewrite Z.gtb_ltb. apply Z.ltb_lt. exact H. Qed.

Lemma snd_call (c : cmd unit) (s : State) : snd (call c s) = snd (c s).
Proof. unfold call. destruct (c s) as [[u | b] s']; reflexivity. Qed.

(** A pad is pressed: the full switch timer is re-armed. *)
Lemma check_switch_full_pressed (ignoreTimers : bool) (s : State) :
  is_switch (switch_state s) OFF = false ->
  check_switch_full ST2MS ignoreTimers s
  = (Next tt, set_tm fault_switch_timer (tm s current_time) s).
Proof.
  intros H. unfold check_switch_full, bind, get, assign. cbv zeta.
  rewrite H. reflexivity.
Qed.

(** Both pads released for longer than the full switch delay. *)
Lemma check_switch_full_elapsed (ignoreTimers : bool) (s : State) :
  is_switch (switch_state s) OFF = true ->
  (BC.fault_delay_switch_full (balance_conf s)
   < ST2MS (st_sub (tm s current_time) (tm s fault_switch_timer)))%Z ->
  check_switch_full ST2MS ignoreTimers s
  = (Return true, set_state FAULT_SWITCH_FULL s).
Proof.
  intros H1 H2. unfold check_switch_full, bind, get, assign, return_.
  cbv zeta. rewrite H1, (Zgtb_true _ _ H2). reflexivity.
Qed.

(** Both pads released: the three conditions under which the first check
    raises [FAULT_SWITCH_FULL]. *)
Lemma check_switch_full_faults (ignoreTimers : bool) (s : State) :
  is_switch (switch_state s) OFF = true ->
  (BC.fault_delay_switch_full (balance_conf s)
   < ST2MS (st_sub (tm s current_time) (tm s fault_switch_timer)))%Z \/
  (fl s abs_erpm < BC.fault_adc_half_erpm (balance_conf s) * 4 /\
   (BC.fault_delay_switch_half (balance_conf s)
    < ST2MS (st_sub (tm s current_time) (tm s fault_switch_timer)))%Z) \/
  (fl s abs_erpm < BC.fault_adc_half_erpm (balance_conf s) /\
   15 < fabsf (fl s pitch_angle)) ->
  check_switch_full ST2MS ignoreTimers s
  = (Return true, set_state FAULT_SWITCH_FULL s).
Proof.
  intros H1 [H | [[Ha Hb] | [Ha Hb]]].
  - apply check_switch_full_elapsed; assumption.
  - unfold check_switch_full, bind, get, assign, return_. cbv zeta.
    rewrite H1, (Qltb_true _ _ Ha), (Zgtb_true _ _ Hb). cbn [andb].
    destruct (_ || _); reflexivity.
  - unfold check_switch_full, bind, get, assign, return_. cbv zeta.
    rewrite H1, (Qltb_true _ _ Ha), (Qgtb_true _ _ Hb). cbn [andb].
    destruct (_ || _); [reflexivity |].
    destruct (_ && _); reflexivity.
Qed.

(** Both pads released: the first check raises [FAULT_SWITCH_FULL], or falls
    through with at most the full switch timer re-armed. *)
Lemma check_switch_full_off (ignoreTimers : bool) (s : State) :
  is_switch (switch_state s) OFF = true ->
  check_switch_full ST2MS ignoreTimers s
  = (Return true, set_state FAULT_SWITCH_FULL s) \/
  check_switch_full ST2MS ignoreTimers s = (Next tt, s) \/
  check_switch_full ST2MS ignoreTimers s
  = (Next tt, set_tm fault_switch_timer (tm s current_time) s).
Proof.
  intros H1. unfold check_switch_full, bind, get, assign, return_, skip.
  cbv zeta. rewrite H1.
  repeat match goal with
         | |- context [if ?c then _ else _] => destruct c
         end;
    first [left; reflexivity | right; left; reflexivity
          | right; right; reflexivity].
Qed.

(** Both pads released at speed with the high speed faults disabled: no
    fault, and the timer is re-armed. *)
Lemma check_switch_full_rearmed (s : State) :
  is_switch (switch_state s) OFF = true ->
  (ST2MS (st_sub (tm s current_time) (tm s fault_switch_timer))
   <= BC.fault_delay_switch_full (balance_conf s))%Z ->
  BC.fault_adc_half_erpm (balance_conf s) * 4 <= fl s abs_erpm \/
  (ST2MS (st_sub (tm s current_time) (tm s fault_switch_timer))
   <= BC.fault_delay_switch_half (balance_conf s))%Z ->
  BC.fault_adc_half_erpm (balance_conf s) <= fl s abs_erpm ->
  3000 < fl s abs_erpm ->
  bl s allow_high_speed_full_switch_faults = false ->
  check_switch_full ST2MS false s
  = (Next tt, set_tm fault_switch_timer (tm s current_time) s).
Proof.
  intros H1 H2 H3 H4 H5 H6.
  unfold check_switch_full, bind, get, assign, return_. cbv zeta.
  rewrite H1, (Zgtb_false _ _ H2), H6.
  assert (E : (fl s abs_erpm <? BC.fault_adc_half_erpm (balance_conf s) * 4)
              && (ST2MS (st_sub (tm s current_time) (tm s fault_switch_timer))
                    >? BC.fault_delay_switch_half (balance_conf s))%Z
              = false).
  { destruct H3 as [H3 | H3].
    - rewrite (Qltb_false _ _ H3). reflexivity.
    - rewrite (Zgtb_false _ _ H3). apply andb_false_r. }
  rewrite E.
  rewrite (Qltb_false (fl s abs_erpm)
             (BC.fault_adc_half_erpm (balance_conf s))) by exact H4.
  rewrite (Qgtb_true (fl s abs_erpm) 3000) by exact H5.
  reflexivity.
Qed.

(** Both pads released with the high speed faults allowed: the timer is not
    touched. *)
Lemma check_switch_full_keeps_timer (ignoreTimers : bool) (s : State) :
  is_switch (switch_state s) OFF = true ->
  bl s allow_high_speed_full_switch_faults = true ->
  tm (snd (check_switch_full ST2MS ignoreTimers s)) fault_switch_timer
  = tm s fault_switch_timer.
Proof.
  intros H1 H2. unfold check_switch_full, bind, get, assign, return_, skip.
  cbv zeta. rewrite H1, H2, andb_false_r.
  repeat match goal with
         | |- context [if ?c then _ else _] => destruct c
         end; reflexivity.
Qed.

Lemma check_reverse_stop_other_mode (s : State) :
  is_mode (setpointAdjustmentType s) REVERSESTOP = false ->
  check_reverse_stop ST2MS s = (Next tt, s).
Proof.
  intros H. unfold check_reverse_stop, bind, get, skip. rewrite H.
  reflexivity.
Qed.

(** Reverse stop with both pads released. *)
Lemma check_reverse_stop_off (s : State) :
  is_mode (setpointAdjustmentType s) REVERSESTOP = true ->
  is_switch (switch_state s) OFF = true ->
  check_reverse_stop ST2MS s = (Return true, set_state FAULT_SWITCH_FULL s).
Proof.
  intros H1 H2. unfold check_reverse_stop, bind, get, assign, return_.
  rewrite H1, H2. reflexivity.
Qed.

(** A pad released below the half-switch speed, after the half switch
    delay. *)
Lemma check_switch_half_elapsed (ignoreTimers : bool) (s : State) :
  is_switch (switch_state s) OFF = true ->
  fl s abs_erpm < BC.fault_adc_half_erpm (balance_conf s) ->
  (BC.fault_delay_switch_half (balance_conf s)
   < ST2MS (st_sub (tm s current_time) (tm s fault_switch_half_timer)))%Z ->
  check_switch_half ST2MS ignoreTimers s
  = (Return true, set_state FAULT_SWITCH_HALF s).
Proof.
  intros H1 H2 H3. unfold check_switch_half, bind, get, assign, return_.
  cbv zeta. rewrite H1, orb_true_r, (Qltb_true _ _ H2), (Zgtb_true _ _ H3).
  reflexivity.
Qed.

Lemma check_switch_half_moving (ignoreTimers : bool) (s : State) :
  (is_switch (switch_state s) HALF || is_switch (switch_state s) OFF)
  && (fl s abs_erpm <? BC.fault_adc_half_erpm (balance_conf s)) = false ->
  check_switch_half ST2MS ignoreTimers s
  = (Next tt, set_tm fault_switch_half_timer (tm s current_time) s).
Proof.
  intros H. unfold check_switch_half, bind, get, assign. cbv zeta.
  rewrite H. reflexivity.
Qed.

Lemma check_pitch_level (ignoreTimers : bool) (s : State) :
  fabsf (fl s pitch_angle) <= BC.fault_pitch (balance_conf s) ->
  check_pitch ST2MS ignoreTimers s
  = (Next tt, set_tm fault_angle_pitch_timer (tm s current_time) s).
Proof.
  intros H. unfold check_pitch, bind, get, assign. cbv zeta.
  rewrite (Qgtb_false _ _ H). reflexivity.
Qed.

Lemma check_roll_level (ignoreTimers : bool) (s : State) :
  fabsf (fl s roll_angle) <= BC.fault_roll (balance_conf s) ->
  check_roll ST2MS ignoreTimers s
  = (Next tt, set_tm fault_angle_roll_timer (tm s current_time) s).
Proof.
  intros H. unfold check_roll, bind, get, assign. cbv zeta.
  rewrite (Qgtb_false _ _ H). reflexivity.
Qed.

Lemma check_duty_low (ignoreTimers : bool) (s : State) :
  fl s abs_duty_cycle <= BC.fault_duty (balance_conf s) ->
  check_duty ST2MS ignoreTimers s
  = (Next tt, set_tm fault_duty_timer (tm s current_time) s).
Proof.
  intros H. unfold check_duty, bind, get, assign. cbv zeta.
  rewrite (Qgtb_false _ _ H). reflexivity.
Qed.

Lemma after_switch_full_preserves (ignoreTimers : bool) :
  cmd_preserves W_after_switch_full
    (check_reverse_stop ST2MS ;;
     check_switch_half ST2MS ignoreTimers ;;
     check_pitch ST2MS ignoreTimers ;;
     check_roll ST2MS ignoreTimers ;;
     check_duty ST2MS ignoreTimers ;;
     @return_ unit false).
Proof.
  cbv delta [check_reverse_stop check_switch_half check_pitch check_roll
               check_duty] beta.
  cfp.
Qed.

Lemma check_faults_switch_timer (ignoreTimers : bool) (s : State) :
  tm (snd (call (check_faults ST2MS ignoreTimers) s)) fault_switch_timer
  = tm (snd (check_switch_full ST2MS ignoreTimers s)) fault_switch_timer.
Proof.
  rewrite snd_call. unfold check_faults.
  destruct (check_switch_full ST2MS ignoreTimers s) as [[u | b] s1] eqn:E.
  - rewrite (bind_next _ _ _ _ _ E). cbn [snd].
    apply (pres_tm _ _ _
             (after_switch_full_preserves ignoreTimers s1 s1
                (preserved_refl _ s1))).
    reflexivity.
  - rewrite (bind_return _ _ _ _ _ E). reflexivity.
Qed.

(** The three last checks raise no switch fault. *)
Lemma angle_checks_no_switch_fault (ignoreTimers : bool) (s : State) :
  is_switch_fault (state s) = false ->
  is_switch_fault
    (state (snd ((check_pitch ST2MS ignoreTimers ;;
                  check_roll ST2MS ignoreTimers ;;
                  check_duty ST2MS ignoreTimers ;;
                  @return_ unit false) s))) = false.
Proof.
  intros H.
  cbv delta [check_pitch check_roll check_duty bind get assign skip
               return_] beta iota zeta.
  cbn [fl tm nt bl switch_state setpointAdjustmentType balance_conf
         set_state set_tm].
  repeat match goal with
         | |- context [if ?c then _ else _] => destruct c
         end; cbn [snd state set_state set_tm]; try reflexivity; exact H.
Qed.

(** Both pads released at speed, outside reverse stop, with the high speed
    faults disabled and the timer not yet elapsed: no switch fault is
    raised, and the full switch timer is re-armed to the current time. *)
Lemma check_faults_off_at_speed (s : State) :
  is_switch (switch_state s) OFF = true ->
  (ST2MS (st_sub (tm s current_time) (tm s fault_switch_timer))
   <= BC.fault_delay_switch_full (balance_conf s))%Z ->
  BC.fault_adc_half_erpm (balance_conf s) * 4 <= fl s abs_erpm \/
  (ST2MS (st_sub (tm s current_time) (tm s fault_switch_timer))
   <= BC.fault_delay_switch_half (balance_conf s))%Z ->
  BC.fault_adc_half_erpm (balance_conf s) <= fl s abs_erpm ->
  3000 < fl s abs_erpm ->
  bl s allow_high_speed_full_switch_faults = false ->
  is_mode (setpointAdjustmentType s) REVERSESTOP = false ->
  is_switch_fault (state s) = false ->
  let r := call (check_faults ST2MS false) s in
  is_switch_fault (state (snd r)) = false /\
  tm (snd r) fault_switch_timer = tm s current_time.
Proof.
  intros H1 H2 H3 H4 H5 H6 H7 H8. cbv zeta.
  pose proof (check_switch_full_rearmed s H1 H2 H3 H4 H5 H6) as E1.
  split.
  - rewrite snd_call. unfold check_faults.
    rewrite (bind_next _ _ _ _ _ E1). cbv beta.
    step_check ltac:(apply check_reverse_stop_other_mode; exact H7).
    step_check ltac:(apply check_switch_half_moving;
                     cbn [fl set_tm balance_conf switch_state];
                     rewrite (Qltb_false (fl s abs_erpm)
                                (BC.fault_adc_half_erpm (balance_conf s)))
                       by exact H4;
                     apply andb_false_r).
    apply angle_checks_no_switch_fault. exact H8.
  - rewrite check_faults_switch_timer, E1. cbn [snd tm set_tm].
    apply upd_same.
Qed.

(** Both pads released in reverse stop: [FAULT_SWITCH_FULL], whatever the
    timers, the speed and the flag. *)
Lemma check_faults_reverse_stop_off (ignoreTimers : bool) (s : State) :
  is_switch (switch_state s) OFF = true ->
  is_mode (setpointAdjustmentType s) REVERSESTOP = true ->
  exists s1,
    call (check_faults ST2MS ignoreTimers) s = (true, s1) /\
    state s1 = FAULT_SWITCH_FULL.
Proof.
  intros H1 H2. unfold call, check_faults.
  destruct (check_switch_full_off ignoreTimers s H1) as [E | [E | E]].
  - rewrite (bind_return _ _ _ _ _ E). eexists. split; reflexivity.
  - rewrite (bind_next _ _ _ _ _ E). cbv beta.
    rewrite (bind_return _ _ _ _ _ (check_reverse_stop_off s H2 H1)).
    eexists. split; reflexivity.
  - rewrite (bind_next _ _ _ _ _ E). cbv beta.
    rewrite (bind_return _ _ _ _ _
               (check_reverse_stop_off
                  (set_tm fault_switch_timer (tm s current_time) s) H2 H1)).
    eexists. split; reflexivity.
Qed.

(** Both pads released below the half-switch speed, after the half switch
    delay: a switch fault. *)
Lemma check_faults_off_slow (ignoreTimers : bool) (s : State) :
  is_switch (switch_state s) OFF = true ->
  fl s abs_erpm < BC.fault_adc_half_erpm (balance_conf s) ->
  (BC.fault_delay_switch_half (balance_conf s)
   < ST2MS (st_sub (tm s current_time) (tm s fault_switch_half_timer)))%Z ->
  exists s1,
    call (check_faults ST2MS ignoreTimers) s = (true, s1) /\
    is_switch_fault (state s1) = true.
Proof.
  intros H1 H2 H3.
  destruct (is_mode (setpointAdjustmentType s) REVERSESTOP) eqn:Hm.
  { destruct (check_faults_reverse_stop_off ignoreTimers s H1 Hm)
      as [s1 [E1 E2]].
    exists s1. split; [exact E1 | rewrite E2; reflexivity]. }
  unfold call, check_faults.
  destruct (check_switch_full_off ignoreTimers s H1) as [E | [E | E]].
  - rewrite (bind_return _ _ _ _ _ E). eexists. split; reflexivity.
  - rewrite (bind_next _ _ _ _ _ E). cbv beta.
    step_check ltac:(apply check_reverse_stop_other_mode; exact Hm).
    rewrite (bind_return _ _ _ _ _
               (check_switch_half_elapsed ignoreTimers s H1 H2 H3)).
    eexists. split; reflexivity.
  - rewrite (bind_next _ _ _ _ _ E). cbv beta.
    step_check ltac:(apply check_reverse_stop_other_mode; exact Hm).
    rewrite (bind_return _ _ _ _ _
               (check_switch_half_elapsed ignoreTimers
                  (set_tm fault_switch_timer (tm s current_time) s)
                  H1 H2 H3)).
    eexists. split; reflexivity.
Qed.

(** A pad is pressed, the board is level and the duty cycle low, outside
    reverse stop: no fault, and every timer but the reverse timer is
    re-armed. *)
Lemma check_faults_calm (ignoreTimers : bool) (s : State) :
  is_switch (switch_state s) ON = true ->
  is_mode (setpointAdjustmentType s) REVERSESTOP = false ->
  fabsf (fl s pitch_angle) <= BC.fault_pitch (balance_conf s) ->
  fabsf (fl s roll_angle) <= BC.fault_roll (balance_conf s) ->
  fl s abs_duty_cycle <= BC.fault_duty (balance_conf s) ->
  call (check_faults ST2MS ignoreTimers) s = (false, rearmed s).
Proof.
  intros H1 H2 H3 H4 H5.
  assert (Hoff : is_switch (switch_state s) OFF = false)
    by (destruct (switch_state s); [discriminate H1 .. | reflexivity]).
  assert (Hhalf : is_switch (switch_state s) HALF = false)
    by (destruct (switch_state s); [discriminate H1 .. | reflexivity]).
  unfold call, check_faults.
  step_check ltac:(apply check_switch_full_pressed; exact Hoff).
  step_check ltac:(apply check_reverse_stop_other_mode; exact H2).
  step_check ltac:(apply check_switch_half_moving;
                   cbn [switch_state set_tm]; rewrite Hoff, Hhalf;
                   reflexivity).
  step_check ltac:(apply check_pitch_level; exact H3).
  step_check ltac:(apply check_roll_level; exact H4).
  step_check ltac:(apply check_duty_low; exact H5).
  reflexivity.
Qed.

End Faults.

(* ================================================================= *)
(** ** Output saturation *)

Lemma saturate_output_limits (s : State) :
  fl (saturate_output s) mc_current_max = fl s mc_current_max /\
  fl (saturate_output s) mc_current_min = fl s mc_current_min.
Proof.
  unfold saturate_output. cbv zeta.
  repeat match goal with
         | |- context [if ?c then _ else _] => destruct c
         end; split; reflexivity.
Qed.

(** C1, as stated, fails: a request of 59 A between the margin [max - 3]
    = 57 A and the limit 60 A passes the saturation step unchanged. *)
Lemma saturate_output_leaves_margin_open :
  fl s_near_limit mc_current_min == -60 /\
  fl s_near_limit mc_current_max == 60 /\
  fl s_near_limit pid_value == 59 /\
  fl (saturate_output s_near_limit) pid_value == 59 /\
  fl (saturate_output s_near_limit) mc_current_max - 3
  < fl (saturate_output s_near_limit) pid_value.
Proof. vm_compute. repeat split; reflexivity. Qed.

(** C1, amended.  With the limits at least 3 A apart, the saturation step
    leaves the current command within the limits themselves,
    [mc_current_min <= pid_value <= mc_current_max]: a request above the
    maximum becomes [mc_current_max - 3], one below the minimum becomes
    [mc_current_min + 3], and a request within the limits is not changed (so
    the margins of 3 A are not enforced). *)
Theorem saturate_output_within_limits (s : State) :
  fl s mc_current_min + 3 <= fl s mc_current_max ->
  let s' := saturate_output s in
  (fl s mc_current_min <= fl s' pid_value
   /\ fl s' pid_value <= fl s mc_current_max) /\
  (fl s mc_current_max < fl s pid_value ->
   fl s' pid_value = fl s mc_current_max - 3) /\
  (fl s pid_value < fl s mc_current_min ->
   fl s' pid_value = fl s mc_current_min + 3) /\
  (fl s mc_current_min <= fl s pid_value
   /\ fl s pid_value <= fl s mc_current_max ->
   fl s' pid_value = fl s pid_value).
Proof.
  intros H. cbv zeta. unfold saturate_output. cbv zeta.
  destruct (Qgtb_spec (fl s pid_value) (fl s mc_current_max)) as [H1 | H1];
    [| destruct (Qltb_spec (fl s pid_value) (fl s mc_current_min))
         as [H2 | H2]; [| destruct (bl s current_limiting)]];
    cbn [fl set_bl set_fl]; rewrite ?upd_same;
    (split; [split; lra |]);
    (split; [intros; try reflexivity; lra |]);
    (split; [intros; try reflexivity; lra |]);
    intros [? ?]; try reflexivity; lra.
Qed.

Lemma saturate_output_within_limits_witness :
  fl s_near_limit mc_current_min + 3 <= fl s_near_limit mc_current_max /\
  fl s_near_limit mc_current_min
  <= fl (saturate_output s_near_limit) pid_value /\
  fl (saturate_output s_near_limit) pid_value
  <= fl s_near_limit mc_current_max.
Proof.
  assert (H : fl s_near_limit mc_current_min + 3
              <= fl s_near_limit mc_current_max)
    by (vm_compute; discriminate).
  split; [exact H |].
  exact (proj1 (saturate_output_within_limits s_near_limit H)).
Defined.

(* ================================================================= *)
(** ** The measured acceleration of the torque tilt *)

(** Only the upper clip takes effect: the result of [fmaxf] is overwritten. *)
Lemma torquetilt_measured_acc_upper_only (s : State) :
  torquetilt_measured_acc s = fminf (fl s acceleration) 5.
Proof. reflexivity. Qed.

Lemma torquetilt_measured_acc_below (s : State) :
  fl s acceleration < -5 ->
  torquetilt_measured_acc s == fl s acceleration /\
  torquetilt_measured_acc s < clip5 (fl s acceleration).
Proof.
  intros H. rewrite torquetilt_measured_acc_upper_only.
  unfold clip5, fminf, fmaxf.
  destruct (Q.min_spec (fl s acceleration) 5) as [[H1 E1] | [H1 E1]];
    [| lra].
  rewrite E1. split; [reflexivity |].
  destruct (Q.max_spec (-5) (fl s acceleration)) as [[H2 E2] | [H2 E2]];
    rewrite E2; lra.
Qed.

(** C5, code against specification.  Braking hard, with an averaged
    acceleration of -10, the measured acceleration of the torque tilt is -10:
    it is not clipped at -5, the value of the two-sided clip. *)
Theorem torquetilt_measured_acc_not_clipped_below :
  fl s_braking acceleration == -10 /\
  torquetilt_measured_acc s_braking == -10 /\
  clip5 (fl s_braking acceleration) == -5.
Proof. vm_compute. repeat split; reflexivity. Qed.

(* ================================================================= *)
(** ** Reverse stop *)

(** In reverse stop with a pad pressed and the board level, the accumulated
    erpm raises the fault only through the signed test: no total at or below
    three times the tolerance does, however negative. *)
Lemma check_reverse_stop_signed (ST2MS : Z -> Z) (s : State) :
  is_mode (setpointAdjustmentType s) REVERSESTOP = true ->
  is_switch (switch_state s) OFF = false ->
  fabsf (fl s pitch_angle) < 5 ->
  fl s reverse_total_erpm <= fl s reverse_tolerance * 3 ->
  check_reverse_stop ST2MS s
  = (Next tt, set_tm reverse_timer (tm s current_time) s).
Proof.
  intros H1 H2 H3 H4.
  unfold check_reverse_stop, bind, get, assign, skip, return_.
  rewrite H1, H2.
  rewrite (Qgtb_false (fabsf (fl s pitch_angle)) 15) by lra.
  rewrite (Qgtb_false (fabsf (fl s pitch_angle)) 10) by lra.
  rewrite (Qgtb_false (fabsf (fl s pitch_angle)) 5) by lra.
  rewrite (Qgtb_false _ _ H4).
  rewrite (Qltb_true _ _ H3).
  reflexivity.
Qed.

(** C2, code against specification.  In reverse stop, with an accumulated
    erpm of -200000 (four times the tolerance of 50000, so above three times
    the tolerance in absolute value), [check_faults] returns false and the
    state stays [RUNNING]; with +200000 it returns true with the state
    [FAULT_REVERSE].  Riding on backwards for five more iterations takes the
    total to -210000 with the state still [RUNNING]. *)
Theorem check_faults_misses_negative_reverse_erpm :
  is_mode (setpointAdjustmentType s_reversing) REVERSESTOP = true /\
  fl s_reversing reverse_tolerance * 3
  < fabsf (fl s_reversing reverse_total_erpm) /\
  fst (call (check_faults ST2MS_10kHz false) s_reversing) = false /\
  state (snd (call (check_faults ST2MS_10kHz false) s_reversing)) = RUNNING /\
  fst (call (check_faults ST2MS_10kHz false)
         (set_fl reverse_total_erpm 200000 s_reversing)) = true /\
  state (snd (call (check_faults ST2MS_10kHz false)
                (set_fl reverse_total_erpm 200000 s_reversing)))
  = FAULT_REVERSE /\
  match
    run ST2MS_10kHz SIGN_macro (readings riding_backwards 0 5) s_reversing
  with
  | Some s' =>
      state s' = RUNNING /\
      setpointAdjustmentType s' = REVERSESTOP /\
      fl s' reverse_total_erpm == -210000
  | None => False
  end.
Proof.
  do 6 (split; [vm_compute; reflexivity |]).
  vm_compute. repeat split; reflexivity.
Qed.

(* ================================================================= *)
(** ** The rate limit of the interpolated setpoint *)

Lemma get_setpoint_adjustment_step_size_var (s : State) :
  get_setpoint_adjustment_step_size s
  = fl s (step_size_var (setpointAdjustmentType s)).
Proof.
  unfold get_setpoint_adjustment_step_size.
  destruct (setpointAdjustmentType s); reflexivity.
Qed.

Lemma step_sizes_nonneg_var (s : State) (m : SetpointAdjustmentType) :
  step_sizes_nonneg s -> 0 <= fl s (step_size_var m).
Proof.
  intros (H1 & H2 & H3 & H4 & H5 & H6). destruct m; assumption.
Qed.

Lemma step_size_var_configured (m : SetpointAdjustmentType) :
  wr fvar_eq_dec config_fvars (step_size_var m) = true.
Proof. destruct m; reflexivity. Qed.

Lemma calculate_setpoint_interpolated_step (s : State) :
  0 <= get_setpoint_adjustment_step_size s ->
  fabsf (fl (calculate_setpoint_interpolated s) setpoint_target_interpolated
         - fl s setpoint_target_interpolated)
  <= get_setpoint_adjustment_step_size s.
Proof.
  intros H. unfold calculate_setpoint_interpolated, fabsf.
  destruct (Qneb_spec (fl s setpoint_target_interpolated)
              (fl s setpoint_target)) as [_ | _].
  - destruct (Qltb_spec
                (Qabs (fl s setpoint_target
                       - fl s setpoint_target_interpolated))
                (get_setpoint_adjustment_step_size s)) as [H1 | _].
    + cbn [fl set_fl]. rewrite upd_same. apply Qlt_le_weak. exact H1.
    + destruct (fl s setpoint_target - fl s setpoint_target_interpolated >? 0);
        cbn [fl set_fl]; rewrite upd_same;
        apply Qabs_Qle_condition; split; lra.
  - apply Qabs_Qle_condition; split; lra.
Qed.

Lemma calculate_setpoint_interpolated_footprint (s : State) :
  preserved W_calculate_setpoint_interpolated s
    (calculate_setpoint_interpolated s).
Proof. cbv delta [calculate_setpoint_interpolated] beta. fp. Qed.

Section RateLimit.

Variable ST2MS : Z -> Z.
Variable SIGN : Q -> Q.

(** The iteration and its running branch, as equations. *)
Lemma running_tick_eq (h : Hardware) (s : State) :
  running_tick ST2MS SIGN h s
  = running_branch ST2MS SIGN h (read_inputs SIGN h s).
Proof. reflexivity. Qed.

Lemma running_branch_eq (h : Hardware) (s : State) :
  running_branch ST2MS SIGN h s
  = let (faulted, s1) := call (check_faults ST2MS false) s in
    if faulted then Some s1 else
    match apply_tilts SIGN (shape_setpoint ST2MS h s1) with
    | None => None
    | Some s2 => Some (pid_block SIGN s2)
    end.
Proof. reflexivity. Qed.

Lemma calculate_setpoint_target_footprint (h : Hardware) (s : State) :
  preserved W_calculate_setpoint_target s (calculate_setpoint_target ST2MS h s).
Proof. cbv delta [calculate_setpoint_target] beta. fp. Qed.

Lemma after_shaping_footprint (s : State) :
  preserved_opt W_after_shaping s
    (match apply_tilts SIGN s with
     | None => None
     | Some s' => Some (pid_block SIGN s')
     end).
Proof.
  pose proof (apply_tilts_footprint SIGN s) as H1.
  destruct (apply_tilts SIGN s) as [s' | ]; [ | exact I].
  cbn [preserved_opt] in *.
  exact (preserved_union _ _ _ _ _ H1 (pid_block_footprint SIGN s')).
Qed.

(** The shaper moves the interpolated setpoint by at most the step size of
    the mode it has selected. *)
Lemma shape_setpoint_rate_limit (h : Hardware) (s : State) :
  (forall m, 0 <= fl s (step_size_var m)) ->
  fabsf (fl (shape_setpoint ST2MS h s) setpoint_target_interpolated
         - fl s setpoint_target_interpolated)
  <= get_setpoint_adjustment_step_size (shape_setpoint ST2MS h s)
  /\ forall m, fl (shape_setpoint ST2MS h s) (step_size_var m)
               = fl s (step_size_var m).
Proof.
  intros Hn. unfold shape_setpoint. cbv zeta.
  pose proof (calculate_setpoint_target_footprint h s) as P2.
  generalize dependent (calculate_setpoint_target ST2MS h s).
  intros s2 P2.
  pose proof (calculate_setpoint_interpolated_footprint s2) as P3.
  pose proof (calculate_setpoint_interpolated_step s2) as B.
  generalize dependent (calculate_setpoint_interpolated s2).
  intros s3 P3 B.
  cbn [fl set_fl]. rewrite !get_setpoint_adjustment_step_size_var in *.
  cbn [fl set_fl setpointAdjustmentType].
  assert (Hv : forall m, fl s3 (step_size_var m) = fl s (step_size_var m)).
  { intros m.
    rewrite (pres_fl _ _ _ P3), (pres_fl _ _ _ P2)
      by (destruct m; reflexivity).
    reflexivity. }
  split.
  - rewrite (upd_other fvar_eq_dec setpoint _ _ setpoint_target_interpolated)
      by discriminate.
    rewrite (upd_other fvar_eq_dec setpoint _ _
               (step_size_var (setpointAdjustmentType s3)))
      by (destruct (setpointAdjustmentType s3); discriminate).
    rewrite (pres_mode _ _ _ P3) by reflexivity.
    rewrite Hv.
    rewrite <- (pres_fl _ _ _ P2 setpoint_target_interpolated)
      by reflexivity.
    rewrite <- (pres_fl _ _ _ P2 (step_size_var (setpointAdjustmentType s2)))
      by (destruct (setpointAdjustmentType s2); reflexivity).
    apply B.
    rewrite (pres_fl _ _ _ P2)
      by (destruct (setpointAdjustmentType s2); reflexivity).
    apply Hn.
  - intros m. rewrite upd_other by (destruct m; discriminate). apply Hv.
Qed.

(** C6, amended.  With step sizes that are not negative, one iteration moves
    the interpolated setpoint by at most the step size of the mode that the
    same iteration selects (the mode after [calculate_setpoint_target], which
    is the mode at the end of the iteration), not that of the mode before. *)
Theorem running_tick_rate_limit (h : Hardware) (s s' : State) :
  step_sizes_nonneg s ->
  running_tick ST2MS SIGN h s = Some s' ->
  fabsf (fl s' setpoint_target_interpolated
         - fl s setpoint_target_interpolated)
  <= get_setpoint_adjustment_step_size s'.
Proof.
  intros Hn E. rewrite running_tick_eq in E.
  pose proof (read_inputs_footprint SIGN h s) as P0.
  generalize dependent (read_inputs SIGN h s). intros s0 E P0.
  rewrite running_branch_eq in E.
  pose proof (check_faults_footprint ST2MS false s0) as P1.
  destruct (call (check_faults ST2MS false) s0) as [faulted s1].
  cbn [snd] in P1.
  assert (Hi : fl s1 setpoint_target_interpolated
               = fl s setpoint_target_interpolated).
  { rewrite (pres_fl _ _ _ P1), (pres_fl _ _ _ P0) by reflexivity.
    reflexivity. }
  assert (Hs : forall m, fl s1 (step_size_var m) = fl s (step_size_var m)).
  { intros m.
    rewrite (pres_fl _ _ _ P1), (pres_fl _ _ _ P0)
      by (destruct m; reflexivity).
    reflexivity. }
  assert (Hn1 : forall m, 0 <= fl s1 (step_size_var m)).
  { intros m. rewrite Hs. apply step_sizes_nonneg_var. exact Hn. }
  destruct faulted.
  - inversion E; subst s'. rewrite Hi.
    rewrite get_setpoint_adjustment_step_size_var.
    pose proof (Hn1 (setpointAdjustmentType s1)).
    unfold fabsf. apply Qabs_Qle_condition. split; lra.
  - destruct (shape_setpoint_rate_limit h s1 Hn1) as [B Hv].
    generalize dependent (shape_setpoint ST2MS h s1). intros s2 E B Hv.
    pose proof (after_shaping_footprint s2) as P4.
    destruct (apply_tilts SIGN s2) as [s4 | ]; [ | discriminate E].
    cbn [preserved_opt] in P4.
    generalize dependent (pid_block SIGN s4). intros s5 E P4.
    inversion E; subst s'.
    rewrite get_setpoint_adjustment_step_size_var in *.
    rewrite (pres_mode _ _ _ P4) by reflexivity.
    rewrite !(pres_fl _ _ _ P4)
      by (try reflexivity; destruct (setpointAdjustmentType s2);
          reflexivity).
    rewrite <- Hi. exact B.
Qed.

End RateLimit.

(** C6, as stated, fails: cruising in [TILTBACK_NONE] (step 0.001 per
    iteration), the iteration in which the duty cycle reaches 85 percent
    selects [TILTBACK_DUTY] and moves the interpolated setpoint by 0.003, the
    step of the new mode. *)
Lemma rate_limit_of_previous_mode_exceeded :
  match running_tick ST2MS_10kHz SIGN_macro (high_duty 1) s_cruising with
  | Some s' =>
      setpointAdjustmentType s_cruising = TILTBACK_NONE /\
      get_setpoint_adjustment_step_size s_cruising == 0.001 /\
      setpointAdjustmentType s' = TILTBACK_DUTY /\
      fl s' setpoint_target_interpolated
      - fl s_cruising setpoint_target_interpolated == 0.003 /\
      get_setpoint_adjustment_step_size s_cruising
      < fabsf (fl s' setpoint_target_interpolated
               - fl s_cruising setpoint_target_interpolated)
  | None => False
  end.
Proof. vm_compute. repeat split; reflexivity. Qed.

Lemma running_tick_rate_limit_witness :
  step_sizes_nonneg s_cruising /\
  match running_tick ST2MS_10kHz SIGN_macro (high_duty 1) s_cruising with
  | Some s' =>
      fabsf (fl s' setpoint_target_interpolated
             - fl s_cruising setpoint_target_interpolated)
      <= get_setpoint_adjustment_step_size s'
  | None => False
  end.
Proof.
  assert (Hn : step_sizes_nonneg s_cruising)
    by (vm_compute; repeat split; discriminate).
  split; [exact Hn |].
  assert (Hc : completes (running_tick ST2MS_10kHz SIGN_macro (high_duty 1)
                            s_cruising) = true)
    by (vm_compute; reflexivity).
  pose proof (running_tick_rate_limit ST2MS_10kHz SIGN_macro (high_duty 1)
                s_cruising) as H.
  destruct (running_tick ST2MS_10kHz SIGN_macro (high_duty 1) s_cruising)
    as [s' |].
  - exact (H s' Hn eq_refl).
  - discriminate Hc.
Defined.

(* ================================================================= *)
(** ** The gains and their caps *)

Ltac upd_simpl :=
  cbn [fl tm nt bl state setpointAdjustmentType switch_state accelhist
       torquetilt_current_biquad balance_conf
       set_fl set_tm set_nt set_bl set_state set_setpointAdjustmentType
       set_switch_state set_accelhist set_torquetilt_current_biquad];
  repeat first [rewrite upd_same | rewrite upd_other by discriminate].

Lemma Qmult_le_cap (c m M : Q) : 0 <= c -> m <= M -> c * m <= M * c.
Proof. intros. nra. Qed.

Lemma gain_vars_kept (W : footprint) (s s' : State) :
  keeps_gains W = true -> preserved W s s' ->
  fl s' kp = fl s kp /\ fl s' ki = fl s ki /\ fl s' kd = fl s kd /\
  fl s' kp_acc = fl s kp_acc /\ fl s' ki_acc = fl s ki_acc /\
  fl s' kd_acc = fl s kd_acc.
Proof.
  unfold keeps_gains. intros K P. rewrite forallb_forall in K.
  repeat split; apply (pres_fl _ _ _ P); apply negb_true_iff; apply K;
    cbn; tauto.
Qed.

Lemma gains_invariant_preserved (W : footprint) (s s' : State) :
  keeps_gains W = true -> preserved W s s' ->
  gains_invariant s -> gains_invariant s'.
Proof.
  intros K P. unfold gains_invariant, gains_bounded.
  destruct (gain_vars_kept W s s' K P) as (E1 & E2 & E3 & E4 & E5 & E6).
  rewrite E1, E2, E3, E4, E5, E6. exact (fun H => H).
Qed.

Lemma reset_vars_gains_invariant (s : State) :
  0 <= fl s kp_acc -> 0 <= fl s ki_acc -> 0 <= fl s kd_acc ->
  gains_invariant (reset_vars s).
Proof.
  intros Hp Hi Hd. unfold gains_invariant, gains_bounded.
  rewrite !(pres_fl _ _ _ (reset_vars_footprint s) kp_acc),
          !(pres_fl _ _ _ (reset_vars_footprint s) ki_acc),
          !(pres_fl _ _ _ (reset_vars_footprint s) kd_acc) by reflexivity.
  pose proof (Q.le_max_l 2 (2 * fl s kp_acc)) as M1.
  pose proof (Q.le_max_r 2 (2 * fl s kp_acc)) as M2.
  pose proof (Q.le_max_l 400 (fl s kd_acc)) as M3.
  revert M1 M2 M3.
  generalize (Qmax 2 (2 * fl s kp_acc)) (Qmax 400 (fl s kd_acc)).
  intros bp bd M1 M2 M3.
  unfold reset_vars. cbv zeta. upd_simpl.
  destruct (bl s use_soft_start); upd_simpl; repeat split; lra.
Qed.

Lemma pid_gains_gains_invariant (s : State) :
  gains_invariant s -> gains_invariant (pid_gains s).
Proof.
  intros (Hp & Hi & Hd & Bp & Bi & Bd). unfold gains_invariant, gains_bounded.
  rewrite !(pres_fl _ _ _ (pid_gains_footprint s) kp_acc),
          !(pres_fl _ _ _ (pid_gains_footprint s) ki_acc),
          !(pres_fl _ _ _ (pid_gains_footprint s) kd_acc) by reflexivity.
  do 3 (split; [assumption |]).
  pose proof (Q.le_max_l 2 (2 * fl s kp_acc)) as M1.
  pose proof (Q.le_max_r 2 (2 * fl s kp_acc)) as M2.
  pose proof (Q.le_max_l 400 (fl s kd_acc)) as M3.
  pose proof (Q.le_max_r 400 (fl s kd_acc)) as M4.
  revert Bp Bd M1 M2 M3 M4.
  generalize (Qmax 2 (2 * fl s kp_acc)) (Qmax 400 (fl s kd_acc)).
  intros bp bd Bp Bd M1 M2 M3 M4.
  unfold pid_gains. cbv zeta.
  (* the multipliers are at most 2 and 1.7 *)
  pose proof (Qmult_le_cap (fl s kp_acc)
                (fminf (1 + fabsf (fl s torquetilt_interpolated) / 6
                              * fl s tt_pid_intensity) 2) 2
                Hp (Q.le_min_r _ _)) as Tp.
  pose proof (Qmult_le_cap (fl s ki_acc)
                (fminf (1 + fabsf (fl s torquetilt_interpolated) / 6
                              * fl s tt_pid_intensity / 2) 1.7) 1.7
                Hi (Q.le_min_r _ _)) as Ti.
  pose proof (Qmult_le_cap (fl s kd_acc)
                (fminf (1 + fabsf (fl s torquetilt_interpolated) / 6
                              * fl s tt_pid_intensity / 2) 1.7) 1.7
                Hd (Q.le_min_r _ _)) as Td.
  assert (Td' : fl s kd_acc
                * fminf (1 + fabsf (fl s torquetilt_interpolated) / 6
                               * fl s tt_pid_intensity / 2) 1.7 / 1.7
                <= fl s kd_acc)
    by (apply Qle_shift_div_r; [reflexivity | lra]).
  assert (Td1 : fl s kd_acc * 1 / 1.7 <= fl s kd_acc)
    by (apply Qle_shift_div_r; [reflexivity | lra]).
  revert Tp Ti Td Td'.
  generalize (fminf (1 + fabsf (fl s torquetilt_interpolated) / 6
                         * fl s tt_pid_intensity) 2).
  generalize (fminf (1 + fabsf (fl s torquetilt_interpolated) / 6
                         * fl s tt_pid_intensity / 2) 1.7).
  intros di pm Tp Ti Td Td'.
  destruct (fabsf (fl s torquetilt_interpolated) >? 2); cbv iota beta;
    destruct (setpointAdjustmentType s);
    cbn [SetpointAdjustmentType_value Z.geb Z.compare Pos.compare
           Pos.compare_cont is_mode];
    repeat match goal with
           | |- context [if ?c then _ else _] => destruct c
           end;
    upd_simpl; repeat split; lra.
Qed.

Section GainCaps.

Variable ST2MS : Z -> Z.
Variable SIGN : Q -> Q.

(** The output stage keeps [kp] and [kd]; it keeps [ki] or, in the soft
    start, sets it to zero. *)
Lemma pid_output_gains (s : State) :
  fl (pid_output SIGN s) kp = fl s kp /\
  fl (pid_output SIGN s) kd = fl s kd /\
  (fl (pid_output SIGN s) ki = fl s ki \/ fl (pid_output SIGN s) ki = 0).
Proof.
  split; [apply (pres_fl _ _ _ (pid_output_footprint SIGN s)); reflexivity |].
  split; [apply (pres_fl _ _ _ (pid_output_footprint SIGN s)); reflexivity |].
  destruct (bl s use_soft_start
            && is_mode (setpointAdjustmentType s) CENTERING) eqn:E.
  - right. cbv delta [pid_output] beta. rewrite E. cbv iota zeta.
    upd_simpl. reflexivity.
  - left.
    apply (pres_fl
             (mkFootprint [pid_value; center_jerk_adder; last_proportional]
                [] [center_stiffness_delay_ms; center_jerk_counter] [] [])
             s); [ | reflexivity].
    cbv delta [pid_output] beta. rewrite E. cbv iota. fp.
Qed.

Lemma pid_output_gains_invariant (s : State) :
  gains_invariant s -> gains_invariant (pid_output SIGN s).
Proof.
  intros (Hp & Hi & Hd & Bp & Bi & Bd). unfold gains_invariant, gains_bounded.
  rewrite !(pres_fl _ _ _ (pid_output_footprint SIGN s) kp_acc),
          !(pres_fl _ _ _ (pid_output_footprint SIGN s) ki_acc),
          !(pres_fl _ _ _ (pid_output_footprint SIGN s) kd_acc)
    by reflexivity.
  destruct (pid_output_gains s) as (E1 & E2 & [E3 | E3]);
    rewrite E1, E2, E3; repeat split; try assumption; lra.
Qed.

Lemma pid_block_gains_invariant (s : State) :
  gains_invariant s -> gains_invariant (pid_block SIGN s).
Proof.
  intros H. unfold pid_block. cbv zeta.
  apply (gains_invariant_preserved W_command_current _ _ eq_refl
           (command_current_footprint _)).
  apply (gains_invariant_preserved W_saturate_output _ _ eq_refl
           (saturate_output_footprint _)).
  apply pid_output_gains_invariant. apply pid_gains_gains_invariant.
  apply (gains_invariant_preserved W_pid_terms _ _ eq_refl
           (pid_terms_footprint _)).
  exact H.
Qed.

Lemma running_tick_gains_invariant (h : Hardware) (s s' : State) :
  running_tick ST2MS SIGN h s = Some s' ->
  gains_invariant s -> gains_invariant s'.
Proof.
  intros E H. rewrite running_tick_eq in E.
  apply (gains_invariant_preserved W_read_inputs _ _ eq_refl
           (read_inputs_footprint SIGN h s)) in H.
  generalize dependent (read_inputs SIGN h s). intros s0 E H.
  rewrite running_branch_eq in E.
  apply (gains_invariant_preserved W_check_faults _ _ eq_refl
           (check_faults_footprint ST2MS false s0)) in H.
  destruct (call (check_faults ST2MS false) s0) as [faulted s1].
  cbn [snd] in H. destruct faulted.
  - inversion E; subst s'. exact H.
  - apply (gains_invariant_preserved W_shape_setpoint _ _ eq_refl
             (shape_setpoint_footprint ST2MS h s1)) in H.
    generalize dependent (shape_setpoint ST2MS h s1). intros s2 E H.
    pose proof (apply_tilts_footprint SIGN s2) as P.
    destruct (apply_tilts SIGN s2) as [s3 | ]; [ | discriminate E].
    cbn [preserved_opt] in P.
    apply (gains_invariant_preserved W_apply_tilts _ _ eq_refl P) in H.
    apply pid_block_gains_invariant in H.
    generalize dependent (pid_block SIGN s3). intros s4 E H.
    inversion E; subst s'. exact H.
Qed.

Lemma reachable_gains_invariant (c s : State) :
  0 <= fl c kp_acc -> 0 <= fl c ki_acc -> 0 <= fl c kd_acc ->
  reachable ST2MS SIGN c s -> gains_invariant s.
Proof.
  intros Hp Hi Hd R.
  induction R as [s (_ & Hf & _) | s h s' _ IH _ E].
  - apply reset_vars_gains_invariant; rewrite Hf by reflexivity; assumption.
  - exact (running_tick_gains_invariant h s s' E IH).
Qed.

End GainCaps.

(** C4, as stated, fails.  With the soft configuration (gain 0.5, soft
    start) every episode starts with [kp = 1], above the cap of 0.5.  And
    with the sample configuration, from gains at their caps and three degrees
    of torque tilt, one iteration stiffens [kp] and [ki] beyond the caps. *)
Lemma gains_exceed_caps :
  reachable ST2MS_10kHz SIGN_macro soft_configured
    (reset_vars soft_configured) /\
  (fl (reset_vars soft_configured) kp_acc == fminf (BC.kp soft_conf) 10 /\
   fminf (BC.kp soft_conf) 10 == 0.5 /\
   fl (reset_vars soft_configured) kp == 1) /\
  gains_within_caps s_stiffened /\
  match running_tick ST2MS_10kHz SIGN_macro (at_rest 1) s_stiffened with
  | Some s' =>
      fl s' kp_acc == fminf (BC.kp sample_conf) 10 /\
      fl s' ki_acc == fminf (BC.ki sample_conf) 0.01 /\
      fl s' kp_acc < fl s' kp /\ fl s' ki_acc < fl s' ki
  | None => False
  end.
Proof.
  split; [apply reach_reset; apply same_config_refl |].
  split; [vm_compute; repeat split; reflexivity |].
  split; [vm_compute; repeat split; discriminate |].
  vm_compute. repeat split; reflexivity.
Qed.

(** C4, amended.  In every state of a running episode of a controller
    configured with gains that are not negative, the applied gains stay
    within twice the cap for [kp] (or 2, the target of the reverse stop and
    above the soft start value), 1.7 times the cap for [ki], and the cap (or
    400, the reverse stop target) for [kd], where the caps are
    [min(conf.kp, 10)], [min(conf.ki, 0.01)] and [min(conf.kd, 1500)]. *)
Theorem gains_within_scheduled_bounds (ST2MS : Z -> Z) (SIGN : Q -> Q)
    (conf : balance_config) (mc : mc_configuration) (s0 s : State) :
  0 <= BC.kp conf -> 0 <= BC.ki conf -> 0 <= BC.kd conf ->
  reachable ST2MS SIGN (app_balance_configure conf mc s0) s ->
  fl s kp <= Qmax 2 (2 * fminf (BC.kp conf) 10) /\
  fl s ki <= 1.7 * fminf (BC.ki conf) 0.01 /\
  fl s kd <= Qmax 400 (fminf (BC.kd conf) 1500).
Proof.
  intros Hp Hi Hd R.
  destruct (app_balance_configure_gain_caps conf mc s0) as (Ep & Ei & Ed).
  destruct (reachable_same_config ST2MS SIGN _ _ R) as (_ & Hf & _).
  assert (G : gains_invariant s).
  { apply (reachable_gains_invariant ST2MS SIGN
             (app_balance_configure conf mc s0) s); [ | | | exact R].
    - rewrite Ep. apply Q.min_glb; [exact Hp | discriminate].
    - rewrite Ei. apply Q.min_glb; [exact Hi | discriminate].
    - rewrite Ed. apply Q.min_glb; [exact Hd | discriminate]. }
  destruct G as (_ & _ & _ & G). unfold gains_bounded in G.
  rewrite (Hf kp_acc), (Hf ki_acc), (Hf kd_acc), Ep, Ei, Ed in G
    by reflexivity.
  exact G.
Qed.

Lemma gains_within_scheduled_bounds_witness :
  (0 <= BC.kp sample_conf /\ 0 <= BC.ki sample_conf
   /\ 0 <= BC.kd sample_conf) /\
  reachable ST2MS_10kHz SIGN_macro configured (reset_vars configured) /\
  fl (reset_vars configured) kp <= Qmax 2 (2 * fminf (BC.kp sample_conf) 10).
Proof.
  assert (Hp : 0 <= BC.kp sample_conf) by discriminate.
  assert (Hi : 0 <= BC.ki sample_conf) by discriminate.
  assert (Hd : 0 <= BC.kd sample_conf) by discriminate.
  assert (R : reachable ST2MS_10kHz SIGN_macro configured
                (reset_vars configured))
    by (apply reach_reset; apply same_config_refl).
  split; [repeat split; assumption |].
  split; [exact R |].
  exact (proj1 (gains_within_scheduled_bounds ST2MS_10kHz SIGN_macro
                  sample_conf sample_mc power_on (reset_vars configured)
                  Hp Hi Hd R)).
Defined.

(* ================================================================= *)
(** ** The quotient of the cutback detector *)

Lemma app_balance_configure_roll_aggregate_threshold (conf : balance_config)
    (mc : mc_configuration) (s : State) :
  fl (app_balance_configure conf mc s) roll_aggregate_threshold = 5000.
Proof.
  unfold app_balance_configure. cbv zeta. skip_parts.
  unfold configure_turntilt. cbv zeta. upd_simpl. reflexivity.
Qed.

Lemma roll_aggregate_reset_preserved (W : footprint) (s s' : State) :
  wr fvar_eq_dec (Wf W) roll_angle = false ->
  wr fvar_eq_dec (Wf W) roll_aggregate = false ->
  preserved W s s' -> roll_aggregate_reset s -> roll_aggregate_reset s'.
Proof.
  intros H1 H2 P. unfold roll_aggregate_reset.
  rewrite (pres_fl _ _ _ P _ H1), (pres_fl _ _ _ P _ H2). exact (fun H => H).
Qed.

Lemma read_sensors_abs_roll_angle (h : Hardware) (s : State) :
  fl (read_sensors h s) abs_roll_angle
  = fabsf (fl (read_sensors h s) roll_angle).
Proof. unfold read_sensors. cbv zeta. upd_simpl. reflexivity. Qed.

Lemma update_roll_aggregate_reset (s : State) :
  fl s abs_roll_angle = fabsf (fl s roll_angle) ->
  roll_aggregate_reset (update_roll_aggregate s).
Proof.
  intros E. unfold roll_aggregate_reset, update_roll_aggregate.
  rewrite E.
  destruct (Qgtb_spec (fabsf (fl s roll_angle)) 8) as [H | H];
    upd_simpl; intros H'; [lra | reflexivity].
Qed.

(** Under the invariant, an aggregate above a threshold that is not negative
    needs a roll angle above 8 degrees. *)
Lemma roll_aggregate_above_threshold (s : State) :
  roll_aggregate_reset s -> 0 <= fl s roll_aggregate_threshold ->
  fl s roll_aggregate_threshold < fabsf (fl s roll_aggregate) ->
  8 < fabsf (fl s roll_angle).
Proof.
  unfold roll_aggregate_reset, fabsf. intros R T H.
  destruct (Qlt_le_dec 8 (Qabs (fl s roll_angle))) as [L | L];
    [exact L |].
  rewrite (R L) in H. change (Qabs 0) with 0 in H. lra.
Qed.

Lemma checked_div_defined (x y : Q) :
  0 < fabsf y -> checked_div x y = Some (x / y).
Proof.
  intros H. unfold checked_div.
  destruct (Qeqb_spec y 0) as [E | _]; [ | reflexivity].
  unfold fabsf in H. rewrite E in H. change (Qabs 0) with 0 in H. lra.
Qed.

Section Cutback.

Variable ST2MS : Z -> Z.
Variable SIGN : Q -> Q.

Lemma read_inputs_roll_aggregate_reset (h : Hardware) (s : State) :
  roll_aggregate_reset (read_inputs SIGN h s).
Proof.
  rewrite read_inputs_split. unfold after_sensors. cbv zeta.
  pose proof (read_sensors_abs_roll_angle h s) as E.
  generalize dependent (read_sensors h s). intros s1 E.
  pose proof (update_yaw_footprint SIGN h s1) as P1.
  rewrite <- (pres_fl _ _ _ P1 abs_roll_angle),
          <- (pres_fl _ _ _ P1 roll_angle) in E by reflexivity.
  generalize dependent (update_yaw SIGN h s1). intros s2 E _.
  apply update_roll_aggregate_reset in E.
  generalize dependent (update_roll_aggregate s2). intros s3 R.
  apply (roll_aggregate_reset_preserved W_update_acceleration _ _
           eq_refl eq_refl (update_acceleration_footprint h s3)) in R.
  generalize dependent (update_acceleration h s3). intros s4 R.
  apply (roll_aggregate_reset_preserved W_check_adcs _ _
           eq_refl eq_refl (check_adcs_footprint h s4)) in R.
  exact R.
Qed.

(** The quotient of the detector is defined whenever it is reached. *)
Lemma detect_cutback_defined (s : State) :
  roll_aggregate_reset s -> 0 <= fl s roll_aggregate_threshold ->
  exists c, detect_cutback SIGN s = Some c.
Proof.
  intros R T. unfold detect_cutback. cbv zeta.
  destruct (Qgtb_spec (fabsf (fl s roll_aggregate))
              (fl s roll_aggregate_threshold)) as [H | H].
  - pose proof (roll_aggregate_above_threshold s R T H) as L.
    rewrite checked_div_defined by lra.
    destruct (_ && _ && _); eexists; reflexivity.
  - rewrite andb_false_r. cbn [andb]. eexists; reflexivity.
Qed.

Lemma apply_turntilt_defined (s : State) :
  roll_aggregate_reset s -> 0 <= fl s roll_aggregate_threshold ->
  exists s', apply_turntilt SIGN s = Some s'.
Proof.
  intros R T. unfold apply_turntilt. cbv zeta.
  destruct (detect_cutback_defined s R T) as [c E]. rewrite E.
  destruct (_ || _); [eexists; reflexivity |].
  destruct (bl s cutback_enable); eexists; reflexivity.
Qed.

(** The state in which [apply_turntilt] runs, for the state [s] that enters
    the running branch without a fault. *)
Lemma turntilt_input_roll_aggregate_reset (h : Hardware) (s : State) :
  roll_aggregate_reset s ->
  roll_aggregate_reset
    (apply_torquetilt SIGN
       (apply_noseangling SIGN
          (shape_setpoint ST2MS h
             (snd (call (check_faults ST2MS false) s))))).
Proof.
  intros R.
  apply (roll_aggregate_reset_preserved W_apply_torquetilt _ _
           eq_refl eq_refl (apply_torquetilt_footprint SIGN _)).
  apply (roll_aggregate_reset_preserved W_apply_noseangling _ _
           eq_refl eq_refl (apply_noseangling_footprint SIGN _)).
  apply (roll_aggregate_reset_preserved W_shape_setpoint _ _
           eq_refl eq_refl (shape_setpoint_footprint ST2MS h _)).
  apply (roll_aggregate_reset_preserved W_check_faults _ _
           eq_refl eq_refl (check_faults_footprint ST2MS false s)).
  exact R.
Qed.

Lemma turntilt_input_threshold (h : Hardware) (s : State) :
  fl (apply_torquetilt SIGN
        (apply_noseangling SIGN
           (shape_setpoint ST2MS h
              (snd (call (check_faults ST2MS false) s)))))
     roll_aggregate_threshold
  = fl s roll_aggregate_threshold.
Proof.
  rewrite (pres_fl _ _ _ (apply_torquetilt_footprint SIGN _)) by reflexivity.
  rewrite (pres_fl _ _ _ (apply_noseangling_footprint SIGN _)) by reflexivity.
  rewrite (pres_fl _ _ _ (shape_setpoint_footprint ST2MS h _)) by reflexivity.
  rewrite (pres_fl _ _ _ (check_faults_footprint ST2MS false s))
    by reflexivity.
  reflexivity.
Qed.

Lemma running_branch_defined (h : Hardware) (s : State) :
  roll_aggregate_reset s -> 0 <= fl s roll_aggregate_threshold ->
  exists s', running_branch ST2MS SIGN h s = Some s'.
Proof.
  intros R T. rewrite running_branch_eq.
  pose proof (turntilt_input_roll_aggregate_reset h s R) as R'.
  pose proof (turntilt_input_threshold h s) as T'.
  destruct (call (check_faults ST2MS false) s) as [faulted s1].
  cbn [snd] in R', T'.
  destruct faulted; [eexists; reflexivity |].
  unfold apply_tilts.
  generalize dependent (shape_setpoint ST2MS h s1). intros s2 R' T'.
  destruct (_ >=? _)%Z; [ | eexists; reflexivity].
  destruct (apply_turntilt_defined _ R') as [s3 E];
    [rewrite T'; exact T |].
  rewrite E. eexists; reflexivity.
Qed.

(** C9.  With a threshold that is not negative (the configured one is 5000),
    an iteration of the loop in a running state never divides by a zero roll
    angle: it gives a next state; and in the state in which the cutback
    detector runs, an aggregate above the threshold comes with a roll angle
    above 8 degrees. *)
Theorem cutback_quotient_is_defined (h : Hardware) (s : State) :
  0 <= fl s roll_aggregate_threshold ->
  (exists s', running_tick ST2MS SIGN h s = Some s') /\
  let s1 :=
    apply_torquetilt SIGN
      (apply_noseangling SIGN
         (shape_setpoint ST2MS h
            (snd (call (check_faults ST2MS false) (read_inputs SIGN h s)))))
  in
  (fl s1 roll_aggregate_threshold < fabsf (fl s1 roll_aggregate) ->
   8 < fabsf (fl s1 roll_angle)
   /\ checked_div (fl s1 yaw_change * 100) (fl s1 roll_angle)
      = Some (fl s1 yaw_change * 100 / fl s1 roll_angle)).
Proof.
  intros T.
  pose proof (read_inputs_roll_aggregate_reset h s) as R.
  assert (T0 : 0 <= fl (read_inputs SIGN h s) roll_aggregate_threshold).
  { rewrite (pres_fl _ _ _ (read_inputs_footprint SIGN h s)) by reflexivity.
    exact T. }
  split.
  - rewrite running_tick_eq. apply running_branch_defined; assumption.
  - cbv zeta. intros H.
    pose proof (turntilt_input_roll_aggregate_reset h _ R) as R'.
    pose proof (turntilt_input_threshold h (read_inputs SIGN h s)) as T'.
    assert (L : 8 < fabsf (fl (apply_torquetilt SIGN
                                 (apply_noseangling SIGN
                                    (shape_setpoint ST2MS h
                                       (snd (call (check_faults ST2MS false)
                                               (read_inputs SIGN h s))))))
                             roll_angle)).
    { apply roll_aggregate_above_threshold;
        [exact R' | rewrite T'; exact T0 | exact H]. }
    split; [exact L | apply checked_div_defined; lra].
Qed.

End Cutback.

Lemma cutback_quotient_is_defined_witness :
  0 <= fl (reset_vars configured) roll_aggregate_threshold /\
  exists s',
    running_tick ST2MS_10kHz SIGN_macro (at_rest 1) (reset_vars configured)
    = Some s'.
Proof.
  assert (T : 0 <= fl (reset_vars configured) roll_aggregate_threshold)
    by (vm_compute; discriminate).
  split; [exact T |].
  exact (proj1 (cutback_quotient_is_defined ST2MS_10kHz SIGN_macro
                  (at_rest 1) (reset_vars configured) T)).
Defined.

(* ================================================================= *)
(** ** The moving average of the acceleration *)

Lemma update_acceleration_effect (h : Hardware) (s : State) :
  let x := inject_Z (nt s erpm_sign) * mcpwm_foc_get_smooth_erpm h
           - fl s last_erpm in
  let s' := update_acceleration h s in
  fl s' accelavg
  = fl s accelavg + (x - accelhist s (nt s accelidx)) / 40 /\
  accelhist s' = array_set (nt s accelidx) x (accelhist s) /\
  nt s' accelidx
  = (if (nt s accelidx + 1 =? 40)%Z then 0 else nt s accelidx + 1)%Z /\
  fl s' last_erpm = inject_Z (nt s erpm_sign) * mcpwm_foc_get_smooth_erpm h /\
  nt s' erpm_sign = nt s erpm_sign.
Proof.
  cbv zeta. unfold update_acceleration. cbv zeta. upd_simpl.
  change ACCEL_ARRAY_SIZE with 40%Z.
  destruct (nt s accelidx + 1 =? 40)%Z; upd_simpl; repeat split; reflexivity.
Qed.

Lemma Qsum_cons (a : Q) (l : list Q) : Qsum (a :: l) = a + Qsum l.
Proof. reflexivity. Qed.

Lemma Qsum_firstn_S (n : nat) (l : list Q) :
  Qsum (firstn (S n) l) == Qsum (firstn n l) + nth n l 0.
Proof.
  revert l. induction n as [ | n IH]; intros [ | a l].
  - reflexivity.
  - cbn [firstn nth]. rewrite Qsum_cons. ring.
  - reflexivity.
  - change (firstn (S (S n)) (a :: l)) with (a :: firstn (S n) l).
    change (firstn (S n) (a :: l)) with (a :: firstn n l).
    cbn [nth]. rewrite !Qsum_cons, IH. ring.
Qed.

Lemma Qsum_app (l1 l2 : list Q) : Qsum (l1 ++ l2) == Qsum l1 + Qsum l2.
Proof.
  induction l1 as [ | a l1 IH]; cbn [app].
  - change (Qsum []) with 0. ring.
  - rewrite !Qsum_cons, IH. ring.
Qed.

Lemma Qsum_rev (l : list Q) : Qsum (rev l) == Qsum l.
Proof.
  induction l as [ | a l IH]; cbn [rev]; [reflexivity |].
  rewrite Qsum_app, IH, !Qsum_cons. change (Qsum []) with 0. ring.
Qed.

Lemma ring_holds_step (h : Hardware) (recent : list Q) (s : State) :
  ring_holds recent s ->
  ring_holds
    ((inject_Z (nt s erpm_sign) * mcpwm_foc_get_smooth_erpm h
      - fl s last_erpm) :: recent)
    (update_acceleration h s).
Proof.
  intros (Hi & Hr & Ha).
  destruct (update_acceleration_effect h s) as (Ea & Er & Ei & _).
  set (x := inject_Z (nt s erpm_sign) * mcpwm_foc_get_smooth_erpm h
            - fl s last_erpm) in *.
  unfold ring_holds. rewrite Ea, Er, Ei. clear Ea Er Ei.
  split; [ | split].
  - destruct (Z.eqb_spec (nt s accelidx + 1) 40); lia.
  - intros j Hj. unfold array_set. destruct j as [ | j].
    + cbn [nth].
      replace ((_ - 1 - Z.of_nat 0) mod 40)%Z with (nt s accelidx)
        by (destruct (Z.eqb_spec (nt s accelidx + 1) 40);
            Z.div_mod_to_equations; lia).
      rewrite upd_same. reflexivity.
    + cbn [nth]. rewrite <- (Hr j) by lia.
      replace ((_ - 1 - Z.of_nat (S j)) mod 40)%Z
        with ((nt s accelidx - 1 - Z.of_nat j) mod 40)%Z
        by (destruct (Z.eqb_spec (nt s accelidx + 1) 40);
            Z.div_mod_to_equations; lia).
      rewrite upd_other; [reflexivity |].
      Z.div_mod_to_equations; lia.
  - assert (Ho : accelhist s (nt s accelidx) == nth 39 recent 0).
    { rewrite <- (Hr 39%nat) by lia.
      replace ((nt s accelidx - 1 - Z.of_nat 39) mod 40)%Z
        with (nt s accelidx) by (Z.div_mod_to_equations; lia).
      reflexivity. }
    rewrite Ho, Ha.
    change (firstn 40 (x :: recent)) with (x :: firstn 39 recent).
    rewrite (Qsum_firstn_S 39 recent).
    rewrite Qsum_cons. field.
Qed.

Lemma ring_holds_preserved (W : footprint) (recent : list Q) (s s' : State) :
  wr fvar_eq_dec (Wf W) accelavg = false ->
  wr ivar_eq_dec (Wn W) accelidx = false ->
  wr comp_eq_dec (Wc W) c_ring = false ->
  preserved W s s' -> ring_holds recent s -> ring_holds recent s'.
Proof.
  intros H1 H2 H3 P. unfold ring_holds.
  rewrite (pres_fl _ _ _ P _ H1), (pres_nt _ _ _ P _ H2),
          (pres_ring _ _ _ P H3).
  exact (fun H => H).
Qed.

(** The ring after [reset_vars]: forty zeros, no sample yet. *)
Lemma zero_fill (l : list nat) (a : Z -> Q) (i : Z) :
  In i (map Z.of_nat l) \/ a i = 0 ->
  fold_left (fun a i => array_set (Z.of_nat i) 0 a) l a i = 0.
Proof.
  revert a. induction l as [ | x l IH]; intros a H; cbn [fold_left].
  - destruct H as [[] | H]. exact H.
  - apply IH. unfold array_set.
    destruct (Z.eq_dec (Z.of_nat x) i) as [E | E].
    + right. rewrite E. apply upd_same.
    + rewrite upd_other by exact E.
      destruct H as [[H | H] | H]; [contradiction | left; exact H
                                   | right; exact H].
Qed.

Lemma reset_vars_ring_holds (s : State) : ring_holds [] (reset_vars s).
Proof.
  unfold ring_holds, reset_vars. cbv zeta. upd_simpl.
  destruct (bl s use_soft_start); upd_simpl; (split; [lia | split]);
    try reflexivity;
    intros j Hj;
    (rewrite zero_fill; [destruct j; reflexivity |]);
    left; apply in_map_iff;
    exists (Z.to_nat ((0 - 1 - Z.of_nat j) mod 40));
    pose proof (Z.mod_pos_bound (0 - 1 - Z.of_nat j) 40);
    (split; [apply Z2Nat.id | apply in_seq]); lia.
Qed.

Lemma accel_run_ring_holds (hs : list Hardware) :
  forall (recent : list Q) (s : State),
    ring_holds recent s ->
    ring_holds
      (rev (raw_samples (inject_Z (nt s erpm_sign)) (fl s last_erpm) hs)
       ++ recent)
      (accel_run hs s).
Proof.
  induction hs as [ | h hs IH]; intros recent s H.
  - exact H.
  - cbn [raw_samples rev]. cbv zeta. rewrite <- app_assoc. cbn [app].
    destruct (update_acceleration_effect h s) as (_ & _ & _ & El & Es).
    change (accel_run (h :: hs) s)
      with (accel_run hs (update_acceleration h s)).
    pose proof (IH _ _ (ring_holds_step h recent s H)) as G.
    rewrite El, Es in G. exact G.
Qed.

(** C8.  Starting from the ring as [reset_vars] leaves it, after the
    acceleration statements of any number of iterations, [accelavg] is the
    sum of the last 40 values of [acceleration_raw] (of all of them while
    there are fewer than 40), divided by 40. *)
Theorem accelavg_is_mean_of_last_40 (hs : list Hardware) (s0 : State) :
  let s := reset_vars s0 in
  fl (accel_run hs s) accelavg
  == Qsum (lastn 40
             (raw_samples (inject_Z (nt s erpm_sign)) (fl s last_erpm) hs))
     / 40.
Proof.
  cbv zeta.
  destruct (accel_run_ring_holds hs [] (reset_vars s0)
              (reset_vars_ring_holds s0)) as (_ & _ & H).
  rewrite H, app_nil_r, firstn_rev, Qsum_rev. reflexivity.
Qed.

Section AccelerationInLoop.

Variable ST2MS : Z -> Z.
Variable SIGN : Q -> Q.

(** What is read before the acceleration statements keeps the ring, the
    sign and the last erpm. *)
Lemma before_acceleration_footprint (h : Hardware) (s : State) :
  preserved
    (fp_union W_read_sensors (fp_union W_update_yaw W_update_roll_aggregate))
    s (update_roll_aggregate (update_yaw SIGN h (read_sensors h s))).
Proof.
  eapply preserved_union; [apply read_sensors_footprint |].
  eapply preserved_union;
    [apply update_yaw_footprint | apply update_roll_aggregate_footprint].
Qed.

Lemma read_inputs_ring_holds (h : Hardware) (recent : list Q) (s : State) :
  ring_holds recent s ->
  ring_holds
    ((inject_Z (nt s erpm_sign) * mcpwm_foc_get_smooth_erpm h
      - fl s last_erpm) :: recent)
    (read_inputs SIGN h s).
Proof.
  intros H. rewrite read_inputs_split. unfold after_sensors. cbv zeta.
  pose proof (before_acceleration_footprint h s) as P.
  generalize dependent
    (update_roll_aggregate (update_yaw SIGN h (read_sensors h s))).
  intros s3 P.
  apply (ring_holds_preserved W_check_adcs _ (update_acceleration h s3));
    [reflexivity | reflexivity | reflexivity | | ].
  - apply check_adcs_footprint.
  - rewrite <- (pres_nt _ _ _ P erpm_sign), <- (pres_fl _ _ _ P last_erpm)
      by reflexivity.
    apply ring_holds_step.
    apply (ring_holds_preserved _ _ s s3) with (4 := P);
      [reflexivity | reflexivity | reflexivity | exact H].
Qed.

(** An iteration in a running state does the acceleration statements once
    and nothing else to the ring and the average. *)
Lemma running_tick_ring_holds (h : Hardware) (recent : list Q)
    (s s' : State) :
  ring_holds recent s ->
  running_tick ST2MS SIGN h s = Some s' ->
  ring_holds
    ((inject_Z (nt s erpm_sign) * mcpwm_foc_get_smooth_erpm h
      - fl s last_erpm) :: recent)
    s'.
Proof.
  intros H E. rewrite running_tick_eq in E.
  apply (read_inputs_ring_holds h) in H.
  generalize dependent (read_inputs SIGN h s). intros s0 H E.
  pose proof (running_branch_footprint ST2MS SIGN h s0) as P.
  rewrite E in P. cbn [preserved_opt] in P.
  apply (ring_holds_preserved W_running_branch _ s0 s');
    [reflexivity | reflexivity | reflexivity | exact P | exact H].
Qed.

End AccelerationInLoop.

(* ================================================================= *)
(** ** An iteration, step by step *)

Lemma read_sensors_values (h : Hardware) (s : State) :
  fl (read_sensors h s) pitch_angle = imu_get_pitch h /\
  fl (read_sensors h s) roll_angle = imu_get_roll h /\
  fl (read_sensors h s) abs_duty_cycle
  = fabsf (mc_interface_get_duty_cycle_now h) /\
  fl (read_sensors h s) erpm = mc_interface_get_rpm h /\
  fl (read_sensors h s) abs_erpm = fabsf (mc_interface_get_rpm h) /\
  tm (read_sensors h s) current_time = chVTGetSystemTimeX h.
Proof.
  unfold read_sensors. cbv zeta. upd_simpl. repeat split; reflexivity.
Qed.

Section Iteration.

Variable ST2MS : Z -> Z.
Variable SIGN : Q -> Q.

(** What the loop has read when it enters the running branch. *)
Lemma read_inputs_values (h : Hardware) (s : State) :
  fl (read_inputs SIGN h s) pitch_angle = imu_get_pitch h /\
  fl (read_inputs SIGN h s) roll_angle = imu_get_roll h /\
  fl (read_inputs SIGN h s) abs_duty_cycle
  = fabsf (mc_interface_get_duty_cycle_now h) /\
  fl (read_inputs SIGN h s) erpm = mc_interface_get_rpm h /\
  fl (read_inputs SIGN h s) abs_erpm = fabsf (mc_interface_get_rpm h) /\
  tm (read_inputs SIGN h s) current_time = chVTGetSystemTimeX h.
Proof.
  rewrite read_inputs_split.
  pose proof (after_sensors_footprint SIGN h (read_sensors h s)) as P.
  rewrite !(pres_fl _ _ _ P), (pres_tm _ _ _ P) by reflexivity.
  apply read_sensors_values.
Qed.

Lemma read_inputs_switch_state (h : Hardware) (s : State) :
  switch_state (read_inputs SIGN h s) = fst (check_adcs h s).
Proof.
  rewrite read_inputs_split. unfold after_sensors. cbv zeta.
  cbn [switch_state set_switch_state]. apply check_adcs_conf.
  rewrite (pres_conf _ _ _ (update_acceleration_footprint h _)).
  rewrite (pres_conf _ _ _ (update_roll_aggregate_footprint _)).
  rewrite (pres_conf _ _ _ (update_yaw_footprint SIGN h _)).
  apply (pres_conf _ _ _ (read_sensors_footprint h s)).
Qed.

(** The shaper changes [state] and the mode only in
    [calculate_setpoint_target]. *)
Lemma shape_setpoint_state_mode (h : Hardware) (s : State) :
  state (shape_setpoint ST2MS h s) = state (calculate_setpoint_target ST2MS h s)
  /\ setpointAdjustmentType (shape_setpoint ST2MS h s)
     = setpointAdjustmentType (calculate_setpoint_target ST2MS h s).
Proof.
  unfold shape_setpoint. cbv zeta.
  cbn [state setpointAdjustmentType set_fl].
  pose proof (calculate_setpoint_interpolated_footprint
                (calculate_setpoint_target ST2MS h s)) as P.
  rewrite (pres_state _ _ _ P), (pres_mode _ _ _ P) by reflexivity.
  split; reflexivity.
Qed.

(** The running branch when no fault is raised: it gives a state, in which
    [state], the mode and the timers are as the shaper leaves them. *)
Lemma running_branch_not_faulted (h : Hardware) (s s1 : State) :
  call (check_faults ST2MS false) s = (false, s1) ->
  roll_aggregate_reset s -> 0 <= fl s roll_aggregate_threshold ->
  exists s',
    running_branch ST2MS SIGN h s = Some s' /\
    preserved W_after_shaping (shape_setpoint ST2MS h s1) s'.
Proof.
  intros E R T.
  destruct (running_branch_defined ST2MS SIGN h s R T) as [s' E'].
  exists s'. split; [exact E' |].
  rewrite running_branch_eq, E in E'.
  pose proof (after_shaping_footprint SIGN (shape_setpoint ST2MS h s1)) as P.
  generalize dependent (shape_setpoint ST2MS h s1). intros s2 E' P.
  destruct (apply_tilts SIGN s2) as [s3 | ]; [ | discriminate E'].
  cbn [preserved_opt] in P.
  generalize dependent (pid_block SIGN s3). intros s4 E' P.
  inversion E'; subst s'. exact P.
Qed.

(** The running branch when a fault is raised. *)
Lemma running_branch_faulted (h : Hardware) (s s1 : State) :
  call (check_faults ST2MS false) s = (true, s1) ->
  running_branch ST2MS SIGN h s = Some s1.
Proof. intros E. rewrite running_branch_eq, E. reflexivity. Qed.

End Iteration.

(* ================================================================= *)
(** ** High voltage tiltback *)

Lemma rearmed_footprint (s : State) : preserved W_fault_timers s (rearmed s).
Proof. unfold rearmed. fp. Qed.

Lemma rearmed_timers (s : State) :
  tm (rearmed s) current_time = tm s current_time /\
  tm (rearmed s) fault_switch_timer = tm s current_time.
Proof. unfold rearmed. upd_simpl. split; reflexivity. Qed.

Section HighVoltage.

Variable ST2MS : Z -> Z.
Variable SIGN : Q -> Q.

(** In normal riding with the input voltage above the threshold by at most
    one volt, high voltage tiltback needs more than 500 ms on
    [fault_switch_timer]; [tb_highvoltage_timer] is not consulted. *)
Lemma calculate_setpoint_target_mild_overvoltage (h : Hardware) (s : State) :
  setpointAdjustmentType s = TILTBACK_NONE ->
  fl s abs_duty_cycle <= BC.tiltback_duty (balance_conf s) ->
  BC.tiltback_hv (balance_conf s) < GET_INPUT_VOLTAGE h ->
  GET_INPUT_VOLTAGE h <= BC.tiltback_hv (balance_conf s) + 1 ->
  (ST2MS (st_sub (tm s current_time) (tm s fault_switch_timer)) <= 500)%Z ->
  riding_normally (calculate_setpoint_target ST2MS h s).
Proof.
  intros Hm Hd H1 H2 Ht. unfold calculate_setpoint_target. cbv zeta.
  rewrite (Qltb_false (GET_INPUT_VOLTAGE h) (BC.tiltback_hv (balance_conf s)))
    by lra.
  cbv iota. rewrite Hm. cbn [is_mode].
  rewrite (Qgtb_false _ _ Hd), (Qgtb_true _ _ H1), (Zgtb_false _ _ Ht),
          (Qgtb_false _ _ H2).
  cbn [orb]. split; reflexivity.
Qed.

(** The end of the centering sequence. *)
Lemma calculate_setpoint_target_centered (h : Hardware) (s : State) :
  centered s -> riding_normally (calculate_setpoint_target ST2MS h s).
Proof.
  intros (Hs & Hm & Hi & Hu). unfold calculate_setpoint_target. cbv zeta.
  assert (E : setpointAdjustmentType
                (if GET_INPUT_VOLTAGE h <? BC.tiltback_hv (balance_conf s)
                 then set_tm tb_highvoltage_timer (tm s current_time) s
                 else s) = CENTERING)
    by (destruct (_ <? _); exact Hm).
  rewrite E. cbn [is_mode].
  destruct (GET_INPUT_VOLTAGE h <? BC.tiltback_hv (balance_conf s));
    upd_simpl;
    (destruct (Qneb_spec (fl s setpoint_target_interpolated)
                 (fl s setpoint_target)) as [N | _]; [contradiction |]);
    rewrite Hu; cbn [negb];
    destruct (_ >? _)%Z; split; assumption || reflexivity.
Qed.

Lemma mild_overvoltage_conf (s s' : State) (h : Hardware) :
  balance_conf s' = balance_conf s ->
  mild_overvoltage s h -> mild_overvoltage s' h.
Proof.
  intros E. unfold mild_overvoltage. cbv zeta.
  rewrite E, (check_adcs_conf h s s' E). exact (fun H => H).
Qed.

(** One iteration under a mild overvoltage: the fault switch timer has just
    been re-armed, so the mode stays (or becomes) [TILTBACK_NONE]. *)
Lemma mild_overvoltage_tick (h : Hardware) (s : State) :
  (ST2MS 0 <= 500)%Z ->
  0 <= fl s roll_aggregate_threshold ->
  mild_overvoltage s h ->
  riding_normally s \/ centered s ->
  exists s',
    running_tick ST2MS SIGN h s = Some s' /\ riding_normally s'.
Proof.
  intros Z0 T (Hsw & Hd1 & Hd2 & Hp & Hr & Hrpm & Hv1 & Hv2) Hmode.
  rewrite running_tick_eq.
  destruct (read_inputs_values SIGN h s) as (Vp & Vr & Vd & Ve & Vae & Vt).
  pose proof (read_inputs_switch_state SIGN h s) as Vs.
  pose proof (read_inputs_footprint SIGN h s) as P0.
  pose proof (read_inputs_roll_aggregate_reset SIGN h s) as R0.
  remember (read_inputs SIGN h s) as s0 eqn:Es0. clear Es0.
  pose proof (pres_conf _ _ _ P0) as C0.
  assert (Hm0 : is_mode (setpointAdjustmentType s0) REVERSESTOP = false).
  { rewrite (pres_mode _ _ _ P0) by reflexivity.
    destruct Hmode as [(_ & Hm) | (_ & Hm & _)]; rewrite Hm; reflexivity. }
  assert (E1 : call (check_faults ST2MS false) s0 = (false, rearmed s0)).
  { apply check_faults_calm.
    - rewrite Vs, Hsw. reflexivity.
    - exact Hm0.
    - rewrite Vp, C0. exact Hp.
    - rewrite Vr, C0. exact Hr.
    - rewrite Vd, C0. exact Hd2. }
  assert (T0 : 0 <= fl s0 roll_aggregate_threshold)
    by (rewrite (pres_fl _ _ _ P0) by reflexivity; exact T).
  destruct (running_branch_not_faulted ST2MS SIGN h s0 (rearmed s0) E1 R0 T0)
    as (s' & E' & P').
  exists s'. split; [exact E' |].
  unfold riding_normally.
  rewrite (pres_state _ _ _ P'), (pres_mode _ _ _ P') by reflexivity.
  destruct (shape_setpoint_state_mode ST2MS h (rearmed s0)) as [S1 S2].
  rewrite S1, S2. clear S1 S2 P' E' s'.
  pose proof (rearmed_footprint s0) as P1.
  destruct (rearmed_timers s0) as [T1 T2].
  change (riding_normally (calculate_setpoint_target ST2MS h (rearmed s0))).
  destruct Hmode as [(Hs & Hm) | (Hs & Hm & Hi & Hu)].
  - apply calculate_setpoint_target_mild_overvoltage.
    + rewrite (pres_mode _ _ _ P1), (pres_mode _ _ _ P0) by reflexivity.
      exact Hm.
    + rewrite (pres_fl _ _ _ P1), (pres_conf _ _ _ P1), Vd, C0
        by reflexivity.
      exact Hd1.
    + rewrite (pres_conf _ _ _ P1), C0. exact Hv1.
    + rewrite (pres_conf _ _ _ P1), C0. exact Hv2.
    + rewrite T1, T2, st_sub_diag. exact Z0.
  - apply calculate_setpoint_target_centered. unfold centered.
    rewrite (pres_state _ _ _ P1), (pres_state _ _ _ P0),
            (pres_mode _ _ _ P1), (pres_mode _ _ _ P0),
            !(pres_fl _ _ _ P1), !(pres_fl _ _ _ P0),
            (pres_bl _ _ _ P1), (pres_bl _ _ _ P0) by reflexivity.
    repeat split; assumption.
Qed.

(** However long a mild overvoltage lasts while a pad is pressed, the mode
    never becomes [TILTBACK_HV]: after each iteration the controller is in
    normal riding. *)
Lemma mild_overvoltage_run (hs : list Hardware) :
  forall s : State,
    (ST2MS 0 <= 500)%Z ->
    0 <= fl s roll_aggregate_threshold ->
    Forall (mild_overvoltage s) hs ->
    riding_normally s \/ centered s ->
    exists s',
      run ST2MS SIGN hs s = Some s' /\
      (hs <> [] -> riding_normally s') /\
      (riding_normally s' \/ centered s').
Proof.
  induction hs as [ | h hs IH]; intros s Z0 T F Hmode.
  - exists s. split; [reflexivity | split; [congruence | exact Hmode]].
  - inversion F as [ | h' hs' Fh Fhs]; subst.
    destruct (mild_overvoltage_tick h s Z0 T Fh Hmode) as (s1 & E1 & N1).
    pose proof (same_config_running_tick ST2MS SIGN s s s1 h E1
                  (same_config_refl s)) as (C1 & Cf & _).
    destruct (IH s1 Z0) as (s' & E' & N' & M').
    + rewrite Cf by reflexivity. exact T.
    + apply (Forall_impl _ (fun a => mild_overvoltage_conf s s1 a C1)).
      exact Fhs.
    + left. exact N1.
    + exists s'. cbn [run].
      assert (Hr : is_running (state s) = true)
        by (destruct Hmode as [(Hs & _) | (Hs & _)]; rewrite Hs;
            reflexivity).
      rewrite Hr, E1. split; [exact E' | split; [ | exact M']].
      intros _. destruct hs as [ | h2 hs2].
      * cbn [run] in E'. inversion E'; subst s'. exact N1.
      * apply N'. discriminate.
Qed.

End HighVoltage.

Lemma overvoltage_is_mild (k : Z) :
  mild_overvoltage (reset_vars configured) (overvoltage k).
Proof.
  unfold mild_overvoltage. cbv zeta.
  repeat split; vm_compute; first [reflexivity | discriminate].
Qed.

Lemma reset_vars_configured_centered : centered (reset_vars configured).
Proof.
  unfold centered. repeat split; vm_compute; reflexivity.
Qed.

(** C3, code against specification.  With the sample configuration (high
    voltage threshold 60 V), standing on both pads with 60.5 V at the input
    for any number [n + 1] of iterations, one millisecond apart (so also for
    much longer than 500 ms), every iteration completes and the controller
    ends in state [RUNNING] with mode [TILTBACK_NONE]: the high voltage
    tiltback never starts.  The time is measured from [fault_switch_timer],
    which the fault check re-arms in every iteration with a pad pressed. *)
Theorem sustained_overvoltage_never_tilts_back (n : nat) :
  BC.tiltback_hv sample_conf == 60 /\
  GET_INPUT_VOLTAGE (overvoltage 0) == 60.5 /\
  exists s',
    run ST2MS_10kHz SIGN_macro (readings overvoltage 0 (S n))
      (reset_vars configured) = Some s' /\
    state s' = RUNNING /\ setpointAdjustmentType s' = TILTBACK_NONE.
Proof.
  split; [reflexivity | split; [reflexivity |]].
  destruct (mild_overvoltage_run ST2MS_10kHz SIGN_macro
              (readings overvoltage 0 (S n)) (reset_vars configured))
    as (s' & E & N & _).
  - vm_compute. discriminate.
  - vm_compute. discriminate.
  - apply Forall_forall. intros h Hin. unfold readings in Hin.
    apply in_map_iff in Hin. destruct Hin as (k & Ek & _). subst h.
    apply overvoltage_is_mild.
  - right. exact reset_vars_configured_centered.
  - exists s'. split; [exact E |]. apply N.
    unfold readings. cbn [seq map]. discriminate.
Qed.

(** Above the threshold by more than one volt, the tiltback is immediate. *)
Lemma calculate_setpoint_target_high_overvoltage (ST2MS : Z -> Z)
    (h : Hardware) (s : State) :
  setpointAdjustmentType s = TILTBACK_NONE ->
  fl s abs_duty_cycle <= BC.tiltback_duty (balance_conf s) ->
  BC.tiltback_hv (balance_conf s) + 1 < GET_INPUT_VOLTAGE h ->
  state (calculate_setpoint_target ST2MS h s) = RUNNING_TILTBACK_HIGH_VOLTAGE
  /\ setpointAdjustmentType (calculate_setpoint_target ST2MS h s)
     = TILTBACK_HV.
Proof.
  intros Hm Hd H1. unfold calculate_setpoint_target. cbv zeta.
  rewrite (Qltb_false (GET_INPUT_VOLTAGE h) (BC.tiltback_hv (balance_conf s)))
    by lra.
  cbv iota. rewrite Hm. cbn [is_mode].
  rewrite (Qgtb_false _ _ Hd),
          (Qgtb_true (GET_INPUT_VOLTAGE h) (BC.tiltback_hv (balance_conf s)))
    by lra.
  rewrite (Qgtb_true _ _ H1), orb_true_r.
  split; reflexivity.
Qed.

(* ================================================================= *)
(** ** The foot switch at speed *)

Section SwitchAtSpeed.

Variable ST2MS : Z -> Z.
Variable SIGN : Q -> Q.

(** The setpoint target raises no switch fault. *)
Lemma calculate_setpoint_target_no_switch_fault (h : Hardware) (s : State) :
  is_switch_fault (state s) = false ->
  is_switch_fault (state (calculate_setpoint_target ST2MS h s)) = false.
Proof.
  intros H. unfold calculate_setpoint_target. cbv zeta.
  repeat match goal with
         | |- context [if ?c then _ else _] => destruct c
         end;
    cbn [state set_state set_tm set_fl set_setpointAdjustmentType];
    first [exact H | reflexivity].
Qed.

(** It enters reverse stop only when moving backwards with reverse stop
    enabled. *)
Lemma calculate_setpoint_target_not_reverse_stop (h : Hardware) (s : State) :
  is_mode (setpointAdjustmentType s) REVERSESTOP = false ->
  bl s use_reverse_stop = false \/ 0 <= fl s erpm ->
  is_mode (setpointAdjustmentType (calculate_setpoint_target ST2MS h s))
    REVERSESTOP = false.
Proof.
  intros H Hr. unfold calculate_setpoint_target. cbv zeta.
  assert (Hn : bl s use_reverse_stop && (fl s erpm <? 0) = false).
  { destruct Hr as [Hr | Hr]; [rewrite Hr; reflexivity |].
    rewrite (Qltb_false _ _ Hr). apply andb_false_r. }
  destruct (GET_INPUT_VOLTAGE h <? BC.tiltback_hv (balance_conf s));
    upd_simpl; rewrite ?Hn, H;
    repeat match goal with
           | |- context [if ?c then _ else _] => destruct c
           end;
    upd_simpl; first [exact H | reflexivity].
Qed.

Lemma off_at_speed_config (s s' : State) (h : Hardware) :
  same_config s s' -> off_at_speed s h -> off_at_speed s' h.
Proof.
  intros (Ec & _ & _ & Eb). unfold off_at_speed.
  rewrite Ec, (check_adcs_conf h s s' Ec), (Eb use_reverse_stop)
    by reflexivity.
  exact (fun H => H).
Qed.

(** One iteration with both pads released at speed, the high speed faults
    disabled, outside reverse stop, the timer not yet elapsed: no switch
    fault, and the timer is re-armed. *)
Lemma off_at_speed_tick (h : Hardware) (s : State) :
  0 <= fl s roll_aggregate_threshold ->
  bl s allow_high_speed_full_switch_faults = false ->
  off_at_speed s h ->
  is_mode (setpointAdjustmentType s) REVERSESTOP = false ->
  is_switch_fault (state s) = false ->
  (ST2MS (st_sub (chVTGetSystemTimeX h) (tm s fault_switch_timer))
   <= BC.fault_delay_switch_full (balance_conf s))%Z ->
  BC.fault_adc_half_erpm (balance_conf s) * 4
  <= fabsf (mc_interface_get_rpm h) \/
  (ST2MS (st_sub (chVTGetSystemTimeX h) (tm s fault_switch_timer))
   <= BC.fault_delay_switch_half (balance_conf s))%Z ->
  exists s',
    running_tick ST2MS SIGN h s = Some s' /\
    is_switch_fault (state s') = false /\
    is_mode (setpointAdjustmentType s') REVERSESTOP = false /\
    tm s' fault_switch_timer = chVTGetSystemTimeX h.
Proof.
  intros T Ha (Hsw & H3 & H4 & Hrev) Hm Hf Ht Hq.
  rewrite running_tick_eq.
  destruct (read_inputs_values SIGN h s) as (Vp & Vr & Vd & Ve & Vae & Vt).
  pose proof (read_inputs_switch_state SIGN h s) as Vs.
  pose proof (read_inputs_footprint SIGN h s) as P0.
  pose proof (read_inputs_roll_aggregate_reset SIGN h s) as R0.
  remember (read_inputs SIGN h s) as s0 eqn:Es0. clear Es0.
  pose proof (pres_conf _ _ _ P0) as C0.
  assert (T0 : 0 <= fl s0 roll_aggregate_threshold)
    by (rewrite (pres_fl _ _ _ P0) by reflexivity; exact T).
  assert (Hm0 : is_mode (setpointAdjustmentType s0) REVERSESTOP = false)
    by (rewrite (pres_mode _ _ _ P0) by reflexivity; exact Hm).
  assert (Hr0 : bl s0 use_reverse_stop = false \/ 0 <= fl s0 erpm)
    by (rewrite (pres_bl _ _ _ P0), Ve by reflexivity; exact Hrev).
  assert (F : is_switch_fault
                (state (snd (call (check_faults ST2MS false) s0))) = false
              /\ tm (snd (call (check_faults ST2MS false) s0))
                   fault_switch_timer = tm s0 current_time).
  { apply check_faults_off_at_speed.
    - rewrite Vs, Hsw. reflexivity.
    - rewrite Vt, C0, (pres_tm _ _ _ P0) by reflexivity. exact Ht.
    - rewrite Vae, Vt, C0, (pres_tm _ _ _ P0) by reflexivity. exact Hq.
    - rewrite Vae, C0. exact H4.
    - rewrite Vae. exact H3.
    - rewrite (pres_bl _ _ _ P0) by reflexivity. exact Ha.
    - exact Hm0.
    - rewrite (pres_state _ _ _ P0) by reflexivity. exact Hf. }
  pose proof (check_faults_footprint ST2MS false s0) as P1.
  destruct (call (check_faults ST2MS false) s0) as [faulted s1] eqn:E1.
  cbn [snd] in F, P1. destruct F as [F1 F2].
  destruct faulted.
  - exists s1. split; [apply running_branch_faulted; exact E1 |].
    split; [exact F1 | split].
    + rewrite (pres_mode _ _ _ P1) by reflexivity. exact Hm0.
    + rewrite F2. exact Vt.
  - destruct (running_branch_not_faulted ST2MS SIGN h s0 s1 E1 R0 T0)
      as (s' & E' & P').
    exists s'. split; [exact E' |].
    pose proof (shape_setpoint_footprint ST2MS h s1) as P2.
    destruct (shape_setpoint_state_mode ST2MS h s1) as [S1 S2].
    rewrite (pres_state _ _ _ P'), (pres_mode _ _ _ P'),
            (pres_tm _ _ _ P') by reflexivity.
    rewrite S1, S2, (pres_tm _ _ _ P2) by reflexivity.
    split; [ | split].
    + apply calculate_setpoint_target_no_switch_fault. exact F1.
    + apply calculate_setpoint_target_not_reverse_stop.
      * rewrite (pres_mode _ _ _ P1) by reflexivity. exact Hm0.
      * rewrite (pres_bl _ _ _ P1), (pres_fl _ _ _ P1) by reflexivity.
        exact Hr0.
    + rewrite F2. exact Vt.
Qed.

(** Both pads released once the full switch delay has elapsed, or once the
    half switch delay has elapsed below four times the half-switch speed,
    or with the board pitched by more than 15 degrees below the half-switch
    speed: the iteration ends in [FAULT_SWITCH_FULL], whatever the flag. *)
Lemma off_elapsed_tick (h : Hardware) (s : State) :
  fst (check_adcs h s) = OFF ->
  (BC.fault_delay_switch_full (balance_conf s)
   < ST2MS (st_sub (chVTGetSystemTimeX h) (tm s fault_switch_timer)))%Z \/
  (fabsf (mc_interface_get_rpm h)
   < BC.fault_adc_half_erpm (balance_conf s) * 4 /\
   (BC.fault_delay_switch_half (balance_conf s)
    < ST2MS (st_sub (chVTGetSystemTimeX h) (tm s fault_switch_timer)))%Z) \/
  (fabsf (mc_interface_get_rpm h) < BC.fault_adc_half_erpm (balance_conf s)
   /\ 15 < fabsf (imu_get_pitch h)) ->
  exists s',
    running_tick ST2MS SIGN h s = Some s' /\ state s' = FAULT_SWITCH_FULL.
Proof.
  intros Hsw Ht. rewrite running_tick_eq.
  destruct (read_inputs_values SIGN h s) as (Vp & _ & _ & _ & Vae & Vt).
  pose proof (read_inputs_switch_state SIGN h s) as Vs.
  pose proof (read_inputs_footprint SIGN h s) as P0.
  remember (read_inputs SIGN h s) as s0 eqn:Es0. clear Es0.
  exists (set_state FAULT_SWITCH_FULL s0).
  split; [ | reflexivity].
  apply running_branch_faulted. unfold call, check_faults.
  assert (E : check_switch_full ST2MS false s0
              = (Return true, set_state FAULT_SWITCH_FULL s0)).
  { apply check_switch_full_faults.
    - rewrite Vs, Hsw. reflexivity.
    - rewrite Vp, Vae, Vt, (pres_conf _ _ _ P0), (pres_tm _ _ _ P0)
        by reflexivity.
      exact Ht. }
  rewrite (bind_return _ _ _ _ _ E). reflexivity.
Qed.

(** Both pads released in reverse stop: the iteration ends in
    [FAULT_SWITCH_FULL], whatever the speed, the timers and the flag. *)
Lemma off_reverse_stop_tick (h : Hardware) (s : State) :
  fst (check_adcs h s) = OFF ->
  setpointAdjustmentType s = REVERSESTOP ->
  exists s',
    running_tick ST2MS SIGN h s = Some s' /\ state s' = FAULT_SWITCH_FULL.
Proof.
  intros Hsw Hm. rewrite running_tick_eq.
  pose proof (read_inputs_switch_state SIGN h s) as Vs.
  pose proof (read_inputs_footprint SIGN h s) as P0.
  remember (read_inputs SIGN h s) as s0 eqn:Es0. clear Es0.
  destruct (check_faults_reverse_stop_off ST2MS false s0) as [s1 [E1 E2]].
  - rewrite Vs, Hsw. reflexivity.
  - rewrite (pres_mode _ _ _ P0), Hm by reflexivity. reflexivity.
  - exists s1. split; [apply running_branch_faulted; exact E1 | exact E2].
Qed.

(** Both pads released below the half-switch speed once the half switch
    delay has elapsed on the half switch timer: the iteration ends in a
    switch fault. *)
Lemma off_slow_tick (h : Hardware) (s : State) :
  fst (check_adcs h s) = OFF ->
  fabsf (mc_interface_get_rpm h) < BC.fault_adc_half_erpm (balance_conf s) ->
  (BC.fault_delay_switch_half (balance_conf s)
   < ST2MS (st_sub (chVTGetSystemTimeX h) (tm s fault_switch_half_timer)))%Z ->
  exists s',
    running_tick ST2MS SIGN h s = Some s' /\
    is_switch_fault (state s') = true.
Proof.
  intros Hsw He Ht. rewrite running_tick_eq.
  destruct (read_inputs_values SIGN h s) as (_ & _ & _ & _ & Vae & Vt).
  pose proof (read_inputs_switch_state SIGN h s) as Vs.
  pose proof (read_inputs_footprint SIGN h s) as P0.
  remember (read_inputs SIGN h s) as s0 eqn:Es0. clear Es0.
  destruct (check_faults_off_slow ST2MS false s0) as [s1 [E1 E2]].
  - rewrite Vs, Hsw. reflexivity.
  - rewrite Vae, (pres_conf _ _ _ P0). exact He.
  - rewrite Vt, (pres_conf _ _ _ P0), (pres_tm _ _ _ P0) by reflexivity.
    exact Ht.
  - exists s1. split; [apply running_branch_faulted; exact E1 | exact E2].
Qed.

(** With the high speed faults allowed, released pads leave the timer as it
    is: the time since the pads were last pressed accumulates. *)
Lemma off_allowed_tick (h : Hardware) (s s' : State) :
  fst (check_adcs h s) = OFF ->
  bl s allow_high_speed_full_switch_faults = true ->
  running_tick ST2MS SIGN h s = Some s' ->
  tm s' fault_switch_timer = tm s fault_switch_timer.
Proof.
  intros Hsw Ha E. rewrite running_tick_eq in E.
  pose proof (read_inputs_switch_state SIGN h s) as Vs.
  pose proof (read_inputs_footprint SIGN h s) as P0.
  remember (read_inputs SIGN h s) as s0 eqn:Es0. clear Es0.
  assert (F : tm (snd (call (check_faults ST2MS false) s0)) fault_switch_timer
              = tm s fault_switch_timer).
  { rewrite check_faults_switch_timer, check_switch_full_keeps_timer.
    - apply (pres_tm _ _ _ P0). reflexivity.
    - rewrite Vs, Hsw. reflexivity.
    - rewrite (pres_bl _ _ _ P0) by reflexivity. exact Ha. }
  rewrite running_branch_eq in E.
  destruct (call (check_faults ST2MS false) s0) as [faulted s1].
  cbn [snd] in F. destruct faulted.
  - inversion E; subst s'. exact F.
  - pose proof (shape_setpoint_footprint ST2MS h s1) as P2.
    pose proof (after_shaping_footprint SIGN (shape_setpoint ST2MS h s1))
      as P3.
    generalize dependent (shape_setpoint ST2MS h s1). intros s2 E P2 P3.
    destruct (apply_tilts SIGN s2) as [s3 | ]; [ | discriminate E].
    cbn [preserved_opt] in P3.
    generalize dependent (pid_block SIGN s3). intros s4 E P3.
    inversion E; subst s'.
    rewrite (pres_tm _ _ _ P3), (pres_tm _ _ _ P2) by reflexivity.
    exact F.
Qed.

(** However long both pads stay released at speed (outside reverse stop,
    with the high speed faults disabled and iterations close enough), no
    switch fault is raised. *)
Lemma off_at_speed_run (hs : list Hardware) :
  forall s : State,
    0 <= fl s roll_aggregate_threshold ->
    bl s allow_high_speed_full_switch_faults = false ->
    Forall (off_at_speed s) hs ->
    off_spaced ST2MS (balance_conf s) (tm s fault_switch_timer) hs ->
    is_mode (setpointAdjustmentType s) REVERSESTOP = false ->
    is_switch_fault (state s) = false ->
    exists s',
      run ST2MS SIGN hs s = Some s' /\ is_switch_fault (state s') = false.
Proof.
  induction hs as [ | h hs IH]; intros s T Ha F Sp Hm Hf.
  - exists s. split; [reflexivity | exact Hf].
  - cbn [run]. destruct (is_running (state s)) eqn:Hr;
      [ | exists s; split; [reflexivity | exact Hf]].
    inversion F as [ | h' hs' Fh Fhs]; subst.
    destruct Sp as [Sp1 [Sp2 Sp3]].
    destruct (off_at_speed_tick h s T Ha Fh Hm Hf Sp1 Sp2)
      as (s1 & E1 & Hf1 & Hm1 & Ht1).
    rewrite E1.
    pose proof (same_config_running_tick ST2MS SIGN s s s1 h E1
                  (same_config_refl s)) as C.
    pose proof C as (C1 & Cf & _ & Cb).
    apply IH.
    + rewrite Cf by reflexivity. exact T.
    + rewrite Cb by reflexivity. exact Ha.
    + apply (Forall_impl _ (fun a => off_at_speed_config s s1 a C)).
      exact Fhs.
    + rewrite C1, Ht1. exact Sp3.
    + exact Hm1.
    + exact Hf1.
Qed.

End SwitchAtSpeed.

(** The flag as configured: high speed full switch faults are disabled when
    the full switch delay ends in the digit 1. *)
Lemma app_balance_configure_allow_flag (conf : balance_config)
    (mc : mc_configuration) (s : State) :
  bl (app_balance_configure conf mc s) allow_high_speed_full_switch_faults
  = negb (BC.fault_delay_switch_full conf
          - Z.quot (BC.fault_delay_switch_full conf) 10 * 10 =? 1)%Z.
Proof.
  unfold app_balance_configure. cbv zeta. skip_parts.
  unfold configure_switch_faults. cbv zeta. upd_simpl. skip_parts.
  reflexivity.
Qed.

(** C7, as stated, fails: in reverse stop, riding backwards at 5000 erpm with
    the high speed faults disabled, releasing both pads raises
    [FAULT_SWITCH_FULL] in the same iteration. *)
Lemma reverse_stop_pads_released_faults :
  bl s_reverse_stop allow_high_speed_full_switch_faults = false /\
  fst (check_adcs (backwards_pads_released 1) s_reverse_stop) = OFF /\
  3000 < fabsf (mc_interface_get_rpm (backwards_pads_released 1)) /\
  state s_reverse_stop = RUNNING /\
  match
    running_tick ST2MS_10kHz SIGN_macro (backwards_pads_released 1)
      s_reverse_stop
  with
  | Some s' => state s' = FAULT_SWITCH_FULL
  | None => False
  end.
Proof.
  do 4 (split; [vm_compute; reflexivity |]).
  vm_compute. reflexivity.
Qed.

(** C7, amended.  With both pads released at a speed above 3000 erpm and not
    below the half-switch speed, the high speed faults disabled, the
    controller not in reverse stop (and not entering it), and iterations
    close enough (at most the full switch delay apart, and at most the half
    switch delay apart below four times the half-switch speed), no switch
    fault is raised however long the pads stay released: every such
    iteration re-arms the full switch timer to the current time and stays
    out of reverse stop.  In reverse stop an iteration with both pads
    released ends in [FAULT_SWITCH_FULL], whatever the speed, the timers and
    the flag.  So does an iteration with both pads released once the full
    switch delay has elapsed since the timer was last re-armed, or the half
    switch delay below four times the half-switch speed, or with the board
    pitched by more than 15 degrees below the half-switch speed.  Below the
    half-switch speed an iteration with both pads released ends in a switch
    fault once the half switch delay has elapsed on the half switch timer.
    With the high speed faults allowed, released pads do not re-arm the
    timer. *)
Theorem switch_off_at_speed (ST2MS : Z -> Z) (SIGN : Q -> Q) :
  (forall (hs : list Hardware) (s : State),
     0 <= fl s roll_aggregate_threshold ->
     bl s allow_high_speed_full_switch_faults = false ->
     Forall (off_at_speed s) hs ->
     off_spaced ST2MS (balance_conf s) (tm s fault_switch_timer) hs ->
     is_mode (setpointAdjustmentType s) REVERSESTOP = false ->
     is_switch_fault (state s) = false ->
     exists s',
       run ST2MS SIGN hs s = Some s' /\ is_switch_fault (state s') = false)
  /\
  (forall (h : Hardware) (s : State),
     0 <= fl s roll_aggregate_threshold ->
     bl s allow_high_speed_full_switch_faults = false ->
     off_at_speed s h ->
     is_mode (setpointAdjustmentType s) REVERSESTOP = false ->
     is_switch_fault (state s) = false ->
     (ST2MS (st_sub (chVTGetSystemTimeX h) (tm s fault_switch_timer))
      <= BC.fault_delay_switch_full (balance_conf s))%Z ->
     BC.fault_adc_half_erpm (balance_conf s) * 4
     <= fabsf (mc_interface_get_rpm h) \/
     (ST2MS (st_sub (chVTGetSystemTimeX h) (tm s fault_switch_timer))
      <= BC.fault_delay_switch_half (balance_conf s))%Z ->
     exists s',
       running_tick ST2MS SIGN h s = Some s' /\
       is_switch_fault (state s') = false /\
       is_mode (setpointAdjustmentType s') REVERSESTOP = false /\
       tm s' fault_switch_timer = chVTGetSystemTimeX h)
  /\
  (forall (h : Hardware) (s : State),
     fst (check_adcs h s) = OFF ->
     setpointAdjustmentType s = REVERSESTOP ->
     exists s',
       running_tick ST2MS SIGN h s = Some s' /\ state s' = FAULT_SWITCH_FULL)
  /\
  (forall (h : Hardware) (s : State),
     fst (check_adcs h s) = OFF ->
     (BC.fault_delay_switch_full (balance_conf s)
      < ST2MS (st_sub (chVTGetSystemTimeX h) (tm s fault_switch_timer)))%Z \/
     (fabsf (mc_interface_get_rpm h)
      < BC.fault_adc_half_erpm (balance_conf s) * 4 /\
      (BC.fault_delay_switch_half (balance_conf s)
       < ST2MS (st_sub (chVTGetSystemTimeX h)
                  (tm s fault_switch_timer)))%Z) \/
     (fabsf (mc_interface_get_rpm h)
      < BC.fault_adc_half_erpm (balance_conf s) /\
      15 < fabsf (imu_get_pitch h)) ->
     exists s',
       running_tick ST2MS SIGN h s = Some s' /\ state s' = FAULT_SWITCH_FULL)
  /\
  (forall (h : Hardware) (s : State),
     fst (check_adcs h s) = OFF ->
     fabsf (mc_interface_get_rpm h)
     < BC.fault_adc_half_erpm (balance_conf s) ->
     (BC.fault_delay_switch_half (balance_conf s)
      < ST2MS (st_sub (chVTGetSystemTimeX h)
                 (tm s fault_switch_half_timer)))%Z ->
     exists s',
       running_tick ST2MS SIGN h s = Some s' /\
       is_switch_fault (state s') = true)
  /\
  (forall (h : Hardware) (s s' : State),
     fst (check_adcs h s) = OFF ->
     bl s allow_high_speed_full_switch_faults = true ->
     running_tick ST2MS SIGN h s = Some s' ->
     tm s' fault_switch_timer = tm s fault_switch_timer).
Proof.
  split; [ | split; [ | split; [ | split; [ | split]]]].
  - intros hs. apply off_at_speed_run.
  - apply off_at_speed_tick.
  - apply off_reverse_stop_tick.
  - apply off_elapsed_tick.
  - apply off_slow_tick.
  - apply off_allowed_tick.
Qed.

Lemma pads_released_off_at_speed (k : Z) :
  off_at_speed s_cruising (forwards_pads_released k) /\
  off_at_speed s_cruising (coasting_pads_released k).
Proof.
  unfold off_at_speed.
  split;
    (split; [vm_compute; reflexivity |];
     split; [vm_compute; reflexivity |];
     split; [vm_compute; discriminate |];
     right; vm_compute; discriminate).
Qed.

Lemma switch_off_at_speed_witness :
  bl s_cruising allow_high_speed_full_switch_faults = false /\
  Forall (off_at_speed s_cruising)
    (readings forwards_pads_released 0 2
     ++ readings coasting_pads_released 2 2) /\
  exists s',
    run ST2MS_10kHz SIGN_macro
      (readings forwards_pads_released 0 2
       ++ readings coasting_pads_released 2 2) s_cruising = Some s'
    /\ is_switch_fault (state s') = false.
Proof.
  assert (Ha : bl s_cruising allow_high_speed_full_switch_faults = false)
    by (vm_compute; reflexivity).
  assert (F : Forall (off_at_speed s_cruising)
                (readings forwards_pads_released 0 2
                 ++ readings coasting_pads_released 2 2)).
  { apply Forall_app. split;
      apply Forall_forall; intros h Hin; unfold readings in Hin;
      apply in_map_iff in Hin; destruct Hin as (k & Ek & _); subst h.
    - exact (proj1 (pads_released_off_at_speed _)).
    - exact (proj2 (pads_released_off_at_speed _)). }
  split; [exact Ha | split; [exact F |]].
  apply (proj1 (switch_off_at_speed ST2MS_10kHz SIGN_macro)
           (readings forwards_pads_released 0 2
            ++ readings coasting_pads_released 2 2) s_cruising).
  - vm_compute. discriminate.
  - exact Ha.
  - exact F.
  - cbn [off_spaced readings map seq app].
    do 2 (split; [vm_compute; discriminate
                 | split; [left; vm_compute; discriminate |]]).
    do 2 (split; [vm_compute; discriminate
                 | split; [right; vm_compute; discriminate |]]).
    exact I.
  - vm_compute. reflexivity.
  - vm_compute. reflexivity.
Defined.

(* ================================================================= *)
(** * Further properties of the controller *)

(** ** The foot switch *)

(** X1.  The switch state that [check_adcs] computes from the two pad
    readings.  With no threshold configured it is always [ON]; with one
    threshold configured it is [ON] or [OFF] as that pad is above its
    threshold or not, never [HALF]; with both configured it is [ON] when
    both pads are above their thresholds, [OFF] when neither is, and [HALF]
    when exactly one is. *)
Theorem check_adcs_switch_state (h : Hardware) (s : State) :
  let conf := balance_conf s in
  let sw := fst (check_adcs h s) in
  let on1 := BC.fault_adc1 conf < ADC_EXT h in
  let on2 := BC.fault_adc2 conf < ADC_EXT2 h in
  (BC.fault_adc1 conf == 0 /\ BC.fault_adc2 conf == 0 -> sw = ON) /\
  (~ BC.fault_adc1 conf == 0 /\ BC.fault_adc2 conf == 0 ->
   (on1 -> sw = ON) /\ (~ on1 -> sw = OFF)) /\
  (BC.fault_adc1 conf == 0 /\ ~ BC.fault_adc2 conf == 0 ->
   (on2 -> sw = ON) /\ (~ on2 -> sw = OFF)) /\
  (~ BC.fault_adc1 conf == 0 /\ ~ BC.fault_adc2 conf == 0 ->
   (on1 /\ on2 -> sw = ON) /\
   (~ on1 /\ ~ on2 -> sw = OFF) /\
   ((on1 /\ ~ on2) \/ (~ on1 /\ on2) -> sw = HALF)).
Proof.
  cbv zeta. unfold check_adcs. cbv zeta. cbn [fst]. upd_simpl.
  destruct (Qeqb_spec (BC.fault_adc1 (balance_conf s)) 0) as [Z1 | Z1];
    destruct (Qeqb_spec (BC.fault_adc2 (balance_conf s)) 0) as [Z2 | Z2];
    cbn [andb];
    destruct (Qgtb_spec (ADC_EXT h) (BC.fault_adc1 (balance_conf s)))
      as [A1 | A1];
    destruct (Qgtb_spec (ADC_EXT2 h) (BC.fault_adc2 (balance_conf s)))
      as [A2 | A2];
    cbn [andb orb];
    repeat split; intros; try reflexivity;
    repeat match goal with
           | H : _ /\ _ |- _ => destruct H
           | H : _ \/ _ |- _ => destruct H
           end;
    try contradiction; try lra.
Qed.

Lemma check_adcs_switch_state_witness :
  (~ BC.fault_adc1 (balance_conf configured) == 0
   /\ ~ BC.fault_adc2 (balance_conf configured) == 0) /\
  fst (check_adcs (at_rest 1) configured) = ON.
Proof.
  assert (H : ~ BC.fault_adc1 (balance_conf configured) == 0
              /\ ~ BC.fault_adc2 (balance_conf configured) == 0)
    by (split; vm_compute; discriminate).
  split; [exact H |].
  apply (proj1 (proj2 (proj2 (proj2
           (check_adcs_switch_state (at_rest 1) configured))) H)).
  split; vm_compute; reflexivity.
Defined.

(** ** The fault detector with a pad pressed *)

(** [run_check tac] runs the first check of a sequence that falls through;
    [tac] proves that it does. *)
Ltac run_check tac :=
  lazymatch goal with
  | |- context [bind ?c ?k ?s1] =>
      let E := fresh "E" in
      eassert (E : c s1 = (Next _, _)) by tac;
      rewrite (bind_next c k s1 _ _ E); cbv beta; clear E
  end.

(** X2.  With both pads pressed and outside reverse stop, [check_faults]
    decides on pitch, roll and duty alone, in this order: each is a fault
    when its value is above its threshold and its timer has run for longer
    than its delay (or the timers are ignored).  The result is [true]
    exactly when one of the three is, and [state] becomes the first of
    them; otherwise [state] is kept. *)
Theorem check_faults_pads_pressed (ST2MS : Z -> Z) (ignoreTimers : bool)
    (s : State) :
  is_switch (switch_state s) ON = true ->
  is_mode (setpointAdjustmentType s) REVERSESTOP = false ->
  let conf := balance_conf s in
  let late (t : tvar) (d : Z) :=
    (ST2MS (st_sub (tm s current_time) (tm s t)) >? d)%Z || ignoreTimers in
  let p := (fabsf (fl s pitch_angle) >? BC.fault_pitch conf)
           && late fault_angle_pitch_timer (BC.fault_delay_pitch conf) in
  let r := (fabsf (fl s roll_angle) >? BC.fault_roll conf)
           && late fault_angle_roll_timer (BC.fault_delay_roll conf) in
  let d := (fl s abs_duty_cycle >? BC.fault_duty conf)
           && late fault_duty_timer (BC.fault_delay_duty conf) in
  let res := call (check_faults ST2MS ignoreTimers) s in
  fst res = p || r || d /\
  state (snd res)
  = (if p then FAULT_ANGLE_PITCH
     else if r then FAULT_ANGLE_ROLL
     else if d then FAULT_DUTY
     else state s).
Proof.
  intros H1 H2. cbv zeta.
  assert (Hoff : is_switch (switch_state s) OFF = false)
    by (destruct (switch_state s); [discriminate H1 .. | reflexivity]).
  assert (Hhalf : is_switch (switch_state s) HALF = false)
    by (destruct (switch_state s); [discriminate H1 .. | reflexivity]).
  unfold call, check_faults.
  run_check ltac:(apply check_switch_full_pressed; exact Hoff).
  run_check ltac:(apply check_reverse_stop_other_mode; exact H2).
  run_check ltac:(apply check_switch_half_moving;
                   cbn [switch_state set_tm]; rewrite Hoff, Hhalf;
                   reflexivity).
  cbv delta [check_pitch check_roll check_duty bind get assign skip return_]
    beta iota zeta.
  repeat (upd_simpl;
          match goal with
          | |- context [if ?c then _ else _] =>
              lazymatch c with
              | (_ && _) => fail
              | _ => destruct c
              end
          end);
    upd_simpl; cbn [fst snd andb orb state set_state set_tm]; split; reflexivity.
Qed.

Lemma check_faults_pads_pressed_witness :
  (is_switch (switch_state s_cruising) ON = true
   /\ is_mode (setpointAdjustmentType s_cruising) REVERSESTOP = false) /\
  fst (call (check_faults ST2MS_10kHz false) s_cruising) = false.
Proof.
  assert (H1 : is_switch (switch_state s_cruising) ON = true)
    by (vm_compute; reflexivity).
  assert (H2 : is_mode (setpointAdjustmentType s_cruising) REVERSESTOP
               = false) by (vm_compute; reflexivity).
  split; [split; assumption |].
  rewrite (proj1 (check_faults_pads_pressed ST2MS_10kHz false s_cruising
                    H1 H2)).
  vm_compute. reflexivity.
Defined.

(** ** The setpoint target *)

(** Evaluate the mode tests on known modes. *)
Ltac eval_modes :=
  repeat match goal with
         | |- context [is_mode ?a ?b] =>
             is_constructor a; is_constructor b;
             let v := eval vm_compute in (is_mode a b) in
             change (is_mode a b) with v
         end;
  cbv iota.

Section SetpointTarget.

Variable ST2MS : Z -> Z.

(** X3.  During the centering sequence the tiltback conditions are not
    looked at.  While the interpolated setpoint differs from the target the
    mode stays [CENTERING], [state] is set to [RUNNING] and the soft start
    timer is re-armed; once they agree, [state] is kept and the mode becomes
    [TILTBACK_NONE] exactly when the grace period has passed or the soft
    start is disabled.  The target itself is never changed. *)
Theorem calculate_setpoint_target_centering (h : Hardware) (s : State) :
  setpointAdjustmentType s = CENTERING ->
  let s' := calculate_setpoint_target ST2MS h s in
  fl s' setpoint_target = fl s setpoint_target /\
  (~ fl s setpoint_target_interpolated == fl s setpoint_target ->
   setpointAdjustmentType s' = CENTERING /\ state s' = RUNNING /\
   tm s' softstart_timer = tm s current_time) /\
  (fl s setpoint_target_interpolated == fl s setpoint_target ->
   state s' = state s /\
   setpointAdjustmentType s'
   = if (ST2MS (st_sub (tm s current_time) (tm s softstart_timer))
           >? START_GRACE_PERIOD_MS)%Z
        || negb (bl s use_soft_start)
     then TILTBACK_NONE else CENTERING).
Proof.
  intros Hm. cbv zeta. unfold calculate_setpoint_target. cbv zeta.
  destruct (GET_INPUT_VOLTAGE h <? BC.tiltback_hv (balance_conf s));
    upd_simpl; rewrite Hm; eval_modes;
    (destruct (Qneb_spec (fl s setpoint_target_interpolated)
                 (fl s setpoint_target)) as [N | N];
     [ | destruct (_ >? _)%Z; [ | destruct (bl s use_soft_start)]]);
    upd_simpl; cbn [orb negb];
    (split; [reflexivity |]);
    (split; [intros N'; try contradiction; repeat split;
             first [reflexivity | exact Hm]
            | intros N'; try contradiction; split;
              first [reflexivity | exact Hm]]).
Qed.

(** X4.  Outside the centering sequence and reverse stop, a duty cycle above
    the tiltback threshold always selects the duty tiltback, whatever the
    input voltage and the temperature are: the target is the duty tiltback
    angle, positive when moving forwards and negative otherwise. *)
Theorem calculate_setpoint_target_duty_first (h : Hardware) (s : State) :
  is_mode (setpointAdjustmentType s) CENTERING = false ->
  is_mode (setpointAdjustmentType s) REVERSESTOP = false ->
  BC.tiltback_duty (balance_conf s) < fl s abs_duty_cycle ->
  let s' := calculate_setpoint_target ST2MS h s in
  state s' = RUNNING_TILTBACK_DUTY /\
  setpointAdjustmentType s' = TILTBACK_DUTY /\
  fl s' setpoint_target
  = (if fl s erpm >? 0 then BC.tiltback_duty_angle (balance_conf s)
     else - BC.tiltback_duty_angle (balance_conf s)).
Proof.
  intros H1 H2 Hd. cbv zeta. unfold calculate_setpoint_target. cbv zeta.
  destruct (GET_INPUT_VOLTAGE h <? BC.tiltback_hv (balance_conf s));
    upd_simpl; rewrite H1, H2, (Qgtb_true _ _ Hd);
    destruct (fl s erpm >? 0); upd_simpl; repeat split; reflexivity.
Qed.

(** X5.  The voltage tiltbacks, with the duty cycle at or below its
    threshold outside centering and reverse stop: more than one volt above
    the high voltage threshold selects the high voltage tiltback at once;
    a voltage below the low voltage threshold (and not above the high one)
    selects the low voltage tiltback. *)
Theorem calculate_setpoint_target_voltage (h : Hardware) (s : State) :
  is_mode (setpointAdjustmentType s) CENTERING = false ->
  is_mode (setpointAdjustmentType s) REVERSESTOP = false ->
  fl s abs_duty_cycle <= BC.tiltback_duty (balance_conf s) ->
  let conf := balance_conf s in
  let s' := calculate_setpoint_target ST2MS h s in
  (BC.tiltback_hv conf + 1 < GET_INPUT_VOLTAGE h ->
   state s' = RUNNING_TILTBACK_HIGH_VOLTAGE /\
   setpointAdjustmentType s' = TILTBACK_HV /\
   fl s' setpoint_target
   = (if fl s erpm >? 0 then BC.tiltback_hv_angle conf
      else - BC.tiltback_hv_angle conf)) /\
  (GET_INPUT_VOLTAGE h <= BC.tiltback_hv conf ->
   GET_INPUT_VOLTAGE h < BC.tiltback_lv conf ->
   state s' = RUNNING_TILTBACK_LOW_VOLTAGE /\
   setpointAdjustmentType s' = TILTBACK_LV /\
   fl s' setpoint_target
   = (if fl s erpm >? 0 then BC.tiltback_lv_angle conf
      else - BC.tiltback_lv_angle conf)).
Proof.
  intros H1 H2 Hd. cbv zeta. unfold calculate_setpoint_target. cbv zeta.
  split.
  - intros Hv.
    rewrite (Qltb_false (GET_INPUT_VOLTAGE h)
               (BC.tiltback_hv (balance_conf s))) by lra.
    cbv iota. rewrite H1, H2, (Qgtb_false _ _ Hd).
    rewrite (Qgtb_true (GET_INPUT_VOLTAGE h)
               (BC.tiltback_hv (balance_conf s))) by lra.
    rewrite (Qgtb_true _ _ Hv), orb_true_r.
    destruct (fl s erpm >? 0); upd_simpl; repeat split; reflexivity.
  - intros Hv Hl.
    destruct (GET_INPUT_VOLTAGE h <? BC.tiltback_hv (balance_conf s));
      upd_simpl; rewrite H1, H2, (Qgtb_false _ _ Hd),
                         (Qgtb_false _ _ Hv), (Qltb_true _ _ Hl);
      destruct (fl s erpm >? 0); upd_simpl; repeat split; reflexivity.
Qed.

(** X6.  In reverse stop the erpm of the iteration is added to the total.
    With a tolerance that is not negative, reverse stop ends (mode
    [TILTBACK_NONE], total, target and integral reset to zero) exactly when
    the new total is within half the tolerance and the board no longer moves
    backwards; a total beyond the tolerance tilts the nose by 10 degrees per
    50000 erpm of excess. *)
Theorem calculate_setpoint_target_reverse_stop (h : Hardware) (s : State) :
  setpointAdjustmentType s = REVERSESTOP ->
  0 <= fl s reverse_tolerance ->
  let s' := calculate_setpoint_target ST2MS h s in
  let total := fl s reverse_total_erpm + fl s erpm in
  state s' = state s /\
  (fl s reverse_tolerance < fabsf total ->
   setpointAdjustmentType s' = REVERSESTOP /\
   fl s' reverse_total_erpm = total /\
   fl s' setpoint_target
   = 10 * (fabsf total - fl s reverse_tolerance) / 50000) /\
  (fabsf total <= fl s reverse_tolerance / 2 -> 0 <= fl s erpm ->
   setpointAdjustmentType s' = TILTBACK_NONE /\
   fl s' reverse_total_erpm = 0 /\ fl s' setpoint_target = 0 /\
   fl s' integral = 0) /\
  (fabsf total <= fl s reverse_tolerance ->
   fl s reverse_tolerance / 2 < fabsf total \/ fl s erpm < 0 ->
   setpointAdjustmentType s' = REVERSESTOP /\
   fl s' reverse_total_erpm = total /\
   fl s' setpoint_target = fl s setpoint_target).
Proof.
  intros Hm Ht. cbv zeta. unfold calculate_setpoint_target. cbv zeta.
  assert (Hh : fl s reverse_tolerance / 2 <= fl s reverse_tolerance)
    by (apply Qle_shift_div_r; [reflexivity | lra]).
  destruct (GET_INPUT_VOLTAGE h <? BC.tiltback_hv (balance_conf s));
    upd_simpl; rewrite Hm; eval_modes; upd_simpl;
    destruct (Qgtb_spec (fabsf (fl s reverse_total_erpm + fl s erpm))
                (fl s reverse_tolerance)) as [G | G];
    try destruct (Qleb_spec (fabsf (fl s reverse_total_erpm + fl s erpm))
                    (fl s reverse_tolerance / 2)) as [L | L];
    try destruct (Qgeb_spec (fl s erpm) 0) as [E | E];
    upd_simpl;
    (split; [reflexivity |]);
    (split; [intros; try lra; repeat split; first [reflexivity | exact Hm] |]);
    (split; [intros; try lra; repeat split; reflexivity |]);
    intros ? [? | ?]; try lra; repeat split; first [reflexivity | exact Hm].
Qed.

End SetpointTarget.

Lemma calculate_setpoint_target_centering_witness :
  setpointAdjustmentType (reset_vars configured) = CENTERING /\
  fl (calculate_setpoint_target ST2MS_10kHz (at_rest 1)
        (reset_vars configured)) setpoint_target
  = fl (reset_vars configured) setpoint_target.
Proof.
  assert (H : setpointAdjustmentType (reset_vars configured) = CENTERING)
    by (vm_compute; reflexivity).
  split; [exact H |].
  exact (proj1 (calculate_setpoint_target_centering ST2MS_10kHz (at_rest 1)
                  (reset_vars configured) H)).
Defined.

Lemma calculate_setpoint_target_duty_first_witness :
  BC.tiltback_duty (balance_conf s_high_duty) < fl s_high_duty abs_duty_cycle
  /\ state (calculate_setpoint_target ST2MS_10kHz (at_rest 1) s_high_duty)
     = RUNNING_TILTBACK_DUTY.
Proof.
  assert (H : BC.tiltback_duty (balance_conf s_high_duty)
              < fl s_high_duty abs_duty_cycle) by (vm_compute; reflexivity).
  split; [exact H |].
  apply (calculate_setpoint_target_duty_first ST2MS_10kHz (at_rest 1)
           s_high_duty); [vm_compute; reflexivity .. | exact H].
Defined.

Lemma calculate_setpoint_target_voltage_witness :
  BC.tiltback_hv (balance_conf s_cruising) + 1
  < GET_INPUT_VOLTAGE (high_overvoltage 1) /\
  state (calculate_setpoint_target ST2MS_10kHz (high_overvoltage 1)
           s_cruising) = RUNNING_TILTBACK_HIGH_VOLTAGE.
Proof.
  assert (H : BC.tiltback_hv (balance_conf s_cruising) + 1
              < GET_INPUT_VOLTAGE (high_overvoltage 1))
    by (vm_compute; reflexivity).
  split; [exact H |].
  apply (proj1 (calculate_setpoint_target_voltage ST2MS_10kHz
                  (high_overvoltage 1) s_cruising
                  ltac:(vm_compute; reflexivity)
                  ltac:(vm_compute; reflexivity)
                  ltac:(vm_compute; discriminate))).
  exact H.
Defined.

Lemma calculate_setpoint_target_reverse_stop_witness :
  setpointAdjustmentType s_reversing = REVERSESTOP /\
  0 <= fl s_reversing reverse_tolerance /\
  state (calculate_setpoint_target ST2MS_10kHz (riding_backwards 1)
           s_reversing) = state s_reversing.
Proof.
  assert (H1 : setpointAdjustmentType s_reversing = REVERSESTOP)
    by (vm_compute; reflexivity).
  assert (H2 : 0 <= fl s_reversing reverse_tolerance)
    by (vm_compute; discriminate).
  split; [exact H1 | split; [exact H2 |]].
  exact (proj1 (calculate_setpoint_target_reverse_stop ST2MS_10kHz
                  (riding_backwards 1) s_reversing H1 H2)).
Defined.

(** ** The state and the mode of a running episode *)

Lemma raises_within_bind (ok : BalanceState -> bool) (c1 c2 : cmd unit) :
  raises_within ok c1 -> raises_within ok c2 ->
  raises_within ok (bind c1 (fun _ => c2)).
Proof.
  intros H1 H2 s r s' E. unfold bind in E.
  destruct (c1 s) as [[u | b] s1] eqn:E1.
  - destruct (H1 _ _ _ E1) as [A | A], (H2 _ _ _ E) as [B | B].
    + left. congruence.
    + right. exact B.
    + right. rewrite B. exact A.
    + right. exact B.
  - inversion E; subst. exact (H1 _ _ _ E1).
Qed.

Ltac raises_within_block :=
  intros s r s' E;
  cbv delta [check_switch_full check_reverse_stop check_switch_half
               check_pitch check_roll check_duty
               bind get assign skip return_] beta iota zeta in E;
  repeat match type of E with
         | context [if ?c then _ else _] => destruct c
         end;
  cbv beta iota zeta in E; inversion E; subst;
  first [left; reflexivity | right; reflexivity].

Section RunningStates.

Variable ST2MS : Z -> Z.
Variable SIGN : Q -> Q.

Lemma check_faults_raises_within (ignoreTimers : bool) :
  raises_within is_check_fault (check_faults ST2MS ignoreTimers).
Proof.
  unfold check_faults.
  apply raises_within_bind; [raises_within_block |].
  apply raises_within_bind; [raises_within_block |].
  apply raises_within_bind; [raises_within_block |].
  apply raises_within_bind; [raises_within_block |].
  apply raises_within_bind; [raises_within_block |].
  apply raises_within_bind; [raises_within_block |].
  intros s r s' E. inversion E; subst. left. reflexivity.
Qed.

Lemma check_faults_outcome (ignoreTimers : bool) (s : State) :
  let r := call (check_faults ST2MS ignoreTimers) s in
  (fst r = true -> is_check_fault (state (snd r)) = true) /\
  (fst r = false ->
   state (snd r) = state s /\
   setpointAdjustmentType (snd r) = setpointAdjustmentType s).
Proof.
  cbv zeta. unfold call.
  pose proof (check_faults_fault_check ST2MS ignoreTimers) as [Fn Ff Ft Fi].
  destruct (check_faults ST2MS ignoreTimers s) as [[u | [ | ]] s1] eqn:E;
    cbn [fst snd]; split; intros H; try discriminate H.
  - split; [apply (pres_state _ _ _ (Fn _ _ _ E))
           | apply (pres_mode _ _ _ (Fn _ _ _ E))]; reflexivity.
  - pose proof (Fi s RUNNING) as E'. rewrite E in E'. cbn [with_state] in E'.
    destruct (check_faults_raises_within ignoreTimers _ _ _ E') as [A | A];
      [ | exact A].
    destruct (Ft _ _ E) as [F _]. rewrite A in F. discriminate F.
  - split; [apply (pres_state _ _ _ (Ff _ _ E))
           | apply (pres_mode _ _ _ (Ff _ _ E))]; reflexivity.
Qed.

(** The setpoint target keeps the state that goes with the mode. *)
Lemma calculate_setpoint_target_consistent (h : Hardware) (s : State) :
  mode_state_consistent s ->
  mode_state_consistent (calculate_setpoint_target ST2MS h s).
Proof.
  unfold mode_state_consistent, calculate_setpoint_target. cbv zeta.
  intros H.
  destruct (GET_INPUT_VOLTAGE h <? BC.tiltback_hv (balance_conf s));
    upd_simpl; destruct (setpointAdjustmentType s) eqn:Hm;
    cbv beta iota delta [is_mode SetpointAdjustmentType_value Z.eqb
                           Pos.eqb];
    repeat match goal with
           | |- context [if ?c then _ else _] => destruct c
           end;
    upd_simpl; rewrite ?Hm;
    first [exact H | reflexivity | left; reflexivity | right; reflexivity].
Qed.

Lemma reset_vars_consistent (s : State) :
  mode_state_consistent (reset_vars s).
Proof.
  unfold mode_state_consistent, reset_vars. cbv zeta.
  destruct (bl _ use_soft_start); upd_simpl; reflexivity.
Qed.

Lemma consistent_preserved (W : footprint) (s s' : State) :
  wr comp_eq_dec (Wc W) c_state = false ->
  wr comp_eq_dec (Wc W) c_mode = false ->
  preserved W s s' -> mode_state_consistent s -> mode_state_consistent s'.
Proof.
  intros H1 H2 P. unfold mode_state_consistent.
  rewrite (pres_state _ _ _ P H1), (pres_mode _ _ _ P H2).
  exact (fun H => H).
Qed.

Lemma running_tick_consistent (h : Hardware) (s s' : State) :
  mode_state_consistent s ->
  running_tick ST2MS SIGN h s = Some s' ->
  mode_state_consistent s' \/ is_check_fault (state s') = true.
Proof.
  intros H E. rewrite running_tick_eq in E.
  apply (consistent_preserved W_read_inputs _ _ eq_refl eq_refl
           (read_inputs_footprint SIGN h s)) in H.
  generalize dependent (read_inputs SIGN h s). intros s0 H E.
  rewrite running_branch_eq in E.
  destruct (check_faults_outcome false s0) as [Ot Of].
  destruct (call (check_faults ST2MS false) s0) as [faulted s1].
  cbn [fst snd] in Ot, Of. destruct faulted.
  - inversion E; subst s'. right. apply Ot. reflexivity.
  - left. destruct (Of eq_refl) as [Es Em].
    assert (H1 : mode_state_consistent s1)
      by (unfold mode_state_consistent; rewrite Es, Em; exact H).
    apply (calculate_setpoint_target_consistent h) in H1.
    assert (H2 : mode_state_consistent (shape_setpoint ST2MS h s1)).
    { destruct (shape_setpoint_state_mode ST2MS h s1) as [S1 S2].
      unfold mode_state_consistent. rewrite S1, S2. exact H1. }
    pose proof (after_shaping_footprint SIGN (shape_setpoint ST2MS h s1))
      as P.
    generalize dependent (shape_setpoint ST2MS h s1). intros s2 E H2 P.
    destruct (apply_tilts SIGN s2) as [s3 | ]; [ | discriminate E].
    cbn [preserved_opt] in P.
    generalize dependent (pid_block SIGN s3). intros s4 E P.
    inversion E; subst s'.
    exact (consistent_preserved W_after_shaping _ _ eq_refl eq_refl P H2).
Qed.

(** X7.  In every state of a running episode, either [state] is a fault
    raised by [check_faults] (never [STARTUP] or [FAULT_STARTUP]), or
    [state] is the running state that goes with the mode: [RUNNING] for
    centering, reverse stop and normal riding, and the tiltback state of the
    same kind for a tiltback mode (for [TILTBACK_HV] also
    [RUNNING_TILTBACK_LOW_VOLTAGE], which the over-temperature tiltback
    sets). *)
Theorem reachable_state_and_mode (c s : State) :
  reachable ST2MS SIGN c s ->
  mode_state_consistent s \/ is_check_fault (state s) = true.
Proof.
  induction 1 as [s Hs | s h s' _ IH Hr E].
  - left. apply reset_vars_consistent.
  - destruct IH as [IH | IH].
    + exact (running_tick_consistent h s s' IH E).
    + destruct (state s); discriminate.
Qed.

End RunningStates.

Lemma reachable_state_and_mode_witness :
  reachable ST2MS_10kHz SIGN_macro configured (reset_vars configured) /\
  (mode_state_consistent (reset_vars configured)
   \/ is_check_fault (state (reset_vars configured)) = true).
Proof.
  assert (R : reachable ST2MS_10kHz SIGN_macro configured
                (reset_vars configured))
    by (apply reach_reset; apply same_config_refl).
  split; [exact R |].
  exact (reachable_state_and_mode ST2MS_10kHz SIGN_macro configured
           (reset_vars configured) R).
Defined.

(** ** Case analysis on absolute values, minima and maxima *)

Lemma Qabs_cases (x : Q) :
  (0 <= x /\ Qabs x == x) \/ (x <= 0 /\ Qabs x == - x).
Proof.
  destruct (Qlt_le_dec x 0) as [H | H].
  - right. split; [lra | apply Qabs_neg; lra].
  - left. split; [exact H | apply Qabs_pos; exact H].
Qed.

Lemma Qmax_cases (x y : Q) :
  (x <= y /\ Qmax x y == y) \/ (y <= x /\ Qmax x y == x).
Proof.
  destruct (Q.max_spec x y) as [[H E] | [H E]]; [left | right];
    (split; [lra | exact E]).
Qed.

Lemma Qmin_cases (x y : Q) :
  (x <= y /\ Qmin x y == x) \/ (y <= x /\ Qmin x y == y).
Proof.
  destruct (Q.min_spec x y) as [[H E] | [H E]]; [left | right];
    (split; [lra | exact E]).
Qed.

(** ** The interpolated setpoint *)

Lemma calculate_setpoint_interpolated_distance (s : State) :
  0 <= get_setpoint_adjustment_step_size s ->
  fabsf (fl s setpoint_target
         - fl (calculate_setpoint_interpolated s) setpoint_target_interpolated)
  == Qmax 0 (fabsf (fl s setpoint_target - fl s setpoint_target_interpolated)
             - get_setpoint_adjustment_step_size s).
Proof.
  intros Hs. unfold calculate_setpoint_interpolated, fabsf.
  generalize dependent (get_setpoint_adjustment_step_size s). intros st Hs.
  destruct (Qneb_spec (fl s setpoint_target_interpolated)
              (fl s setpoint_target)) as [N | N];
    [destruct (Qltb_spec (Qabs (fl s setpoint_target
                                - fl s setpoint_target_interpolated)) st)
       as [L | L];
     [ | destruct (Qgtb_spec (fl s setpoint_target
                              - fl s setpoint_target_interpolated) 0)
           as [G | G]] | ];
    upd_simpl;
    match goal with
    | |- Qabs ?x == Qmax ?y ?z =>
        destruct (Qabs_cases x) as [[? ?] | [? ?]];
        destruct (Qmax_cases y z) as [[? ?] | [? ?]]
    end;
    destruct (Qabs_cases (fl s setpoint_target
                          - fl s setpoint_target_interpolated))
      as [[? ?] | [? ?]];
    lra.
Qed.

Lemma calculate_setpoint_interpolated_keeps (s : State) :
  fl (calculate_setpoint_interpolated s) setpoint_target
  = fl s setpoint_target /\
  get_setpoint_adjustment_step_size (calculate_setpoint_interpolated s)
  = get_setpoint_adjustment_step_size s.
Proof.
  pose proof (calculate_setpoint_interpolated_footprint s) as P.
  rewrite !get_setpoint_adjustment_step_size_var.
  rewrite (pres_mode _ _ _ P), !(pres_fl _ _ _ P)
    by (try reflexivity; destruct (setpointAdjustmentType s); reflexivity).
  split; reflexivity.
Qed.

(** X8.  With the target and the mode held and a step size that is not
    negative, [n] calls of [calculate_setpoint_interpolated] reduce the
    distance between the interpolated setpoint and the target by [n] steps,
    down to zero and never beyond it: the distance after [n] calls is
    [max 0 (d - n * step)].  In particular the interpolated setpoint equals
    the target once [n * step] reaches the initial distance [d]. *)
Theorem calculate_setpoint_interpolated_converges (n : nat) (s : State) :
  0 <= get_setpoint_adjustment_step_size s ->
  let s' := Nat.iter n calculate_setpoint_interpolated s in
  let d := fabsf (fl s setpoint_target - fl s setpoint_target_interpolated) in
  let step := get_setpoint_adjustment_step_size s in
  fl s' setpoint_target = fl s setpoint_target /\
  get_setpoint_adjustment_step_size s' = step /\
  fabsf (fl s setpoint_target - fl s' setpoint_target_interpolated)
  == Qmax 0 (d - inject_Z (Z.of_nat n) * step) /\
  (d <= inject_Z (Z.of_nat n) * step ->
   fl s' setpoint_target_interpolated == fl s setpoint_target).
Proof.
  intros Hs. cbv zeta.
  assert (M : fl (Nat.iter n calculate_setpoint_interpolated s)
                setpoint_target = fl s setpoint_target /\
              get_setpoint_adjustment_step_size
                (Nat.iter n calculate_setpoint_interpolated s)
              = get_setpoint_adjustment_step_size s /\
              fabsf (fl s setpoint_target
                     - fl (Nat.iter n calculate_setpoint_interpolated s)
                         setpoint_target_interpolated)
              == Qmax 0 (fabsf (fl s setpoint_target
                                - fl s setpoint_target_interpolated)
                         - inject_Z (Z.of_nat n)
                           * get_setpoint_adjustment_step_size s)).
  { induction n as [ | n (It & Is & Id)].
    - change (Nat.iter 0 calculate_setpoint_interpolated s) with s.
      split; [reflexivity | split; [reflexivity |]].
      change (inject_Z (Z.of_nat 0)) with 0.
      destruct (Qmax_cases 0
                  (fabsf (fl s setpoint_target
                          - fl s setpoint_target_interpolated)
                   - 0 * get_setpoint_adjustment_step_size s))
        as [[? ?] | [? ?]];
        pose proof (Qabs_nonneg (fl s setpoint_target
                                 - fl s setpoint_target_interpolated));
        unfold fabsf in *; lra.
    - change (Nat.iter (S n) calculate_setpoint_interpolated s)
        with (calculate_setpoint_interpolated
                (Nat.iter n calculate_setpoint_interpolated s)).
      set (sn := Nat.iter n calculate_setpoint_interpolated s) in *.
      destruct (calculate_setpoint_interpolated_keeps sn) as [Kt Ks].
      pose proof (calculate_setpoint_interpolated_distance sn) as D.
      rewrite Ks, Kt, It, Is. rewrite It, Is in D.
      split; [reflexivity | split; [reflexivity |]].
      specialize (D Hs).
      rewrite Nat2Z.inj_succ. unfold Z.succ. rewrite inject_Z_plus.
      change (inject_Z 1) with 1.
      clear Kt Ks It Is. clearbody sn.
      generalize dependent (get_setpoint_adjustment_step_size s).
      intros st Hs Id D.
      unfold fabsf in *.
      match type of D with
      | ?a == Qmax 0 ?z => destruct (Qmax_cases 0 z) as [[? ?] | [? ?]]
      end;
      match type of Id with
      | ?a == Qmax 0 ?z => destruct (Qmax_cases 0 z) as [[? ?] | [? ?]]
      end;
      match goal with
      | |- ?a == Qmax 0 ?z => destruct (Qmax_cases 0 z) as [[? ?] | [? ?]]
      end;
      lra. }
  destruct M as (Mt & Ms & Md).
  split; [exact Mt | split; [exact Ms | split; [exact Md |]]].
  intros Hn. unfold fabsf in *.
  match type of Md with
  | Qabs ?x == Qmax 0 ?z =>
      destruct (Qmax_cases 0 z) as [[? ?] | [? ?]];
      destruct (Qabs_cases x) as [[? ?] | [? ?]]
  end;
  lra.
Qed.

Lemma calculate_setpoint_interpolated_converges_witness :
  0 <= get_setpoint_adjustment_step_size s_target_ahead /\
  fl (Nat.iter 3 calculate_setpoint_interpolated s_target_ahead)
     setpoint_target
  = fl s_target_ahead setpoint_target.
Proof.
  assert (H : 0 <= get_setpoint_adjustment_step_size s_target_ahead)
    by (vm_compute; discriminate).
  split; [exact H |].
  exact (proj1 (calculate_setpoint_interpolated_converges 3 s_target_ahead
                  H)).
Defined.

(** ** The three setpoint offsets *)

Lemma some_eq {A : Type} (a b : A) : Some a = Some b -> a = b.
Proof. intros E. inversion E. reflexivity. Qed.

(** The move of an offset towards its target: all the way when the target is
    less than a step away, one step otherwise.  It never moves the offset by
    more than the step. *)
Lemma approach_within_step (target cur step : Q) :
  0 <= step ->
  fabsf ((if fabsf (target - cur) <? step then target
          else if target - cur >? 0 then cur + step else cur - step)
         - cur) <= step.
Proof.
  intros Hs. unfold fabsf.
  destruct (Qltb_spec (Qabs (target - cur)) step) as [A | A].
  - apply Qlt_le_weak. exact A.
  - destruct (Qgtb_spec (target - cur) 0) as [B | B].
    + destruct (Qabs_cases (cur + step - cur)) as [[_ E] | [_ E]];
        rewrite E; lra.
    + destruct (Qabs_cases (cur - step - cur)) as [[_ E] | [_ E]];
        rewrite E; lra.
Qed.

(** A property of the result of a sequence of assignments follows from what
    the sequence keeps. *)
Lemma through_let_state (W : footprint) (s0 : State) (Post : State -> Prop)
    (E : State) (B : State -> State) :
  preserved W s0 E -> (forall s, preserved W s0 s -> Post (B s)) ->
  Post (let x := E in B x).
Proof. intros H K. exact (K E H). Qed.

Lemma through_let_value {A : Type} (Post : State -> Prop) (E : A)
    (B : A -> State) :
  (forall v, Post (B v)) -> Post (let x := E in B x).
Proof. intros K. exact (K E). Qed.

(** The step of the torque tilt is one of the two configured step sizes, a
    half or a third of the first, or one and a half times one of them. *)
Lemma torquetilt_step_size_bound (s : State) (braking static_climb
    cutback_response : bool) :
  0 <= fl s torquetilt_on_step_size ->
  0 <= fl s torquetilt_off_step_size ->
  let step :=
    fst (torquetilt_step_size s braking static_climb cutback_response) in
  0 <= step /\
  step <= 1.5 * Qmax (fl s torquetilt_on_step_size)
                  (fl s torquetilt_off_step_size).
Proof.
  intros Hon Hoff. cbv zeta.
  destruct (Qmax_cases (fl s torquetilt_on_step_size)
              (fl s torquetilt_off_step_size)) as [[M E] | [M E]];
    rewrite E; clear E;
    unfold torquetilt_step_size; cbv zeta;
    repeat match goal with
           | |- context [if ?c then _ else _] => destruct c
           end;
    cbn [fst snd]; unfold Qdiv;
    try change (/ 2) with (1 # 2); try change (/ 3) with (1 # 3);
    lra.
Qed.

Section Offsets.

Variable SIGN : Q -> Q.

(** X9.  With a step size that is not negative, [apply_noseangling] moves
    the nose angling offset by at most one step, whatever the speed and the
    configured tiltback are, and adds the new offset to the setpoint. *)
Theorem apply_noseangling_rate_limit (s : State) :
  0 <= fl s noseangling_step_size ->
  let s' := apply_noseangling SIGN s in
  fabsf (fl s' noseangling_interpolated - fl s noseangling_interpolated)
  <= fl s noseangling_step_size /\
  fl s' setpoint = fl s setpoint + fl s' noseangling_interpolated.
Proof.
  intros Hs. cbv zeta. unfold apply_noseangling. cbv zeta.
  match goal with
  | |- context [if fabsf (?t - _) <? _ then _ else _] =>
      pose proof (approach_within_step t (fl s noseangling_interpolated)
                    (fl s noseangling_step_size) Hs) as A;
      generalize dependent t
  end.
  intros t A.
  destruct (fabsf (t - fl s noseangling_interpolated)
            <? fl s noseangling_step_size);
    [ | destruct (t - fl s noseangling_interpolated >? 0)];
    upd_simpl; (split; [exact A | reflexivity]).
Qed.

(** X10.  With torque tilt enabled, an angle limit and step sizes that are
    not negative: after [apply_torquetilt] the torque tilt target is within
    the configured angle limit on both sides, the torque tilt offset has
    moved by at most one and a half times the larger of the two configured
    steps, and the new offset has been added to the setpoint. *)
Theorem apply_torquetilt_bounds (s : State) :
  ~ BC.torquetilt_strength (balance_conf s) == 0 ->
  0 <= BC.torquetilt_angle_limit (balance_conf s) ->
  0 <= fl s torquetilt_on_step_size ->
  0 <= fl s torquetilt_off_step_size ->
  let s' := apply_torquetilt SIGN s in
  fabsf (fl s' torquetilt_target)
  <= BC.torquetilt_angle_limit (balance_conf s) /\
  fabsf (fl s' torquetilt_interpolated - fl s torquetilt_interpolated)
  <= 1.5 * Qmax (fl s torquetilt_on_step_size)
             (fl s torquetilt_off_step_size) /\
  fl s' setpoint = fl s setpoint + fl s' torquetilt_interpolated.
Proof.
  intros Hn Hl Hon Hoff. cbv zeta. unfold apply_torquetilt. cbv zeta.
  destruct (Qeqb_spec (BC.torquetilt_strength (balance_conf s)) 0)
    as [Z | _]; [contradiction |].
  destruct (biquad_process _ _) as [bq out].
  repeat match goal with
         | |- context [match ?e with pair _ _ => _ end] =>
             lazymatch e with
             | torquetilt_step_size _ _ _ _ => fail
             | _ => destruct e as [? ?]
             end
         end.
  match goal with
  | |- context [torquetilt_step_size ?s1 ?b ?c ?d] =>
      assert (B : 0 <= fst (torquetilt_step_size s1 b c d) /\
                  fst (torquetilt_step_size s1 b c d)
                  <= 1.5 * Qmax (fl s torquetilt_on_step_size)
                             (fl s torquetilt_off_step_size));
      [ | destruct (torquetilt_step_size s1 b c d) as [step code] ]
  end.
  { match goal with
    | |- context [torquetilt_step_size ?s1 ?b ?c ?d] =>
        pose proof (torquetilt_step_size_bound s1 b c d) as B
    end.
    cbv zeta in B.
    destruct (SIGN _ =? SIGN _); revert B; upd_simpl; intros B;
      exact (B Hon Hoff). }
  cbn [fst] in B. destruct B as [B0 B1].
  destruct (SIGN _ =? SIGN _); upd_simpl;
    match goal with
    | |- context [if fabsf (?t - _) <? _ then _ else _] =>
        pose proof (approach_within_step t (fl s torquetilt_interpolated)
                      step B0) as A;
        assert (T : fabsf t <= BC.torquetilt_angle_limit (balance_conf s))
          by (unfold fabsf, fmaxf, fminf;
              match goal with
              | |- Qabs (Qmax (Qmin ?x ?l) ?m) <= _ =>
                  destruct (Qmin_cases x l) as [[? E1] | [? E1]];
                  destruct (Qmax_cases (Qmin x l) m) as [[? E2] | [? E2]];
                  destruct (Qabs_cases (Qmax (Qmin x l) m))
                    as [[? E3] | [? E3]];
                  lra
              end);
        generalize dependent t
    end;
    intros t A T;
    (destruct (fabsf (t - fl s torquetilt_interpolated) <? step);
     [ | destruct (t - fl s torquetilt_interpolated >? 0)]);
    upd_simpl; (split; [exact T | split; [lra | reflexivity]]).
Qed.

Lemma turntilt_shape_target_footprint (s : State) :
  preserved W_turntilt_target s (turntilt_shape_target SIGN s).
Proof. cbv delta [turntilt_shape_target] beta. fp. Qed.

(** During heavy acceleration or braking the turn tilt target is zero. *)
Lemma turntilt_shape_target_heavy (s : State) :
  4 < fabsf (fl s pitch_angle - fl s noseangling_interpolated) ->
  fl (turntilt_shape_target SIGN s) turntilt_target = 0.
Proof.
  intros H. cbv delta [turntilt_shape_target] beta.
  pose proof (preserved_refl W_turntilt_target s) as P0.
  repeat lazymatch goal with
         | |- fl (let x := ?E in @?B x) _ = _ =>
             lazymatch type of E with
             | State =>
                 apply (through_let_state W_turntilt_target s
                          (fun s' => fl s' turntilt_target = 0) E B);
                 [fp | let s1 := fresh "s" in
                       let P := fresh "P" in intros s1 P]
             | _ =>
                 apply (through_let_value
                          (fun s' => fl s' turntilt_target = 0) E B);
                 let v := fresh "v" in intros v
             end
         | |- fl (match ?E with pair _ _ => _ end) _ = _ =>
             destruct E as [? ?]
         end.
  match goal with
  | P : preserved _ s ?s1 |- fl (if _ then _ else ?s1) _ = _ =>
      rewrite (pres_fl _ _ _ P pitch_angle eq_refl),
              (pres_fl _ _ _ P noseangling_interpolated eq_refl)
  end.
  rewrite (Qgtb_true _ _ H). upd_simpl. reflexivity.
Qed.

(** The move of the turn tilt offset towards its target, and the copy into
    the setpoint. *)
Lemma turntilt_move (s1 : State) :
  0 <= fl s1 turntilt_step_size ->
  let m :=
    if fabsf (fl s1 turntilt_target - fl s1 turntilt_interpolated)
       <? fl s1 turntilt_step_size
    then set_fl turntilt_interpolated (fl s1 turntilt_target) s1
    else if fl s1 turntilt_target - fl s1 turntilt_interpolated >? 0
    then set_fl turntilt_interpolated
           (fl s1 turntilt_interpolated + fl s1 turntilt_step_size) s1
    else set_fl turntilt_interpolated
           (fl s1 turntilt_interpolated - fl s1 turntilt_step_size) s1 in
  let s' := set_fl setpoint (fl m setpoint + fl m turntilt_interpolated) m in
  fabsf (fl s' turntilt_interpolated - fl s1 turntilt_interpolated)
  <= fl s1 turntilt_step_size /\
  fl s' setpoint = fl s1 setpoint + fl s' turntilt_interpolated /\
  fl s' turntilt_target = fl s1 turntilt_target.
Proof.
  intros Hs. cbv zeta.
  pose proof (approach_within_step (fl s1 turntilt_target)
                (fl s1 turntilt_interpolated) (fl s1 turntilt_step_size) Hs)
    as A.
  destruct (fabsf (fl s1 turntilt_target - fl s1 turntilt_interpolated)
            <? fl s1 turntilt_step_size);
    [ | destruct (fl s1 turntilt_target - fl s1 turntilt_interpolated >? 0)];
    upd_simpl; (split; [exact A | split; reflexivity]).
Qed.

(** X11.  With a step size that is not negative, a call of
    [apply_turntilt] that completes moves the turn tilt offset by at most
    one step and adds the new offset to the setpoint.  The turn tilt target
    is zero when the yaw change is below the start angle, when [state] is
    not [RUNNING] (so during every tiltback), and when the pitch is more
    than four degrees away from the nose angling offset. *)
Theorem apply_turntilt_rate_limit (s s' : State) :
  0 <= fl s turntilt_step_size ->
  apply_turntilt SIGN s = Some s' ->
  fabsf (fl s' turntilt_interpolated - fl s turntilt_interpolated)
  <= fl s turntilt_step_size /\
  fl s' setpoint = fl s setpoint + fl s' turntilt_interpolated /\
  (fl s abs_yaw_change * 100 < BC.turntilt_start_angle (balance_conf s)
   \/ state s <> RUNNING
   \/ 4 < fabsf (fl s pitch_angle - fl s noseangling_interpolated) ->
   fl s' turntilt_target = 0).
Proof.
  intros Hs E.
  assert (T : exists s1 : State,
             preserved W_turntilt_target s s1 /\
             (fl s abs_yaw_change * 100
              < BC.turntilt_start_angle (balance_conf s)
              \/ state s <> RUNNING
              \/ 4 < fabsf (fl s pitch_angle - fl s noseangling_interpolated)
              -> fl s1 turntilt_target = 0) /\
             (0 <= fl s1 turntilt_step_size ->
              fabsf (fl s' turntilt_interpolated - fl s1 turntilt_interpolated)
              <= fl s1 turntilt_step_size /\
              fl s' setpoint = fl s1 setpoint + fl s' turntilt_interpolated /\
              fl s' turntilt_target = fl s1 turntilt_target)).
  { unfold apply_turntilt in E. cbv zeta in E.
    destruct (Qltb_spec (fl s abs_yaw_change * 100)
                (BC.turntilt_start_angle (balance_conf s))) as [A | A];
      cbn [orb] in E.
    - exists (set_fl turntilt_target 0 s).
      split; [fp | split; [intros _; upd_simpl; reflexivity |]].
      apply some_eq in E; subst s'. exact (turntilt_move (set_fl turntilt_target 0 s)).
    - destruct (BalanceState_value (state s) =? BalanceState_value RUNNING)%Z
        eqn:St; cbn [negb] in E.
      + destruct (bl s cutback_enable).
        * destruct (detect_cutback SIGN s) as [c | ]; [ | discriminate E].
          exists (turntilt_shape_target SIGN (set_bl cutback c s)).
          split; [ | split].
          -- eapply preserved_trans;
               [ | apply turntilt_shape_target_footprint ].
             fp.
          -- intros [B | [B | B]];
               [lra | destruct (state s);
                      first [discriminate St | congruence] |].
             apply turntilt_shape_target_heavy. upd_simpl. exact B.
          -- apply some_eq in E; subst s'.
             exact (turntilt_move
                      (turntilt_shape_target SIGN (set_bl cutback c s))).
        * exists (turntilt_shape_target SIGN s).
          split; [apply turntilt_shape_target_footprint | split].
          -- intros [B | [B | B]];
               [lra | destruct (state s);
                      first [discriminate St | congruence] |].
             apply turntilt_shape_target_heavy. exact B.
          -- apply some_eq in E; subst s'.
             exact (turntilt_move (turntilt_shape_target SIGN s)).
      + exists (set_fl turntilt_target 0 s).
        split; [fp | split; [intros _; upd_simpl; reflexivity |]].
        apply some_eq in E; subst s'. exact (turntilt_move (set_fl turntilt_target 0 s)). }
  clear E. destruct T as [s1 [P [Z M]]].
  rewrite (pres_fl _ _ _ P turntilt_interpolated eq_refl),
          (pres_fl _ _ _ P turntilt_step_size eq_refl),
          (pres_fl _ _ _ P setpoint eq_refl) in M.
  destruct (M Hs) as [M1 [M2 M3]].
  split; [exact M1 | split; [exact M2 |]].
  intros H. rewrite M3. exact (Z H).
Qed.

End Offsets.

Lemma apply_noseangling_rate_limit_witness :
  0 <= fl s_cruising noseangling_step_size /\
  fl (apply_noseangling SIGN_macro s_cruising) setpoint
  = fl s_cruising setpoint
    + fl (apply_noseangling SIGN_macro s_cruising) noseangling_interpolated.
Proof.
  assert (H : 0 <= fl s_cruising noseangling_step_size)
    by (vm_compute; discriminate).
  split; [exact H |].
  exact (proj2 (apply_noseangling_rate_limit SIGN_macro s_cruising H)).
Defined.

Lemma apply_torquetilt_bounds_witness :
  (~ BC.torquetilt_strength (balance_conf s_cruising) == 0 /\
   0 <= BC.torquetilt_angle_limit (balance_conf s_cruising) /\
   0 <= fl s_cruising torquetilt_on_step_size /\
   0 <= fl s_cruising torquetilt_off_step_size) /\
  fabsf (fl (apply_torquetilt SIGN_macro s_cruising) torquetilt_target)
  <= BC.torquetilt_angle_limit (balance_conf s_cruising).
Proof.
  assert (H1 : ~ BC.torquetilt_strength (balance_conf s_cruising) == 0)
    by (vm_compute; discriminate).
  assert (H2 : 0 <= BC.torquetilt_angle_limit (balance_conf s_cruising))
    by (vm_compute; discriminate).
  assert (H3 : 0 <= fl s_cruising torquetilt_on_step_size)
    by (vm_compute; discriminate).
  assert (H4 : 0 <= fl s_cruising torquetilt_off_step_size)
    by (vm_compute; discriminate).
  split; [repeat split; assumption |].
  exact (proj1 (apply_torquetilt_bounds SIGN_macro s_cruising H1 H2 H3 H4)).
Defined.

Lemma apply_turntilt_rate_limit_witness :
  0 <= fl s_cruising turntilt_step_size /\
  match apply_turntilt SIGN_macro s_cruising with
  | Some s' =>
      fabsf (fl s' turntilt_interpolated - fl s_cruising turntilt_interpolated)
      <= fl s_cruising turntilt_step_size
  | None => False
  end.
Proof.
  assert (H : 0 <= fl s_cruising turntilt_step_size)
    by (vm_compute; discriminate).
  split; [exact H |].
  assert (Hc : completes (apply_turntilt SIGN_macro s_cruising) = true)
    by (vm_compute; reflexivity).
  pose proof (apply_turntilt_rate_limit SIGN_macro s_cruising) as T.
  destruct (apply_turntilt SIGN_macro s_cruising) as [s' |].
  - exact (proj1 (T s' H eq_refl)).
  - discriminate Hc.
Defined.

(** ** The smoothed yaw change *)

Section Yaw.

Variable ST2MS : Z -> Z.
Variable SIGN : Q -> Q.

Lemma update_yaw_smooths (h : Hardware) (s : State) :
  let s' := update_yaw SIGN h s in
  fl s' abs_yaw_change = fabsf (fl s' yaw_change) /\
  fabsf (fl s' yaw_change - 0.8 * fl s yaw_change) <= 0.02 /\
  fl s' last_yaw_angle = imu_get_yaw h.
Proof.
  cbv zeta. unfold update_yaw. cbv zeta. upd_simpl.
  match goal with
  | |- context [fmaxf (fminf ?c 0.10) (-0.10)] =>
      assert (B : -0.1 <= fmaxf (fminf c 0.10) (-0.10) /\
                  fmaxf (fminf c 0.10) (-0.10) <= 0.1)
        by (unfold fmaxf, fminf;
            destruct (Qmin_cases c 0.10) as [[? E1] | [? E1]];
            destruct (Qmax_cases (Qmin c 0.10) (-0.10))
              as [[? E2] | [? E2]]; lra);
      generalize dependent (fmaxf (fminf c 0.10) (-0.10))
  end.
  intros c' [B1 B2].
  assert (A : fabsf (fl s yaw_change * 0.8 + 0.2 * c'
                     - 0.8 * fl s yaw_change) <= 0.02)
    by (unfold fabsf;
        destruct (Qabs_cases (fl s yaw_change * 0.8 + 0.2 * c'
                              - 0.8 * fl s yaw_change)) as [[? E] | [? E]];
        lra).
  repeat match goal with
         | |- context [if ?c then _ else _] =>
             lazymatch c with
             | context [if _ then _ else _] => fail
             | _ => destruct c
             end
         end;
    upd_simpl; (split; [reflexivity | split; [exact A | reflexivity]]).
Qed.

(** What follows the yaw update in [read_inputs] and in the running branch
    keeps the yaw change. *)
Lemma after_yaw_footprint (h : Hardware) (s : State) :
  preserved
    (fp_union W_update_roll_aggregate
       (fp_union W_update_acceleration W_check_adcs))
    (update_yaw SIGN h s) (after_sensors SIGN h s).
Proof.
  unfold after_sensors. cbv zeta.
  eapply preserved_union; [apply update_roll_aggregate_footprint | ].
  eapply preserved_union;
    [apply update_acceleration_footprint | apply check_adcs_footprint].
Qed.

(** X12.  After every running iteration that completes, [abs_yaw_change]
    is the absolute value of [yaw_change], the yaw change is within 0.02 of
    0.8 times its previous value (the new reading enters with a weight of
    0.2 and clipped to 0.1 degrees), so a yaw change within 0.1 stays within
    0.1, and [last_yaw_angle] is the yaw angle read in this iteration. *)
Theorem running_tick_yaw_change (h : Hardware) (s s' : State) :
  running_tick ST2MS SIGN h s = Some s' ->
  fl s' abs_yaw_change = fabsf (fl s' yaw_change) /\
  fabsf (fl s' yaw_change - 0.8 * fl s yaw_change) <= 0.02 /\
  (fabsf (fl s yaw_change) <= 0.1 -> fabsf (fl s' yaw_change) <= 0.1) /\
  fl s' last_yaw_angle = imu_get_yaw h.
Proof.
  intros E.
  assert (R : fl s' abs_yaw_change
              = fl (update_yaw SIGN h (read_sensors h s)) abs_yaw_change /\
              fl s' yaw_change
              = fl (update_yaw SIGN h (read_sensors h s)) yaw_change /\
              fl s' last_yaw_angle
              = fl (update_yaw SIGN h (read_sensors h s)) last_yaw_angle).
  { rewrite running_tick_eq in E.
    pose proof (running_branch_footprint ST2MS SIGN h (read_inputs SIGN h s))
      as P.
    rewrite E in P. cbn [preserved_opt] in P.
    rewrite read_inputs_split in P.
    pose proof (after_yaw_footprint h (read_sensors h s)) as P1.
    pose proof (preserved_union _ _ _ _ _ P1 P) as P2.
    split; [ | split]; apply (pres_fl _ _ _ P2); reflexivity. }
  destruct R as [R1 [R2 R3]]. rewrite R1, R2, R3.
  destruct (update_yaw_smooths h (read_sensors h s)) as [A [B C]].
  rewrite (pres_fl _ _ _ (read_sensors_footprint h s) yaw_change eq_refl)
    in B.
  split; [exact A | split; [exact B | split; [ | exact C]]].
  intros H. revert B H. unfold fabsf.
  generalize (fl (update_yaw SIGN h (read_sensors h s)) yaw_change).
  intros y B H.
  destruct (Qabs_cases (y - 0.8 * fl s yaw_change)) as [[? E1] | [? E1]];
    destruct (Qabs_cases (fl s yaw_change)) as [[? E2] | [? E2]];
    destruct (Qabs_cases y) as [[? E3] | [? E3]]; lra.
Qed.

End Yaw.

Lemma running_tick_yaw_change_witness :
  match running_tick ST2MS_10kHz SIGN_macro (at_rest 1)
          (reset_vars configured) with
  | Some s' => fl s' abs_yaw_change = fabsf (fl s' yaw_change)
  | None => False
  end.
Proof.
  assert (Hc : completes (running_tick ST2MS_10kHz SIGN_macro (at_rest 1)
                            (reset_vars configured)) = true)
    by (vm_compute; reflexivity).
  pose proof (running_tick_yaw_change ST2MS_10kHz SIGN_macro (at_rest 1)
                (reset_vars configured)) as H.
  destruct (running_tick ST2MS_10kHz SIGN_macro (at_rest 1)
              (reset_vars configured)) as [s' |].
  - exact (proj1 (H s' eq_refl)).
  - discriminate Hc.
Defined.

(** ** The guardrails of the configuration *)

(** A value clamped from above and then from below. *)
Lemma clamp_between (x lo hi : Q) :
  lo <= hi -> lo <= fmaxf (fminf x hi) lo /\ fmaxf (fminf x hi) lo <= hi.
Proof.
  intros H. unfold fmaxf, fminf.
  destruct (Qmin_cases x hi) as [[? E1] | [? E1]];
    destruct (Qmax_cases (Qmin x hi) lo) as [[? E2] | [? E2]]; lra.
Qed.

Lemma configure_torque_response_guardrails (s : State) :
  let c := configure_torque_response s in
  (0 <= fl c tt_pid_intensity /\ fl c tt_pid_intensity <= 1.5) /\
  (0 <= fl c tt_strength_uphill /\ fl c tt_strength_uphill <= 2.5) /\
  (0 <= fl c integral_tt_impact_downhill
   /\ fl c integral_tt_impact_downhill <= 1) /\
  (0 <= fl c integral_tt_impact_uphill
   /\ fl c integral_tt_impact_uphill <= 1).
Proof.
  cbv zeta. unfold configure_torque_response. cbv zeta. upd_simpl.
  destruct (Qgtb_spec (BC.torquetilt_strength (balance_conf s) * 10) 2.5)
    as [A | A]; upd_simpl.
  - change (1.5 <? 0) with false. cbv iota. upd_simpl.
    repeat split;
      first [apply clamp_between; discriminate | discriminate].
  - destruct (Qltb_spec (BC.torquetilt_strength (balance_conf s) * 10) 0)
      as [B | B]; upd_simpl;
      repeat split;
      first [apply clamp_between; discriminate | discriminate | lra].
Qed.

(** Case analysis on the innermost condition of the goal. *)
Ltac case_inner :=
  match goal with
  | |- context [if ?c then _ else _] =>
      lazymatch c with
      | context [if _ then _ else _] => fail
      | (?a <? ?b) => destruct (Qltb_spec a b)
      | (?a >? ?b) => destruct (Qgtb_spec a b)
      | _ => destruct c
      end
  end.

Lemma configure_pid_toning_guardrails (mc : mc_configuration) (s : State) :
  let c := configure_pid_toning mc s in
  (0 <= fl c center_boost_kp_adder /\ fl c center_boost_kp_adder <= 7) /\
  fl c center_boost_angle <= 3.
Proof.
  cbv zeta. unfold configure_pid_toning. cbv zeta.
  repeat (upd_simpl; case_inner); upd_simpl; unfold fminf;
    match goal with
    | |- context [Qmin ?a 7] =>
        destruct (Qmin_cases a 7) as [[? E] | [? E]]
    end;
    repeat split; lra.
Qed.

Lemma configure_limits_guardrails (mc : mc_configuration) (s : State) :
  let c := configure_limits mc s in
  0.25 <= fl c ttt_brake_ratio /\ fl c ttt_brake_ratio <= 5.
Proof.
  cbv zeta. unfold configure_limits. cbv zeta.
  destruct (_ >? 0); upd_simpl;
    destruct (clamp_between
                (BC.kd_pt1_highpass_frequency (balance_conf s)) 1 20
                ltac:(discriminate)) as [L H];
    unfold fmaxf, fminf in *;
    (split; [apply Qle_shift_div_l; [reflexivity | lra]
            | apply Qle_shift_div_r; [reflexivity | lra]]).
Qed.

Lemma configure_soft_start_guardrails (s : State) :
  let c := configure_soft_start s in
  (-50 <= fl c center_jerk_strength /\ fl c center_jerk_strength <= 50) /\
  (nt c center_jerk_duration_ms <= 100)%Z.
Proof.
  cbv zeta. unfold configure_soft_start. cbv zeta. upd_simpl.
  destruct (Qgtb_spec (BC.yaw_current_clamp (balance_conf s)) 50) as [A | A];
    upd_simpl.
  - change (0 <? -50) with false. cbv iota. upd_simpl.
    destruct (Z.gtb_spec (Qtrunc (BC.roll_steer_erpm_kp (balance_conf s)))
                100); upd_simpl;
      (split; [split; discriminate | lia]).
  - destruct (Qltb_spec (BC.yaw_current_clamp (balance_conf s)) (-50))
      as [B | B]; upd_simpl;
      destruct (Z.gtb_spec (Qtrunc (BC.roll_steer_erpm_kp (balance_conf s)))
                  100); upd_simpl;
      (split; [split; first [discriminate | lra] | lia]).
Qed.

Ltac skip_parts_nt :=
  repeat first
    [ rewrite (pres_nt _ _ _ (configure_limits_footprint _ _)) by reflexivity
    | rewrite (pres_nt _ _ _ (configure_pid_toning_footprint _ _))
        by reflexivity
    | rewrite (pres_nt _ _ _ (configure_d_pt1_footprint _)) by reflexivity
    | rewrite (pres_nt _ _ _ (configure_torque_response_footprint _))
        by reflexivity
    | rewrite (pres_nt _ _ _ (configure_gain_caps_footprint _)) by reflexivity
    | rewrite (pres_nt _ _ _ (configure_turntilt_footprint _)) by reflexivity
    | rewrite (pres_nt _ _ _ (configure_atr_footprint _)) by reflexivity
    | rewrite (pres_nt _ _ _ (configure_switch_faults_footprint _))
        by reflexivity ].

(** X13.  Whatever the configuration holds, [app_balance_configure] leaves
    the derived values within their guardrails: the gain caps at most 10,
    0.01 and 1500; the torque tilt gain intensity in [0, 1.5]; the uphill
    torque tilt strength in [0, 2.5]; both integral impacts in [0, 1]; the
    centre boost adder in [0, 7] and the centre boost angle at most 3; the
    brake ratio in [0.25, 5]; the centring jerk strength in [-50, 50] and
    its duration at most 100 ms. *)
Theorem app_balance_configure_guardrails (conf : balance_config)
    (mc : mc_configuration) (s : State) :
  let c := app_balance_configure conf mc s in
  (fl c kp_acc <= 10 /\ fl c ki_acc <= 0.01 /\ fl c kd_acc <= 1500) /\
  (0 <= fl c tt_pid_intensity /\ fl c tt_pid_intensity <= 1.5) /\
  (0 <= fl c tt_strength_uphill /\ fl c tt_strength_uphill <= 2.5) /\
  (0 <= fl c integral_tt_impact_downhill
   /\ fl c integral_tt_impact_downhill <= 1) /\
  (0 <= fl c integral_tt_impact_uphill
   /\ fl c integral_tt_impact_uphill <= 1) /\
  (0 <= fl c center_boost_kp_adder /\ fl c center_boost_kp_adder <= 7) /\
  fl c center_boost_angle <= 3 /\
  (0.25 <= fl c ttt_brake_ratio /\ fl c ttt_brake_ratio <= 5) /\
  (-50 <= fl c center_jerk_strength /\ fl c center_jerk_strength <= 50) /\
  (nt c center_jerk_duration_ms <= 100)%Z.
Proof.
  cbv zeta.
  split.
  { destruct (app_balance_configure_gain_caps conf mc s) as [E1 [E2 E3]].
    rewrite E1, E2, E3. unfold fminf.
    repeat split; apply Q.le_min_r. }
  unfold app_balance_configure. cbv zeta.
  match goal with
  | |- context [configure_torque_response ?s1] =>
      pose proof (configure_torque_response_guardrails s1) as T
  end.
  match goal with
  | |- context [configure_pid_toning mc ?s1] =>
      pose proof (configure_pid_toning_guardrails mc s1) as P
  end.
  match goal with
  | |- context [configure_limits mc ?s1] =>
      pose proof (configure_limits_guardrails mc s1) as L
  end.
  match goal with
  | |- context [configure_soft_start ?s1] =>
      pose proof (configure_soft_start_guardrails s1) as S
  end.
  cbv zeta in T, P, L, S.
  destruct T as [T1 [T2 [T3 T4]]], P as [P1 P2], S as [S1 S2].
  split; [skip_parts; exact T1 |].
  split; [skip_parts; exact T2 |].
  split; [skip_parts; exact T3 |].
  split; [skip_parts; exact T4 |].
  split; [skip_parts; exact P1 |].
  split; [skip_parts; exact P2 |].
  split; [exact L |].
  split; [skip_parts; exact S1 |].
  skip_parts_nt. exact S2.
Qed.

(** ** The features encoded in the start-up speed *)

(** The cast of a float that is not negative to [int] is its integer
    part. *)
Lemma Qtrunc_integer_part (x : Q) (n : Z) :
  (0 <= n)%Z -> inject_Z n <= x -> x < inject_Z (n + 1) -> Qtrunc x = n.
Proof.
  intros Hn L U.
  assert (Hx : 0 <= x).
  { apply Qle_trans with (inject_Z n); [ | exact L].
    change 0 with (inject_Z 0). rewrite <- Zle_Qle. exact Hn. }
  assert (F : Qfloor x = n).
  { apply Z.le_antisymm.
    - apply Z.lt_succ_r. rewrite Zlt_Qlt.
      apply Qle_lt_trans with x; [apply Qfloor_le | exact U].
    - rewrite <- (Qfloor_Z n). apply Qfloor_resp_le. exact L. }
  rewrite <- F. unfold Qtrunc, Qfloor. destruct x as [p q]. cbn [Qnum Qden].
  apply Z.quot_div_nonneg; [ | reflexivity].
  unfold Qle in Hx. cbn in Hx. lia.
Qed.

Lemma configure_start_features (s : State) (n : Z) (d : Q) :
  (0 <= n)%Z -> 0 <= d -> d < 1 ->
  BC.startup_speed (balance_conf s) == inject_Z n + d ->
  let c := configure_start s in
  bl c use_reverse_stop
  = ((d >? 0.09) && (d <? 0.11)) || ((d >? 0.29) && (d <? 0.31)) /\
  nt c start_counter_clicks_max
  = if ((d >? 0.19) && (d <? 0.21)) || ((d >? 0.29) && (d <? 0.31))
    then 0%Z else 2%Z.
Proof.
  intros Hn D0 D1 E. cbv zeta. unfold configure_start. cbv zeta.
  assert (T : Qtrunc (BC.startup_speed (balance_conf s)) = n).
  { apply Qtrunc_integer_part; [exact Hn | lra |].
    rewrite inject_Z_plus. change (inject_Z 1) with 1. lra. }
  upd_simpl. rewrite T.
  destruct (Qgtb_spec (BC.startup_speed (balance_conf s) - inject_Z n) 0.09);
    destruct (Qltb_spec (BC.startup_speed (balance_conf s) - inject_Z n)
                0.11);
    destruct (Qgtb_spec (BC.startup_speed (balance_conf s) - inject_Z n)
                0.19);
    destruct (Qltb_spec (BC.startup_speed (balance_conf s) - inject_Z n)
                0.21);
    destruct (Qgtb_spec (BC.startup_speed (balance_conf s) - inject_Z n)
                0.29);
    destruct (Qltb_spec (BC.startup_speed (balance_conf s) - inject_Z n)
                0.31);
    try lra;
    destruct (Qgtb_spec d 0.09); try lra;
    destruct (Qltb_spec d 0.11); try lra;
    destruct (Qgtb_spec d 0.19); try lra;
    destruct (Qltb_spec d 0.21); try lra;
    destruct (Qgtb_spec d 0.29); try lra;
    destruct (Qltb_spec d 0.31); try lra;
    cbn [andb orb]; upd_simpl; split; reflexivity.
Qed.

Lemma configure_soft_start_flag (s : State) :
  bl (configure_soft_start s) use_soft_start
  = (BC.startup_speed (balance_conf s) <? 10).
Proof.
  unfold configure_soft_start. cbv zeta.
  repeat (upd_simpl;
          match goal with
          | |- context [if ?c then _ else _] =>
              lazymatch c with
              | context [if _ then _ else _] => fail
              | _ => destruct c
              end
          end); upd_simpl; reflexivity.
Qed.

(** What the parts of [app_balance_configure] after [configure_start] keep. *)
Lemma after_configure_start (mc : mc_configuration) (s : State) :
  let c :=
    configure_limits mc
      (configure_pid_toning mc
         (configure_d_pt1
            (configure_torque_response
               (configure_gain_caps
                  (configure_turntilt
                     (configure_atr
                        (configure_switch_faults
                           (configure_soft_start s)))))))) in
  bl c use_reverse_stop = bl s use_reverse_stop /\
  nt c start_counter_clicks_max = nt s start_counter_clicks_max /\
  bl c use_soft_start = bl (configure_soft_start s) use_soft_start.
Proof.
  cbv zeta.
  pose proof (configure_soft_start_footprint s) as P1.
  generalize dependent (configure_soft_start s). intros s1 P1.
  pose proof (configure_switch_faults_footprint s1) as P2.
  generalize dependent (configure_switch_faults s1). intros s2 P2.
  pose proof (configure_atr_footprint s2) as P3.
  generalize dependent (configure_atr s2). intros s3 P3.
  pose proof (configure_turntilt_footprint s3) as P4.
  generalize dependent (configure_turntilt s3). intros s4 P4.
  pose proof (configure_gain_caps_footprint s4) as P5.
  generalize dependent (configure_gain_caps s4). intros s5 P5.
  pose proof (configure_torque_response_footprint s5) as P6.
  generalize dependent (configure_torque_response s5). intros s6 P6.
  pose proof (configure_d_pt1_footprint s6) as P7.
  generalize dependent (configure_d_pt1 s6). intros s7 P7.
  pose proof (configure_pid_toning_footprint mc s7) as P8.
  generalize dependent (configure_pid_toning mc s7). intros s8 P8.
  pose proof (configure_limits_footprint mc s8) as P9.
  generalize dependent (configure_limits mc s8). intros s9 P9.
  pose proof (preserved_union _ _ _ _ _ P2
                (preserved_union _ _ _ _ _ P3
                   (preserved_union _ _ _ _ _ P4
                      (preserved_union _ _ _ _ _ P5
                         (preserved_union _ _ _ _ _ P6
                            (preserved_union _ _ _ _ _ P7
                               (preserved_union _ _ _ _ _ P8 P9)))))))
    as Q.
  pose proof (preserved_union _ _ _ _ _ P1 Q) as Q1.
  split; [ | split].
  - apply (pres_bl _ _ _ Q1). reflexivity.
  - apply (pres_nt _ _ _ Q1). reflexivity.
  - apply (pres_bl _ _ _ Q). reflexivity.
Qed.

(** X14.  The features encoded in the first decimal of the start-up speed
    [n + d] ([n] an integer that is not negative): [d = 0] gives the start
    click without reverse stop, [d = 0.1] the click with reverse stop,
    [d = 0.2] the stealthy start without reverse stop, [d = 0.3] the
    stealthy start with reverse stop; the soft start is selected exactly
    when [n] is below 10. *)
Theorem app_balance_configure_start_features (conf : balance_config)
    (mc : mc_configuration) (s : State) (n : Z) (d : Q) :
  (0 <= n)%Z -> 0 <= d -> d < 1 ->
  BC.startup_speed conf == inject_Z n + d ->
  let c := app_balance_configure conf mc s in
  (d == 0 ->
   bl c use_reverse_stop = false /\ nt c start_counter_clicks_max = 2%Z) /\
  (d == 0.1 ->
   bl c use_reverse_stop = true /\ nt c start_counter_clicks_max = 2%Z) /\
  (d == 0.2 ->
   bl c use_reverse_stop = false /\ nt c start_counter_clicks_max = 0%Z) /\
  (d == 0.3 ->
   bl c use_reverse_stop = true /\ nt c start_counter_clicks_max = 0%Z) /\
  bl c use_soft_start = (n <? 10)%Z.
Proof.
  intros Hn D0 D1 E. cbv zeta.
  unfold app_balance_configure. cbv zeta.
  destruct (after_configure_start mc
              (configure_start
                 (configure_step_sizes (set_balance_conf conf s))))
    as [R [K S]].
  rewrite R, K, S. clear R K S.
  assert (C : balance_conf (configure_step_sizes (set_balance_conf conf s))
              = conf)
    by (rewrite (pres_conf _ _ _ (configure_step_sizes_footprint _));
        reflexivity).
  pose proof (configure_start_features
                (configure_step_sizes (set_balance_conf conf s)) n d
                Hn D0 D1) as F.
  rewrite C in F. destruct (F E) as [F1 F2]. clear F.
  rewrite F1, F2.
  do 4 (split;
        [ intros H;
          repeat match goal with
                 | |- context [d >? ?b] => destruct (Qgtb_spec d b); try lra
                 | |- context [d <? ?b] => destruct (Qltb_spec d b); try lra
                 end;
          split; reflexivity
        | ]).
  rewrite configure_soft_start_flag.
  rewrite (pres_conf _ _ _ (configure_start_footprint _)), C.
  destruct (Qltb_spec (BC.startup_speed conf) 10) as [A | A];
    destruct (Z.ltb_spec n 10) as [B | B]; try reflexivity; exfalso.
  - assert (B' : inject_Z 10 <= inject_Z n) by (rewrite <- Zle_Qle; exact B).
    change (inject_Z 10) with 10 in B'. lra.
  - assert (B' : inject_Z (n + 1) <= inject_Z 10)
      by (rewrite <- Zle_Qle; lia).
    rewrite inject_Z_plus in B'.
    change (inject_Z 10) with 10 in B'. change (inject_Z 1) with 1 in B'.
    lra.
Qed.

Lemma app_balance_configure_start_features_witness :
  (0 <= 30)%Z /\ 0 <= 0.1 /\ 0.1 < 1 /\
  BC.startup_speed sample_conf == inject_Z 30 + 0.1 /\
  bl configured use_reverse_stop = true /\
  nt configured start_counter_clicks_max = 2%Z.
Proof.
  assert (H1 : (0 <= 30)%Z) by lia.
  assert (H2 : 0 <= 0.1) by discriminate.
  assert (H3 : 0.1 < 1) by reflexivity.
  assert (H4 : BC.startup_speed sample_conf == inject_Z 30 + 0.1)
    by reflexivity.
  do 4 (split; [assumption |]).
  exact (proj1 (proj2 (app_balance_configure_start_features sample_conf
                         sample_mc power_on 30 0.1 H1 H2 H3 H4))
           ltac:(reflexivity)).
Defined.

(** ** The iteration that raises a fault *)

Lemma consistent_is_running (s : State) :
  mode_state_consistent s -> is_running (state s) = true.
Proof.
  unfold mode_state_consistent.
  destruct (setpointAdjustmentType s); intros H;
    try (rewrite H; reflexivity).
  destruct H as [H | H]; rewrite H; reflexivity.
Qed.

Section FaultIteration.

Variable ST2MS : Z -> Z.
Variable SIGN : Q -> Q.

(** X15.  A running iteration that leaves the running states has raised
    one of the faults of [check_faults], and has done nothing else after
    reading the inputs: the mode, the requested current, the PID output,
    the integral, the setpoint, its target and interpolation, and the start
    click counter are as before the iteration. *)
Theorem fault_iteration_keeps_output (h : Hardware) (s s' : State) :
  mode_state_consistent s ->
  running_tick ST2MS SIGN h s = Some s' ->
  is_running (state s') = false ->
  is_check_fault (state s') = true /\
  setpointAdjustmentType s' = setpointAdjustmentType s /\
  fl s' requested_current = fl s requested_current /\
  fl s' pid_value = fl s pid_value /\
  fl s' integral = fl s integral /\
  fl s' setpoint = fl s setpoint /\
  fl s' setpoint_target = fl s setpoint_target /\
  fl s' setpoint_target_interpolated = fl s setpoint_target_interpolated /\
  nt s' start_counter_clicks = nt s start_counter_clicks.
Proof.
  intros H E R.
  destruct (running_tick_consistent ST2MS SIGN h s s' H E) as [C | C];
    [rewrite (consistent_is_running s' C) in R; discriminate R |].
  split; [exact C |].
  rewrite running_tick_eq in E.
  pose proof (read_inputs_footprint SIGN h s) as P1.
  generalize dependent (read_inputs SIGN h s). intros s0 E P1.
  rewrite running_branch_eq in E.
  pose proof (check_faults_footprint ST2MS false s0) as P2.
  destruct (check_faults_outcome ST2MS false s0) as [_ Of].
  destruct (call (check_faults ST2MS false) s0) as [faulted s1].
  cbn [fst snd] in Of, P2. destruct faulted.
  - apply some_eq in E. subst s'.
    pose proof (preserved_union _ _ _ _ _ P1 P2) as P.
    split; [apply (pres_mode _ _ _ P); reflexivity |].
    repeat split;
      first [apply (pres_fl _ _ _ P) | apply (pres_nt _ _ _ P)];
      reflexivity.
  - exfalso. destruct (Of eq_refl) as [Es Em].
    assert (H0 : mode_state_consistent s0)
      by (exact (consistent_preserved W_read_inputs _ _ eq_refl eq_refl
                   P1 H)).
    assert (H1 : mode_state_consistent s1)
      by (unfold mode_state_consistent; rewrite Es, Em; exact H0).
    apply (calculate_setpoint_target_consistent ST2MS h) in H1.
    assert (H2 : mode_state_consistent (shape_setpoint ST2MS h s1)).
    { destruct (shape_setpoint_state_mode ST2MS h s1) as [S1 S2].
      unfold mode_state_consistent. rewrite S1, S2. exact H1. }
    pose proof (after_shaping_footprint SIGN (shape_setpoint ST2MS h s1))
      as P.
    generalize dependent (shape_setpoint ST2MS h s1). intros s2 E H2 P.
    destruct (apply_tilts SIGN s2) as [s3 | ]; [ | discriminate E].
    cbn [preserved_opt] in P.
    generalize dependent (pid_block SIGN s3). intros s4 E P.
    apply some_eq in E. subst s'.
    pose proof (consistent_preserved W_after_shaping _ _ eq_refl eq_refl
                  P H2) as H4.
    rewrite (consistent_is_running _ H4) in R. discriminate R.
Qed.

End FaultIteration.

Lemma fault_iteration_keeps_output_witness :
  mode_state_consistent s_cruising /\
  match running_tick ST2MS_10kHz SIGN_macro (tipped_over 1000) s_cruising with
  | Some s' =>
      is_running (state s') = false /\
      fl s' requested_current = fl s_cruising requested_current
  | None => False
  end.
Proof.
  assert (H : mode_state_consistent s_cruising) by (vm_compute; reflexivity).
  split; [exact H |].
  assert (Hc : match running_tick ST2MS_10kHz SIGN_macro (tipped_over 1000)
                       s_cruising with
               | Some s' => is_running (state s') = false
               | None => False
               end)
    by (vm_compute; reflexivity).
  pose proof (fault_iteration_keeps_output ST2MS_10kHz SIGN_macro
                (tipped_over 1000) s_cruising) as T.
  destruct (running_tick ST2MS_10kHz SIGN_macro (tipped_over 1000)
              s_cruising) as [s' |]; [ | exact Hc].
  split; [exact Hc |].
  exact (proj1 (proj2 (proj2 (T s' H eq_refl Hc)))).
Defined.

(* ================================================================= *)
(** * The loop outside the running states *)

Ltac thread_simpl :=
  cbn [vars start_conf motor_timeout brake_timeout lock_state is_locked
       lock_timer set_vars set_brake_timeout set_lock_state set_is_locked
       set_lock_timer].

Section ThreadProperties.

Variable ST2MS : Z -> Z.
Variable SIGN : Q -> Q.
Variable S2ST : Z -> Z.
Variable ST2MS_float : Q -> Q.

(** [check_lock] writes the lock variables only. *)
Lemma check_lock_keeps (t : Thread) :
  vars (check_lock ST2MS_float t) = vars t /\
  start_conf (check_lock ST2MS_float t) = start_conf t /\
  motor_timeout (check_lock ST2MS_float t) = motor_timeout t /\
  brake_timeout (check_lock ST2MS_float t) = brake_timeout t.
Proof.
  unfold check_lock. cbv zeta.
  repeat match goal with
         | |- context [if ?c then _ else _] =>
             lazymatch c with
             | context [if _ then _ else _] => fail
             | _ => destruct c
             end
         end;
    thread_simpl; repeat split; reflexivity.
Qed.

(** [brake] writes [brake_timeout] only, and either makes no call or
    commands the configured brake current. *)
Lemma brake_keeps (t : Thread) :
  vars (fst (brake S2ST t)) = vars t /\
  start_conf (fst (brake S2ST t)) = start_conf t /\
  motor_timeout (fst (brake S2ST t)) = motor_timeout t /\
  lock_state (fst (brake S2ST t)) = lock_state t /\
  is_locked (fst (brake S2ST t)) = is_locked t /\
  lock_timer (fst (brake S2ST t)) = lock_timer t.
Proof.
  unfold brake. cbv zeta.
  repeat match goal with
         | |- context [if ?c then _ else _] =>
             lazymatch c with
             | context [if _ then _ else _] => fail
             | _ => destruct c
             end
         end;
    thread_simpl; cbn [fst]; thread_simpl; repeat split; reflexivity.
Qed.

Lemma brake_calls (t : Thread) :
  snd (brake S2ST t) = [] \/
  snd (brake S2ST t)
  = [timeout_reset;
     mc_interface_set_brake_current
       (BC.brake_current (balance_conf (vars t)))].
Proof.
  unfold brake. cbv zeta.
  repeat match goal with
         | |- context [if ?c then _ else _] =>
             lazymatch c with
             | context [if _ then _ else _] => fail
             | _ => destruct c
             end
         end;
    thread_simpl; cbn [snd]; first [left; reflexivity | right; reflexivity].
Qed.

Lemma reset_vars_state (s : State) :
  state (reset_vars s) = RUNNING /\
  setpointAdjustmentType (reset_vars s) = CENTERING.
Proof.
  unfold reset_vars. cbv zeta.
  destruct (bl _ use_soft_start); upd_simpl; split; reflexivity.
Qed.

(** The iteration in a fault other than [FAULT_DUTY]. *)
Lemma fault_iteration_eq (p : Platform) (t : Thread) :
  is_fault (state (vars t)) = true ->
  state (vars t) <> FAULT_DUTY ->
  balance_thread_iteration ST2MS SIGN S2ST ST2MS_float p t
  = Some (fault_case S2ST ST2MS_float
            (set_vars (read_inputs SIGN (sensors p) (vars t)) t)).
Proof.
  intros Hf Hd. unfold balance_thread_iteration. cbv zeta.
  cbn [vars set_vars].
  rewrite (pres_state _ _ _ (read_inputs_footprint SIGN (sensors p) (vars t))
             eq_refl).
  destruct (state (vars t));
    first [discriminate Hf | reflexivity | contradiction Hd; reflexivity].
Qed.

(** The start conditions in terms of the variables. *)
Lemma fault_case_ready (t : Thread) :
  let t2 := check_lock ST2MS_float t in
  let ready :=
    negb (is_locked t2)
    && (fabsf (fl (vars t) pitch_angle)
        <? SC.startup_pitch_tolerance (start_conf t))
    && (fabsf (fl (vars t) roll_angle)
        <? SC.startup_roll_tolerance (start_conf t))
    && is_switch (switch_state (vars t)) ON in
  fault_case S2ST ST2MS_float t
  = if ready then (thread_reset_vars t2, []) else brake S2ST t2.
Proof.
  cbv zeta. unfold fault_case. cbv zeta.
  destruct (check_lock_keeps t) as [K1 [K2 _]].
  rewrite K1, K2. reflexivity.
Qed.

(** X16.  Leaving a fault.  In a fault other than [FAULT_DUTY], the
    iteration restarts the controller exactly when, after the lock check of
    this iteration, the board is not locked, the pitch and the roll read in
    this iteration are within the start-up tolerances, and the pads read in
    this iteration give the switch state [ON]: then [state] is [RUNNING],
    the mode is [CENTERING], the brake timeout is cleared and no call is
    made to the motor.  Otherwise [state] is kept and the iteration makes
    no call or commands the brake current. *)
Theorem fault_iteration_start_conditions (p : Platform) (t t' : Thread)
    (calls : list mc_call) :
  is_fault (state (vars t)) = true ->
  state (vars t) <> FAULT_DUTY ->
  balance_thread_iteration ST2MS SIGN S2ST ST2MS_float p t
  = Some (t', calls) ->
  let ready :=
    is_locked t' = false /\
    fabsf (imu_get_pitch (sensors p))
    < SC.startup_pitch_tolerance (start_conf t) /\
    fabsf (imu_get_roll (sensors p))
    < SC.startup_roll_tolerance (start_conf t) /\
    fst (check_adcs (sensors p) (vars t)) = ON in
  (ready ->
   state (vars t') = RUNNING /\
   setpointAdjustmentType (vars t') = CENTERING /\
   brake_timeout t' = 0%Z /\ calls = []) /\
  (~ ready ->
   state (vars t') = state (vars t) /\
   (calls = [] \/
    calls = [timeout_reset;
             mc_interface_set_brake_current
               (BC.brake_current (balance_conf (vars t)))])).
Proof.
  intros Hf Hd E. cbv zeta.
  rewrite (fault_iteration_eq p t Hf Hd) in E. apply some_eq in E.
  rewrite fault_case_ready in E. cbv zeta in E.
  cbn [vars start_conf set_vars] in E.
  pose proof (read_inputs_footprint SIGN (sensors p) (vars t)) as P.
  destruct (read_inputs_values SIGN (sensors p) (vars t))
    as [Vp [Vr _]].
  pose proof (read_inputs_switch_state SIGN (sensors p) (vars t)) as Vs.
  rewrite Vp, Vr, Vs in E.
  pose proof (pres_state _ _ _ P eq_refl) as Ps.
  pose proof (pres_conf _ _ _ P) as Pc.
  destruct (check_lock_keeps
              (set_vars (read_inputs SIGN (sensors p) (vars t)) t))
    as [K1 _].
  cbn [vars set_vars] in K1.
  generalize dependent (read_inputs SIGN (sensors p) (vars t)).
  intros s1 E _ _ _ _ Ps Pc.
  generalize dependent (check_lock ST2MS_float (set_vars s1 t)).
  intros t2 E K1.
  destruct (negb (is_locked t2)
            && (fabsf (imu_get_pitch (sensors p))
                <? SC.startup_pitch_tolerance (start_conf t))
            && (fabsf (imu_get_roll (sensors p))
                <? SC.startup_roll_tolerance (start_conf t))
            && is_switch (fst (check_adcs (sensors p) (vars t))) ON) eqn:B.
  - apply pair_equal_spec in E. destruct E as [E1 E2]. subst t' calls.
    unfold thread_reset_vars. cbv zeta. thread_simpl. rewrite K1.
    destruct (reset_vars_state s1) as [R1 R2].
    split.
    + intros _. rewrite R1, R2.
      split; [reflexivity | split; [reflexivity | split; reflexivity]].
    + intros N. exfalso. apply N.
      apply andb_prop in B. destruct B as [B B4].
      apply andb_prop in B. destruct B as [B B3].
      apply andb_prop in B. destruct B as [B1 B2].
      split; [apply negb_true_iff; exact B1 |].
      split; [destruct (Qltb_spec (fabsf (imu_get_pitch (sensors p)))
                          (SC.startup_pitch_tolerance (start_conf t)));
              [assumption | discriminate B2] |].
      split; [destruct (Qltb_spec (fabsf (imu_get_roll (sensors p)))
                          (SC.startup_roll_tolerance (start_conf t)));
              [assumption | discriminate B3] |].
      destruct (fst (check_adcs (sensors p) (vars t)));
        [discriminate B4 .. | reflexivity].
  - destruct (brake_keeps t2) as [V [_ [_ [_ [L _]]]]].
    pose proof (brake_calls t2) as C.
    rewrite E in V, L, C. cbn [fst snd] in V, L, C.
    rewrite K1 in V, C. rewrite V, L, Ps. rewrite Pc in C.
    split.
    + intros [R1 [R2 [R3 R4]]]. exfalso.
      rewrite R1, R4 in B. cbn [negb andb is_switch] in B.
      rewrite (Qltb_true _ _ R2), (Qltb_true _ _ R3) in B.
      discriminate B.
    + intros _. split; [reflexivity | exact C].
Qed.

End ThreadProperties.


Section ThreadStates.

Variable ST2MS : Z -> Z.
Variable SIGN : Q -> Q.
Variable S2ST : Z -> Z.
Variable ST2MS_float : Q -> Q.

(** With the timers ignored, releasing both pads is a fault at once. *)
Lemma check_switch_full_ignoring_timers (s : State) :
  is_switch (switch_state s) OFF = true ->
  check_switch_full ST2MS true s
  = (Return true, set_state FAULT_SWITCH_FULL s).
Proof.
  intros H. unfold check_switch_full, bind, get, assign, return_.
  cbv zeta. rewrite H, orb_true_r. reflexivity.
Qed.

(** The iteration in [FAULT_DUTY]. *)
Lemma fault_duty_iteration_eq (p : Platform) (t : Thread) :
  state (vars t) = FAULT_DUTY ->
  balance_thread_iteration ST2MS SIGN S2ST ST2MS_float p t
  = Some (fault_duty_case ST2MS S2ST
            (set_vars (read_inputs SIGN (sensors p) (vars t)) t)).
Proof.
  intros H. unfold balance_thread_iteration. cbv zeta.
  cbn [vars set_vars].
  rewrite (pres_state _ _ _ (read_inputs_footprint SIGN (sensors p) (vars t))
             eq_refl), H.
  reflexivity.
Qed.

(** The iteration in [STARTUP]. *)
Lemma startup_iteration_eq (p : Platform) (t : Thread) :
  state (vars t) = STARTUP ->
  balance_thread_iteration ST2MS SIGN S2ST ST2MS_float p t
  = Some (startup_case S2ST p
            (set_vars (read_inputs SIGN (sensors p) (vars t)) t)).
Proof.
  intros H. unfold balance_thread_iteration. cbv zeta.
  cbn [vars set_vars].
  rewrite (pres_state _ _ _ (read_inputs_footprint SIGN (sensors p) (vars t))
             eq_refl), H.
  reflexivity.
Qed.

(** The iteration in a running state. *)
Lemma running_iteration_eq (p : Platform) (t : Thread) :
  is_running (state (vars t)) = true ->
  balance_thread_iteration ST2MS SIGN S2ST ST2MS_float p t
  = running_case ST2MS SIGN p
      (set_vars (read_inputs SIGN (sensors p) (vars t)) t).
Proof.
  intros H. unfold balance_thread_iteration. cbv zeta.
  cbn [vars set_vars].
  rewrite (pres_state _ _ _ (read_inputs_footprint SIGN (sensors p) (vars t))
             eq_refl).
  destruct (state (vars t)); first [discriminate H | reflexivity].
Qed.

(** Both pads pressed and the board level, outside reverse stop: only the
    duty check can raise a fault. *)
Lemma check_faults_level (ignoreTimers : bool) (s : State) :
  is_switch (switch_state s) ON = true ->
  is_mode (setpointAdjustmentType s) REVERSESTOP = false ->
  fabsf (fl s pitch_angle) <= BC.fault_pitch (balance_conf s) ->
  fabsf (fl s roll_angle) <= BC.fault_roll (balance_conf s) ->
  state (snd (call (check_faults ST2MS ignoreTimers) s)) = state s \/
  state (snd (call (check_faults ST2MS ignoreTimers) s)) = FAULT_DUTY.
Proof.
  intros H1 H2 H3 H4.
  assert (Hoff : is_switch (switch_state s) OFF = false)
    by (destruct (switch_state s); [discriminate H1 .. | reflexivity]).
  assert (Hhalf : is_switch (switch_state s) HALF = false)
    by (destruct (switch_state s); [discriminate H1 .. | reflexivity]).
  rewrite snd_call. unfold check_faults.
  run_check ltac:(apply check_switch_full_pressed; exact Hoff).
  run_check ltac:(apply check_reverse_stop_other_mode; exact H2).
  run_check ltac:(apply check_switch_half_moving;
                   cbn [switch_state set_tm]; rewrite Hoff, Hhalf;
                   reflexivity).
  run_check ltac:(apply check_pitch_level; exact H3).
  run_check ltac:(apply check_roll_level; exact H4).
  cbv delta [check_duty bind get assign skip return_] beta iota zeta.
  repeat match goal with
         | |- context [if ?c then _ else _] =>
             lazymatch c with
             | context [if _ then _ else _] => fail
             | _ => destruct c
             end
         end;
    cbn [snd state set_state set_tm];
    first [left; reflexivity | right; reflexivity].
Qed.

(** X17.  A duty fault is cleared by another fault only.  From
    [FAULT_DUTY] the iteration ends in one of the faults of [check_faults],
    never in a running state; releasing both pads gives [FAULT_SWITCH_FULL]
    at once (the timers are ignored); standing on both pads with pitch and
    roll within their fault thresholds, outside reverse stop, keeps
    [FAULT_DUTY].  The motor is not driven. *)
Theorem duty_fault_needs_another_fault (p : Platform) (t t' : Thread)
    (calls : list mc_call) :
  state (vars t) = FAULT_DUTY ->
  balance_thread_iteration ST2MS SIGN S2ST ST2MS_float p t
  = Some (t', calls) ->
  is_check_fault (state (vars t')) = true /\
  (fst (check_adcs (sensors p) (vars t)) = OFF ->
   state (vars t') = FAULT_SWITCH_FULL) /\
  (fst (check_adcs (sensors p) (vars t)) = ON ->
   is_mode (setpointAdjustmentType (vars t)) REVERSESTOP = false ->
   fabsf (imu_get_pitch (sensors p)) <= BC.fault_pitch (balance_conf (vars t)) ->
   fabsf (imu_get_roll (sensors p)) <= BC.fault_roll (balance_conf (vars t)) ->
   state (vars t') = FAULT_DUTY) /\
  (calls = [] \/
   calls = [timeout_reset;
            mc_interface_set_brake_current
              (BC.brake_current (balance_conf (vars t)))]).
Proof.
  intros H E.
  rewrite (fault_duty_iteration_eq p t H) in E. apply some_eq in E.
  unfold fault_duty_case in E. cbv zeta in E. cbn [vars set_vars] in E.
  pose proof (read_inputs_footprint SIGN (sensors p) (vars t)) as P.
  destruct (read_inputs_values SIGN (sensors p) (vars t))
    as [Vp [Vr _]].
  pose proof (read_inputs_switch_state SIGN (sensors p) (vars t)) as Vs.
  rewrite <- Vp, <- Vr, <- Vs.
  rewrite <- (pres_state _ _ _ P eq_refl) in H.
  rewrite <- (pres_mode _ _ _ P eq_refl).
  rewrite <- (pres_conf _ _ _ P).
  generalize dependent (read_inputs SIGN (sensors p) (vars t)).
  intros s1 H E _ _ _ _.
  pose proof (check_faults_footprint ST2MS true s1) as Pf.
  destruct (check_faults_outcome ST2MS true s1) as [Ot Of].
  pose proof (check_faults_level true s1) as Lv.
  assert (Sw : is_switch (switch_state s1) OFF = true ->
               state (snd (call (check_faults ST2MS true) s1))
               = FAULT_SWITCH_FULL).
  { intros O. rewrite snd_call. unfold check_faults.
    rewrite (bind_return _ _ _ _ _
               (check_switch_full_ignoring_timers s1 O)).
    reflexivity. }
  generalize dependent (call (check_faults ST2MS true) s1).
  intros [faulted s2] E Pf Ot Of Lv Sw. cbn [fst snd] in *.
  destruct (brake_keeps S2ST (set_vars s2 (set_vars s1 t))) as [V _].
  pose proof (brake_calls S2ST (set_vars s2 (set_vars s1 t))) as C.
  rewrite E in V, C. cbn [fst snd vars set_vars] in V, C.
  rewrite (pres_conf _ _ _ Pf) in C. rewrite V.
  split; [ | split; [ | split; [ | exact C]]].
  - destruct faulted; [apply Ot; reflexivity |].
    destruct (Of eq_refl) as [Es _]. rewrite Es, H. reflexivity.
  - intros O. apply Sw. rewrite O. reflexivity.
  - intros O M A B.
    destruct (Lv ltac:(rewrite O; reflexivity) M A B) as [L | L];
      [rewrite L; exact H | exact L].
Qed.

End ThreadStates.

Section ThreadTransitions.

Variable ST2MS : Z -> Z.
Variable SIGN : Q -> Q.
Variable S2ST : Z -> Z.
Variable ST2MS_float : Q -> Q.

Lemma startup_case_spec (p : Platform) (t : Thread) :
  state (vars t) = STARTUP ->
  state (vars (fst (startup_case S2ST p t)))
  = (if imu_startup_done p && negb (motor_defaults p)
     then FAULT_STARTUP else STARTUP) /\
  exists braking,
    no_drive (vars t) braking /\
    snd (startup_case S2ST p t) = braking ++ startup_tune p t.
Proof.
  intros H. unfold startup_case, startup_tune.
  destruct (brake_keeps S2ST t) as [V [Sc _]].
  pose proof (brake_calls S2ST t) as C.
  destruct (brake S2ST t) as [t1 calls]. cbn [fst snd] in V, Sc, C.
  destruct (imu_startup_done p), (motor_defaults p); cbn [andb negb].
  - cbn [fst snd]. split; [rewrite V; exact H |].
    exists calls. split; [exact C | symmetry; apply app_nil_r].
  - unfold thread_reset_vars. cbv zeta. thread_simpl. rewrite Sc.
    destruct (SC.deadzone (start_conf t) >? 0); cbn [fst snd]; thread_simpl;
      (split; [reflexivity |]); exists calls;
      (split; [exact C | first [reflexivity | symmetry; apply app_nil_r]]).
  - cbn [fst snd]. split; [rewrite V; exact H |].
    exists calls. split; [exact C | symmetry; apply app_nil_r].
  - cbn [fst snd]. split; [rewrite V; exact H |].
    exists calls. split; [exact C | symmetry; apply app_nil_r].
Qed.



Lemma fault_duty_case_spec (t : Thread) :
  state (vars t) = FAULT_DUTY ->
  is_check_fault (state (vars (fst (fault_duty_case ST2MS S2ST t)))) = true /\
  no_drive (vars t) (snd (fault_duty_case ST2MS S2ST t)).
Proof.
  intros H. unfold fault_duty_case. cbv zeta.
  pose proof (check_faults_footprint ST2MS true (vars t)) as Pf.
  destruct (check_faults_outcome ST2MS true (vars t)) as [Ot Of].
  generalize dependent (call (check_faults ST2MS true) (vars t)).
  intros [faulted s2] Pf Ot Of. cbn [fst snd] in *.
  destruct (brake_keeps S2ST (set_vars s2 t)) as [V _].
  pose proof (brake_calls S2ST (set_vars s2 t)) as C.
  cbn [vars set_vars] in V, C. rewrite (pres_conf _ _ _ Pf) in C.
  rewrite V. split; [ | exact C].
  destruct faulted; [apply Ot; reflexivity |].
  destruct (Of eq_refl) as [Es _]. rewrite Es, H. reflexivity.
Qed.



End ThreadTransitions.

(** ** The conversion to [float] *)

(** Rounding at work on tick counts above 2^24: to the nearest even
    significand. *)
Lemma binary32_tick_counts :
  binary32 16777217 == 16777216 /\ binary32 16777219 == 16777220 /\
  binary32 16777709 == 16777708 /\ binary32 4294967295 == 4294967296.
Proof.
  split; [vm_compute; reflexivity |].
  split; [vm_compute; reflexivity |].
  split; vm_compute; reflexivity.
Qed.

Lemma Qpower_2_pos (k : Z) : (0 <= k)%Z -> Qpower 2 k == inject_Z (2 ^ k).
Proof. intros H. symmetry. exact (Zpower_Qpower 2 k H). Qed.

(** A tick count of at most 24 bits is a [float]: the conversion is
    exact. *)
Lemma binary32_exact (n : Z) :
  (0 <= n < 2 ^ 24)%Z -> binary32 (inject_Z n) == inject_Z n.
Proof.
  intros [H0 H1]. unfold binary32.
  destruct (Qeqb_spec (inject_Z n) 0) as [E | E]; [symmetry; exact E |].
  assert (Hn : (0 < n)%Z).
  { destruct (Z.eq_dec n 0) as [-> | N]; [contradiction E; reflexivity | lia]. }
  cbv zeta.
  assert (Ha : Qabs (inject_Z n) = inject_Z n).
  { unfold Qabs, inject_Z. cbn. rewrite Z.abs_eq by lia. reflexivity. }
  rewrite Ha.
  assert (He : Qlog2 (inject_Z n) = Z.log2 n).
  { unfold Qlog2. cbv zeta. cbn [Qnum Qden inject_Z].
    change (Z.log2 1) with 0%Z. rewrite Z.sub_0_r.
    destruct (Qleb_spec (Qpower 2 (Z.log2 n)) (inject_Z n)) as [L | L];
      [reflexivity |].
    exfalso. rewrite Qpower_2_pos in L by apply Z.log2_nonneg.
    rewrite <- Zlt_Qlt in L.
    pose proof (Z.log2_spec n Hn). lia. }
  rewrite He.
  set (e := Z.log2 n).
  assert (Hl : (0 <= e < 24)%Z).
  { split; [apply Z.log2_nonneg |].
    apply Z.log2_lt_pow2; [exact Hn | exact H1]. }
  assert (Hu : Qpower 2 (e - 23) == 1 / inject_Z (2 ^ (23 - e))).
  { replace (e - 23)%Z with (- (23 - e))%Z by lia.
    rewrite Qpower_opp, Qpower_2_pos by lia.
    unfold Qdiv. ring. }
  assert (Hp : 0 < inject_Z (2 ^ (23 - e))).
  { rewrite <- (Zlt_Qlt 0). apply Z.pow_pos_nonneg; lia. }
  assert (Hq : inject_Z n / Qpower 2 (e - 23) == inject_Z (n * 2 ^ (23 - e))).
  { rewrite Hu, inject_Z_mult. field. lra. }
  assert (Hf : Qfloor (inject_Z n / Qpower 2 (e - 23)) = (n * 2 ^ (23 - e))%Z).
  { rewrite Hq. apply Qfloor_Z. }
  rewrite Hf.
  assert (Hr : inject_Z n / Qpower 2 (e - 23) - inject_Z (n * 2 ^ (23 - e))
               == 0) by (rewrite Hq; ring).
  destruct (Qgtb_spec
              (inject_Z n / Qpower 2 (e - 23) - inject_Z (n * 2 ^ (23 - e)))
              0.5) as [G | G]; [exfalso; lra |].
  destruct (Qeqb_spec
              (inject_Z n / Qpower 2 (e - 23) - inject_Z (n * 2 ^ (23 - e)))
              0.5) as [G' | G']; [exfalso; lra |].
  cbn [orb andb].
  destruct (Qltb_spec (inject_Z n) 0) as [N | N];
    [exfalso; change 0 with (inject_Z 0) in N; rewrite <- Zlt_Qlt in N; lia
    |].
  rewrite Hu, inject_Z_mult. field. lra.
Qed.

(** ** The lock gesture *)

Lemma lock_step_timer (t : Thread) (k : Z) (b : bool) :
  (k = lock_state t /\ b = is_locked t \/
   (-1 <= k <= 8)%Z /\ k <> lock_state t /\
   (k = (lock_state t + 1)%Z \/ k = (-1)%Z) /\
   (b = is_locked t \/
    lock_state t = 8%Z /\ k = (-1)%Z /\ b = negb (is_locked t))) ->
  let t0 := set_is_locked b (set_lock_state k t) in
  lock_step t
    (if negb (lock_state t =? lock_state t0)%Z
     then set_lock_timer (binary32 (inject_Z (tm (vars t) current_time))) t0
     else t0).
Proof.
  intros H. cbv zeta. thread_simpl. unfold lock_step.
  destruct H as [[Hk Hb] | [Hk [Hn [Hs Hb]]]].
  - subst k b. rewrite Z.eqb_refl. cbn [negb]. thread_simpl.
    split; [exact (fun H => H) |].
    split; [left; reflexivity |].
    split; [left; reflexivity | left; split; reflexivity].
  - destruct (Z.eqb_spec (lock_state t) k) as [E | _];
      [contradiction Hn; symmetry; exact E |].
    cbn [negb]. thread_simpl.
    split; [intros _; exact Hk |].
    split; [right; exact Hs |].
    split; [exact Hb |].
    right. split; [exact Hn | reflexivity].
Qed.

Section Lock.

Variable ST2MS_float : Q -> Q.

(** X19.  One call of [check_lock].  The time is measured on [float]
    values: the current tick count converted to a [float], less the lock
    timer.  Within 50 ms of the last step nothing changes.  Otherwise the
    lock state stays within [-1 .. 8], and either stays, advances by one,
    or falls back to [-1]; the lock flag changes only at lock state 8,
    where it is inverted and the lock state returns to [-1]; the lock timer
    is set to the current time, as a [float], exactly when the lock state
    changes. *)
Theorem check_lock_step (t : Thread) :
  let t' := check_lock ST2MS_float t in
  let now := binary32 (inject_Z (tm (vars t) current_time)) in
  (ST2MS_float (binary32 (now - lock_timer t)) < 50 -> t' = t) /\
  ((-1 <= lock_state t <= 8)%Z -> (-1 <= lock_state t' <= 8)%Z) /\
  (lock_state t' = lock_state t \/ lock_state t' = (lock_state t + 1)%Z
   \/ lock_state t' = (-1)%Z) /\
  (is_locked t' = is_locked t \/
   lock_state t = 8%Z /\ lock_state t' = (-1)%Z /\
   is_locked t' = negb (is_locked t)) /\
  (lock_state t' = lock_state t /\ lock_timer t' = lock_timer t \/
   lock_state t' <> lock_state t /\ lock_timer t' = now).
Proof.
  cbv zeta. unfold check_lock. cbv zeta.
  destruct (Qltb_spec
              (ST2MS_float
                 (binary32 (binary32 (inject_Z (tm (vars t) current_time))
                            - lock_timer t))) 50) as [D | D].
  { split; [reflexivity |].
    split; [exact (fun H => H) |].
    split; [left; reflexivity |].
    split; [left; reflexivity | left; split; reflexivity]. }
  split; [intros D'; exfalso; lra |].
  generalize (fl (vars t) adc1 >? BC.fault_adc1 (balance_conf (vars t))).
  generalize (fl (vars t) adc2 >? BC.fault_adc2 (balance_conf (vars t))).
  generalize (is_switch (switch_state (vars t)) ON).
  generalize (is_switch (switch_state (vars t)) OFF).
  intros off on a2 a1.
  match goal with
  | |- context [negb (_ =? lock_state ?t0)%Z] =>
      assert (T : exists k b,
                 t0 = set_is_locked b (set_lock_state k t) /\
                 (k = lock_state t /\ b = is_locked t \/
                  (-1 <= k <= 8)%Z /\ k <> lock_state t /\
                  (k = (lock_state t + 1)%Z \/ k = (-1)%Z) /\
                  (b = is_locked t \/
                   lock_state t = 8%Z /\ k = (-1)%Z /\
                   b = negb (is_locked t))));
      [ | destruct T as [k [b [-> T]]];
          exact (lock_step_timer t k b T) ]
  end.
  assert (Same : t = set_is_locked (is_locked t)
                       (set_lock_state (lock_state t) t))
    by (destruct t; reflexivity).
  repeat match goal with
         | |- context [(lock_state t =? ?c)%Z] =>
             destruct (Z.eqb_spec (lock_state t) c)
         end;
    repeat match goal with
           | |- context [if ?c then _ else _] => destruct c
           end;
    first
      [ exists (lock_state t), (is_locked t);
        split; [exact Same | left; split; reflexivity]
      | eexists; exists (is_locked t);
        split; [reflexivity |]; right;
        split; [lia | split; [lia | split; [lia | left; reflexivity]]]
      | eexists; eexists;
        split; [reflexivity |]; right;
        split; [lia | split; [lia | split; [lia |]]];
        right; split; [assumption | split; reflexivity] ].
Qed.

End Lock.


Section Gesture.

Variable ST2MS : Z -> Z.
Variable SIGN : Q -> Q.
Variable S2ST : Z -> Z.
Variable ST2MS_float : Q -> Q.









End Gesture.

(** ** The brake and its timeout *)

Section Brake.

Variable S2ST : Z -> Z.

(** X21.  The brake and its timeout.  With the timeout disabled and not
    armed, [brake] commands the brake current.  With a timeout configured,
    while the wheel turns (or the timeout is not armed) [brake] arms the
    timeout at the current time plus the configured seconds and commands
    the brake current, provided the sum does not wrap.  At standstill with
    the timeout armed and passed, [brake] makes no call: the motor is
    released. *)
Theorem brake_timeout_logic (t : Thread) :
  let s := vars t in
  let now := tm s current_time in
  let sec := SC.brake_timeout (start_conf t) in
  let braked :=
    [timeout_reset;
     mc_interface_set_brake_current (BC.brake_current (balance_conf s))] in
  ((sec <= 0)%Z -> brake_timeout t = 0%Z ->
   snd (brake S2ST t) = braked /\ brake_timeout (fst (brake S2ST t)) = 0%Z) /\
  ((0 < sec)%Z -> 1 < fl s abs_erpm \/ brake_timeout t = 0%Z ->
   (0 <= now)%Z -> (0 <= S2ST sec)%Z -> (now + S2ST sec < 2 ^ 32)%Z ->
   snd (brake S2ST t) = braked /\
   brake_timeout (fst (brake S2ST t)) = (now + S2ST sec)%Z) /\
  (fl s abs_erpm <= 1 -> brake_timeout t <> 0%Z ->
   (brake_timeout t < now)%Z ->
   snd (brake S2ST t) = [] /\
   brake_timeout (fst (brake S2ST t)) = brake_timeout t).
Proof.
  cbv zeta. unfold brake. cbv zeta.
  split; [ | split].
  - intros H1 H2.
    rewrite (Zgtb_false _ _ H1). cbn [andb]. rewrite H2.
    cbn [Z.eqb negb andb fst snd]. split; [reflexivity | exact H2].
  - intros H1 H2 H3 H4 H5.
    rewrite (Zgtb_true _ _ H1). cbn [andb].
    assert (B : (fl (vars t) abs_erpm >? 1)
                || (brake_timeout t =? 0)%Z = true).
    { destruct H2 as [H2 | H2].
      - rewrite (Qgtb_true _ _ H2). reflexivity.
      - rewrite H2. apply orb_true_r. }
    rewrite B. thread_simpl. unfold st_add.
    rewrite Z.mod_small by lia.
    rewrite (Zgtb_false (tm (vars t) current_time)
               (tm (vars t) current_time
                + S2ST (SC.brake_timeout (start_conf t)))) by lia.
    rewrite andb_false_r. cbn [fst snd]. thread_simpl.
    split; reflexivity.
  - intros H1 H2 H3.
    rewrite (Qgtb_false _ _ H1).
    assert (E : (brake_timeout t =? 0)%Z = false)
      by (apply Z.eqb_neq; exact H2).
    rewrite E. cbn [orb]. rewrite andb_false_r. rewrite E.
    cbn [negb andb]. rewrite (Zgtb_true _ _ H3). cbn [fst snd].
    split; reflexivity.
Qed.

End Brake.

(** ** The biquad filter at constant input *)


Section BiquadProperties.

Variable tanf : Q -> Q.
Variable M_PI : Q.

Lemma checked_div_some (x y q : Q) :
  checked_div x y = Some q -> ~ y == 0 /\ q = x / y.
Proof.
  unfold checked_div. destruct (Qeqb_spec y 0) as [E | N]; intros H.
  - discriminate H.
  - apply some_eq in H. split; [exact N | symmetry; exact H].
Qed.

(** X22.  A low-pass configured by [biquad_config] has unit gain at
    constant input: its coefficients satisfy [a0 + a1 + a2 = 1 + b1 + b2],
    the delay registers are kept by the configuration, and with the
    registers at their steady values for a constant input [c],
    [biquad_process] returns [c] and leaves the registers as they are. *)
Theorem biquad_lowpass_passes_constant (b b' : Biquad) (Fc c : Q) :
  biquad_config tanf M_PI b BQ_LOWPASS Fc = Some b' ->
  a0 b' + a1 b' + a2 b' == 1 + b1 b' + b2 b' /\
  z1 b' = z1 b /\ z2 b' = z2 b /\
  let steady := with_registers (c * (1 - a0 b')) (c * (a2 b' - b2 b')) b' in
  snd (biquad_process steady c) == c /\
  z1 (fst (biquad_process steady c)) == z1 steady /\
  z2 (fst (biquad_process steady c)) == z2 steady.
Proof.
  intros E. unfold biquad_config in E. cbv zeta in E.
  destruct (checked_div 1 _) as [norm | ] eqn:Dv; [ | discriminate E].
  apply checked_div_some in Dv. destruct Dv as [Nz En].
  apply some_eq in E. subst b'.
  assert (N : (1 + tanf (M_PI * Fc) / 0.5
               + tanf (M_PI * Fc) * tanf (M_PI * Fc)) * norm == 1)
    by (rewrite En; apply Qmult_div_r; exact Nz).
  clear En Nz.
  generalize dependent (tanf (M_PI * Fc) / 0.5). intros h N.
  generalize dependent (tanf (M_PI * Fc)). intros K N.
  assert (D : K * K * norm + 2 * (K * K * norm) + K * K * norm
              == 1 + 2 * (K * K - 1) * norm + (1 - h + K * K) * norm)
    by nra.
  unfold biquad_process, with_registers. cbv zeta.
  cbn [a0 a1 a2 b1 b2 z1 z2 fst snd].
  split; [exact D |].
  split; [reflexivity | split; [reflexivity |]].
  assert (Z : c * (K * K * norm + 2 * (K * K * norm) + K * K * norm)
              == c * (1 + 2 * (K * K - 1) * norm + (1 - h + K * K) * norm))
    by (rewrite D; reflexivity).
  split; [ring |].
  split; [ | ring].
  apply (Qplus_inj_r _ _ (c * (K * K * norm + 2 * (K * K * norm)
                                + K * K * norm))).
  rewrite Z at 1. ring.
Qed.

(** X23.  A high-pass configured by [biquad_config] blocks a constant
    input: its coefficients satisfy [a0 + a1 + a2 = 0], the delay registers
    are kept by the configuration, and with the registers at their steady
    values for a constant input [c], [biquad_process] returns 0 and leaves
    the registers as they are. *)
Theorem biquad_highpass_blocks_constant (b b' : Biquad) (Fc c : Q) :
  biquad_config tanf M_PI b BQ_HIGHPASS Fc = Some b' ->
  a0 b' + a1 b' + a2 b' == 0 /\
  z1 b' = z1 b /\ z2 b' = z2 b /\
  let steady := with_registers (- c * a0 b') (c * a2 b') b' in
  snd (biquad_process steady c) == 0 /\
  z1 (fst (biquad_process steady c)) == z1 steady /\
  z2 (fst (biquad_process steady c)) == z2 steady.
Proof.
  intros E. unfold biquad_config in E. cbv zeta in E.
  destruct (checked_div 1 _) as [norm | ]; [ | discriminate E].
  apply some_eq in E. subst b'.
  generalize (tanf (M_PI * Fc) / 0.5). intros h.
  generalize (tanf (M_PI * Fc)). intros K.
  unfold biquad_process, with_registers. cbv zeta.
  cbn [a0 a1 a2 b1 b2 z1 z2 fst snd].
  split; [ring |].
  split; [reflexivity | split; [reflexivity |]].
  split; [ring |].
  split; ring.
Qed.

End BiquadProperties.

Lemma fault_iteration_start_conditions_witness :
  is_fault (state (vars t_waiting)) = true /\
  state (vars t_waiting) <> FAULT_DUTY /\
  match balance_thread_iteration ST2MS_10kHz SIGN_macro S2ST_10kHz
          ST2MS_float_10kHz (ready_platform (at_rest 1)) t_waiting with
  | Some (t', calls) =>
      is_locked t' = false /\
      fabsf (imu_get_pitch (sensors (ready_platform (at_rest 1))))
      < SC.startup_pitch_tolerance (start_conf t_waiting) /\
      fabsf (imu_get_roll (sensors (ready_platform (at_rest 1))))
      < SC.startup_roll_tolerance (start_conf t_waiting) /\
      fst (check_adcs (sensors (ready_platform (at_rest 1)))
             (vars t_waiting)) = ON ->
      state (vars t') = RUNNING
  | None => False
  end.
Proof.
  assert (H1 : is_fault (state (vars t_waiting)) = true)
    by (vm_compute; reflexivity).
  assert (H2 : state (vars t_waiting) <> FAULT_DUTY)
    by (vm_compute; discriminate).
  split; [exact H1 | split; [exact H2 |]].
  assert (Hc : match balance_thread_iteration ST2MS_10kHz SIGN_macro
                       S2ST_10kHz ST2MS_float_10kHz
                       (ready_platform (at_rest 1)) t_waiting with
               | Some _ => True
               | None => False
               end) by (vm_compute; exact I).
  pose proof (fault_iteration_start_conditions ST2MS_10kHz SIGN_macro
                S2ST_10kHz ST2MS_float_10kHz (ready_platform (at_rest 1))
                t_waiting) as T.
  destruct (balance_thread_iteration ST2MS_10kHz SIGN_macro S2ST_10kHz
              ST2MS_float_10kHz (ready_platform (at_rest 1)) t_waiting)
    as [[t' calls] | ]; [ | exact Hc].
  intros R. exact (proj1 (proj1 (T t' calls H1 H2 eq_refl) R)).
Defined.

Lemma duty_fault_needs_another_fault_witness :
  state (vars t_duty_fault) = FAULT_DUTY /\
  match balance_thread_iteration ST2MS_10kHz SIGN_macro S2ST_10kHz
          ST2MS_float_10kHz (ready_platform (at_rest 1)) t_duty_fault with
  | Some (t', calls) => is_check_fault (state (vars t')) = true
  | None => False
  end.
Proof.
  assert (H1 : state (vars t_duty_fault) = FAULT_DUTY)
    by (vm_compute; reflexivity).
  split; [exact H1 |].
  assert (Hc : match balance_thread_iteration ST2MS_10kHz SIGN_macro
                       S2ST_10kHz ST2MS_float_10kHz
                       (ready_platform (at_rest 1)) t_duty_fault with
               | Some _ => True
               | None => False
               end) by (vm_compute; exact I).
  pose proof (duty_fault_needs_another_fault ST2MS_10kHz SIGN_macro
                S2ST_10kHz ST2MS_float_10kHz (ready_platform (at_rest 1))
                t_duty_fault) as T.
  destruct (balance_thread_iteration ST2MS_10kHz SIGN_macro S2ST_10kHz
              ST2MS_float_10kHz (ready_platform (at_rest 1)) t_duty_fault)
    as [[t' calls] | ]; [ | exact Hc].
  exact (proj1 (T t' calls H1 eq_refl)).
Defined.



Lemma biquad_lowpass_passes_constant_witness :
  match biquad_config tanf_series 3.1416
          (torquetilt_current_biquad power_on) BQ_LOWPASS 0.01 with
  | Some b' => a0 b' + a1 b' + a2 b' == 1 + b1 b' + b2 b'
  | None => False
  end.
Proof.
  assert (Hc : match biquad_config tanf_series 3.1416
                       (torquetilt_current_biquad power_on) BQ_LOWPASS
                       0.01 with
               | Some _ => True
               | None => False
               end) by (vm_compute; exact I).
  pose proof (fun b' =>
                biquad_lowpass_passes_constant tanf_series 3.1416
                  (torquetilt_current_biquad power_on) b' 0.01 1) as T.
  destruct (biquad_config tanf_series 3.1416
              (torquetilt_current_biquad power_on) BQ_LOWPASS 0.01)
    as [b' | ]; [ | exact Hc].
  exact (proj1 (T b' eq_refl)).
Defined.

Lemma biquad_highpass_blocks_constant_witness :
  match biquad_config tanf_series 3.1416
          (torquetilt_current_biquad power_on) BQ_HIGHPASS 0.01 with
  | Some b' => a0 b' + a1 b' + a2 b' == 0
  | None => False
  end.
Proof.
  assert (Hc : match biquad_config tanf_series 3.1416
                       (torquetilt_current_biquad power_on) BQ_HIGHPASS
                       0.01 with
               | Some _ => True
               | None => False
               end) by (vm_compute; exact I).
  pose proof (fun b' =>
                biquad_highpass_blocks_constant tanf_series 3.1416
                  (torquetilt_current_biquad power_on) b' 0.01 1) as T.
  destruct (biquad_config tanf_series 3.1416
              (torquetilt_current_biquad power_on) BQ_HIGHPASS 0.01)
    as [b' | ]; [ | exact Hc].
  exact (proj1 (T b' eq_refl)).
Defined.

(** ** The current that is requested from the motor *)

Lemma saturate_output_range (s : State) :
  fl s mc_current_min + 3 <= fl s mc_current_max ->
  fl s mc_current_min <= fl (saturate_output s) pid_value /\
  fl (saturate_output s) pid_value <= fl s mc_current_max.
Proof.
  intros H. unfold saturate_output. cbv zeta.
  destruct (Qgtb_spec (fl s pid_value) (fl s mc_current_max)) as [H1 | H1];
    [| destruct (Qltb_spec (fl s pid_value) (fl s mc_current_min))
         as [H2 | H2]; [| destruct (bl s current_limiting)]];
    upd_simpl; split; lra.
Qed.

(** The start click: the counter runs down to zero, and the click current is
    added or subtracted while it does. *)
Lemma command_current_click (s : State) :
  let s' := command_current s in
  let click := inject_Z (nt s click_current) in
  fl s' pid_value = fl s pid_value /\
  (nt s start_counter_clicks = 0%Z ->
   fl s' requested_current = fl s pid_value /\
   nt s' start_counter_clicks = 0%Z) /\
  (nt s start_counter_clicks <> 0%Z ->
   (fl s' requested_current = fl s pid_value - click
    \/ fl s' requested_current = fl s pid_value + click) /\
   nt s' start_counter_clicks = (nt s start_counter_clicks - 1)%Z).
Proof.
  cbv zeta. unfold command_current. cbv zeta.
  destruct (Z.eqb_spec (nt s start_counter_clicks) 0) as [E | N];
    cbn [negb]; upd_simpl.
  - split; [reflexivity |].
    split; [intros _; split; [reflexivity | exact E] |].
    intros N. contradiction.
  - destruct (_ || _); upd_simpl;
      (split; [reflexivity |]);
      (split; [intros E; contradiction |]);
      intros _; (split; [ | reflexivity]);
      [left | right]; reflexivity.
Qed.

Section RequestedCurrent.

Variable ST2MS : Z -> Z.
Variable SIGN : Q -> Q.

(** X24.  The output step of a running iteration.  With the motor current
    limits at least 3 A apart, an iteration that ends in a running state
    leaves [pid_value] within [mc_current_min .. mc_current_max].  With no
    start click pending the current handed to [set_current] is [pid_value];
    with clicks pending the counter is decremented and the click current is
    subtracted from or added to [pid_value]. *)
Theorem running_tick_requested_current (h : Hardware) (s s' : State) :
  fl s mc_current_min + 3 <= fl s mc_current_max ->
  running_tick ST2MS SIGN h s = Some s' ->
  is_running (state s') = true ->
  let click := inject_Z (nt s click_current) in
  (fl s mc_current_min <= fl s' pid_value
   /\ fl s' pid_value <= fl s mc_current_max) /\
  (nt s start_counter_clicks = 0%Z ->
   fl s' requested_current = fl s' pid_value /\
   nt s' start_counter_clicks = 0%Z) /\
  (nt s start_counter_clicks <> 0%Z ->
   (fl s' requested_current = fl s' pid_value - click
    \/ fl s' requested_current = fl s' pid_value + click) /\
   nt s' start_counter_clicks = (nt s start_counter_clicks - 1)%Z).
Proof.
  intros Hl E R. cbv zeta.
  rewrite running_tick_eq in E.
  pose proof (read_inputs_footprint SIGN h s) as P1.
  generalize dependent (read_inputs SIGN h s). intros s0 E P1.
  rewrite running_branch_eq in E.
  pose proof (check_faults_footprint ST2MS false s0) as P2.
  destruct (check_faults_outcome ST2MS false s0) as [Ot _].
  destruct (call (check_faults ST2MS false) s0) as [faulted s1].
  cbn [fst snd] in Ot, P2. destruct faulted.
  { apply some_eq in E. subst s'. exfalso.
    specialize (Ot eq_refl). destruct (state s1); discriminate. }
  pose proof (shape_setpoint_footprint ST2MS h s1) as P3.
  generalize dependent (shape_setpoint ST2MS h s1). intros s2 E P3.
  pose proof (apply_tilts_footprint SIGN s2) as P4.
  destruct (apply_tilts SIGN s2) as [s3 | ]; [ | discriminate E].
  cbn [preserved_opt] in P4.
  apply some_eq in E. subst s'. unfold pid_block. cbv zeta.
  pose proof (pid_terms_footprint s3) as P5.
  pose proof (pid_gains_footprint (pid_terms s3)) as P6.
  pose proof (pid_output_footprint SIGN (pid_gains (pid_terms s3))) as P7.
  pose proof (preserved_union _ _ _ _ _ P1
                (preserved_union _ _ _ _ _ P2
                   (preserved_union _ _ _ _ _ P3
                      (preserved_union _ _ _ _ _ P4
                         (preserved_union _ _ _ _ _ P5
                            (preserved_union _ _ _ _ _ P6 P7)))))) as P.
  clear P1 P2 P3 P4 P5 P6 P7 Ot R.
  generalize dependent (pid_output SIGN (pid_gains (pid_terms s3))).
  intros s4 P.
  pose proof (pres_fl _ _ _ P mc_current_min eq_refl) as Lmin.
  pose proof (pres_fl _ _ _ P mc_current_max eq_refl) as Lmax.
  pose proof (pres_nt _ _ _ P click_current eq_refl) as Lc.
  pose proof (pres_nt _ _ _ P start_counter_clicks eq_refl) as Ln.
  pose proof (saturate_output_footprint s4) as P8.
  pose proof (pres_nt _ _ _ P8 click_current eq_refl) as Sc.
  pose proof (pres_nt _ _ _ P8 start_counter_clicks eq_refl) as Sn.
  destruct (saturate_output_range s4) as [R1 R2];
    [rewrite Lmin, Lmax; exact Hl |].
  rewrite Lmin in R1. rewrite Lmax in R2.
  destruct (command_current_click (saturate_output s4)) as [C1 [C2 C3]].
  cbv zeta in C2, C3. rewrite Sc, Lc in C3. rewrite Sn, Ln in C2, C3.
  rewrite C1.
  split; [split; [exact R1 | exact R2] |].
  split; [exact C2 | exact C3].
Qed.

End RequestedCurrent.

Lemma running_tick_requested_current_witness :
  fl s_engaging mc_current_min + 3 <= fl s_engaging mc_current_max /\
  match running_tick ST2MS_10kHz SIGN_macro (at_rest 1) s_engaging with
  | Some s' =>
      is_running (state s') = true /\
      fl s_engaging mc_current_min <= fl s' pid_value /\
      fl s' pid_value <= fl s_engaging mc_current_max
  | None => False
  end.
Proof.
  assert (H : fl s_engaging mc_current_min + 3
              <= fl s_engaging mc_current_max)
    by (vm_compute; discriminate).
  split; [exact H |].
  assert (Hc : match running_tick ST2MS_10kHz SIGN_macro (at_rest 1)
                       s_engaging with
               | Some s' => is_running (state s') = true
               | None => False
               end) by (vm_compute; reflexivity).
  pose proof (running_tick_requested_current ST2MS_10kHz SIGN_macro
                (at_rest 1) s_engaging) as T.
  destruct (running_tick ST2MS_10kHz SIGN_macro (at_rest 1) s_engaging)
    as [s' | ]; [ | exact Hc].
  split; [exact Hc |].
  exact (proj1 (T s' H eq_refl Hc)).
Defined.

(** ** The filters of the PID terms *)

Lemma dt_filter_freq_range (f : Q) :
  1 <= dt_filter_freq f /\ dt_filter_freq f <= 30 /\
  (1 <= f -> f <= 30 -> dt_filter_freq f = f) /\
  (f < 1 \/ 30 < f -> dt_filter_freq f = 10).
Proof.
  unfold dt_filter_freq. cbv zeta.
  destruct (Qgeb_spec f 1) as [A | A].
  - destruct (Qgtb_spec f 30) as [B | B].
    + split; [discriminate | split; [discriminate |]].
      split; [intros; lra | intros _; reflexivity].
    + split; [exact A | split; [exact B |]].
      split; [reflexivity | intros [C | C]; lra].
  - change (10 >? 30) with false. cbv iota.
    split; [discriminate | split; [discriminate |]].
    split; [intros; lra | intros _; reflexivity].
Qed.

Lemma M_PI_positive : 0 < M_PI.
Proof. reflexivity. Qed.

(** The constant that [app_balance_configure] leaves in [d_pt1_lowpass_k]. *)
Lemma app_balance_configure_d_pt1_value (conf : balance_config)
    (mc : mc_configuration) (s : State) :
  fl (app_balance_configure conf mc s) d_pt1_lowpass_k
  = 1 / BC.hertz conf
    / (1 / (2 * M_PI * dt_filter_freq (BC.kd_pt1_lowpass_frequency conf))
       + 1 / BC.hertz conf).
Proof.
  unfold app_balance_configure. cbv zeta. skip_parts.
  unfold configure_d_pt1. cbv zeta. upd_simpl. skip_parts.
  reflexivity.
Qed.

(** X25.  The constant of the PT1 low-pass of the D term.  With a positive
    loop rate [hertz], [app_balance_configure] sets [d_pt1_lowpass_k] to
    [w / (hertz + w)] with [w = 2 pi f], where [f] is the configured
    [kd_pt1_lowpass_frequency] when that is within 1..30 and 10 otherwise;
    the constant lies strictly between 0 and 1. *)
Theorem app_balance_configure_d_pt1 (conf : balance_config)
    (mc : mc_configuration) (s : State) :
  0 < BC.hertz conf ->
  let k := fl (app_balance_configure conf mc s) d_pt1_lowpass_k in
  let f := BC.kd_pt1_lowpass_frequency conf in
  (1 <= f -> f <= 30 ->
   k == 2 * M_PI * f / (BC.hertz conf + 2 * M_PI * f)) /\
  (f < 1 \/ 30 < f ->
   k == 2 * M_PI * 10 / (BC.hertz conf + 2 * M_PI * 10)) /\
  0 < k /\ k < 1.
Proof.
  intros Hh. cbv zeta. rewrite app_balance_configure_d_pt1_value.
  destruct (dt_filter_freq_range (BC.kd_pt1_lowpass_frequency conf))
    as [F1 [F2 [F3 F4]]].
  pose proof M_PI_positive as Hp.
  assert (G : forall g hz : Q,
            0 < hz -> 1 <= g ->
            1 / hz / (1 / (2 * M_PI * g) + 1 / hz)
            == 2 * M_PI * g / (hz + 2 * M_PI * g) /\
            0 < 1 / hz / (1 / (2 * M_PI * g) + 1 / hz) /\
            1 / hz / (1 / (2 * M_PI * g) + 1 / hz) < 1).
  { intros g hz Hz Hg. generalize dependent M_PI. intros pi Hp.
    assert (Hw : 0 < 2 * pi * g) by nra.
    generalize dependent (2 * pi * g). intros w Hw.
    assert (E : 1 / hz / (1 / w + 1 / hz) == w / (hz + w)).
    { field. repeat split; lra. }
    rewrite E. split; [reflexivity |].
    split.
    - apply Qlt_shift_div_l; lra.
    - apply Qlt_shift_div_r; lra. }
  split; [ | split].
  - intros A B. rewrite (F3 A B). apply G; assumption.
  - intros A. rewrite (F4 A). apply G; [exact Hh | discriminate].
  - apply G; assumption.
Qed.

Lemma app_balance_configure_d_pt1_witness :
  0 < BC.hertz sample_conf /\
  0 < fl configured d_pt1_lowpass_k /\ fl configured d_pt1_lowpass_k < 1.
Proof.
  assert (H : 0 < BC.hertz sample_conf) by (vm_compute; reflexivity).
  split; [exact H |].
  exact (proj2 (proj2 (app_balance_configure_d_pt1 sample_conf sample_mc
                         power_on H))).
Defined.

(** X26.  The PID terms of a running iteration.  The proportional term is
    [setpoint - pitch_angle].  The derivative is the PT1 filter state: with
    the filter constant within [0 .. 1] it lies between the pitch change of
    this iteration and the previous filter state.  With both torque tilt
    impacts within [0 .. 1] the integral grows by the proportional term less
    a share between 0 and 1 of the torque tilt offset. *)
Theorem pid_terms_filters (s : State) :
  0 <= fl s d_pt1_lowpass_k -> fl s d_pt1_lowpass_k <= 1 ->
  0 <= fl s integral_tt_impact_uphill ->
  fl s integral_tt_impact_uphill <= 1 ->
  0 <= fl s integral_tt_impact_downhill ->
  fl s integral_tt_impact_downhill <= 1 ->
  let s' := pid_terms s in
  let raw := fl s last_pitch_angle - fl s pitch_angle in
  fl s' proportional = fl s setpoint - fl s pitch_angle /\
  fl s' derivative = fl s' d_pt1_lowpass_state /\
  Qmin raw (fl s d_pt1_lowpass_state) <= fl s' derivative /\
  fl s' derivative <= Qmax raw (fl s d_pt1_lowpass_state) /\
  exists share : Q,
    0 <= share /\ share <= 1 /\
    fl s' integral
    == fl s integral + fl s' proportional
       - share * fl s torquetilt_interpolated.
Proof.
  intros K0 K1 U0 U1 D0 D1. cbv zeta. unfold pid_terms. cbv zeta. upd_simpl.
  split; [reflexivity |].
  split; [reflexivity |].
  assert (F : Qmin (fl s last_pitch_angle - fl s pitch_angle)
                (fl s d_pt1_lowpass_state)
              <= fl s d_pt1_lowpass_state
                 + fl s d_pt1_lowpass_k
                   * (fl s last_pitch_angle - fl s pitch_angle
                      - fl s d_pt1_lowpass_state) /\
              fl s d_pt1_lowpass_state
              + fl s d_pt1_lowpass_k
                * (fl s last_pitch_angle - fl s pitch_angle
                   - fl s d_pt1_lowpass_state)
              <= Qmax (fl s last_pitch_angle - fl s pitch_angle)
                   (fl s d_pt1_lowpass_state)).
  { generalize dependent (fl s d_pt1_lowpass_k). intros k K0 K1.
    generalize (fl s last_pitch_angle - fl s pitch_angle). intros r.
    generalize (fl s d_pt1_lowpass_state). intros d.
    destruct (Qmin_cases r d) as [[? E1] | [? E1]];
      destruct (Qmax_cases r d) as [[? E2] | [? E2]];
      rewrite E1, E2; split; nra. }
  split; [exact (proj1 F) | split; [exact (proj2 F) |]].
  clear F K0 K1.
  destruct (fl s torquetilt_interpolated <? 0).
  - exists (fl s integral_tt_impact_downhill).
    split; [exact D0 | split; [exact D1 | ring]].
  - destruct (Qltb_spec (fl s abs_erpm) 2500) as [A | A].
    + exists (1 - (1 - fl s integral_tt_impact_uphill)
                  * fmaxf 0.3 (fl s abs_erpm / 2500)).
      assert (S : 0.3 <= fmaxf 0.3 (fl s abs_erpm / 2500) /\
                  fmaxf 0.3 (fl s abs_erpm / 2500) <= 1).
      { unfold fmaxf.
        assert (Q1 : fl s abs_erpm / 2500 <= 1)
          by (apply Qle_shift_div_r; [reflexivity | lra]).
        destruct (Qmax_cases 0.3 (fl s abs_erpm / 2500))
          as [[? E] | [? E]]; rewrite E; split; lra. }
      destruct S as [S1 S2].
      generalize dependent (fmaxf 0.3 (fl s abs_erpm / 2500)).
      intros sc S1 S2.
      generalize dependent (fl s integral_tt_impact_uphill). intros u U0 U1.
      split; [nra | split; [nra | ring]].
    + exists (fl s integral_tt_impact_uphill).
      split; [exact U0 | split; [exact U1 | ring]].
Qed.

Lemma pid_terms_filters_witness :
  (0 <= fl s_cruising d_pt1_lowpass_k /\
   fl s_cruising d_pt1_lowpass_k <= 1 /\
   0 <= fl s_cruising integral_tt_impact_uphill /\
   fl s_cruising integral_tt_impact_uphill <= 1 /\
   0 <= fl s_cruising integral_tt_impact_downhill /\
   fl s_cruising integral_tt_impact_downhill <= 1) /\
  fl (pid_terms s_cruising) derivative
  = fl (pid_terms s_cruising) d_pt1_lowpass_state.
Proof.
  assert (H1 : 0 <= fl s_cruising d_pt1_lowpass_k)
    by (vm_compute; discriminate).
  assert (H2 : fl s_cruising d_pt1_lowpass_k <= 1)
    by (vm_compute; discriminate).
  assert (H3 : 0 <= fl s_cruising integral_tt_impact_uphill)
    by (vm_compute; discriminate).
  assert (H4 : fl s_cruising integral_tt_impact_uphill <= 1)
    by (vm_compute; discriminate).
  assert (H5 : 0 <= fl s_cruising integral_tt_impact_downhill)
    by (vm_compute; discriminate).
  assert (H6 : fl s_cruising integral_tt_impact_downhill <= 1)
    by (vm_compute; discriminate).
  split; [exact (conj H1 (conj H2 (conj H3 (conj H4 (conj H5 H6))))) |].
  exact (proj1 (proj2 (pid_terms_filters s_cruising H1 H2 H3 H4 H5 H6))).
Defined.

(** ** The setpoint target at normal voltage *)

Section SetpointTargetNormal.

Variable ST2MS : Z -> Z.

(** X27.  The setpoint target outside centering and reverse stop, with the
    duty cycle and the input voltage within their tiltback thresholds.  A FET
    temperature more than one degree above [mc_max_temp_fet] selects state
    [RUNNING_TILTBACK_LOW_VOLTAGE] with mode [TILTBACK_HV] and the low
    voltage tiltback angle, signed by the direction of travel; within that
    degree the state is [RUNNING], the mode [TILTBACK_NONE] and the target is
    kept.  At or below [mc_max_temp_fet] the target is 0 and the state
    [RUNNING]; moving backwards with reverse stop enabled starts reverse stop
    (total zero, timer at the current time), otherwise the mode is
    [TILTBACK_NONE]. *)
Theorem calculate_setpoint_target_temperature (h : Hardware) (s : State) :
  is_mode (setpointAdjustmentType s) CENTERING = false ->
  is_mode (setpointAdjustmentType s) REVERSESTOP = false ->
  fl s abs_duty_cycle <= BC.tiltback_duty (balance_conf s) ->
  BC.tiltback_lv (balance_conf s) <= GET_INPUT_VOLTAGE h ->
  GET_INPUT_VOLTAGE h <= BC.tiltback_hv (balance_conf s) ->
  let conf := balance_conf s in
  let temp := mc_interface_temp_fet_filtered h in
  let s' := calculate_setpoint_target ST2MS h s in
  (fl s mc_max_temp_fet + 1 < temp ->
   state s' = RUNNING_TILTBACK_LOW_VOLTAGE /\
   setpointAdjustmentType s' = TILTBACK_HV /\
   fl s' setpoint_target
   = (if fl s erpm >? 0 then BC.tiltback_lv_angle conf
      else - BC.tiltback_lv_angle conf)) /\
  (fl s mc_max_temp_fet < temp -> temp <= fl s mc_max_temp_fet + 1 ->
   state s' = RUNNING /\ setpointAdjustmentType s' = TILTBACK_NONE /\
   fl s' setpoint_target = fl s setpoint_target) /\
  (temp <= fl s mc_max_temp_fet ->
   state s' = RUNNING /\ fl s' setpoint_target = 0 /\
   (bl s use_reverse_stop = true -> fl s erpm < 0 ->
    setpointAdjustmentType s' = REVERSESTOP /\
    fl s' reverse_total_erpm = 0 /\
    tm s' reverse_timer = tm s current_time) /\
   (bl s use_reverse_stop = false \/ 0 <= fl s erpm ->
    setpointAdjustmentType s' = TILTBACK_NONE)).
Proof.
  intros H1 H2 Hd Hl Hh. cbv zeta.
  unfold calculate_setpoint_target. cbv zeta.
  destruct (GET_INPUT_VOLTAGE h <? BC.tiltback_hv (balance_conf s));
    upd_simpl; rewrite H1, H2, (Qgtb_false _ _ Hd), (Qgtb_false _ _ Hh),
                       (Qltb_false _ _ Hl);
    (split; [ | split]).
  1, 4: intros T;
    rewrite (Qgtb_true (mc_interface_temp_fet_filtered h)
               (fl s mc_max_temp_fet)) by lra;
    rewrite (Qgtb_true _ _ T);
    destruct (fl s erpm >? 0); upd_simpl;
    (split; [reflexivity | split; reflexivity]).
  1, 3: intros T1 T2; rewrite (Qgtb_true _ _ T1), (Qgtb_false _ _ T2);
    upd_simpl; (split; [reflexivity | split; reflexivity]).
  all: intros T; rewrite (Qgtb_false _ _ T);
    destruct (bl s use_reverse_stop);
    destruct (Qltb_spec (fl s erpm) 0) as [E | E]; cbn [andb]; upd_simpl;
    (split; [reflexivity | split; [reflexivity | split]]);
    first [ intros A B; first [discriminate A | lra
                               | split; [reflexivity | split; reflexivity]]
          | intros [A | A]; first [discriminate A | lra | reflexivity] ].
Qed.

End SetpointTargetNormal.

Lemma calculate_setpoint_target_temperature_witness :
  fl s_cruising mc_max_temp_fet + 1
  < mc_interface_temp_fet_filtered (overheated 1) /\
  state (calculate_setpoint_target ST2MS_10kHz (overheated 1) s_cruising)
  = RUNNING_TILTBACK_LOW_VOLTAGE /\
  setpointAdjustmentType
    (calculate_setpoint_target ST2MS_10kHz (overheated 1) s_cruising)
  = TILTBACK_HV.
Proof.
  assert (H : fl s_cruising mc_max_temp_fet + 1
              < mc_interface_temp_fet_filtered (overheated 1))
    by (vm_compute; reflexivity).
  split; [exact H |].
  pose proof (proj1 (calculate_setpoint_target_temperature ST2MS_10kHz
                       (overheated 1) s_cruising
                       ltac:(vm_compute; reflexivity)
                       ltac:(vm_compute; reflexivity)
                       ltac:(vm_compute; discriminate)
                       ltac:(vm_compute; discriminate)
                       ltac:(vm_compute; discriminate)) H) as T.
  exact (conj (proj1 T) (proj1 (proj2 T))).
Defined.

(** ** The lock variables across an iteration *)

Section IterationLock.

Variable ST2MS : Z -> Z.
Variable SIGN : Q -> Q.
Variable S2ST : Z -> Z.
Variable ST2MS_float : Q -> Q.

(** [check_lock] keeps the lock state within its range and changes the lock
    flag only from lock state 8. *)
Lemma check_lock_flag (t : Thread) :
  let t' := check_lock ST2MS_float t in
  ((-1 <= lock_state t <= 8)%Z -> (-1 <= lock_state t' <= 8)%Z) /\
  (is_locked t' = is_locked t \/
   lock_state t = 8%Z /\ lock_state t' = (-1)%Z).
Proof.
  cbv zeta. unfold check_lock. cbv zeta.
  destruct (_ <? 50).
  { split; [exact (fun H => H) | left; reflexivity]. }
  generalize (fl (vars t) adc1 >? BC.fault_adc1 (balance_conf (vars t))).
  generalize (fl (vars t) adc2 >? BC.fault_adc2 (balance_conf (vars t))).
  generalize (is_switch (switch_state (vars t)) ON).
  generalize (is_switch (switch_state (vars t)) OFF).
  generalize (inject_Z (tm (vars t) current_time)).
  intros now off on a2 a1.
  match goal with
  | |- context [negb (lock_state t =? lock_state ?t0)%Z] =>
      generalize (negb (lock_state t =? lock_state t0)%Z)
  end.
  intros changed.
  repeat match goal with
         | |- context [(lock_state t =? ?k)%Z] =>
             destruct (Z.eqb_spec (lock_state t) k)
         end;
    destruct a1, a2, on, off, changed; cbn [orb andb]; thread_simpl;
    (split; [intros R; lia
            | first [left; reflexivity
                    | right; split; [assumption | reflexivity]]]).
Qed.

(** The cases of the loop on the lock variables. *)
Lemma startup_case_lock (p : Platform) (t : Thread) :
  lock_state (fst (startup_case S2ST p t)) = lock_state t /\
  is_locked (fst (startup_case S2ST p t)) = is_locked t.
Proof.
  unfold startup_case.
  destruct (brake_keeps S2ST t) as [_ [_ [_ [L [K _]]]]].
  destruct (brake S2ST t) as [t1 calls]. cbn [fst] in L, K.
  destruct (imu_startup_done p), (motor_defaults p);
    cbn [fst]; unfold thread_reset_vars; cbv zeta; thread_simpl;
    try destruct (SC.deadzone (start_conf t1) >? 0);
    cbn [fst]; thread_simpl;
    (split; [exact L | exact K]).
Qed.

Lemma fault_duty_case_lock (t : Thread) :
  lock_state (fst (fault_duty_case ST2MS S2ST t)) = lock_state t /\
  is_locked (fst (fault_duty_case ST2MS S2ST t)) = is_locked t.
Proof.
  unfold fault_duty_case. cbv zeta.
  generalize (snd (call (check_faults ST2MS true) (vars t))). intros s2.
  destruct (brake_keeps S2ST (set_vars s2 t)) as [_ [_ [_ [L [K _]]]]].
  cbn [lock_state is_locked set_vars] in L, K.
  split; [exact L | exact K].
Qed.

Lemma fault_case_lock (t : Thread) :
  let t2 := check_lock ST2MS_float t in
  let t' := fst (fault_case S2ST ST2MS_float t) in
  lock_state t' = lock_state t2 /\ is_locked t' = is_locked t2 /\
  (is_locked t2 = true -> state (vars t') = state (vars t)).
Proof.
  cbv zeta. unfold fault_case. cbv zeta.
  destruct (check_lock_keeps ST2MS_float t) as [V _].
  generalize dependent (check_lock ST2MS_float t). intros t2 V.
  destruct (brake_keeps S2ST t2) as [Vb [_ [_ [L [K _]]]]].
  destruct (is_locked t2) eqn:Hl; cbn [negb andb].
  - cbn [negb andb] in *. rewrite L, K, Vb, V.
    split; [reflexivity | split; [reflexivity | intros _; reflexivity]].
  - destruct (_ && _).
    + cbn [fst]. unfold thread_reset_vars. cbv zeta. thread_simpl.
      split; [reflexivity | split; [exact Hl | intros H; discriminate H]].
    + rewrite L, K.
      split; [reflexivity | split; [reflexivity | intros H; discriminate H]].
Qed.

Lemma running_case_lock (p : Platform) (t t' : Thread)
    (calls : list mc_call) :
  running_case ST2MS SIGN p t = Some (t', calls) ->
  lock_state t' = (-1)%Z /\ is_locked t' = is_locked t.
Proof.
  unfold running_case. cbv zeta. thread_simpl.
  destruct (running_branch ST2MS SIGN (sensors p) (vars t)) as [s |];
    [ | intros E; discriminate E].
  intros E. apply some_eq in E. apply pair_equal_spec in E.
  destruct E as [E _]. subst t'. thread_simpl.
  split; reflexivity.
Qed.

(** X28.  The lock variables across one iteration of the loop.  The lock
    state stays within [-1 .. 8].  An iteration in a running state resets it
    to [-1]; [STARTUP] and [FAULT_DUTY] leave the lock state and the lock flag
    alone.  The lock flag changes only in a fault other than [FAULT_DUTY],
    from lock state 8, which returns to [-1].  An iteration that ends with
    the board locked does not start it: a state that was not running is not
    running afterwards. *)
Theorem iteration_lock_variables (p : Platform) (t t' : Thread)
    (calls : list mc_call) :
  balance_thread_iteration ST2MS SIGN S2ST ST2MS_float p t
  = Some (t', calls) ->
  ((-1 <= lock_state t <= 8)%Z -> (-1 <= lock_state t' <= 8)%Z) /\
  (is_running (state (vars t)) = true ->
   lock_state t' = (-1)%Z /\ is_locked t' = is_locked t) /\
  (state (vars t) = STARTUP \/ state (vars t) = FAULT_DUTY ->
   lock_state t' = lock_state t /\ is_locked t' = is_locked t) /\
  (is_locked t' <> is_locked t ->
   is_fault (state (vars t)) = true /\ state (vars t) <> FAULT_DUTY /\
   lock_state t = 8%Z /\ lock_state t' = (-1)%Z) /\
  (is_locked t' = true -> is_running (state (vars t)) = false ->
   is_running (state (vars t')) = false).
Proof.
  intros E.
  pose proof (pres_state _ _ _
                (read_inputs_footprint SIGN (sensors p) (vars t)) eq_refl)
    as St.
  set (t1 := set_vars (read_inputs SIGN (sensors p) (vars t)) t) in *.
  assert (L1 : lock_state t1 = lock_state t) by reflexivity.
  assert (K1 : is_locked t1 = is_locked t) by reflexivity.
  assert (S1 : state (vars t1) = state (vars t)) by exact St.
  destruct (is_running (state (vars t))) eqn:Hr.
  - (* a running state *)
    rewrite (running_iteration_eq ST2MS SIGN S2ST ST2MS_float p t Hr) in E.
    destruct (running_case_lock p _ t' calls E) as [L K].
    fold t1 in L, K. rewrite K1 in K.
    split; [intros _; rewrite L; lia |].
    split; [intros _; exact (conj L K) |].
    split; [intros [H | H]; rewrite H in Hr; discriminate Hr |].
    split; [intros H; contradiction (H K) | intros _ H; discriminate H].
  - destruct (is_fault (state (vars t))) eqn:Hf.
    + assert (D : state (vars t) = FAULT_DUTY \/ state (vars t) <> FAULT_DUTY)
        by (destruct (state (vars t));
            first [left; reflexivity | right; discriminate]).
      destruct D as [Hd | Hd].
      * (* the duty fault *)
        rewrite (fault_duty_iteration_eq ST2MS SIGN S2ST ST2MS_float p t Hd)
          in E.
        apply some_eq in E. apply (f_equal fst) in E.
        cbn [fst] in E. fold t1 in E.
        destruct (fault_duty_case_lock t1) as [L K].
        destruct (fault_duty_case_spec ST2MS S2ST t1) as [C _];
          [rewrite S1; exact Hd |].
        rewrite E in L, K, C. rewrite L1 in L. rewrite K1 in K.
        split; [intros R; rewrite L; exact R |].
        split; [intros H; discriminate H |].
        split; [intros _; exact (conj L K) |].
        split; [intros H; contradiction (H K) |].
        intros _ _. destruct (state (vars t'));
          first [reflexivity | discriminate C].
      * (* the other faults *)
        rewrite (fault_iteration_eq ST2MS SIGN S2ST ST2MS_float p t Hf Hd)
          in E.
        apply some_eq in E. apply (f_equal fst) in E.
        cbn [fst] in E. fold t1 in E.
        destruct (fault_case_lock t1) as [L [K S]].
        destruct (check_lock_flag t1) as [R F].
        rewrite E in L, K, S. rewrite <- L in R, F.
        rewrite <- K in F, S. rewrite L1 in R, F. rewrite K1 in F.
        rewrite S1 in S.
        split; [exact R |].
        split; [intros H; discriminate H |].
        split; [intros [H | H];
                [rewrite H in Hf; discriminate Hf | contradiction (Hd H)] |].
        split.
        { intros H. destruct F as [F | [F1 F2]]; [contradiction (H F) |].
          exact (conj eq_refl (conj Hd (conj F1 F2))). }
        intros H _. rewrite (S H). exact Hr.
    + (* start-up *)
      assert (Hs : state (vars t) = STARTUP)
        by (destruct (state (vars t)); first [reflexivity | discriminate Hr
                                             | discriminate Hf]).
      rewrite (startup_iteration_eq ST2MS SIGN S2ST ST2MS_float p t Hs) in E.
      apply some_eq in E. apply (f_equal fst) in E.
      cbn [fst] in E. fold t1 in E.
      destruct (startup_case_lock p t1) as [L K].
      destruct (startup_case_spec S2ST p t1) as [C _];
        [rewrite S1; exact Hs |].
      rewrite E in L, K, C. rewrite L1 in L. rewrite K1 in K.
      split; [intros R; rewrite L; exact R |].
      split; [intros H; discriminate H |].
      split; [intros _; exact (conj L K) |].
      split; [intros H; contradiction (H K) |].
      intros _ _. rewrite C. destruct (_ && _); reflexivity.
Qed.

End IterationLock.

Lemma iteration_lock_variables_witness :
  match balance_thread_iteration ST2MS_10kHz SIGN_macro S2ST_10kHz
          ST2MS_float_10kHz (ready_platform (at_rest 1)) t_locked with
  | Some (t', calls) =>
      is_locked t' = true /\ is_running (state (vars t')) = false
  | None => False
  end.
Proof.
  assert (Hc : match balance_thread_iteration ST2MS_10kHz SIGN_macro
                       S2ST_10kHz ST2MS_float_10kHz
                       (ready_platform (at_rest 1)) t_locked with
               | Some (t', _) => is_locked t' = true
               | None => False
               end) by (vm_compute; reflexivity).
  assert (Hr : is_running (state (vars t_locked)) = false)
    by (vm_compute; reflexivity).
  pose proof (iteration_lock_variables ST2MS_10kHz SIGN_macro S2ST_10kHz
                ST2MS_float_10kHz (ready_platform (at_rest 1)) t_locked)
    as T.
  destruct (balance_thread_iteration ST2MS_10kHz SIGN_macro S2ST_10kHz
              ST2MS_float_10kHz (ready_platform (at_rest 1)) t_locked)
    as [[t' calls] | ]; [ | exact Hc].
  split; [exact Hc |].
  exact (proj2 (proj2 (proj2 (proj2 (T t' calls eq_refl)))) Hc Hr).
Defined.
